(** * pi-subagents: the execution engine, embedded and verified

    A shallow embedding of the parts of the subagent extension that the
    specification makes promises about:

    - [ParallelUtils]: parallel-utils.ts ([flattenSteps], [mapConcurrent],
      [aggregateParallelOutputs]);
    - [Runner]: subagent-runner.ts (the detached background runner and the
      files it writes);
    - [Dispatcher]: index.ts (the [execute] entry point of the tool and the
      result-file handler of the background registry);
    - [Management]: agent-management.ts ([sanitizeName], create, update);
    - [DetectError]: the error heuristic exercised by detect-error.test.ts.

    JavaScript values are modelled as the code uses them: strings as
    [string] (the bytes of their UTF-8 encoding, see [JsString]), arrays
    as lists read with stdpp's lookup and written with
    its insert, [number] as an extended rational, a promise as the state
    of the worker that awaits it. *)

From Stdlib Require Import ZArith QArith Qround Lia List Bool Ascii String.
From stdpp Require Import base option list strings gmap.

Open Scope string_scope.
Open Scope nat_scope.

(** ** JavaScript numbers and the few [Math] functions the engine uses *)

Module Js.

(** A [number] is NaN, an infinity or a finite value; every finite
    double is a rational, and [Math.floor], [Math.max] and [Math.min]
    are exact on them. *)
Inductive number : Type :=
| NaN
| PosInf
| NegInf
| Fin (q : Q).

Definition of_nat (n : nat) : number := Fin (inject_Z (Z.of_nat n)).
Definition of_Z (z : Z) : number := Fin (inject_Z z).

Definition Math_floor (x : number) : number :=
  match x with
  | Fin q => Fin (inject_Z (Qfloor q))
  | other => other
  end.

(** ToBoolean on numbers: NaN and zero are falsy. *)
Definition truthy (x : number) : bool :=
  match x with
  | NaN => false
  | Fin q => negb (Qeq_bool q 0)
  | _ => true
  end.

(** [a || b] *)
Definition or_else (a b : number) : number := if truthy a then a else b.

Definition Math_max (a b : number) : number :=
  match a, b with
  | NaN, _ | _, NaN => NaN
  | PosInf, _ | _, PosInf => PosInf
  | NegInf, y => y
  | x, NegInf => x
  | Fin p, Fin q => if Qle_bool p q then Fin q else Fin p
  end.

Definition Math_min (a b : number) : number :=
  match a, b with
  | NaN, _ | _, NaN => NaN
  | NegInf, _ | _, NegInf => NegInf
  | PosInf, y => y
  | x, PosInf => x
  | Fin p, Fin q => if Qle_bool p q then Fin p else Fin q
  end.

(** ToLength, as [Array.from({ length })] applies it: NaN and negative
    values give 0, finite values are truncated.  (An infinite length is
    clamped to 2^53-1 by the language; the engine never asks for one.) *)
Definition to_length (x : number) : nat :=
  match x with
  | Fin q => Z.to_nat (Qfloor q)
  | _ => 0
  end.

(** [x <= y] on numbers; every comparison with NaN is false. *)
Definition le (x y : number) : Prop :=
  match x, y with
  | NaN, _ | _, NaN => False
  | NegInf, _ | _, PosInf => True
  | PosInf, _ | _, NegInf => False
  | Fin p, Fin q => (p <= q)%Q
  end.

Definition lt (x y : number) : Prop :=
  match x, y with
  | NaN, _ | _, NaN => False
  | PosInf, _ | _, NegInf => False
  | NegInf, _ | _, PosInf => True
  | Fin p, Fin q => (p < q)%Q
  end.

End Js.

(** ** Strings: the [String.prototype] methods the engine calls

    A string of the program is a sequence of UTF-16 code units.  It is
    held here as the bytes of its UTF-8 encoding, as the source files
    hold their literals (a lone surrogate as the three bytes of its
    generalised encoding).  A character of the Basic Multilingual Plane
    is one code unit and one to three bytes; any other character is two
    code units and four bytes.  No byte of a character of two or more
    bytes is below 128, and the first byte of a character is never of
    the form of a later one, so a search for the bytes of a character
    finds that character and nothing else. *)

Module JsString.

(** White space as [\s] and [trim] see it (WhiteSpace and
    LineTerminator of ECMAScript).  In one byte: U+0009 to U+000D and
    U+0020. *)
Definition is_space (c : ascii) : bool :=
  let n := nat_of_ascii c in
  ((9 <=? n) && (n <=? 13)) || (n =? 32).

(** In two bytes: U+00A0 (c2 a0). *)
Definition is_space2 (c1 c2 : ascii) : bool :=
  (nat_of_ascii c1 =? 194) && (nat_of_ascii c2 =? 160).

(** In three bytes: U+1680 (e1 9a 80), U+2000 to U+200A (e2 80 80 to
    e2 80 8a), U+2028 and U+2029 (e2 80 a8, e2 80 a9), U+202F
    (e2 80 af), U+205F (e2 81 9f), U+3000 (e3 80 80) and U+FEFF
    (ef bb bf). *)
Definition is_space3 (c1 c2 c3 : ascii) : bool :=
  let n1 := nat_of_ascii c1 in
  let n2 := nat_of_ascii c2 in
  let n3 := nat_of_ascii c3 in
  ((n1 =? 225) && (n2 =? 154) && (n3 =? 128))
  || ((n1 =? 226) && (n2 =? 128)
      && (((128 <=? n3) && (n3 <=? 138)) || (n3 =? 168) || (n3 =? 169) || (n3 =? 175)))
  || ((n1 =? 226) && (n2 =? 129) && (n3 =? 159))
  || ((n1 =? 227) && (n2 =? 128) && (n3 =? 128))
  || ((n1 =? 239) && (n2 =? 187) && (n3 =? 191)).

(** What follows the white-space character that [s] begins with, if it
    begins with one. *)
Definition space_rest (s : string) : option string :=
  match s with
  | EmptyString => None
  | String c1 r1 =>
      if is_space c1 then Some r1
      else match r1 with
           | EmptyString => None
           | String c2 r2 =>
               if is_space2 c1 c2 then Some r2
               else match r2 with
                    | EmptyString => None
                    | String c3 r3 => if is_space3 c1 c2 c3 then Some r3 else None
                    end
           end
  end.

Definition lower_char (c : ascii) : ascii :=
  let n := nat_of_ascii c in
  if (65 <=? n) && (n <=? 90) then ascii_of_nat (n + 32) else c.

(** [s.toLowerCase()], as far as a test on ASCII characters can tell:
    [A-Z] become [a-z], and so do the two characters outside ASCII
    whose lower case has an ASCII letter: U+212A, the Kelvin sign
    (e2 84 aa), becomes [k], and U+0130, the dotted capital I (c4 b0),
    becomes [i] followed by U+0307 (cc 87).  The other cased letters
    outside ASCII are left as they are: their lower case is outside
    ASCII as they are, and neither is white space.  The callers look at
    ASCII characters only: [sanitizeName] keeps them and drops the
    rest, and the error heuristic searches the result for words of
    them. *)
Fixpoint toLowerCase (s : string) : string :=
  match s with
  | EmptyString => EmptyString
  | String c1 r1 =>
      match r1 with
      | EmptyString => String (lower_char c1) EmptyString
      | String c2 r2 =>
          if (nat_of_ascii c1 =? 196) && (nat_of_ascii c2 =? 176)
          then String "i" (String (ascii_of_nat 204) (String (ascii_of_nat 135)
                 (toLowerCase r2)))
          else match r2 with
               | EmptyString => String (lower_char c1) (toLowerCase r1)
               | String c3 r3 =>
                   if (nat_of_ascii c1 =? 226) && (nat_of_ascii c2 =? 132)
                      && (nat_of_ascii c3 =? 170)
                   then String "k" (toLowerCase r3)
                   else String (lower_char c1) (toLowerCase r1)
               end
      end
  end.

(** [s.trimStart()] *)
Fixpoint trimStart (s : string) : string :=
  match s with
  | EmptyString => EmptyString
  | String c1 r1 =>
      if is_space c1 then trimStart r1
      else match r1 with
           | EmptyString => s
           | String c2 r2 =>
               if is_space2 c1 c2 then trimStart r2
               else match r2 with
                    | EmptyString => s
                    | String c3 r3 => if is_space3 c1 c2 c3 then trimStart r3 else s
                    end
           end
  end.

(** [s.trimEnd()]: a byte is dropped when all from it on is white
    space. *)
Fixpoint trimEnd (s : string) : string :=
  match s with
  | EmptyString => EmptyString
  | String c r =>
      match trimStart s with
      | EmptyString => EmptyString
      | _ => String c (trimEnd r)
      end
  end.

Definition trim (s : string) : string := trimEnd (trimStart s).

(** [s.replace(/\s+/g, "-")]: every maximal run of white space becomes
    one hyphen.  [in_run] tells that white space came just before. *)
Fixpoint spaces_to_hyphen (in_run : bool) (s : string) : string :=
  let mark (rest : string) : string :=
    if in_run then rest else String "-" rest in
  match s with
  | EmptyString => EmptyString
  | String c1 r1 =>
      if is_space c1 then mark (spaces_to_hyphen true r1)
      else match r1 with
           | EmptyString => String c1 (spaces_to_hyphen false r1)
           | String c2 r2 =>
               if is_space2 c1 c2 then mark (spaces_to_hyphen true r2)
               else match r2 with
                    | EmptyString => String c1 (spaces_to_hyphen false r1)
                    | String c3 r3 =>
                        if is_space3 c1 c2 c3 then mark (spaces_to_hyphen true r3)
                        else String c1 (spaces_to_hyphen false r1)
                    end
           end
  end.

(** [s.length]: the number of UTF-16 code units.  The first byte of a
    character of four bytes (240 and above) stands for two, any other
    first byte for one, and the later bytes of a character (128 to 191)
    for none. *)
Fixpoint length (s : string) : nat :=
  match s with
  | EmptyString => 0
  | String c r =>
      let n := nat_of_ascii c in
      (if (128 <=? n) && (n <=? 191) then 0 else if 240 <=? n then 2 else 1)
      + length r
  end.

(** ToBoolean on strings: only the empty string is falsy. *)
Definition truthy (s : string) : bool :=
  match s with EmptyString => false | _ => true end.

Fixpoint join (sep : string) (l : list string) : string :=
  match l with
  | [] => ""
  | [x] => x
  | x :: r => x ++ sep ++ join sep r
  end.

(** [haystack.includes(needle)] *)
Fixpoint includes (needle haystack : string) : bool :=
  String.prefix needle haystack ||
  match haystack with
  | EmptyString => false
  | String _ r => includes needle r
  end.

Definition of_nat (n : nat) : string := pretty.pretty n.
Definition of_Z (z : Z) : string := pretty.pretty z.

End JsString.

(** ** parallel-utils.ts *)

Module ParallelUtils.

(** A single agent step in the runner config. *)
Record RunnerSubagentStep : Type := {
  agent : string;
  task : string;
  cwd : option string;
  model : option string;
  tools : option (list string);
  extensions : option (list string);
  mcpDirectTools : option (list string);
  systemPrompt : option string;
  skills : option (list string);
  outputPath : option string;
}.

(** Parallel step group: several agents running concurrently. *)
Record ParallelStepGroup : Type := {
  parallel : list RunnerSubagentStep;
  concurrency : option Js.number;
  failFast : option bool;
}.

Inductive RunnerStep : Type :=
| Sequential (s : RunnerSubagentStep)
| Group (g : ParallelStepGroup).

Definition isParallelGroup (step : RunnerStep) : bool :=
  match step with Group _ => true | Sequential _ => false end.

(** Flatten runner steps into individual steps for status tracking. *)
Fixpoint flattenSteps (steps : list RunnerStep) : list RunnerSubagentStep :=
  match steps with
  | [] => []
  | Group g :: rest => parallel g ++ flattenSteps rest
  | Sequential s :: rest => s :: flattenSteps rest
  end.

Definition MAX_PARALLEL_CONCURRENCY : Js.number := Js.of_nat 4.

(** [Math.max(1, Math.floor(limit) || 1)] *)
Definition safeLimit (limit : Js.number) : Js.number :=
  Js.Math_max (Js.of_nat 1) (Js.or_else (Js.Math_floor limit) (Js.of_nat 1)).

(** [Math.min(safeLimit, items.length)], the number of workers that
    [Array.from] starts. *)
Definition workerCount (limit : Js.number) (n : nat) : nat :=
  Js.to_length (Js.Math_min (safeLimit limit) (Js.of_nat n)).

(** The limits that the comment in [mapConcurrent] names: zero, a
    negative value, or not a number. *)
Definition clamped_limit (limit : Js.number) : Prop :=
  match limit with
  | Js.NaN | Js.NegInf => True
  | Js.Fin q => (q <= 0)%Q
  | Js.PosInf => False
  end.

Definition positive_limit (limit : Js.number) : Prop :=
  Js.lt (Js.of_nat 0) limit.

(** *** mapConcurrent

    Node runs the workers on one thread: a worker runs until it awaits
    the promise of [fn], and is resumed in a later turn once that
    promise is settled.  The callback is given in two halves split at
    the point where it waits for the outside world (a child process, a
    timer): [fn_start] runs from the call to that point and either
    suspends there, keeping its local variables, or returns without
    waiting; [fn_resume] runs from there to the return, given what the
    outside world answered.  Both halves act on the state the callback
    shares with its caller. *)

Section MapConcurrent.
Context {T R L O St : Type}.
Variable fn_start : T -> nat -> St -> St * (L + R).
Variable fn_resume : T -> nat -> L -> O -> St -> St * R.

Inductive worker : Type :=
| WIdle                        (* at the test of the while loop *)
| WPending (i : nat) (l : L)   (* awaiting fn(items[i], i), still running *)
| WSettled (i : nat) (r : R)   (* fn(items[i], i) has returned r, resumption queued *)
| WDone.                       (* left the loop *)

Record mc_state : Type := {
  mc_next : nat;
  mc_results : list (option R);
  mc_workers : list worker;
  mc_shared : St;
}.

(** [results = new Array(items.length); next = 0], and
    [Math.min(safeLimit, items.length)] workers created. *)
Definition mc_init (items : list T) (limit : Js.number) (s : St) : mc_state :=
  {| mc_next := 0;
     mc_results := replicate (length items) None;
     mc_workers := replicate (workerCount limit (length items)) WIdle;
     mc_shared := s |}.

(** One turn of worker [w]; [o] is the outside world's answer, used
    when the turn is the completion of a pending call. *)
Definition mc_step (items : list T) (w : nat) (o : O) (st : mc_state)
  : option mc_state :=
  match mc_workers st !! w with
  | Some WIdle =>
      if decide (mc_next st < length items) then
        let i := mc_next st in
        match items !! i with
        | Some x =>
            let '(s', res) := fn_start x i (mc_shared st) in
            let wk := match res with
                      | inl l => WPending i l
                      | inr r => WSettled i r
                      end in
            Some {| mc_next := S i;
                    mc_results := mc_results st;
                    mc_workers := <[w := wk]> (mc_workers st);
                    mc_shared := s' |}
        | None => None
        end
      else
        Some {| mc_next := mc_next st;
                mc_results := mc_results st;
                mc_workers := <[w := WDone]> (mc_workers st);
                mc_shared := mc_shared st |}
  | Some (WPending i l) =>
      match items !! i with
      | Some x =>
          let '(s', r) := fn_resume x i l o (mc_shared st) in
          Some {| mc_next := mc_next st;
                  mc_results := mc_results st;
                  mc_workers := <[w := WSettled i r]> (mc_workers st);
                  mc_shared := s' |}
      | None => None
      end
  | Some (WSettled i r) =>
      Some {| mc_next := mc_next st;
              mc_results := <[i := Some r]> (mc_results st);
              mc_workers := <[w := WIdle]> (mc_workers st);
              mc_shared := mc_shared st |}
  | Some WDone | None => None
  end.

(** A schedule names, turn by turn, the worker that runs. *)
Fixpoint mc_exec (items : list T) (sched : list (nat * O)) (st : mc_state)
  : option mc_state :=
  match sched with
  | [] => Some st
  | (w, o) :: rest =>
      match mc_step items w o st with
      | Some st' => mc_exec items rest st'
      | None => None
      end
  end.

(** The same, for a schedule that may name a worker with no turn to
    take (one that is done, or that does not exist): such an entry is
    passed over. *)
Fixpoint mc_run (items : list T) (sched : list (nat * O)) (st : mc_state)
  : mc_state :=
  match sched with
  | [] => st
  | (w, o) :: rest =>
      match mc_step items w o st with
      | Some st' => mc_run items rest st'
      | None => mc_run items rest st
      end
  end.

(** [Array.from({ length }, () => worker())] calls the workers one
    after the other, and each runs up to its first await. *)
Definition mc_start_schedule (k : nat) (o : O) : list (nat * O) :=
  (fun w => (w, o)) <$> seq 0 k.

Definition is_pending (wk : worker) : bool :=
  match wk with WPending _ _ => true | _ => false end.

Definition is_done (wk : worker) : bool :=
  match wk with WDone => true | _ => false end.

(** Calls of [fn] that have started and not returned. *)
Definition in_flight (st : mc_state) : nat :=
  length (filter (fun wk => is_pending wk = true) (mc_workers st)).

(** [Promise.all] resolves when every worker has left its loop. *)
Definition mc_final (st : mc_state) : bool :=
  forallb is_done (mc_workers st).

(** What the call evaluates to under a schedule: the results array
    once every worker is done, nothing while [Promise.all] waits. *)
Definition mapConcurrent (items : list T) (limit : Js.number)
    (sched : list (nat * O)) (s : St) : option (list (option R) * St) :=
  match mc_exec items sched (mc_init items limit s) with
  | Some st => if mc_final st then Some (mc_results st, mc_shared st) else None
  | None => None
  end.

(** The measure that every turn decreases. *)
Definition worker_rank (wk : worker) : nat :=
  match wk with
  | WDone => 0
  | WIdle => 1
  | WSettled _ _ => 2
  | WPending _ _ => 3
  end.

Definition mc_measure (items : list T) (st : mc_state) : nat :=
  3 * (length items - mc_next st) + sum_list (worker_rank <$> mc_workers st).

(** The turns of the machine as a relation: a worker calls [fn] on the
    next item and suspends or gets the value back, leaves the loop,
    sees its pending call complete, or stores a settled value. *)
Inductive mc_turn (items : list T) (w : nat) (o : O) (st : mc_state)
  : mc_state -> Prop :=
| turn_call x s' res :
    mc_workers st !! w = Some WIdle ->
    mc_next st < length items ->
    items !! mc_next st = Some x ->
    fn_start x (mc_next st) (mc_shared st) = (s', res) ->
    mc_turn items w o st
      {| mc_next := S (mc_next st);
         mc_results := mc_results st;
         mc_workers :=
           <[w := match res with
                  | inl l => WPending (mc_next st) l
                  | inr r => WSettled (mc_next st) r
                  end]> (mc_workers st);
         mc_shared := s' |}
| turn_exit :
    mc_workers st !! w = Some WIdle ->
    length items <= mc_next st ->
    mc_turn items w o st
      {| mc_next := mc_next st;
         mc_results := mc_results st;
         mc_workers := <[w := WDone]> (mc_workers st);
         mc_shared := mc_shared st |}
| turn_complete i l x s' r :
    mc_workers st !! w = Some (WPending i l) ->
    items !! i = Some x ->
    fn_resume x i l o (mc_shared st) = (s', r) ->
    mc_turn items w o st
      {| mc_next := mc_next st;
         mc_results := mc_results st;
         mc_workers := <[w := WSettled i r]> (mc_workers st);
         mc_shared := s' |}
| turn_store i r :
    mc_workers st !! w = Some (WSettled i r) ->
    mc_turn items w o st
      {| mc_next := mc_next st;
         mc_results := <[i := Some r]> (mc_results st);
         mc_workers := <[w := WIdle]> (mc_workers st);
         mc_shared := mc_shared st |}.

(** Worker [wk] waits for, or is about to store, the value of item [i]. *)
Definition holds (wk : worker) (i : nat) : Prop :=
  match wk with
  | WPending j _ | WSettled j _ => j = i
  | _ => False
  end.

(** [r] is a value that some call [fn(x, i)] returned. *)
Definition returned (x : T) (i : nat) (r : R) : Prop :=
  (exists s s', fn_start x i s = (s', inr r)) \/
  (exists l o s s', fn_resume x i l o s = (s', r)).

Definition returned_at (items : list T) (i : nat) (r : R) : Prop :=
  exists x, items !! i = Some x /\ returned x i r.

(** What holds in every state that [k] workers over [items] can reach. *)
Record mc_inv (items : list T) (k : nat) (st : mc_state) : Prop := {
  inv_workers : length (mc_workers st) = k;
  inv_results : length (mc_results st) = length items;
  inv_next : mc_next st <= length items;
  inv_nonempty : k = 0 -> length items = 0;
  inv_held : forall w wk i,
    mc_workers st !! w = Some wk -> holds wk i -> i < mc_next st;
  inv_done : forall w,
    mc_workers st !! w = Some WDone -> length items <= mc_next st;
  inv_cover : forall i, i < mc_next st ->
    (exists w wk, mc_workers st !! w = Some wk /\ holds wk i) \/
    (exists r, mc_results st !! i = Some (Some r));
  inv_stored : forall i r,
    mc_results st !! i = Some (Some r) -> returned_at items i r;
  inv_settled : forall w i r,
    mc_workers st !! w = Some (WSettled i r) -> returned_at items i r;
}.

(** The states the pool can be in during a call. *)
Definition mc_reachable (items : list T) (limit : Js.number) (s : St)
    (st : mc_state) : Prop :=
  exists sched, mc_exec items sched (mc_init items limit s) = Some st.

End MapConcurrent.

Arguments WIdle {R L}.
Arguments WDone {R L}.
Arguments WPending {R L} i l.
Arguments WSettled {R L} i r.

(** Aggregate outputs from parallel tasks into a single string for
    [{previous}]. *)
Definition exitCode_string (c : option Z) : string :=
  match c with Some z => JsString.of_Z z | None => "null" end.

Record AggregateInput : Type := {
  ai_agent : string;
  ai_output : string;
  ai_exitCode : option Z;
  ai_error : option string;
}.

Definition aggregate_block (i : nat) (r : AggregateInput) : string :=
  let header := "=== Parallel Task " ++ JsString.of_nat (i + 1) ++ " (" ++ ai_agent r ++ ") ===" in
  let hasOutput := JsString.truthy (JsString.trim (ai_output r)) in
  let status :=
    if decide (ai_exitCode r = Some (-1)%Z) then "⏭️ SKIPPED"
    else if decide (ai_exitCode r <> Some 0%Z) then
      "⚠️ FAILED (exit code " ++ exitCode_string (ai_exitCode r) ++ ")" ++
      match ai_error r with
      | Some e => if JsString.truthy e then ": " ++ e else ""
      | None => ""
      end
    else if negb hasOutput then "⚠️ EMPTY OUTPUT"
    else "" in
  let body :=
    if JsString.truthy status
    then (if hasOutput then status ++ String "010" (ai_output r) else status)
    else ai_output r in
  header ++ String "010" body.

Definition aggregateParallelOutputs (results : list AggregateInput) : string :=
  JsString.join (String "010" (String "010" "")) (imap aggregate_block results).

(** The number of tasks of a step. *)
Definition step_size (step : RunnerStep) : nat :=
  match step with
  | Sequential _ => 1
  | Group g => length (parallel g)
  end.

End ParallelUtils.

(** ** subagent-runner.ts: the detached background runner *)

Module Runner.
Import ParallelUtils.

(** *** The files of a run

    Paths are kept symbolic: the run directory [asyncDir], the files the
    runner keeps in it, the result file under the results directory, and
    the places a step writes to.  Distinct constructors are distinct
    files, as they are for a run whose directories are its own. *)
Inductive path : Type :=
| AsyncDir
| StatusPath                 (* <asyncDir>/status.json *)
| EventsPath                 (* <asyncDir>/events.jsonl *)
| LogPath                    (* <asyncDir>/subagent-log-<id>.md *)
| OutputLog (fi : nat)       (* <asyncDir>/output-<fi>.log *)
| ResultsDir                 (* dirname(resultPath) *)
| ResultPath
| SessionDir                 (* config.sessionDir *)
| ParallelSessionDir (t : nat)  (* <sessionDir>/parallel-<t> *)
| TmpDir (fi : nat)          (* mkdtemp of the step with flat index fi *)
| PromptPath (fi : nat)
| TaskFilePath (fi : nat)
| ArtifactsDir
| ArtifactInput (fi : nat)
| ArtifactOutput (fi : nat)
| ArtifactMetadata (fi : nat)
| StepOutputPath (fi : nat). (* step.outputPath, written by persistSingleOutput *)

Global Instance path_eq_dec : EqDecision path.
Proof. solve_decision. Defined.

Definition path_code (p : path) : nat * nat :=
  match p with
  | AsyncDir => (0, 0)
  | StatusPath => (1, 0)
  | EventsPath => (2, 0)
  | LogPath => (3, 0)
  | OutputLog fi => (4, fi)
  | ResultsDir => (5, 0)
  | ResultPath => (6, 0)
  | SessionDir => (7, 0)
  | ParallelSessionDir t => (8, t)
  | TmpDir fi => (9, fi)
  | PromptPath fi => (10, fi)
  | TaskFilePath fi => (11, fi)
  | ArtifactsDir => (12, 0)
  | ArtifactInput fi => (13, fi)
  | ArtifactOutput fi => (14, fi)
  | ArtifactMetadata fi => (15, fi)
  | StepOutputPath fi => (16, fi)
  end.

Definition path_of_code (c : nat * nat) : path :=
  match c with
  | (0, _) => AsyncDir
  | (1, _) => StatusPath
  | (2, _) => EventsPath
  | (3, _) => LogPath
  | (4, fi) => OutputLog fi
  | (5, _) => ResultsDir
  | (6, _) => ResultPath
  | (7, _) => SessionDir
  | (8, t) => ParallelSessionDir t
  | (9, fi) => TmpDir fi
  | (10, fi) => PromptPath fi
  | (11, fi) => TaskFilePath fi
  | (12, _) => ArtifactsDir
  | (13, fi) => ArtifactInput fi
  | (14, fi) => ArtifactOutput fi
  | (15, fi) => ArtifactMetadata fi
  | (_, fi) => StepOutputPath fi
  end.

Global Instance path_countable : Countable path.
Proof.
  apply (inj_countable' path_code path_of_code).
  intros []; reflexivity.
Defined.

Inductive step_status : Type := Pending | Running | Complete | Failed.
Inductive run_state : Type := Queued | RunRunning | RunComplete | RunFailed.
Inductive run_mode : Type := ModeSingle | ModeChain.

Global Instance step_status_eq_dec : EqDecision step_status.
Proof. solve_decision. Defined.
Global Instance run_state_eq_dec : EqDecision run_state.
Proof. solve_decision. Defined.

Record TokenUsage : Type := {
  tk_input : Z;
  tk_output : Z;
  tk_total : Z;
}.

(** A row of [statusPayload.steps].  [row_exitCode] is absent until it
    is assigned; the assigned value is a number or null. *)
Record StepRow : Type := {
  row_agent : string;
  row_status : step_status;
  row_startedAt : option Z;
  row_endedAt : option Z;
  row_durationMs : option Z;
  row_exitCode : option (option Z);
  row_tokens : option TokenUsage;
  row_skills : option (list string);
}.

Record StatusPayload : Type := {
  sp_runId : string;
  sp_mode : run_mode;
  sp_state : run_state;
  sp_startedAt : Z;
  sp_endedAt : option Z;
  sp_lastUpdate : Z;
  sp_pid : Z;
  sp_cwd : string;
  sp_currentStep : nat;
  sp_steps : list StepRow;
  sp_artifactsDir : option string;
  sp_sessionDir : option string;
  sp_outputFile : path;
  sp_totalTokens : option TokenUsage;
  sp_sessionFile : option string;
  sp_shareUrl : option string;
  sp_gistUrl : option string;
  sp_shareError : option string;
  sp_error : option string;
}.

(** The lines of events.jsonl. *)
Inductive event : Type :=
| RunStarted (ts : Z) (mode : run_mode)
| ParallelStarted (ts : Z) (stepIndex : nat) (agents : list string)
| StepStarted (ts : Z) (stepIndex : nat) (agent : string)
| StepCompleted (ts : Z) (stepIndex : nat) (agent : string) (exitCode : option Z)
| StepFailed (ts : Z) (stepIndex : nat) (agent : string) (exitCode : option Z)
| ParallelCompleted (ts : Z) (stepIndex : nat) (success : bool)
| RunCompleted (ts : Z) (status : run_state).

(** What the runner records per executed step. *)
Record StepResult : Type := {
  sr_agent : string;
  sr_output : string;
  sr_success : bool;
  sr_skipped : option bool;
  sr_artifactPaths : option nat;   (* the flat index the artifact paths were made for *)
  sr_truncated : option bool;
}.

(** What the callback of a parallel group returns for a task. *)
Record TaskResult : Type := {
  tr_agent : string;
  tr_output : string;
  tr_exitCode : option Z;
  tr_artifactPaths : option nat;
  tr_skipped : bool;
}.

Record ResultFile : Type := {
  rf_id : string;
  rf_agent : string;
  rf_success : bool;
  rf_summary : string;
  rf_results : list StepResult;
  rf_exitCode : Z;
  rf_timestamp : Z;
  rf_durationMs : Z;
  rf_truncated : bool;
  rf_artifactsDir : option string;
  rf_cwd : string;
  rf_asyncDir : string;
  rf_sessionId : option string;
  rf_sessionFile : option string;
  rf_shareUrl : option string;
  rf_gistUrl : option string;
  rf_shareError : option string;
  rf_taskIndex : option Z;
  rf_totalTasks : option Z;
}.

Inductive content : Type :=
| CStatus (p : StatusPayload)
| CResult (r : ResultFile)
| CText (s : string)
| CEvents (l : list event).

(** The calls into [node:fs] (and [appendJsonl], which appends one line
    to a file). *)
Inductive fs_op : Type :=
| MkdirSync (p : path)
| MkdtempSync (p : path)
| WriteFileSync (p : path) (c : content)
| AppendLine (p : path) (e : event)
| CreateWriteStream (p : path)
| RenameSync (src dst : path)
| RmSync (p : path).

Record MaxOutputConfig : Type := {
  mo_bytes : option Z;
  mo_lines : option Z;
}.

Record ArtifactConfig : Type := {
  ac_enabled : option bool;
  ac_includeInput : option bool;
  ac_includeOutput : option bool;
  ac_includeMetadata : option bool;
}.

Record SubagentRunConfig : Type := {
  cfg_id : string;
  steps : list RunnerStep;
  cfg_cwd : string;
  placeholder : string;
  taskIndex : option Z;
  totalTasks : option Z;
  maxOutput : option MaxOutputConfig;
  artifactsDir : option string;
  artifactConfig : option ArtifactConfig;
  share : option bool;
  sessionDir : option string;
  asyncDir : string;
  sessionId : option string;
}.

(** *** The outside world of a run

    The clock, the child processes, the session files the children
    leave, the helpers imported from modules that are not part of the
    runner ([persistSingleOutput], [truncateOutput], the session export)
    and, for each parallel group, the order in which the turns of its
    workers come. *)
Record World : Type := {
  Date_now : nat -> Z;
  process_pid : Z;
  child : nat -> string -> string * option Z;
  persistSingleOutput : string -> string -> option string * option string;
  parseSessionTokens : path -> nat -> option TokenUsage;
  findLatestSessionFile : option string;
  exportAndShare : string -> (string * string) + string;
  truncateOutput : string -> MaxOutputConfig -> option nat -> bool * string;
  schedule : nat -> list nat;
}.

(** The mutable state of [runSubagent]. *)
Record rstate : Type := {
  rs_status : StatusPayload;
  rs_trace : list fs_op;
  rs_clock : nat;
  rs_aborted : bool;
  rs_previousOutput : string;
  rs_results : list StepResult;
  rs_flatIndex : nat;
  rs_prevTokens : TokenUsage;
}.

(** *** Field assignments *)

Definition set_row_status (v : step_status) (x : StepRow) : StepRow :=
  {| row_agent := row_agent x;
     row_status := v;
     row_startedAt := row_startedAt x;
     row_endedAt := row_endedAt x;
     row_durationMs := row_durationMs x;
     row_exitCode := row_exitCode x;
     row_tokens := row_tokens x;
     row_skills := row_skills x |}.

Definition set_row_startedAt (v : option Z) (x : StepRow) : StepRow :=
  {| row_agent := row_agent x;
     row_status := row_status x;
     row_startedAt := v;
     row_endedAt := row_endedAt x;
     row_durationMs := row_durationMs x;
     row_exitCode := row_exitCode x;
     row_tokens := row_tokens x;
     row_skills := row_skills x |}.

Definition set_row_endedAt (v : option Z) (x : StepRow) : StepRow :=
  {| row_agent := row_agent x;
     row_status := row_status x;
     row_startedAt := row_startedAt x;
     row_endedAt := v;
     row_durationMs := row_durationMs x;
     row_exitCode := row_exitCode x;
     row_tokens := row_tokens x;
     row_skills := row_skills x |}.

Definition set_row_durationMs (v : option Z) (x : StepRow) : StepRow :=
  {| row_agent := row_agent x;
     row_status := row_status x;
     row_startedAt := row_startedAt x;
     row_endedAt := row_endedAt x;
     row_durationMs := v;
     row_exitCode := row_exitCode x;
     row_tokens := row_tokens x;
     row_skills := row_skills x |}.

Definition set_row_exitCode (v : option (option Z)) (x : StepRow) : StepRow :=
  {| row_agent := row_agent x;
     row_status := row_status x;
     row_startedAt := row_startedAt x;
     row_endedAt := row_endedAt x;
     row_durationMs := row_durationMs x;
     row_exitCode := v;
     row_tokens := row_tokens x;
     row_skills := row_skills x |}.

Definition set_row_tokens (v : option TokenUsage) (x : StepRow) : StepRow :=
  {| row_agent := row_agent x;
     row_status := row_status x;
     row_startedAt := row_startedAt x;
     row_endedAt := row_endedAt x;
     row_durationMs := row_durationMs x;
     row_exitCode := row_exitCode x;
     row_tokens := v;
     row_skills := row_skills x |}.

Definition set_row_skills (v : option (list string)) (x : StepRow) : StepRow :=
  {| row_agent := row_agent x;
     row_status := row_status x;
     row_startedAt := row_startedAt x;
     row_endedAt := row_endedAt x;
     row_durationMs := row_durationMs x;
     row_exitCode := row_exitCode x;
     row_tokens := row_tokens x;
     row_skills := v |}.

Definition set_sp_state (v : run_state) (x : StatusPayload) : StatusPayload :=
  {| sp_runId := sp_runId x;
     sp_mode := sp_mode x;
     sp_state := v;
     sp_startedAt := sp_startedAt x;
     sp_endedAt := sp_endedAt x;
     sp_lastUpdate := sp_lastUpdate x;
     sp_pid := sp_pid x;
     sp_cwd := sp_cwd x;
     sp_currentStep := sp_currentStep x;
     sp_steps := sp_steps x;
     sp_artifactsDir := sp_artifactsDir x;
     sp_sessionDir := sp_sessionDir x;
     sp_outputFile := sp_outputFile x;
     sp_totalTokens := sp_totalTokens x;
     sp_sessionFile := sp_sessionFile x;
     sp_shareUrl := sp_shareUrl x;
     sp_gistUrl := sp_gistUrl x;
     sp_shareError := sp_shareError x;
     sp_error := sp_error x |}.

Definition set_sp_endedAt (v : option Z) (x : StatusPayload) : StatusPayload :=
  {| sp_runId := sp_runId x;
     sp_mode := sp_mode x;
     sp_state := sp_state x;
     sp_startedAt := sp_startedAt x;
     sp_endedAt := v;
     sp_lastUpdate := sp_lastUpdate x;
     sp_pid := sp_pid x;
     sp_cwd := sp_cwd x;
     sp_currentStep := sp_currentStep x;
     sp_steps := sp_steps x;
     sp_artifactsDir := sp_artifactsDir x;
     sp_sessionDir := sp_sessionDir x;
     sp_outputFile := sp_outputFile x;
     sp_totalTokens := sp_totalTokens x;
     sp_sessionFile := sp_sessionFile x;
     sp_shareUrl := sp_shareUrl x;
     sp_gistUrl := sp_gistUrl x;
     sp_shareError := sp_shareError x;
     sp_error := sp_error x |}.

Definition set_sp_lastUpdate (v : Z) (x : StatusPayload) : StatusPayload :=
  {| sp_runId := sp_runId x;
     sp_mode := sp_mode x;
     sp_state := sp_state x;
     sp_startedAt := sp_startedAt x;
     sp_endedAt := sp_endedAt x;
     sp_lastUpdate := v;
     sp_pid := sp_pid x;
     sp_cwd := sp_cwd x;
     sp_currentStep := sp_currentStep x;
     sp_steps := sp_steps x;
     sp_artifactsDir := sp_artifactsDir x;
     sp_sessionDir := sp_sessionDir x;
     sp_outputFile := sp_outputFile x;
     sp_totalTokens := sp_totalTokens x;
     sp_sessionFile := sp_sessionFile x;
     sp_shareUrl := sp_shareUrl x;
     sp_gistUrl := sp_gistUrl x;
     sp_shareError := sp_shareError x;
     sp_error := sp_error x |}.

Definition set_sp_currentStep (v : nat) (x : StatusPayload) : StatusPayload :=
  {| sp_runId := sp_runId x;
     sp_mode := sp_mode x;
     sp_state := sp_state x;
     sp_startedAt := sp_startedAt x;
     sp_endedAt := sp_endedAt x;
     sp_lastUpdate := sp_lastUpdate x;
     sp_pid := sp_pid x;
     sp_cwd := sp_cwd x;
     sp_currentStep := v;
     sp_steps := sp_steps x;
     sp_artifactsDir := sp_artifactsDir x;
     sp_sessionDir := sp_sessionDir x;
     sp_outputFile := sp_outputFile x;
     sp_totalTokens := sp_totalTokens x;
     sp_sessionFile := sp_sessionFile x;
     sp_shareUrl := sp_shareUrl x;
     sp_gistUrl := sp_gistUrl x;
     sp_shareError := sp_shareError x;
     sp_error := sp_error x |}.

Definition set_sp_steps (v : list StepRow) (x : StatusPayload) : StatusPayload :=
  {| sp_runId := sp_runId x;
     sp_mode := sp_mode x;
     sp_state := sp_state x;
     sp_startedAt := sp_startedAt x;
     sp_endedAt := sp_endedAt x;
     sp_lastUpdate := sp_lastUpdate x;
     sp_pid := sp_pid x;
     sp_cwd := sp_cwd x;
     sp_currentStep := sp_currentStep x;
     sp_steps := v;
     sp_artifactsDir := sp_artifactsDir x;
     sp_sessionDir := sp_sessionDir x;
     sp_outputFile := sp_outputFile x;
     sp_totalTokens := sp_totalTokens x;
     sp_sessionFile := sp_sessionFile x;
     sp_shareUrl := sp_shareUrl x;
     sp_gistUrl := sp_gistUrl x;
     sp_shareError := sp_shareError x;
     sp_error := sp_error x |}.

Definition set_sp_outputFile (v : path) (x : StatusPayload) : StatusPayload :=
  {| sp_runId := sp_runId x;
     sp_mode := sp_mode x;
     sp_state := sp_state x;
     sp_startedAt := sp_startedAt x;
     sp_endedAt := sp_endedAt x;
     sp_lastUpdate := sp_lastUpdate x;
     sp_pid := sp_pid x;
     sp_cwd := sp_cwd x;
     sp_currentStep := sp_currentStep x;
     sp_steps := sp_steps x;
     sp_artifactsDir := sp_artifactsDir x;
     sp_sessionDir := sp_sessionDir x;
     sp_outputFile := v;
     sp_totalTokens := sp_totalTokens x;
     sp_sessionFile := sp_sessionFile x;
     sp_shareUrl := sp_shareUrl x;
     sp_gistUrl := sp_gistUrl x;
     sp_shareError := sp_shareError x;
     sp_error := sp_error x |}.

Definition set_sp_totalTokens (v : option TokenUsage) (x : StatusPayload) : StatusPayload :=
  {| sp_runId := sp_runId x;
     sp_mode := sp_mode x;
     sp_state := sp_state x;
     sp_startedAt := sp_startedAt x;
     sp_endedAt := sp_endedAt x;
     sp_lastUpdate := sp_lastUpdate x;
     sp_pid := sp_pid x;
     sp_cwd := sp_cwd x;
     sp_currentStep := sp_currentStep x;
     sp_steps := sp_steps x;
     sp_artifactsDir := sp_artifactsDir x;
     sp_sessionDir := sp_sessionDir x;
     sp_outputFile := sp_outputFile x;
     sp_totalTokens := v;
     sp_sessionFile := sp_sessionFile x;
     sp_shareUrl := sp_shareUrl x;
     sp_gistUrl := sp_gistUrl x;
     sp_shareError := sp_shareError x;
     sp_error := sp_error x |}.

Definition set_sp_sessionFile (v : option string) (x : StatusPayload) : StatusPayload :=
  {| sp_runId := sp_runId x;
     sp_mode := sp_mode x;
     sp_state := sp_state x;
     sp_startedAt := sp_startedAt x;
     sp_endedAt := sp_endedAt x;
     sp_lastUpdate := sp_lastUpdate x;
     sp_pid := sp_pid x;
     sp_cwd := sp_cwd x;
     sp_currentStep := sp_currentStep x;
     sp_steps := sp_steps x;
     sp_artifactsDir := sp_artifactsDir x;
     sp_sessionDir := sp_sessionDir x;
     sp_outputFile := sp_outputFile x;
     sp_totalTokens := sp_totalTokens x;
     sp_sessionFile := v;
     sp_shareUrl := sp_shareUrl x;
     sp_gistUrl := sp_gistUrl x;
     sp_shareError := sp_shareError x;
     sp_error := sp_error x |}.

Definition set_sp_shareUrl (v : option string) (x : StatusPayload) : StatusPayload :=
  {| sp_runId := sp_runId x;
     sp_mode := sp_mode x;
     sp_state := sp_state x;
     sp_startedAt := sp_startedAt x;
     sp_endedAt := sp_endedAt x;
     sp_lastUpdate := sp_lastUpdate x;
     sp_pid := sp_pid x;
     sp_cwd := sp_cwd x;
     sp_currentStep := sp_currentStep x;
     sp_steps := sp_steps x;
     sp_artifactsDir := sp_artifactsDir x;
     sp_sessionDir := sp_sessionDir x;
     sp_outputFile := sp_outputFile x;
     sp_totalTokens := sp_totalTokens x;
     sp_sessionFile := sp_sessionFile x;
     sp_shareUrl := v;
     sp_gistUrl := sp_gistUrl x;
     sp_shareError := sp_shareError x;
     sp_error := sp_error x |}.

Definition set_sp_gistUrl (v : option string) (x : StatusPayload) : StatusPayload :=
  {| sp_runId := sp_runId x;
     sp_mode := sp_mode x;
     sp_state := sp_state x;
     sp_startedAt := sp_startedAt x;
     sp_endedAt := sp_endedAt x;
     sp_lastUpdate := sp_lastUpdate x;
     sp_pid := sp_pid x;
     sp_cwd := sp_cwd x;
     sp_currentStep := sp_currentStep x;
     sp_steps := sp_steps x;
     sp_artifactsDir := sp_artifactsDir x;
     sp_sessionDir := sp_sessionDir x;
     sp_outputFile := sp_outputFile x;
     sp_totalTokens := sp_totalTokens x;
     sp_sessionFile := sp_sessionFile x;
     sp_shareUrl := sp_shareUrl x;
     sp_gistUrl := v;
     sp_shareError := sp_shareError x;
     sp_error := sp_error x |}.

Definition set_sp_shareError (v : option string) (x : StatusPayload) : StatusPayload :=
  {| sp_runId := sp_runId x;
     sp_mode := sp_mode x;
     sp_state := sp_state x;
     sp_startedAt := sp_startedAt x;
     sp_endedAt := sp_endedAt x;
     sp_lastUpdate := sp_lastUpdate x;
     sp_pid := sp_pid x;
     sp_cwd := sp_cwd x;
     sp_currentStep := sp_currentStep x;
     sp_steps := sp_steps x;
     sp_artifactsDir := sp_artifactsDir x;
     sp_sessionDir := sp_sessionDir x;
     sp_outputFile := sp_outputFile x;
     sp_totalTokens := sp_totalTokens x;
     sp_sessionFile := sp_sessionFile x;
     sp_shareUrl := sp_shareUrl x;
     sp_gistUrl := sp_gistUrl x;
     sp_shareError := v;
     sp_error := sp_error x |}.

Definition set_sp_error (v : option string) (x : StatusPayload) : StatusPayload :=
  {| sp_runId := sp_runId x;
     sp_mode := sp_mode x;
     sp_state := sp_state x;
     sp_startedAt := sp_startedAt x;
     sp_endedAt := sp_endedAt x;
     sp_lastUpdate := sp_lastUpdate x;
     sp_pid := sp_pid x;
     sp_cwd := sp_cwd x;
     sp_currentStep := sp_currentStep x;
     sp_steps := sp_steps x;
     sp_artifactsDir := sp_artifactsDir x;
     sp_sessionDir := sp_sessionDir x;
     sp_outputFile := sp_outputFile x;
     sp_totalTokens := sp_totalTokens x;
     sp_sessionFile := sp_sessionFile x;
     sp_shareUrl := sp_shareUrl x;
     sp_gistUrl := sp_gistUrl x;
     sp_shareError := sp_shareError x;
     sp_error := v |}.

Definition set_rs_status (v : StatusPayload) (x : rstate) : rstate :=
  {| rs_status := v;
     rs_trace := rs_trace x;
     rs_clock := rs_clock x;
     rs_aborted := rs_aborted x;
     rs_previousOutput := rs_previousOutput x;
     rs_results := rs_results x;
     rs_flatIndex := rs_flatIndex x;
     rs_prevTokens := rs_prevTokens x |}.

Definition set_rs_trace (v : list fs_op) (x : rstate) : rstate :=
  {| rs_status := rs_status x;
     rs_trace := v;
     rs_clock := rs_clock x;
     rs_aborted := rs_aborted x;
     rs_previousOutput := rs_previousOutput x;
     rs_results := rs_results x;
     rs_flatIndex := rs_flatIndex x;
     rs_prevTokens := rs_prevTokens x |}.

Definition set_rs_clock (v : nat) (x : rstate) : rstate :=
  {| rs_status := rs_status x;
     rs_trace := rs_trace x;
     rs_clock := v;
     rs_aborted := rs_aborted x;
     rs_previousOutput := rs_previousOutput x;
     rs_results := rs_results x;
     rs_flatIndex := rs_flatIndex x;
     rs_prevTokens := rs_prevTokens x |}.

Definition set_rs_aborted (v : bool) (x : rstate) : rstate :=
  {| rs_status := rs_status x;
     rs_trace := rs_trace x;
     rs_clock := rs_clock x;
     rs_aborted := v;
     rs_previousOutput := rs_previousOutput x;
     rs_results := rs_results x;
     rs_flatIndex := rs_flatIndex x;
     rs_prevTokens := rs_prevTokens x |}.

Definition set_rs_previousOutput (v : string) (x : rstate) : rstate :=
  {| rs_status := rs_status x;
     rs_trace := rs_trace x;
     rs_clock := rs_clock x;
     rs_aborted := rs_aborted x;
     rs_previousOutput := v;
     rs_results := rs_results x;
     rs_flatIndex := rs_flatIndex x;
     rs_prevTokens := rs_prevTokens x |}.

Definition set_rs_results (v : list StepResult) (x : rstate) : rstate :=
  {| rs_status := rs_status x;
     rs_trace := rs_trace x;
     rs_clock := rs_clock x;
     rs_aborted := rs_aborted x;
     rs_previousOutput := rs_previousOutput x;
     rs_results := v;
     rs_flatIndex := rs_flatIndex x;
     rs_prevTokens := rs_prevTokens x |}.

Definition set_rs_flatIndex (v : nat) (x : rstate) : rstate :=
  {| rs_status := rs_status x;
     rs_trace := rs_trace x;
     rs_clock := rs_clock x;
     rs_aborted := rs_aborted x;
     rs_previousOutput := rs_previousOutput x;
     rs_results := rs_results x;
     rs_flatIndex := v;
     rs_prevTokens := rs_prevTokens x |}.

Definition set_rs_prevTokens (v : TokenUsage) (x : rstate) : rstate :=
  {| rs_status := rs_status x;
     rs_trace := rs_trace x;
     rs_clock := rs_clock x;
     rs_aborted := rs_aborted x;
     rs_previousOutput := rs_previousOutput x;
     rs_results := rs_results x;
     rs_flatIndex := rs_flatIndex x;
     rs_prevTokens := v |}.

End Runner.

(** *** The runner's code *)

Module RunnerCode.
Import ParallelUtils Runner.

(** The runner threads its state through every call: a small state
    monad, with stdpp's notation for bind. *)
Definition Run (A : Type) : Type := rstate -> A * rstate.

Global Instance run_ret : MRet Run := fun A (a : A) st => (a, st).
Global Instance run_bind : MBind Run :=
  fun A B (f : A -> Run B) (m : Run A) st => let '(a, st') := m st in f a st'.

Definition get {A : Type} (f : rstate -> A) : Run A := fun st => (f st, st).
Definition modify (f : rstate -> rstate) : Run unit := fun st => (tt, f st).

(** A call into [node:fs]: recorded at the end of the trace. *)
Definition emit (op : fs_op) : Run unit :=
  modify (fun st => set_rs_trace (rs_trace st ++ [op]) st).

(** [Date.now()] *)
Definition now (w : World) : Run Z :=
  fun st => (Date_now w (rs_clock st), set_rs_clock (S (rs_clock st)) st).

Definition update_status (f : StatusPayload -> StatusPayload) : Run unit :=
  modify (fun st => set_rs_status (f (rs_status st)) st).

(** [statusPayload.steps[fi].<field> = ...]; the index is always that of
    an existing row (see [flat_index_in_range]). *)
Definition update_row (fi : nat) (f : StepRow -> StepRow) : Run unit :=
  update_status (fun p => set_sp_steps (alter f fi (sp_steps p)) p).

(** [writeJson(filePath, payload)]: [fs.mkdirSync(path.dirname(filePath))]
    then [fs.writeFileSync(filePath, JSON.stringify(payload))]. *)
Definition writeJson (dir file : path) (c : content) : Run unit :=
  emit (MkdirSync dir);; emit (WriteFileSync file c).

Definition writeStatus : Run unit :=
  p ← get rs_status; writeJson AsyncDir StatusPath (CStatus p).

Definition appendJsonl (e : event) : Run unit := emit (AppendLine EventsPath e).

Definition when (b : bool) (m : Run unit) : Run unit := if b then m else mret tt.

Definition truthy_opt (o : option string) : bool :=
  match o with Some s => JsString.truthy s | None => false end.

Definition exit_ok (c : option Z) : bool := bool_decide (c = Some 0%Z).

(** [s.replace(new RegExp(escaped(pat), "g"), () => rep)]: every
    occurrence of the literal [pat], left to right, without overlap; the
    empty pattern matches before every character and at the end. *)
Fixpoint replace_go (pat rep : string) (skip : nat) (s : string) : string :=
  match s with
  | EmptyString => EmptyString
  | String c r =>
      match skip with
      | S k => replace_go pat rep k r
      | O =>
          if String.prefix pat s
          then rep ++ replace_go pat rep (String.length pat - 1) r
          else String c (replace_go pat rep 0 r)
      end
  end.

Fixpoint intersperse_all (rep s : string) : string :=
  match s with
  | EmptyString => rep
  | String c r => rep ++ String c (intersperse_all rep r)
  end.

Definition replaceAll (pat rep s : string) : string :=
  match pat with
  | EmptyString => intersperse_all rep s
  | _ => replace_go pat rep 0 s
  end.

(** [ctx.artifactsDir && ctx.artifactConfig?.enabled !== false] *)
Definition artifacts_on (cfg : SubagentRunConfig) : bool :=
  truthy_opt (artifactsDir cfg) &&
  negb (bool_decide ((artifactConfig cfg ≫= ac_enabled) = Some false)).

Definition artifact_flag (cfg : SubagentRunConfig)
    (f : ArtifactConfig -> option bool) : bool :=
  negb (bool_decide ((artifactConfig cfg ≫= f) = Some false)).

Definition TASK_ARG_LIMIT : nat := 8 * 1000.

(** The local variables of [runSingleStep] that live across its await. *)
Record StepLocals : Type := {
  loc_task : string;
  loc_tmpDir : bool;
  loc_artifactPaths : option nat;
}.

Record SingleResult : Type := {
  sg_agent : string;
  sg_output : string;
  sg_exitCode : option Z;
  sg_artifactPaths : option nat;
}.

(** [runSingleStep], from its entry to the await of the child process.
    The command line it assembles is not recorded; what the child does
    with it is the world's [child]. *)
Definition runSingleStep_begin (cfg : SubagentRunConfig) (step : RunnerSubagentStep)
    (sessionDir : option path) (fi : nat) : Run StepLocals :=
  match sessionDir with Some d => emit (MkdirSync d) | None => mret tt end;;
  let hasPrompt := truthy_opt (systemPrompt step) in
  when hasPrompt
    (emit (MkdtempSync (TmpDir fi));;
     emit (WriteFileSync (PromptPath fi) (CText (default "" (systemPrompt step)))));;
  prev ← get rs_previousOutput;
  let task := replaceAll (placeholder cfg) prev (ParallelUtils.task step) in
  let long := bool_decide (TASK_ARG_LIMIT < JsString.length task) in
  when long
    (when (negb hasPrompt) (emit (MkdtempSync (TmpDir fi)));;
     emit (WriteFileSync (TaskFilePath fi) (CText ("Task: " ++ task))));;
  when (artifacts_on cfg)
    (emit (MkdirSync ArtifactsDir);;
     when (artifact_flag cfg ac_includeInput)
       (emit (WriteFileSync (ArtifactInput fi)
          (CText ("# Task for " ++ agent step ++ String "010" (String "010" task))))));;
  emit (CreateWriteStream (OutputLog fi));;
  mret {| loc_task := task;
          loc_tmpDir := hasPrompt || long;
          loc_artifactPaths := if artifacts_on cfg then Some fi else None |}.

(** [runSingleStep], from the close of the child process to the return. *)
Definition runSingleStep_end (cfg : SubagentRunConfig) (w : World)
    (step : RunnerSubagentStep) (fi : nat) (loc : StepLocals) : Run SingleResult :=
  let '(stdout, exitCode) := child w fi (loc_task loc) in
  when (loc_tmpDir loc) (emit (RmSync (TmpDir fi)));;
  let output := JsString.trim stdout in
  outputForSummary ←
    (match outputPath step with
     | Some target =>
         if JsString.truthy target && exit_ok exitCode then
           let '(saved, err) := persistSingleOutput w target output in
           if truthy_opt saved then
             emit (WriteFileSync (StepOutputPath fi) (CText output));;
             mret (if JsString.truthy output
                   then output ++ String "010" (String "010"
                          ("üìÑ Output saved to: " ++ default "" saved))
                   else "üìÑ Output saved to: " ++ default "" saved)
           else if truthy_opt err then
             mret (if JsString.truthy output
                   then output ++ String "010" (String "010"
                          ("‚ö†Ô∏è Failed to save output to: " ++ target
                           ++ String "010" (default "" err)))
                   else "‚ö†Ô∏è Failed to save output to: " ++ target
                        ++ String "010" (default "" err))
           else mret output
         else mret output
     | None => mret output
     end);
  when (bool_decide (is_Some (loc_artifactPaths loc)) && artifacts_on cfg)
    (when (artifact_flag cfg ac_includeOutput)
       (emit (WriteFileSync (ArtifactOutput fi) (CText output)));;
     when (artifact_flag cfg ac_includeMetadata)
       (emit (WriteFileSync (ArtifactMetadata fi) (CText (loc_task loc)))));;
  mret {| sg_agent := agent step;
          sg_output := outputForSummary;
          sg_exitCode := exitCode;
          sg_artifactPaths := loc_artifactPaths loc |}.


(** *** A parallel group: the callback given to [mapConcurrent] *)

(** The body of a skipped task, byte for byte as the source file has
    it: between the words are the seven bytes e2 80 9a c3 84 c3 ae
    (U+201A, U+00C4, U+00EE), not the three of an em dash
    (e2 80 94). *)
Definition SKIPPED_BODY : string := "(skipped ‚Äî fail-fast)".

Definition skipped_result (task : RunnerSubagentStep) : TaskResult :=
  {| tr_agent := agent task;
     tr_output := SKIPPED_BODY;
     tr_exitCode := Some (-1)%Z;
     tr_artifactPaths := None;
     tr_skipped := true |}.

Definition taskSessionDir (cfg : SubagentRunConfig) (taskIdx : nat) : option path :=
  if truthy_opt (sessionDir cfg) then Some (ParallelSessionDir taskIdx) else None.

(** From the call of the callback to its await of [runSingleStep]. *)
Definition group_task_start (cfg : SubagentRunConfig) (w : World)
    (failFast : bool) (groupStartFlatIndex : nat)
    (task : RunnerSubagentStep) (taskIdx : nat)
  : Run ((StepLocals * Z) + TaskResult) :=
  aborted ← get rs_aborted;
  if aborted && failFast then mret (inr (skipped_result task))
  else
    let fi := groupStartFlatIndex + taskIdx in
    taskStartTime ← now w;
    appendJsonl (StepStarted taskStartTime fi (agent task));;
    loc ← runSingleStep_begin cfg task (taskSessionDir cfg taskIdx) fi;
    mret (inl (loc, taskStartTime)).

(** From the return of [runSingleStep] to the return of the callback. *)
Definition group_task_finish (cfg : SubagentRunConfig) (w : World)
    (failFast : bool) (groupStartFlatIndex : nat)
    (task : RunnerSubagentStep) (taskIdx : nat) (locals : StepLocals * Z)
  : Run TaskResult :=
  let '(loc, taskStartTime) := locals in
  let fi := groupStartFlatIndex + taskIdx in
  singleResult ← runSingleStep_end cfg w task fi loc;
  taskEndTime ← now w;
  let taskDuration := (taskEndTime - taskStartTime)%Z in
  let ok := exit_ok (sg_exitCode singleResult) in
  update_row fi (fun r =>
    set_row_exitCode (Some (sg_exitCode singleResult))
      (set_row_durationMs (Some taskDuration)
        (set_row_endedAt (Some taskEndTime)
          (set_row_status (if ok then Complete else Failed) r))));;
  update_status (set_sp_lastUpdate taskEndTime);;
  writeStatus;;
  appendJsonl
    (if ok
     then StepCompleted taskEndTime fi (agent task) (sg_exitCode singleResult)
     else StepFailed taskEndTime fi (agent task) (sg_exitCode singleResult));;
  when (negb ok && failFast) (modify (set_rs_aborted true));;
  mret {| tr_agent := sg_agent singleResult;
          tr_output := sg_output singleResult;
          tr_exitCode := sg_exitCode singleResult;
          tr_artifactPaths := sg_artifactPaths singleResult;
          tr_skipped := false |}.

(** The two halves in the shape [mapConcurrent] takes them. *)
Definition group_fn_start (cfg : SubagentRunConfig) (w : World)
    (failFast : bool) (groupStartFlatIndex : nat)
    (task : RunnerSubagentStep) (taskIdx : nat) (st : rstate)
  : rstate * ((StepLocals * Z) + TaskResult) :=
  let '(res, st') := group_task_start cfg w failFast groupStartFlatIndex task taskIdx st in
  (st', res).

Definition group_fn_resume (cfg : SubagentRunConfig) (w : World)
    (failFast : bool) (groupStartFlatIndex : nat)
    (task : RunnerSubagentStep) (taskIdx : nat) (locals : StepLocals * Z)
    (_ : unit) (st : rstate) : rstate * TaskResult :=
  let '(res, st') := group_task_finish cfg w failFast groupStartFlatIndex task taskIdx locals st in
  (st', res).

(** What is left of a step: go on, stop the chain ([break]), or the run
    is still waiting for children that the schedule never completes. *)
Inductive flow : Type := Continue | Break | Waiting.

Definition add_tokens (a b : TokenUsage) : TokenUsage :=
  {| tk_input := tk_input a + tk_input b;
     tk_output := tk_output a + tk_output b;
     tk_total := tk_total a + tk_total b |}%Z.

Definition sub_tokens (a b : TokenUsage) : TokenUsage :=
  {| tk_input := tk_input a - tk_input b;
     tk_output := tk_output a - tk_output b;
     tk_total := tk_total a - tk_total b |}%Z.

(** Mark all tasks in the group as running. *)
Fixpoint mark_running (groupStartFlatIndex : nat) (groupStartTime : Z)
    (count : nat) : Run unit :=
  match count with
  | O => mret tt
  | S t =>
      mark_running groupStartFlatIndex groupStartTime t;;
      update_row (groupStartFlatIndex + t) (fun r =>
        set_row_startedAt (Some groupStartTime) (set_row_status Running r))
  end.

(** Aggregate token usage from the session directories of the tasks. *)
Fixpoint collect_group_tokens (w : World) (groupStartFlatIndex : nat)
    (count : nat) : Run unit :=
  match count with
  | O => mret tt
  | S t =>
      collect_group_tokens w groupStartFlatIndex t;;
      clock ← get rs_clock;
      match parseSessionTokens w (ParallelSessionDir t) clock with
      | Some taskTokens =>
          update_row (groupStartFlatIndex + t) (set_row_tokens (Some taskTokens));;
          prev ← get rs_prevTokens;
          modify (set_rs_prevTokens (add_tokens prev taskTokens))
      | None => mret tt
      end
  end.

Definition task_to_step_result (pr : TaskResult) : StepResult :=
  {| sr_agent := tr_agent pr;
     sr_output := tr_output pr;
     sr_success := exit_ok (tr_exitCode pr);
     sr_skipped := Some (tr_skipped pr);
     sr_artifactPaths := tr_artifactPaths pr;
     sr_truncated := None |}.

Definition task_to_aggregate (pr : TaskResult) : AggregateInput :=
  {| ai_agent := tr_agent pr;
     ai_output := tr_output pr;
     ai_exitCode := tr_exitCode pr;
     ai_error := None |}.

Definition exit_ok_or_skipped (pr : TaskResult) : bool :=
  exit_ok (tr_exitCode pr) || bool_decide (tr_exitCode pr = Some (-1)%Z).

(** [await mapConcurrent(group.parallel, concurrency, callback)] under
    the world's schedule for this group: the values of the tasks once
    every worker is done, nothing while children are still awaited. *)
Definition await_group (cfg : SubagentRunConfig) (w : World)
    (stepIndex : nat) (group : ParallelStepGroup) (concurrency : Js.number)
    (failFast : bool) (groupStartFlatIndex : nat)
  : Run (option (list TaskResult)) :=
  fun st =>
    let pool :=
      mc_run (group_fn_start cfg w failFast groupStartFlatIndex)
             (group_fn_resume cfg w failFast groupStartFlatIndex)
             (parallel group)
             ((fun wk => (wk, tt)) <$> schedule w stepIndex)
             (mc_init (parallel group) concurrency st) in
    if mc_final pool
    then (mapM (fun r => r) (mc_results pool), mc_shared pool)
    else (None, mc_shared pool).

(** The [isParallelGroup(step)] branch of the loop of [runSubagent]. *)
Definition run_group (cfg : SubagentRunConfig) (w : World)
    (stepIndex : nat) (group : ParallelStepGroup) : Run flow :=
  let concurrency := default MAX_PARALLEL_CONCURRENCY (concurrency group) in
  let failFast := default false (failFast group) in
  groupStartFlatIndex ← get rs_flatIndex;
  modify (set_rs_aborted false);;
  groupStartTime ← now w;
  mark_running groupStartFlatIndex groupStartTime (length (parallel group));;
  update_status (fun p =>
    set_sp_outputFile (OutputLog groupStartFlatIndex)
      (set_sp_lastUpdate groupStartTime
        (set_sp_currentStep groupStartFlatIndex p)));;
  writeStatus;;
  appendJsonl (ParallelStarted groupStartTime stepIndex (agent <$> parallel group));;
  awaited ← await_group cfg w stepIndex group concurrency failFast groupStartFlatIndex;
  match awaited with
  | None => mret Waiting
  | Some parallelResults =>
      modify (set_rs_flatIndex (groupStartFlatIndex + length (parallel group)));;
      when (truthy_opt (sessionDir cfg))
        (collect_group_tokens w groupStartFlatIndex (length (parallel group));;
         prev ← get rs_prevTokens;
         update_status (set_sp_totalTokens (Some prev));;
         t ← now w;
         update_status (set_sp_lastUpdate t);;
         writeStatus);;
      modify (fun s => set_rs_results
                (rs_results s ++ (task_to_step_result <$> parallelResults)) s);;
      modify (set_rs_previousOutput
                (aggregateParallelOutputs (task_to_aggregate <$> parallelResults)));;
      t ← now w;
      appendJsonl (ParallelCompleted t stepIndex
                     (forallb exit_ok_or_skipped parallelResults));;
      mret (if forallb exit_ok_or_skipped parallelResults then Continue else Break)
  end.

(** *** A sequential step *)

Definition run_sequential (cfg : SubagentRunConfig) (w : World)
    (seqStep : RunnerSubagentStep) : Run flow :=
  flatIndex ← get rs_flatIndex;
  stepStartTime ← now w;
  update_status (set_sp_currentStep flatIndex);;
  update_row flatIndex (fun r =>
    set_row_startedAt (Some stepStartTime)
      (set_row_skills (skills seqStep) (set_row_status Running r)));;
  update_status (fun p =>
    set_sp_outputFile (OutputLog flatIndex) (set_sp_lastUpdate stepStartTime p));;
  writeStatus;;
  appendJsonl (StepStarted stepStartTime flatIndex (agent seqStep));;
  loc ← runSingleStep_begin cfg seqStep
          (if truthy_opt (sessionDir cfg) then Some SessionDir else None) flatIndex;
  singleResult ← runSingleStep_end cfg w seqStep flatIndex loc;
  let ok := exit_ok (sg_exitCode singleResult) in
  modify (set_rs_previousOutput (sg_output singleResult));;
  modify (fun s => set_rs_results
            (rs_results s ++
             [{| sr_agent := sg_agent singleResult;
                 sr_output := sg_output singleResult;
                 sr_success := ok;
                 sr_skipped := None;
                 sr_artifactPaths := sg_artifactPaths singleResult;
                 sr_truncated := None |}]) s);;
  clock ← get rs_clock;
  let cumulativeTokens :=
    if truthy_opt (sessionDir cfg) then parseSessionTokens w SessionDir clock else None in
  prev ← get rs_prevTokens;
  let stepTokens := (fun c => sub_tokens c prev) <$> cumulativeTokens in
  match cumulativeTokens with
  | Some c => modify (set_rs_prevTokens c)
  | None => mret tt
  end;;
  stepEndTime ← now w;
  update_row flatIndex (fun r =>
    set_row_exitCode (Some (sg_exitCode singleResult))
      (set_row_durationMs (Some (stepEndTime - stepStartTime)%Z)
        (set_row_endedAt (Some stepEndTime)
          (set_row_status (if ok then Complete else Failed) r))));;
  match stepTokens with
  | Some tk =>
      update_row flatIndex (set_row_tokens (Some tk));;
      prev' ← get rs_prevTokens;
      update_status (set_sp_totalTokens (Some prev'))
  | None => mret tt
  end;;
  update_status (set_sp_lastUpdate stepEndTime);;
  writeStatus;;
  appendJsonl
    (if ok
     then StepCompleted stepEndTime flatIndex (agent seqStep) (sg_exitCode singleResult)
     else StepFailed stepEndTime flatIndex (agent seqStep) (sg_exitCode singleResult));;
  modify (set_rs_flatIndex (S flatIndex));;
  mret (if ok then Continue else Break).

(** *** The loop over the steps *)

Fixpoint run_steps (cfg : SubagentRunConfig) (w : World) (stepIndex : nat)
    (todo : list RunnerStep) : Run flow :=
  match todo with
  | [] => mret Continue
  | step :: rest =>
      f ← match step with
          | Group g => run_group cfg w stepIndex g
          | Sequential s => run_sequential cfg w s
          end;
      match f with
      | Continue => run_steps cfg w (S stepIndex) rest
      | Break => mret Break
      | Waiting => mret Waiting
      end
  end.

(** *** After the loop: summary, terminal status, log, result file *)

Definition summary_of (results : list StepResult) : string :=
  JsString.join (String "010" (String "010" ""))
    ((fun r => sr_agent r ++ ":" ++ String "010" (sr_output r)) <$> results).

Definition agentName_of (flatSteps : list RunnerSubagentStep) : string :=
  match flatSteps with
  | [s] => agent s
  | _ => "chain:" ++ JsString.join "->" (agent <$> flatSteps)
  end.

Definition status_string (s : step_status) : string :=
  match s with
  | Pending => "pending"
  | Running => "running"
  | Complete => "complete"
  | Failed => "failed"
  end.

(** The Markdown log, without the lines that print dates and durations. *)
Definition run_log (cfg : SubagentRunConfig) (p : StatusPayload)
    (summary : string) (truncated : bool) : string :=
  JsString.join (String "010" "")
    (["# Subagent run " ++ cfg_id cfg; "";
      "- **Mode:** " ++ match sp_mode p with ModeSingle => "single" | ModeChain => "chain" end;
      "- **CWD:** " ++ cfg_cwd cfg; ""; "## Steps";
      "| Step | Agent | Status | Duration |"; "| --- | --- | --- | --- |"]
     ++ imap (fun i row =>
           "| " ++ JsString.of_nat (i + 1) ++ " | " ++ row_agent row ++ " | "
           ++ status_string (row_status row) ++ " |") (sp_steps p)
     ++ [""; "## Summary"]
     ++ (if truncated then ["_Output truncated_"; ""] else [])
     ++ [if JsString.truthy (JsString.trim summary)
         then JsString.trim summary else "(no output)"; ""]).

Definition is_failed_row (r : StepRow) : bool := bool_decide (row_status r = Failed).

Definition finish (cfg : SubagentRunConfig) (w : World) (overallStartTime : Z)
  : Run unit :=
  results ← get rs_results;
  let summary0 := summary_of results in
  let '(truncated, summary) :=
    match maxOutput cfg with
    | Some mo =>
        let '(t, text) :=
          truncateOutput w summary0 mo (last results ≫= sr_artifactPaths) in
        if t then (true, text) else (false, summary0)
    | None => (false, summary0)
    end in
  let flatSteps := flattenSteps (steps cfg) in
  let agentName := agentName_of flatSteps in
  let shareEnabled := bool_decide (share cfg = Some true) in
  let '(sessionFile, shareUrl, gistUrl, shareError) :=
    if shareEnabled && truthy_opt (sessionDir cfg) then
      match findLatestSessionFile w with
      | Some f =>
          if JsString.truthy f then
            match exportAndShare w f with
            | inl (url, gist) => (Some f, Some url, Some gist, None)
            | inr err => (Some f, None, None, Some err)
            end
          else (Some f, None, None, Some "Session file not found.")
      | None => (None, None, None, Some "Session file not found.")
      end
    else (None, None, None, None) in
  runEndedAt ← now w;
  let allOk := forallb sr_success results in
  update_status (fun p =>
    set_sp_shareError shareError
      (set_sp_gistUrl gistUrl
        (set_sp_shareUrl shareUrl
          (set_sp_sessionFile sessionFile
            (set_sp_lastUpdate runEndedAt
              (set_sp_endedAt (Some runEndedAt)
                (set_sp_state (if allOk then RunComplete else RunFailed) p)))))));;
  p ← get rs_status;
  when (negb allOk)
    (match List.find is_failed_row (sp_steps p) with
     | Some failedStep =>
         when (JsString.truthy (row_agent failedStep))
           (update_status (set_sp_error (Some ("Step failed: " ++ row_agent failedStep))))
     | None => mret tt
     end);;
  writeStatus;;
  p ← get rs_status;
  appendJsonl (RunCompleted runEndedAt (sp_state p));;
  emit (WriteFileSync LogPath (CText (run_log cfg p summary truncated)));;
  emit (MkdirSync ResultsDir);;
  emit (WriteFileSync ResultPath (CResult
    {| rf_id := cfg_id cfg;
       rf_agent := agentName;
       rf_success := allOk;
       rf_summary := summary;
       rf_results :=
         (fun r =>
            {| sr_agent := sr_agent r;
               sr_output := sr_output r;
               sr_success := sr_success r;
               sr_skipped := if bool_decide (sr_skipped r = Some true)
                             then Some true else None;
               sr_artifactPaths := sr_artifactPaths r;
               sr_truncated := sr_truncated r |}) <$> results;
       rf_exitCode := if allOk then 0%Z else 1%Z;
       rf_timestamp := runEndedAt;
       rf_durationMs := (runEndedAt - overallStartTime)%Z;
       rf_truncated := truncated;
       rf_artifactsDir := artifactsDir cfg;
       rf_cwd := cfg_cwd cfg;
       rf_asyncDir := asyncDir cfg;
       rf_sessionId := sessionId cfg;
       rf_sessionFile := sessionFile;
       rf_shareUrl := shareUrl;
       rf_gistUrl := gistUrl;
       rf_shareError := shareError;
       rf_taskIndex := taskIndex cfg;
       rf_totalTasks := totalTasks cfg |})).

(** *** runSubagent *)

Definition initial_status (cfg : SubagentRunConfig) (w : World)
    (overallStartTime : Z) : StatusPayload :=
  let flatSteps := flattenSteps (steps cfg) in
  {| sp_runId := cfg_id cfg;
     sp_mode := if bool_decide (1 < length flatSteps) then ModeChain else ModeSingle;
     sp_state := RunRunning;
     sp_startedAt := overallStartTime;
     sp_endedAt := None;
     sp_lastUpdate := overallStartTime;
     sp_pid := process_pid w;
     sp_cwd := cfg_cwd cfg;
     sp_currentStep := 0;
     sp_steps :=
       (fun step =>
          {| row_agent := agent step;
             row_status := Pending;
             row_startedAt := None;
             row_endedAt := None;
             row_durationMs := None;
             row_exitCode := None;
             row_tokens := None;
             row_skills := skills step |}) <$> flatSteps;
     sp_artifactsDir := artifactsDir cfg;
     sp_sessionDir := sessionDir cfg;
     sp_outputFile := OutputLog 0;
     sp_totalTokens := None;
     sp_sessionFile := None;
     sp_shareUrl := None;
     sp_gistUrl := None;
     sp_shareError := None;
     sp_error := None |}.

Definition initial_state (cfg : SubagentRunConfig) (w : World) : rstate :=
  {| rs_status := initial_status cfg w (Date_now w 0);
     rs_trace := [];
     rs_clock := 1;
     rs_aborted := false;
     rs_previousOutput := "";
     rs_results := [];
     rs_flatIndex := 0;
     rs_prevTokens := {| tk_input := 0; tk_output := 0; tk_total := 0 |} |}.

(** The body of [runSubagent] from the first write on; [true] when the
    promise resolves, [false] when the run is left waiting. *)
Definition run_body (cfg : SubagentRunConfig) (w : World) : Run bool :=
  emit (MkdirSync AsyncDir);;
  writeStatus;;
  p ← get rs_status;
  appendJsonl (RunStarted (Date_now w 0) (sp_mode p));;
  f ← run_steps cfg w 0 (steps cfg);
  match f with
  | Waiting => mret false
  | _ => finish cfg w (Date_now w 0);; mret true
  end.

Definition runSubagent (cfg : SubagentRunConfig) (w : World) : bool * rstate :=
  run_body cfg w (initial_state cfg w).

(** The file operations of a run, oldest first. *)
Definition run_trace (cfg : SubagentRunConfig) (w : World) : list fs_op :=
  rs_trace (runSubagent cfg w).2.

(** *** The file system that a trace leaves *)

(** The directory that a file of the run is created in. *)
Definition parent (p : path) : option path :=
  match p with
  | StatusPath | EventsPath | LogPath | OutputLog _ => Some AsyncDir
  | ResultPath => Some ResultsDir
  | ParallelSessionDir _ => Some SessionDir
  | PromptPath fi | TaskFilePath fi => Some (TmpDir fi)
  | ArtifactInput _ | ArtifactOutput _ | ArtifactMetadata _ => Some ArtifactsDir
  | AsyncDir | ResultsDir | SessionDir | TmpDir _ | ArtifactsDir | StepOutputPath _ => None
  end.

(** [p] is [d] or a file in [d]: what [fs.rmSync(d, { recursive: true })]
    removes. *)
Definition under (d p : path) : bool :=
  bool_decide (p = d) || bool_decide (parent p = Some d).

Definition apply_op (fs : gmap path content) (op : fs_op) : gmap path content :=
  match op with
  | WriteFileSync p c => <[p := c]> fs
  | AppendLine p e =>
      match fs !! p with
      | Some (CEvents l) => <[p := CEvents (l ++ [e])]> fs
      | _ => <[p := CEvents [e]]> fs
      end
  | CreateWriteStream p => <[p := CText ""]> fs
  | RenameSync src dst =>
      match fs !! src with
      | Some c => <[dst := c]> (delete src fs)
      | None => fs
      end
  | RmSync d => filter (fun kv => under d kv.1 = false) fs
  | MkdirSync _ | MkdtempSync _ => fs
  end.

Definition replay (fs : gmap path content) (ops : list fs_op) : gmap path content :=
  foldl apply_op fs ops.

Definition terminal (s : run_state) : Prop := s = RunComplete \/ s = RunFailed.

(** status.json holds a payload whose state is terminal. *)
Definition status_terminal (fs : gmap path content) : Prop :=
  exists p, fs !! StatusPath = Some (CStatus p) /\ terminal (sp_state p).

(** *** What a trace may hold *)

(** The call changes what is at [p]. *)
Definition touches (p : path) (op : fs_op) : bool :=
  match op with
  | WriteFileSync q _ | AppendLine q _ | CreateWriteStream q => bool_decide (q = p)
  | RenameSync src dst => bool_decide (src = p) || bool_decide (dst = p)
  | RmSync d => under d p
  | MkdirSync _ | MkdtempSync _ => false
  end.

Definition is_status_write (op : fs_op) : bool :=
  match op with
  | WriteFileSync StatusPath _ => true
  | _ => false
  end.

Definition is_mkdir_async (op : fs_op) : bool :=
  match op with
  | MkdirSync AsyncDir => true
  | _ => false
  end.

Definition is_rename (op : fs_op) : bool :=
  match op with RenameSync _ _ => true | _ => false end.

(** The call leaves status.json alone or is
    [fs.writeFileSync(statusPath, <status payload>)]; it renames
    nothing, and it writes a status payload nowhere else. *)
Definition in_place (op : fs_op) : bool :=
  match op with
  | RenameSync _ _ => false
  | WriteFileSync p (CStatus _) => bool_decide (p = StatusPath)
  | _ => negb (touches StatusPath op)
  end.

(** Every write of status.json in [ops] comes right after
    [fs.mkdirSync(asyncDir)], as in [writeJson]; [prev] tells whether the
    call before [ops] was that [mkdirSync]. *)
Fixpoint paired_from (prev : bool) (ops : list fs_op) : bool :=
  match ops with
  | [] => true
  | op :: rest =>
      (if is_status_write op then prev else true) && paired_from (is_mkdir_async op) rest
  end.

Definition status_paired (ops : list fs_op) : bool := paired_from false ops.

(** A call made while the steps run: in place, and not on the result
    file. *)
Definition step_op (op : fs_op) : bool :=
  in_place op && negb (touches ResultPath op).

(** [s'] is [s] after more calls, all of them step calls. *)
Definition extends (s s' : rstate) : Prop :=
  exists ops,
    rs_trace s' = (rs_trace s ++ ops)%list /\
    forallb step_op ops = true /\ status_paired ops = true.

Definition emits {A : Type} (m : Run A) : Prop :=
  forall st, extends st (m st).2.

(** The calls that open a run: the run directory, then the first
    status.json through [writeJson], then the first event. *)
Definition opening_ops (cfg : SubagentRunConfig) (w : World) : list fs_op :=
  [MkdirSync AsyncDir; MkdirSync AsyncDir;
   WriteFileSync StatusPath (CStatus (initial_status cfg w (Date_now w 0)));
   AppendLine EventsPath
     (RunStarted (Date_now w 0) (sp_mode (initial_status cfg w (Date_now w 0))))].

(** The calls that end a run, see [finish]. *)
Definition finish_ops (p : StatusPayload) (e : event) (log : string)
    (r : ResultFile) : list fs_op :=
  [MkdirSync AsyncDir; WriteFileSync StatusPath (CStatus p);
   AppendLine EventsPath e; WriteFileSync LogPath (CText log);
   MkdirSync ResultsDir; WriteFileSync ResultPath (CResult r)].

(** The result file is there. *)
Definition result_exists (fs : gmap path content) : Prop :=
  is_Some (fs !! ResultPath).

(** *** What never changes in status.json *)

(** The fields that a run sets once: the run id, the mode, the start
    time, the process id, the working directory, and the agents of the
    step rows. *)
Definition same_frame (p0 p : StatusPayload) : Prop :=
  sp_runId p = sp_runId p0 /\ sp_mode p = sp_mode p0 /\
  sp_startedAt p = sp_startedAt p0 /\ sp_pid p = sp_pid p0 /\
  sp_cwd p = sp_cwd p0 /\
  row_agent <$> sp_steps p = row_agent <$> sp_steps p0.

Definition still_running (p : StatusPayload) : Prop :=
  sp_state p = RunRunning /\ sp_endedAt p = None.

Definition write_ok (p0 : StatusPayload) (op : fs_op) : Prop :=
  forall p, op = WriteFileSync StatusPath (CStatus p) ->
            same_frame p0 p /\ still_running p.

Definition framed (p0 : StatusPayload) (st : rstate) : Prop :=
  (same_frame p0 (rs_status st) /\ still_running (rs_status st)) /\
  Forall (write_ok p0) (rs_trace st).

Definition keeps (I : rstate -> Prop) {A : Type} (m : Run A) : Prop :=
  forall st, I st -> I (m st).2.


End RunnerCode.

(** ** agents.ts: the definitions the management interface edits *)

Module Agents.

Inductive source_scope : Type := User | Project.

Global Instance source_scope_eq_dec : EqDecision source_scope.
Proof. solve_decision. Defined.

Definition source_string (s : source_scope) : string :=
  match s with User => "user" | Project => "project" end.

Record AgentConfig : Type := {
  name : string;
  description : string;
  tools : option (list string);
  mcpDirectTools : option (list string);
  model : option string;
  thinking : option string;
  systemPrompt : string;
  source : source_scope;
  filePath : string;
  skills : option (list string);
  output : option string;
  defaultReads : option (list string);
  defaultProgress : option bool;
  interactive : option bool;
  extraFields : option (list (string * string));
}.

(** A field of type [T | false]. *)
Inductive or_false (A : Type) : Type :=
| IsFalse
| Val (a : A).
Arguments IsFalse {A}.
Arguments Val {A} a.

Record ChainStepConfig : Type := {
  cs_agent : string;
  cs_task : string;
  cs_output : option (or_false string);
  cs_reads : option (or_false (list string));
  cs_model : option string;
  cs_skills : option (or_false (list string));
  cs_progress : option bool;
}.

Record ChainConfig : Type := {
  ch_name : string;
  ch_description : string;
  ch_source : source_scope;
  ch_filePath : string;
  ch_steps : list ChainStepConfig;
  ch_extraFields : option (list (string * string));
}.

(** What [discoverAgentsAll(cwd)] returns. *)
Record Discovery : Type := {
  d_user : list AgentConfig;
  d_project : list AgentConfig;
  d_chains : list ChainConfig;
  d_userDir : string;
  d_projectDir : option string;
}.

End Agents.

(** ** agent-serializer.ts and chain-serializer.ts: what is written *)

Module Serializer.
Import Agents.
Local Open Scope list_scope.

Definition NL : string := String "010" "".

Definition joinComma (values : option (list string)) : option string :=
  match values with
  | None | Some [] => None
  | Some l => Some (JsString.join ", " l)
  end.

Definition opt_line (key : string) (value : option string) : list string :=
  match value with
  | Some v => if JsString.truthy v then [key +:+ ": " +:+ v] else []
  | None => []
  end.

Definition KNOWN_FIELDS : list string :=
  ["name"; "description"; "tools"; "model"; "thinking"; "skill"; "skills";
   "output"; "defaultReads"; "defaultProgress"; "interactive"].

Definition serializeAgent (config : AgentConfig) : string :=
  let toolList : list string :=
    (default [] (tools config)
     ++ ((fun t => "mcp:" +:+ t) <$> default [] (mcpDirectTools config))) in
  let lines : list string :=
    (["---"; "name: " +:+ name config; "description: " +:+ description config]
    ++ opt_line "tools" (joinComma (Some toolList))
    ++ opt_line "model" (model config)
    ++ (match thinking config with
        | Some t => if JsString.truthy t && negb (String.eqb t "off")
                    then ["thinking: " +:+ t] else []
        | None => []
        end)
    ++ opt_line "skills" (joinComma (skills config))
    ++ opt_line "output" (output config)
    ++ opt_line "defaultReads" (joinComma (defaultReads config))
    ++ (if default false (defaultProgress config) then ["defaultProgress: true"] else [])
    ++ (if default false (interactive config) then ["interactive: true"] else [])
    ++ (match extraFields config with
        | Some l =>
            (fun kv => kv.1 +:+ ": " +:+ kv.2)
              <$> filter (fun kv => kv.1 ∉ KNOWN_FIELDS) l
        | None => []
        end)
    ++ ["---"]) in
  JsString.join NL lines +:+ NL +:+ NL +:+ systemPrompt config +:+ NL.

Definition step_lines (last_one : bool) (step : ChainStepConfig) : list string :=
  (["## " +:+ cs_agent step]
  ++ (match cs_output step with
      | Some IsFalse => ["output: false"]
      | Some (Val o) => if JsString.truthy o then ["output: " +:+ o] else []
      | None => []
      end)
  ++ (match cs_reads step with
      | Some IsFalse => ["reads: false"]
      | Some (Val (r :: rs)) => ["reads: " +:+ JsString.join ", " (r :: rs)]
      | _ => []
      end)
  ++ opt_line "model" (cs_model step)
  ++ (match cs_skills step with
      | Some IsFalse => ["skills: false"]
      | Some (Val (r :: rs)) => ["skills: " +:+ JsString.join ", " (r :: rs)]
      | _ => []
      end)
  ++ (match cs_progress step with
      | Some b => ["progress: " +:+ if b then "true" else "false"]
      | None => []
      end)
  ++ [""; cs_task step]
  ++ (if last_one then [] else [""])).

Definition serializeChain (config : ChainConfig) : string :=
  let n := length (ch_steps config) in
  let lines : list string :=
    (["---"; "name: " +:+ ch_name config; "description: " +:+ ch_description config]
    ++ (match ch_extraFields config with
        | Some l => (fun kv => kv.1 +:+ ": " +:+ kv.2) <$> l
        | None => []
        end)
    ++ ["---"; ""]
    ++ concat (imap (fun i step => step_lines (bool_decide (S i = n)) step)
                    (ch_steps config))) in
  JsString.join NL lines +:+ NL.

End Serializer.

(** ** agent-management.ts *)

Module Management.
Import Agents Serializer.
Local Open Scope list_scope.

(** A value as [JSON.parse] gives it; objects keep their keys in a list,
    read with the first match. *)
Local Unset Elimination Schemes.
Inductive json : Type :=
| JNull
| JBool (b : bool)
| JNum (z : Z)
| JStr (s : string)
| JArr (l : list json)
| JObj (fields : list (string * json)).
Local Set Elimination Schemes.

Fixpoint assoc {A : Type} (key : string) (l : list (string * A)) : option A :=
  match l with
  | [] => None
  | (k, v) :: rest => if String.eqb k key then Some v else assoc key rest
  end.

Definition hasKey (obj : list (string * json)) (key : string) : bool :=
  bool_decide (is_Some (assoc key obj)).

(** *** sanitizeName

    [name.toLowerCase().trim().replace(/\s+/g, "-")
         .replace(/[^a-z0-9-]/g, "").replace(/-+/g, "-")
         .replace(/^-+|-+$/g, "")]

    White space is that of [JsString], in one to three bytes.  The
    class [[a-z0-9-]] holds characters of one byte only, so the second
    replacement drops every byte of a character outside ASCII. *)

Definition hyphen : ascii := "-"%char.

Definition is_hyphen (c : ascii) : bool := Ascii.eqb c hyphen.

(** The class [[a-z0-9-]]. *)
Definition is_name_char (c : ascii) : bool :=
  let n := nat_of_ascii c in
  ((97 <=? n) && (n <=? 122)) || ((48 <=? n) && (n <=? 57)) || is_hyphen c.

(** [replace(/C+/g, "-")] for a character class [C]: every maximal run
    of characters of the class becomes one hyphen.  [in_run] tells that
    the previous character was of the class. *)
Fixpoint runs_to_hyphen (cls : ascii -> bool) (in_run : bool) (s : string) : string :=
  match s with
  | EmptyString => EmptyString
  | String c r =>
      if cls c
      then (if in_run then runs_to_hyphen cls true r
            else String hyphen (runs_to_hyphen cls true r))
      else String c (runs_to_hyphen cls false r)
  end.

(** [replace(/[^C]/g, "")] *)
Fixpoint keep (cls : ascii -> bool) (s : string) : string :=
  match s with
  | EmptyString => EmptyString
  | String c r => if cls c then String c (keep cls r) else keep cls r
  end.

Fixpoint dropStart (cls : ascii -> bool) (s : string) : string :=
  match s with
  | String c r => if cls c then dropStart cls r else s
  | EmptyString => EmptyString
  end.

Fixpoint dropEnd (cls : ascii -> bool) (s : string) : string :=
  match s with
  | EmptyString => EmptyString
  | String c r =>
      match dropEnd cls r with
      | EmptyString => if cls c then EmptyString else String c EmptyString
      | kept => String c kept
      end
  end.

Definition sanitizeName (name : string) : string :=
  dropEnd is_hyphen
    (dropStart is_hyphen
      (runs_to_hyphen is_hyphen false
        (keep is_name_char
          (JsString.spaces_to_hyphen false
            (JsString.trim (JsString.toLowerCase name)))))).


(** *** Small helpers *)

(** [s.split(sep)] for a one-character separator. *)
Fixpoint split (sep : ascii) (s : string) : list string :=
  match s with
  | EmptyString => [EmptyString]
  | String c r =>
      if Ascii.eqb c sep then EmptyString :: split sep r
      else match split sep r with
           | first :: others => String c first :: others
           | [] => [String c EmptyString]
           end
  end.

(** [[...new Set(l)]]: duplicates removed, first occurrences kept. *)
Fixpoint dedupe_go (seen todo : list string) : list string :=
  match todo with
  | [] => []
  | x :: rest =>
      if bool_decide (x ∈ seen) then dedupe_go seen rest
      else x :: dedupe_go (x :: seen) rest
  end.

Definition dedupe (l : list string) : list string := dedupe_go [] l.

Definition nonempty (s : string) : bool := JsString.truthy s.

Definition parseCsv (value : string) : list string :=
  dedupe (List.filter nonempty (JsString.trim <$> split ","%char value)).

(** [l.sort((a, b) => cmp(a, b))] with a comparator that answers a
    number.  The sort is stable: [x], which comes before the elements
    of [l] in the array, is put before the first of them that is not
    to come before it, so before its equals. *)
Fixpoint sort_insert {A : Type} (cmp : A -> A -> Z) (x : A) (l : list A) : list A :=
  match l with
  | [] => [x]
  | y :: rest => if (cmp x y <=? 0)%Z then x :: l else y :: sort_insert cmp x rest
  end.

Definition sort_by {A : Type} (cmp : A -> A -> Z) (l : list A) : list A :=
  foldr (fun x acc => sort_insert cmp x acc) [] l.

Definition endsWith (suffix s : string) : bool :=
  let n := String.length s in
  let k := String.length suffix in
  (k <=? n) && String.eqb (String.substring (n - k) k s) suffix.

Fixpoint last_slash (s : string) (pos : nat) (found : option nat) : option nat :=
  match s with
  | EmptyString => found
  | String c r =>
      last_slash r (S pos) (if Ascii.eqb c "/"%char then Some pos else found)
  end.

(** [path.dirname] and [path.join] on slash-separated paths. *)
Definition dirname (p : string) : string :=
  match last_slash p 0 None with
  | Some 0 => "/"
  | Some i => String.substring 0 i p
  | None => "."
  end.

Definition join2 (dir file : string) : string := dir +:+ "/" +:+ file.

(** *** The files of the agent store *)

Record Files : Type := {
  dirs : gset string;
  files : gmap string string;
}.

Definition existsSync (p : string) (fs : Files) : bool :=
  bool_decide (is_Some (files fs !! p)) || bool_decide (p ∈ dirs fs).

Definition mkdirSync (p : string) (fs : Files) : Files :=
  {| dirs := {[p]} ∪ dirs fs; files := files fs |}.

Definition writeFileSync (p content : string) (fs : Files) : Files :=
  {| dirs := dirs fs; files := <[p := content]> (files fs) |}.

Definition renameSync (src dst : string) (fs : Files) : Files :=
  match files fs !! src with
  | Some c => {| dirs := dirs fs; files := <[dst := c]> (delete src (files fs)) |}
  | None => fs
  end.

Definition unlinkSync (p : string) (fs : Files) : Files :=
  {| dirs := dirs fs; files := delete p (files fs) |}.

(** What the handlers take from their surroundings: the working
    directory, the model registry, and the readers of the disk that are
    implemented elsewhere: the discovery of agents and chains
    ([discoverAgentsAll], which parses the files found), the discovery of
    skills, [JSON.parse] and the collation order of [localeCompare]. *)
Record ManagementContext : Type := {
  ctx_cwd : string;
  modelRegistry : list (string * string);
  discoverAgentsAll : string -> Files -> Discovery;
  discoverAvailableSkills : string -> Files -> list string;
  JSON_parse : string -> option json;
  localeCompare : string -> string -> Z;
}.

Record ManagementParams : Type := {
  action : option string;
  agent : option string;
  chainName : option string;
  agentScope : option string;
  config : option json;
}.

(** The tool result of a management action: [result(text, isError)]
    always carries [details.mode = "management"] and no results. *)
Record AgentToolResult : Type := {
  text : string;
  isError : bool;
}.

Definition result (t : string) (e : bool) : AgentToolResult :=
  {| text := t; isError := e |}.

Definition configObject (ctx : ManagementContext) (config : option json)
  : option (list (string * json)) :=
  let val := match config with
             | Some (JStr s) => JSON_parse ctx s
             | other => other
             end in
  match val with
  | Some (JObj fields) => Some fields
  | _ => None
  end.

Definition asDisambiguationScope (scope : option string) : option source_scope :=
  match scope with
  | Some "user" => Some User
  | Some "project" => Some Project
  | _ => None
  end.

(** A scope filter: [None] is "both". *)
Definition in_scope (scope : option source_scope) (s : source_scope) : bool :=
  match scope with
  | None => true
  | Some wanted => bool_decide (s = wanted)
  end.

Definition normalizeListScope (scope : option string) : option (option source_scope) :=
  match scope with
  | None => Some None
  | Some "user" => Some (Some User)
  | Some "project" => Some (Some Project)
  | Some "both" => Some None
  | Some _ => None
  end.

Definition by_source {A : Type} (ctx : ManagementContext) (src : A -> source_scope)
    (a b : A) : Z :=
  localeCompare ctx (source_string (src a)) (source_string (src b)).

Definition availableNames (ctx : ManagementContext) (fs : Files) (chains : bool)
  : list string :=
  let d := discoverAgentsAll ctx (ctx_cwd ctx) fs in
  let names := if chains then ch_name <$> d_chains d
               else name <$> (d_user d ++ d_project d) in
  sort_by (localeCompare ctx) (dedupe names).

Definition findAgents (ctx : ManagementContext) (fs : Files) (nm : string)
    (scope : option source_scope) : list AgentConfig :=
  let d := discoverAgentsAll ctx (ctx_cwd ctx) fs in
  let raw := JsString.trim nm in
  let sanitized := sanitizeName raw in
  sort_by (by_source ctx source)
    (List.filter
       (fun a => in_scope scope (source a)
                 && (String.eqb (name a) raw || String.eqb (name a) sanitized))
       (d_user d ++ d_project d)).

Definition findChains (ctx : ManagementContext) (fs : Files) (nm : string)
    (scope : option source_scope) : list ChainConfig :=
  let raw := JsString.trim nm in
  let sanitized := sanitizeName raw in
  sort_by (by_source ctx ch_source)
    (List.filter
       (fun c => in_scope scope (ch_source c)
                 && (String.eqb (ch_name c) raw || String.eqb (ch_name c) sanitized))
       (d_chains (discoverAgentsAll ctx (ctx_cwd ctx) fs))).

Definition nameExistsInScope (ctx : ManagementContext) (fs : Files)
    (scope : source_scope) (nm : string) (excludePath : option string) : bool :=
  let d := discoverAgentsAll ctx (ctx_cwd ctx) fs in
  existsb (fun a => String.eqb (name a) nm
                    && negb (bool_decide (Some (filePath a) = excludePath)))
          (match scope with User => d_user d | Project => d_project d end)
  || existsb (fun c => bool_decide (ch_source c = scope)
                       && String.eqb (ch_name c) nm
                       && negb (bool_decide (Some (ch_filePath c) = excludePath)))
             (d_chains d).

Definition model_known (ctx : ManagementContext) (m : string) : bool :=
  existsb (fun pm => String.eqb (pm.1 +:+ "/" +:+ pm.2) m || String.eqb pm.2 m)
          (modelRegistry ctx).

Definition unknownChainAgents (ctx : ManagementContext) (fs : Files)
    (steps : list ChainStepConfig) : list string :=
  let d := discoverAgentsAll ctx (ctx_cwd ctx) fs in
  let known := name <$> (d_user d ++ d_project d) in
  sort_by (localeCompare ctx)
    (dedupe (List.filter (fun a => negb (bool_decide (a ∈ known))) (cs_agent <$> steps))).

Definition chainStepWarning (ctx : ManagementContext) (available : list string)
    (i : nat) (s : ChainStepConfig) : list string :=
  (match cs_model s with
   | Some m =>
       if JsString.truthy m && negb (model_known ctx m)
       then ["Warning: step " +:+ JsString.of_nat (i + 1) +:+ " (" +:+ cs_agent s
             +:+ "): model '" +:+ m +:+ "' is not in the current model registry."]
       else []
   | None => []
   end)
  ++ (match cs_skills s with
      | Some (Val (sk :: sks)) =>
          let missing :=
            List.filter (fun x => negb (bool_decide (x ∈ available))) (sk :: sks) in
          match missing with
          | [] => []
          | _ => ["Warning: step " +:+ JsString.of_nat (i + 1) +:+ " (" +:+ cs_agent s
                  +:+ "): skills not found: " +:+ JsString.join ", " missing +:+ "."]
          end
      | _ => []
      end).

Definition chainStepWarnings (ctx : ManagementContext) (fs : Files)
    (steps : list ChainStepConfig) : list string :=
  let available := discoverAvailableSkills ctx (ctx_cwd ctx) fs in
  concat (imap (chainStepWarning ctx available) steps).

Definition modelWarning (ctx : ManagementContext) (m : option string) : option string :=
  match m with
  | Some mdl =>
      if JsString.truthy mdl && negb (model_known ctx mdl)
      then Some ("Warning: model '" +:+ mdl +:+ "' is not in the current model registry.")
      else None
  | None => None
  end.

Definition skillsWarning (ctx : ManagementContext) (fs : Files)
    (sk : option (list string)) : option string :=
  match sk with
  | Some (s :: ss) =>
      let available := discoverAvailableSkills ctx (ctx_cwd ctx) fs in
      let missing := List.filter (fun x => negb (bool_decide (x ∈ available))) (s :: ss) in
      match missing with
      | [] => None
      | _ => Some ("Warning: skills not found: " +:+ JsString.join ", " missing +:+ ".")
      end
  | _ => None
  end.

(** The strings of an array, trimmed, the empty ones dropped:
    [raw.filter(v => typeof v === "string").map(v => v.trim()).filter(Boolean)] *)
Definition string_items (l : list json) : list string :=
  List.filter nonempty
    (omap (fun v => match v with JStr s => Some (JsString.trim s) | _ => None end) l).

Definition step_error (i : nat) (what : string) : string :=
  "config.steps[" +:+ JsString.of_nat i +:+ "]" +:+ what.

Definition parseStep (i : nat) (item : json) : ChainStepConfig + string :=
  match item with
  | JObj s =>
      match assoc "agent" s with
      | Some (JStr a) =>
          if negb (JsString.truthy (JsString.trim a))
          then inr (step_error i ".agent must be a non-empty string.")
          else
            let task := match assoc "task" s with Some (JStr t) => t | _ => "" end in
            match
              (match assoc "output" s with
               | None => inl None
               | Some (JBool false) => inl (Some IsFalse)
               | Some (JStr o) => inl (Some (Val o))
               | Some _ => inr (step_error i ".output must be a string or false.")
               end),
              (match assoc "reads" s with
               | None => inl None
               | Some (JBool false) => inl (Some IsFalse)
               | Some (JArr l) => inl (Some (Val (string_items l)))
               | Some _ => inr (step_error i ".reads must be an array or false.")
               end),
              (match assoc "model" s with
               | None => inl None
               | Some (JStr m) => inl (Some m)
               | Some _ => inr (step_error i ".model must be a string.")
               end),
              (match assoc "skills" s with
               | None => inl None
               | Some (JBool false) => inl (Some IsFalse)
               | Some (JArr l) => inl (Some (Val (string_items l)))
               | Some _ => inr (step_error i ".skills must be an array or false.")
               end),
              (match assoc "progress" s with
               | None => inl None
               | Some (JBool b) => inl (Some b)
               | Some _ => inr (step_error i ".progress must be a boolean.")
               end)
            with
            | inr e, _, _, _, _ => inr e
            | _, inr e, _, _, _ => inr e
            | _, _, inr e, _, _ => inr e
            | _, _, _, inr e, _ => inr e
            | _, _, _, _, inr e => inr e
            | inl o, inl r, inl m, inl k, inl p =>
                inl {| cs_agent := JsString.trim a; cs_task := task;
                       cs_output := o; cs_reads := r; cs_model := m;
                       cs_skills := k; cs_progress := p |}
            end
      | _ => inr (step_error i ".agent must be a non-empty string.")
      end
  | _ => inr (step_error i " must be an object.")
  end.

Fixpoint parseSteps (i : nat) (raw : list json) : list ChainStepConfig + string :=
  match raw with
  | [] => inl []
  | item :: rest =>
      match parseStep i item with
      | inr e => inr e
      | inl step =>
          match parseSteps (S i) rest with
          | inr e => inr e
          | inl steps => inl (step :: steps)
          end
      end
  end.

Definition parseStepList (raw : option json) : list ChainStepConfig + string :=
  match raw with
  | Some (JArr []) => inr "config.steps must include at least one step."
  | Some (JArr l) => parseSteps 0 l
  | _ => inr "config.steps must be an array."
  end.

Definition list_or_none (l : list string) : option (list string) :=
  match l with [] => None | _ => Some l end.

Definition parseTools (raw : string) : option (list string) * option (list string) :=
  let items := parseCsv raw in
  let direct :=
    List.filter nonempty
      (omap (fun item => if String.prefix "mcp:" item
                         then Some (JsString.trim (String.substring 4 (String.length item - 4) item))
                         else None) items) in
  let plain := List.filter (fun item => negb (String.prefix "mcp:" item)) items in
  (list_or_none plain, list_or_none direct).

(** *** Field assignments on definitions *)

Definition set_name (v : string) (x : AgentConfig) : AgentConfig :=
  {| name := v;
     description := description x;
     tools := tools x;
     mcpDirectTools := mcpDirectTools x;
     model := model x;
     thinking := thinking x;
     systemPrompt := systemPrompt x;
     source := source x;
     filePath := filePath x;
     skills := skills x;
     output := output x;
     defaultReads := defaultReads x;
     defaultProgress := defaultProgress x;
     interactive := interactive x;
     extraFields := extraFields x |}.

Definition set_description (v : string) (x : AgentConfig) : AgentConfig :=
  {| name := name x;
     description := v;
     tools := tools x;
     mcpDirectTools := mcpDirectTools x;
     model := model x;
     thinking := thinking x;
     systemPrompt := systemPrompt x;
     source := source x;
     filePath := filePath x;
     skills := skills x;
     output := output x;
     defaultReads := defaultReads x;
     defaultProgress := defaultProgress x;
     interactive := interactive x;
     extraFields := extraFields x |}.

Definition set_tools (v : option (list string)) (x : AgentConfig) : AgentConfig :=
  {| name := name x;
     description := description x;
     tools := v;
     mcpDirectTools := mcpDirectTools x;
     model := model x;
     thinking := thinking x;
     systemPrompt := systemPrompt x;
     source := source x;
     filePath := filePath x;
     skills := skills x;
     output := output x;
     defaultReads := defaultReads x;
     defaultProgress := defaultProgress x;
     interactive := interactive x;
     extraFields := extraFields x |}.

Definition set_mcpDirectTools (v : option (list string)) (x : AgentConfig) : AgentConfig :=
  {| name := name x;
     description := description x;
     tools := tools x;
     mcpDirectTools := v;
     model := model x;
     thinking := thinking x;
     systemPrompt := systemPrompt x;
     source := source x;
     filePath := filePath x;
     skills := skills x;
     output := output x;
     defaultReads := defaultReads x;
     defaultProgress := defaultProgress x;
     interactive := interactive x;
     extraFields := extraFields x |}.

Definition set_model (v : option string) (x : AgentConfig) : AgentConfig :=
  {| name := name x;
     description := description x;
     tools := tools x;
     mcpDirectTools := mcpDirectTools x;
     model := v;
     thinking := thinking x;
     systemPrompt := systemPrompt x;
     source := source x;
     filePath := filePath x;
     skills := skills x;
     output := output x;
     defaultReads := defaultReads x;
     defaultProgress := defaultProgress x;
     interactive := interactive x;
     extraFields := extraFields x |}.

Definition set_thinking (v : option string) (x : AgentConfig) : AgentConfig :=
  {| name := name x;
     description := description x;
     tools := tools x;
     mcpDirectTools := mcpDirectTools x;
     model := model x;
     thinking := v;
     systemPrompt := systemPrompt x;
     source := source x;
     filePath := filePath x;
     skills := skills x;
     output := output x;
     defaultReads := defaultReads x;
     defaultProgress := defaultProgress x;
     interactive := interactive x;
     extraFields := extraFields x |}.

Definition set_systemPrompt (v : string) (x : AgentConfig) : AgentConfig :=
  {| name := name x;
     description := description x;
     tools := tools x;
     mcpDirectTools := mcpDirectTools x;
     model := model x;
     thinking := thinking x;
     systemPrompt := v;
     source := source x;
     filePath := filePath x;
     skills := skills x;
     output := output x;
     defaultReads := defaultReads x;
     defaultProgress := defaultProgress x;
     interactive := interactive x;
     extraFields := extraFields x |}.

Definition set_filePath (v : string) (x : AgentConfig) : AgentConfig :=
  {| name := name x;
     description := description x;
     tools := tools x;
     mcpDirectTools := mcpDirectTools x;
     model := model x;
     thinking := thinking x;
     systemPrompt := systemPrompt x;
     source := source x;
     filePath := v;
     skills := skills x;
     output := output x;
     defaultReads := defaultReads x;
     defaultProgress := defaultProgress x;
     interactive := interactive x;
     extraFields := extraFields x |}.

Definition set_skills (v : option (list string)) (x : AgentConfig) : AgentConfig :=
  {| name := name x;
     description := description x;
     tools := tools x;
     mcpDirectTools := mcpDirectTools x;
     model := model x;
     thinking := thinking x;
     systemPrompt := systemPrompt x;
     source := source x;
     filePath := filePath x;
     skills := v;
     output := output x;
     defaultReads := defaultReads x;
     defaultProgress := defaultProgress x;
     interactive := interactive x;
     extraFields := extraFields x |}.

Definition set_output (v : option string) (x : AgentConfig) : AgentConfig :=
  {| name := name x;
     description := description x;
     tools := tools x;
     mcpDirectTools := mcpDirectTools x;
     model := model x;
     thinking := thinking x;
     systemPrompt := systemPrompt x;
     source := source x;
     filePath := filePath x;
     skills := skills x;
     output := v;
     defaultReads := defaultReads x;
     defaultProgress := defaultProgress x;
     interactive := interactive x;
     extraFields := extraFields x |}.

Definition set_defaultReads (v : option (list string)) (x : AgentConfig) : AgentConfig :=
  {| name := name x;
     description := description x;
     tools := tools x;
     mcpDirectTools := mcpDirectTools x;
     model := model x;
     thinking := thinking x;
     systemPrompt := systemPrompt x;
     source := source x;
     filePath := filePath x;
     skills := skills x;
     output := output x;
     defaultReads := v;
     defaultProgress := defaultProgress x;
     interactive := interactive x;
     extraFields := extraFields x |}.

Definition set_defaultProgress (v : option bool) (x : AgentConfig) : AgentConfig :=
  {| name := name x;
     description := description x;
     tools := tools x;
     mcpDirectTools := mcpDirectTools x;
     model := model x;
     thinking := thinking x;
     systemPrompt := systemPrompt x;
     source := source x;
     filePath := filePath x;
     skills := skills x;
     output := output x;
     defaultReads := defaultReads x;
     defaultProgress := v;
     interactive := interactive x;
     extraFields := extraFields x |}.

Definition set_ch_name (v : string) (x : ChainConfig) : ChainConfig :=
  {| ch_name := v;
     ch_description := ch_description x;
     ch_source := ch_source x;
     ch_filePath := ch_filePath x;
     ch_steps := ch_steps x;
     ch_extraFields := ch_extraFields x |}.

Definition set_ch_description (v : string) (x : ChainConfig) : ChainConfig :=
  {| ch_name := ch_name x;
     ch_description := v;
     ch_source := ch_source x;
     ch_filePath := ch_filePath x;
     ch_steps := ch_steps x;
     ch_extraFields := ch_extraFields x |}.

Definition set_ch_filePath (v : string) (x : ChainConfig) : ChainConfig :=
  {| ch_name := ch_name x;
     ch_description := ch_description x;
     ch_source := ch_source x;
     ch_filePath := v;
     ch_steps := ch_steps x;
     ch_extraFields := ch_extraFields x |}.

Definition set_ch_steps (v : list ChainStepConfig) (x : ChainConfig) : ChainConfig :=
  {| ch_name := ch_name x;
     ch_description := ch_description x;
     ch_source := ch_source x;
     ch_filePath := ch_filePath x;
     ch_steps := v;
     ch_extraFields := ch_extraFields x |}.

(** *** applyAgentConfig *)

(** A field that [config] may clear with [false] or [""] and set with a
    string: what the key holds, read as the code tests it. *)
Inductive field_value : Type :=
| FAbsent
| FClear
| FString (s : string)
| FOther.

Definition field_of (cfg : list (string * json)) (key : string) : field_value :=
  match assoc key cfg with
  | None => FAbsent
  | Some (JBool false) => FClear
  | Some (JStr "") => FClear
  | Some (JStr s) => FString s
  | Some _ => FOther
  end.

Definition trimmed_or_none (s : string) : option string :=
  let t := JsString.trim s in if JsString.truthy t then Some t else None.

(** One field of [applyAgentConfig]: cleared, set, left alone, or
    refused with the message of the field. *)
Definition apply_field (cfg : list (string * json)) (key message : string)
    (clear : AgentConfig -> AgentConfig)
    (assign : string -> AgentConfig -> AgentConfig)
    (target : AgentConfig) : AgentConfig + string :=
  match field_of cfg key with
  | FAbsent => inl target
  | FClear => inl (clear target)
  | FString s => inl (assign s target)
  | FOther => inr message
  end.

Definition apply_progress (cfg : list (string * json)) (target : AgentConfig)
  : AgentConfig + string :=
  match assoc "progress" cfg with
  | None => inl target
  | Some (JBool b) => inl (set_defaultProgress (Some b) target)
  | Some _ => inr "config.progress must be a boolean when provided."
  end.

(** The early return of an error: [x] then [f], unless [x] failed. *)
Definition and_then {A B E : Type} (x : A + E) (f : A -> B + E) : B + E :=
  match x with
  | inl a => f a
  | inr e => inr e
  end.

Definition applyAgentConfig (target : AgentConfig) (cfg : list (string * json))
  : AgentConfig + string :=
  and_then (apply_field cfg "systemPrompt"
              "config.systemPrompt must be a string or false when provided."
              (set_systemPrompt "") set_systemPrompt target) (fun t1 =>
  and_then (apply_field cfg "model"
              "config.model must be a string or false when provided."
              (set_model None) (fun s => set_model (trimmed_or_none s)) t1) (fun t2 =>
  and_then (apply_field cfg "tools"
              "config.tools must be a comma-separated string or false when provided."
              (fun t => set_mcpDirectTools None (set_tools None t))
              (fun s t => set_mcpDirectTools (parseTools s).2
                            (set_tools (parseTools s).1 t)) t2) (fun t3 =>
  and_then (apply_field cfg "skills"
              "config.skills must be a comma-separated string or false when provided."
              (set_skills None)
              (fun s => set_skills (list_or_none (parseCsv s))) t3) (fun t4 =>
  and_then (apply_field cfg "thinking"
              "config.thinking must be a string or false when provided."
              (set_thinking None) (fun s => set_thinking (trimmed_or_none s)) t4) (fun t5 =>
  and_then (apply_field cfg "output"
              "config.output must be a string or false when provided."
              (set_output None) (fun s => set_output (Some s)) t5) (fun t6 =>
  and_then (apply_field cfg "reads"
              "config.reads must be a comma-separated string or false when provided."
              (set_defaultReads None)
              (fun s => set_defaultReads (list_or_none (parseCsv s))) t6) (fun t7 =>
  apply_progress cfg t7))))))).

(** *** resolveTarget and renamePath *)

Definition kind_label (chains : bool) : string := if chains then "Chain" else "Agent".
Definition kind_word (chains : bool) : string := if chains then "chain" else "agent".

Definition resolveTarget {T : Type} (ctx : ManagementContext) (fs : Files)
    (chains : bool) (src : T -> source_scope) (fpath : T -> string)
    (nm : string) (matches : list T) (scopeHint : option string)
  : T + AgentToolResult :=
  match matches with
  | [] =>
      let available := availableNames ctx fs chains in
      inr (result (kind_label chains +:+ " '" +:+ nm +:+ "' not found. Available: "
                   +:+ (match available with
                        | [] => "none"
                        | _ => JsString.join ", " available
                        end) +:+ ".") true)
  | [one] => inl one
  | _ =>
      match asDisambiguationScope scopeHint with
      | None =>
          let paths :=
            JsString.join NL
              ((fun m => source_string (src m) +:+ ": " +:+ fpath m) <$> matches) in
          inr (result (kind_label chains +:+ " '" +:+ nm
                       +:+ "' exists in both scopes. Specify agentScope: 'user' or 'project'."
                       +:+ NL +:+ paths) true)
      | Some scope =>
          match List.filter (fun m => bool_decide (src m = scope)) matches with
          | [] => inr (result (kind_label chains +:+ " '" +:+ nm
                               +:+ "' not found in scope '" +:+ source_string scope
                               +:+ "'.") true)
          | [one] => inl one
          | scoped =>
              inr (result ("Multiple " +:+ kind_word chains +:+ "s named '" +:+ nm
                           +:+ "' found in scope '" +:+ source_string scope +:+ "': "
                           +:+ JsString.join ", " (fpath <$> scoped)) true)
          end
      end
  end.

Definition renamePath (ctx : ManagementContext) (chains : bool)
    (currentPath newName : string) (scope : source_scope) (fs : Files)
  : (string + string) * Files :=
  if nameExistsInScope ctx fs scope newName (Some currentPath)
  then (inr ("Name '" +:+ newName +:+ "' already exists in "
             +:+ source_string scope +:+ " scope."), fs)
  else
    let ext := if chains then ".chain.md" else ".md" in
    let target := join2 (dirname currentPath) (newName +:+ ext) in
    if existsSync target fs && negb (String.eqb target currentPath)
    then (inr ("File already exists at " +:+ target +:+ " but is not a valid "
               +:+ kind_word chains +:+ " definition. Remove or rename it first."), fs)
    else (inl target, renameSync currentPath target fs).

(** *** handleCreate *)

Definition string_field (cfg : list (string * json)) (key : string) : option string :=
  match assoc key cfg with
  | Some (JStr s) => if JsString.truthy (JsString.trim s) then Some s else None
  | _ => None
  end.

Definition with_warnings (headline : string) (warnings : list string) : string :=
  JsString.join NL (headline :: warnings).

Definition opt_list {A : Type} (o : option A) : list A :=
  match o with Some a => [a] | None => [] end.

Definition handleCreate (ctx : ManagementContext) (params : ManagementParams)
    (fs : Files) : AgentToolResult * Files :=
  match configObject ctx (config params) with
  | None => (result "config required for create." true, fs)
  | Some cfg =>
  match string_field cfg "name" with
  | None => (result "config.name is required and must be a non-empty string." true, fs)
  | Some rawName =>
  match string_field cfg "description" with
  | None =>
      (result "config.description is required and must be a non-empty string." true, fs)
  | Some rawDescription =>
  let nm := sanitizeName rawName in
  if negb (JsString.truthy nm) then
    (result "config.name is invalid after sanitization. Use letters, numbers, spaces, or hyphens." true, fs)
  else
  match (match assoc "scope" cfg with
         | None | Some JNull | Some (JStr "user") => Some User
         | Some (JStr "project") => Some Project
         | Some _ => None
         end) with
  | None => (result "config.scope must be 'user' or 'project'." true, fs)
  | Some scope =>
  let isChain := hasKey cfg "steps" in
  let d := discoverAgentsAll ctx (ctx_cwd ctx) fs in
  let targetDir :=
    match scope with
    | User => d_userDir d
    | Project => default (join2 (join2 (ctx_cwd ctx) ".pi") "agents") (d_projectDir d)
    end in
  let fs1 := mkdirSync targetDir fs in
  if nameExistsInScope ctx fs1 scope nm None then
    (result ("Name '" +:+ nm +:+ "' already exists in " +:+ source_string scope
             +:+ " scope. Use update instead.") true, fs1)
  else
  let targetPath := join2 targetDir (nm +:+ (if isChain then ".chain.md" else ".md")) in
  if existsSync targetPath fs1 then
    (result ("File already exists at " +:+ targetPath +:+ " but is not a valid "
             +:+ kind_word isChain +:+ " definition. Remove or rename it first.") true, fs1)
  else if isChain then
    match parseStepList (assoc "steps" cfg) with
    | inr e => (result e true, fs1)
    | inl steps =>
        let chain := {| ch_name := nm; ch_description := JsString.trim rawDescription;
                        ch_source := scope; ch_filePath := targetPath;
                        ch_steps := steps; ch_extraFields := None |} in
        let fs2 := writeFileSync targetPath (serializeChain chain) fs1 in
        let missing := unknownChainAgents ctx fs2 steps in
        let warnings :=
          (match missing with
           | [] => []
           | _ => ["Warning: chain steps reference unknown agents: "
                   +:+ JsString.join ", " missing +:+ "."]
           end) ++ chainStepWarnings ctx fs2 steps in
        (result (with_warnings ("Created chain '" +:+ nm +:+ "' at " +:+ targetPath +:+ ".")
                               warnings) false, fs2)
    end
  else
    let agent0 := {| name := nm; description := JsString.trim rawDescription;
                     tools := None; mcpDirectTools := None; model := None;
                     thinking := None; systemPrompt := ""; source := scope;
                     filePath := targetPath; skills := None; output := None;
                     defaultReads := None; defaultProgress := None;
                     interactive := None; extraFields := None |} in
    match applyAgentConfig agent0 cfg with
    | inr e => (result e true, fs1)
    | inl agent1 =>
        let warnings := opt_list (modelWarning ctx (model agent1))
                        ++ opt_list (skillsWarning ctx fs1 (skills agent1)) in
        let fs2 := writeFileSync targetPath (serializeAgent agent1) fs1 in
        (result (with_warnings ("Created agent '" +:+ nm +:+ "' at " +:+ targetPath +:+ ".")
                               warnings) false, fs2)
    end
  end end end end.

(** *** handleUpdate *)

(** [hasKey(cfg, key) && (typeof cfg[key] !== "string" || !cfg[key].trim())] *)
Definition bad_string_key (cfg : list (string * json)) (key : string) : bool :=
  hasKey cfg key && negb (bool_decide (is_Some (string_field cfg key))).

Definition updateAgent (ctx : ManagementContext) (params : ManagementParams)
    (cfg : list (string * json)) (agentName : string) (fs : Files)
  : AgentToolResult * Files :=
  let scopeHint := asDisambiguationScope (agentScope params) in
  match resolveTarget ctx fs false source filePath agentName
          (findAgents ctx fs agentName scopeHint) (agentScope params) with
  | inr err => (err, fs)
  | inl target =>
  let oldName := name target in
  if bad_string_key cfg "name" then
    (result "config.name must be a non-empty string when provided." true, fs)
  else if bad_string_key cfg "description" then
    (result "config.description must be a non-empty string when provided." true, fs)
  else
  let newName := sanitizeName <$> string_field cfg "name" in
  if bool_decide (newName = Some "") then
    (result "config.name is invalid after sanitization." true, fs)
  else
  match applyAgentConfig target cfg with
  | inr e => (result e true, fs)
  | inl applied =>
  let named := match newName with Some n => set_name n applied | None => applied end in
  let updated := match string_field cfg "description" with
                 | Some dsc => set_description (JsString.trim dsc) named
                 | None => named
                 end in
  let warnings :=
    (if hasKey cfg "model" then opt_list (modelWarning ctx (model updated)) else [])
    ++ (if hasKey cfg "skills" then opt_list (skillsWarning ctx fs (skills updated)) else []) in
  let renamed_to := negb (String.eqb (name updated) oldName) in
  match (if renamed_to
         then renamePath ctx false (filePath target) (name updated) (source target) fs
         else (inl (filePath updated), fs)) with
  | (inr e, fs1) => (result e true, fs1)
  | (inl path, fs1) =>
      let final := set_filePath path updated in
      let fs2 := writeFileSync path (serializeAgent final) fs1 in
      let refs :=
        if renamed_to then
          (fun c => ch_name c +:+ " (" +:+ source_string (ch_source c) +:+ ")")
            <$> List.filter
                  (fun c => existsb (fun s => String.eqb (cs_agent s) oldName) (ch_steps c))
                  (d_chains (discoverAgentsAll ctx (ctx_cwd ctx) fs2))
        else [] in
      let warnings' :=
        warnings ++ (match refs with
                     | [] => []
                     | _ => ["Warning: chains still reference '" +:+ oldName +:+ "': "
                             +:+ JsString.join ", " refs +:+ "."]
                     end) in
      let headline :=
        if renamed_to
        then "Updated agent '" +:+ oldName +:+ "' to '" +:+ name final +:+ "' at "
             +:+ path +:+ "."
        else "Updated agent '" +:+ name final +:+ "' at " +:+ path +:+ "." in
      (result (with_warnings headline warnings') false, fs2)
  end end end.

Definition updateChain (ctx : ManagementContext) (params : ManagementParams)
    (cfg : list (string * json)) (chain : string) (fs : Files)
  : AgentToolResult * Files :=
  let scopeHint := asDisambiguationScope (agentScope params) in
  match resolveTarget ctx fs true ch_source ch_filePath chain
          (findChains ctx fs chain scopeHint) (agentScope params) with
  | inr err => (err, fs)
  | inl target =>
  let oldName := ch_name target in
  if bad_string_key cfg "name" then
    (result "config.name must be a non-empty string when provided." true, fs)
  else if bad_string_key cfg "description" then
    (result "config.description must be a non-empty string when provided." true, fs)
  else
  let newName := sanitizeName <$> string_field cfg "name" in
  if bool_decide (newName = Some "") then
    (result "config.name is invalid after sanitization." true, fs)
  else
  match (if hasKey cfg "steps"
         then (match parseStepList (assoc "steps" cfg) with
               | inr e => inr e
               | inl steps => inl (Some steps)
               end)
         else inl None) with
  | inr e => (result e true, fs)
  | inl parsedSteps =>
  let named := match newName with Some n => set_ch_name n target | None => target end in
  let described := match string_field cfg "description" with
                   | Some dsc => set_ch_description (JsString.trim dsc) named
                   | None => named
                   end in
  let updated := match parsedSteps with
                 | Some steps => set_ch_steps steps described
                 | None => described
                 end in
  let warnings :=
    match parsedSteps with
    | Some steps =>
        (match unknownChainAgents ctx fs steps with
         | [] => []
         | missing => ["Warning: chain steps reference unknown agents: "
                       +:+ JsString.join ", " missing +:+ "."]
         end) ++ chainStepWarnings ctx fs steps
    | None => []
    end in
  let renamed_to := negb (String.eqb (ch_name updated) oldName) in
  match (if renamed_to
         then renamePath ctx true (ch_filePath target) (ch_name updated)
                (ch_source target) fs
         else (inl (ch_filePath updated), fs)) with
  | (inr e, fs1) => (result e true, fs1)
  | (inl path, fs1) =>
      let final := set_ch_filePath path updated in
      let fs2 := writeFileSync path (serializeChain final) fs1 in
      let headline :=
        if renamed_to
        then "Updated chain '" +:+ oldName +:+ "' to '" +:+ ch_name final +:+ "' at "
             +:+ path +:+ "."
        else "Updated chain '" +:+ ch_name final +:+ "' at " +:+ path +:+ "." in
      (result (with_warnings headline warnings) false, fs2)
  end end end.

Definition handleUpdate (ctx : ManagementContext) (params : ManagementParams)
    (fs : Files) : AgentToolResult * Files :=
  let hasAgent := RunnerCode.truthy_opt (agent params) in
  let hasChain := RunnerCode.truthy_opt (chainName params) in
  if negb hasAgent && negb hasChain then
    (result "Specify 'agent' or 'chainName' for update." true, fs)
  else if hasAgent && hasChain then
    (result "Specify either 'agent' or 'chainName', not both." true, fs)
  else
    match configObject ctx (config params) with
    | None => (result "config required for update." true, fs)
    | Some cfg =>
        if hasAgent
        then updateAgent ctx params cfg (default "" (agent params)) fs
        else updateChain ctx params cfg (default "" (chainName params)) fs
    end.

(** *** handleDelete, handleGet, handleList *)

Definition handleDelete (ctx : ManagementContext) (params : ManagementParams)
    (fs : Files) : AgentToolResult * Files :=
  let hasAgent := RunnerCode.truthy_opt (agent params) in
  let hasChain := RunnerCode.truthy_opt (chainName params) in
  if negb hasAgent && negb hasChain then
    (result "Specify 'agent' or 'chainName' for delete." true, fs)
  else if hasAgent && hasChain then
    (result "Specify either 'agent' or 'chainName', not both." true, fs)
  else
    let scopeHint := asDisambiguationScope (agentScope params) in
    if hasAgent then
      let agentName := default "" (agent params) in
      match resolveTarget ctx fs false source filePath agentName
              (findAgents ctx fs agentName scopeHint) (agentScope params) with
      | inr err => (err, fs)
      | inl target =>
          let fs1 := unlinkSync (filePath target) fs in
          let refs :=
            (fun c => ch_name c +:+ " (" +:+ source_string (ch_source c) +:+ ")")
              <$> List.filter
                    (fun c => existsb (fun s => String.eqb (cs_agent s) (name target))
                                      (ch_steps c))
                    (d_chains (discoverAgentsAll ctx (ctx_cwd ctx) fs1)) in
          (result (JsString.join NL
                     (("Deleted agent '" +:+ name target +:+ "' at "
                       +:+ filePath target +:+ ".")
                      :: match refs with
                         | [] => []
                         | _ => ["Warning: chains reference deleted agent '"
                                 +:+ name target +:+ "': "
                                 +:+ JsString.join ", " refs +:+ "."]
                         end)) false, fs1)
      end
    else
      let chain := default "" (chainName params) in
      match resolveTarget ctx fs true ch_source ch_filePath chain
              (findChains ctx fs chain scopeHint) (agentScope params) with
      | inr err => (err, fs)
      | inl target =>
          (result ("Deleted chain '" +:+ ch_name target +:+ "' at "
                   +:+ ch_filePath target +:+ ".") false,
           unlinkSync (ch_filePath target) fs)
      end.

Definition formatAgentDetail (a : AgentConfig) : string :=
  let toolList := default [] (tools a)
                  ++ ((fun t => "mcp:" +:+ t) <$> default [] (mcpDirectTools a)) in
  JsString.join NL
    (["Agent: " +:+ name a +:+ " (" +:+ source_string (source a) +:+ ")";
      "Path: " +:+ filePath a;
      "Description: " +:+ description a]
     ++ opt_line "Model" (model a)
     ++ (match toolList with [] => [] | _ => ["Tools: " +:+ JsString.join ", " toolList] end)
     ++ (match skills a with
         | Some (s :: ss) => ["Skills: " +:+ JsString.join ", " (s :: ss)]
         | _ => []
         end)
     ++ opt_line "Thinking" (thinking a)
     ++ opt_line "Output" (output a)
     ++ (match defaultReads a with
         | Some (s :: ss) => ["Reads: " +:+ JsString.join ", " (s :: ss)]
         | _ => []
         end)
     ++ (if default false (defaultProgress a) then ["Progress: true"] else [])
     ++ (if JsString.truthy (JsString.trim (systemPrompt a))
         then [""; "System Prompt:"; systemPrompt a] else [])).

Definition formatChainStep (i : nat) (s : ChainStepConfig) : list string :=
  [JsString.of_nat (i + 1) +:+ ". " +:+ cs_agent s]
  ++ (if JsString.truthy (JsString.trim (cs_task s)) then ["   Task: " +:+ cs_task s] else [])
  ++ (match cs_output s with
      | Some IsFalse => ["   Output: false"]
      | Some (Val o) => if JsString.truthy o then ["   Output: " +:+ o] else []
      | None => []
      end)
  ++ (match cs_reads s with
      | Some IsFalse => ["   Reads: false"]
      | Some (Val (r :: rs)) => ["   Reads: " +:+ JsString.join ", " (r :: rs)]
      | _ => []
      end)
  ++ (match cs_model s with
      | Some m => if JsString.truthy m then ["   Model: " +:+ m] else []
      | None => []
      end)
  ++ (match cs_skills s with
      | Some IsFalse => ["   Skills: false"]
      | Some (Val (r :: rs)) => ["   Skills: " +:+ JsString.join ", " (r :: rs)]
      | _ => []
      end)
  ++ (match cs_progress s with
      | Some b => ["   Progress: " +:+ if b then "true" else "false"]
      | None => []
      end).

Definition formatChainDetail (c : ChainConfig) : string :=
  JsString.join NL
    (["Chain: " +:+ ch_name c +:+ " (" +:+ source_string (ch_source c) +:+ ")";
      "Path: " +:+ ch_filePath c;
      "Description: " +:+ ch_description c; ""; "Steps:"]
     ++ concat (imap formatChainStep (ch_steps c))).

Definition not_found (ctx : ManagementContext) (fs : Files) (chains : bool)
    (nm : string) : string :=
  kind_label chains +:+ " '" +:+ nm +:+ "' not found. Available: "
  +:+ (match availableNames ctx fs chains with
       | [] => "none"
       | l => JsString.join ", " l
       end) +:+ ".".

Definition handleGet (ctx : ManagementContext) (params : ManagementParams)
    (fs : Files) : AgentToolResult * Files :=
  let hasAgent := RunnerCode.truthy_opt (agent params) in
  let hasChain := RunnerCode.truthy_opt (chainName params) in
  if negb hasAgent && negb hasChain then
    (result "Specify 'agent' or 'chainName' for get." true, fs)
  else
    let hasBoth := hasAgent && hasChain in
    let agentMatches := findAgents ctx fs (default "" (agent params)) None in
    let chainMatches := findChains ctx fs (default "" (chainName params)) None in
    if hasAgent && negb hasBoth && bool_decide (agentMatches = []) then
      (result (not_found ctx fs false (default "" (agent params))) true, fs)
    else if hasChain && negb hasBoth && bool_decide (chainMatches = []) then
      (result (not_found ctx fs true (default "" (chainName params))) true, fs)
    else
      let agentBlocks :=
        if hasAgent then
          match agentMatches with
          | [] => [not_found ctx fs false (default "" (agent params))]
          | _ => formatAgentDetail <$> agentMatches
          end
        else [] in
      let chainBlocks :=
        if hasChain then
          match chainMatches with
          | [] => [not_found ctx fs true (default "" (chainName params))]
          | _ => formatChainDetail <$> chainMatches
          end
        else [] in
      let anyFound :=
        (hasAgent && negb (bool_decide (agentMatches = [])))
        || (hasChain && negb (bool_decide (chainMatches = []))) in
      (result (JsString.join (NL +:+ NL) (agentBlocks ++ chainBlocks)) (negb anyFound), fs).

Definition handleList (ctx : ManagementContext) (params : ManagementParams)
    (fs : Files) : AgentToolResult * Files :=
  let scope := default None (normalizeListScope (agentScope params)) in
  let d := discoverAgentsAll ctx (ctx_cwd ctx) fs in
  let agentList :=
    sort_by (fun a b => localeCompare ctx (name a) (name b))
      (List.filter (fun a => in_scope scope (source a)) (d_user d ++ d_project d)) in
  let chainList :=
    sort_by (fun a b => localeCompare ctx (ch_name a) (ch_name b))
      (List.filter (fun c => in_scope scope (ch_source c)) (d_chains d)) in
  (result
     (JsString.join NL
        (["Agents:"]
         ++ (match agentList with
             | [] => ["- (none)"]
             | _ => (fun a => "- " +:+ name a +:+ " (" +:+ source_string (source a)
                              +:+ "): " +:+ description a) <$> agentList
             end)
         ++ [""; "Chains:"]
         ++ (match chainList with
             | [] => ["- (none)"]
             | _ => (fun c => "- " +:+ ch_name c +:+ " (" +:+ source_string (ch_source c)
                              +:+ "): " +:+ ch_description c) <$> chainList
             end))) false, fs).

(** *** handleManagementAction *)

Definition handleManagementAction (act : string) (ctx : ManagementContext)
    (params : ManagementParams) (fs : Files) : AgentToolResult * Files :=
  match act with
  | "list" => handleList ctx params fs
  | "get" => handleGet ctx params fs
  | "create" => handleCreate ctx params fs
  | "update" => handleUpdate ctx params fs
  | "delete" => handleDelete ctx params fs
  | _ => (result ("Unknown action: " +:+ act) true, fs)
  end.

(** *** What a sanitized name looks like *)

Fixpoint string_forall (p : ascii -> bool) (s : string) : bool :=
  match s with
  | EmptyString => true
  | String c r => p c && string_forall p r
  end.

Fixpoint no_double_hyphen (s : string) : bool :=
  match s with
  | String a ((String b _) as rest) =>
      negb (is_hyphen a && is_hyphen b) && no_double_hyphen rest
  | _ => true
  end.

Definition starts_with_hyphen (s : string) : bool :=
  match s with String c _ => is_hyphen c | EmptyString => false end.

Fixpoint ends_with_hyphen (s : string) : bool :=
  match s with
  | EmptyString => false
  | String c EmptyString => is_hyphen c
  | String _ r => ends_with_hyphen r
  end.

(** Only characters of [[a-z0-9-]], no two hyphens in a row, and no
    hyphen at either end. *)
Definition well_formed_name (s : string) : Prop :=
  string_forall is_name_char s = true /\
  no_double_hyphen s = true /\
  starts_with_hyphen s = false /\
  ends_with_hyphen s = false.


(** The definitions that [name] may mean: those called [name], trimmed,
    or its sanitized form. *)
Definition named (raw found : string) : Prop :=
  found = JsString.trim raw \/ found = sanitizeName (JsString.trim raw).

(** The files of the discovered agents and chains are on the disk, as
    they are when the discovery has just read them. *)
Definition discovered_on_disk (ctx : ManagementContext) (fs : Files) : Prop :=
  let d := discoverAgentsAll ctx (ctx_cwd ctx) fs in
  (forall a, a ∈ d_user d ++ d_project d -> is_Some (files fs !! filePath a))
  /\ (forall c, c ∈ d_chains d -> is_Some (files fs !! ch_filePath c)).


End Management.

(** ** index.ts: the [subagent] tool and the background registry *)

Module Dispatcher.
Import ParallelUtils.
Local Open Scope list_scope.

Definition NL : string := String "010" "".

Record TaskItem : Type := {
  ti_agent : string;
  ti_task : string;
  ti_cwd : option string;
  ti_model : option string;
}.

Record SequentialStep : Type := {
  st_agent : string;
  st_task : option string;
}.

Record ParallelStep : Type := {
  pl_parallel : list SequentialStep;
  pl_concurrency : option Js.number;
  pl_failFast : option bool;
}.

Inductive ChainStep : Type :=
| ChainSeq (s : SequentialStep)
| ChainPar (p : ParallelStep).

(** Modelled from the spec: [isParallelStep] and [getStepAgents] of
    settings.ts, which is not part of the sources at hand.  A chain step
    is a sequential step or a parallel group (§3.2); the agents of a step
    are its one agent or the agents of the tasks of the group. *)
Definition isParallelStep (step : ChainStep) : bool :=
  match step with ChainPar _ => true | ChainSeq _ => false end.

Definition getStepAgents (step : ChainStep) : list string :=
  match step with
  | ChainSeq s => [st_agent s]
  | ChainPar p => st_agent <$> pl_parallel p
  end.

(** Modelled from the spec: the limits of types.ts (§4.3, §5):
    at most 16 tasks in a top-level parallel request, 4 at a time. *)
Definition MAX_PARALLEL : nat := 16.
Definition MAX_CONCURRENCY : Js.number := Js.of_nat 4.

(** The parameters of the tool that the dispatcher itself looks at; the
    overrides that only travel on to the executors are left out. *)
Record SubagentParams : Type := {
  p_agent : option string;
  p_task : option string;
  p_action : option string;
  p_chainName : option string;
  p_config : option Management.json;
  p_agentScope : option string;
  p_tasks : option (list TaskItem);
  p_chain : option (list ChainStep);
  p_async : option bool;
  p_clarify : option bool;
}.

Inductive mode : Type := MSingle | MParallel | MChain | MManagement.

Global Instance mode_eq_dec : EqDecision mode.
Proof. solve_decision. Defined.

(** The result of one agent run, as far as the dispatcher reads it. *)
Record SingleResult : Type := {
  r_agent : string;
  r_task : string;
  r_exitCode : Z;
  r_output : string;
  r_error : option string;
}.

Record ToolResult : Type := {
  content : string;
  isError : bool;
  details_mode : mode;
  details_results : list SingleResult;
  details_asyncId : option string;
}.

Definition error_result (t : string) (m : mode) : ToolResult :=
  {| content := t; isError := true; details_mode := m;
     details_results := []; details_asyncId := None |}.

(** What the clarify dialog resolves to. *)
Record ChainClarifyResult : Type := {
  confirmed : bool;
  templates : list string;
  runInBackground : bool;
}.

(** What a child run did: the answer of the outside world to [runSync]. *)
Record RunOutcome : Type := {
  out_exitCode : Z;
  out_output : string;
  out_error : option string;
}.

(** The surroundings of a call of [execute]: the depth guard
    ([checkSubagentDepth], from the environment variables), the agents
    that discovery finds in the resolved scope, the configuration, the
    user interface, and the executors of other modules. *)
Record Host : Type := {
  depth_blocked : bool;
  depth : nat;
  maxDepth : nat;
  agents : list Agents.AgentConfig;
  asyncByDefault : bool;
  isAsyncAvailable : bool;
  hasUI : bool;
  clarify_dialog : option ChainClarifyResult;
  sessionFile : option string;
  freshSessionId : string;
  randomUUID : string;
  executeChain : SubagentParams -> ToolResult * option (list ChainStep);
  management : Management.ManagementContext;
}.

(** A result file of the results directory, as [handleResult] reads it
    after [JSON.parse]. *)
Record ResultData : Type := {
  rd_id : option string;
  rd_sessionId : option string;
  rd_cwd : option string;
  rd_success : bool;
}.

(** The state that outlives a call: the registry's session binding, its
    record of the completions it has seen, the files of the results
    directory (a file that does not parse holds nothing), the
    [subagent:complete] events emitted so far, and the files of the agent
    store. *)
Record Extension : Type := {
  baseCwd : string;
  currentSessionId : option string;
  completionSeen : gmap string Z;
  resultsDir : gmap string (option ResultData);
  emitted : list ResultData;
  store : Management.Files;
}.

Definition known (h : Host) (agentName : string) : bool :=
  existsb (fun a => String.eqb (Agents.name a) agentName) (agents h).

Definition agent_names (h : Host) : list string := Agents.name <$> agents h.

(** Modelled from the spec: [runSync] of execution.ts, which is not part
    of the sources at hand.  It runs the named agent on the task and
    returns the StepResult of that run (§3.3, §4.2): the agent, the
    resolved task, the exit code, the output. *)
Definition runSync (agentName task : string) (o : RunOutcome) : SingleResult :=
  {| r_agent := agentName;
     r_task := task;
     r_exitCode := out_exitCode o;
     r_output := out_output o;
     r_error := out_error o |}.

(** *** executeAsyncChain and executeAsyncSingle (async-execution.ts):
    what they return; the runner they spawn is [Runner]. *)

Definition chain_token (s : ChainStep) : string :=
  match s with
  | ChainSeq q => st_agent q
  | ChainPar p => "[" +:+ JsString.join "+" (st_agent <$> pl_parallel p) +:+ "]"
  end.

Definition executeAsyncChain (h : Host) (id : string) (chain : list ChainStep)
  : ToolResult :=
  match List.find (fun a => negb (known h a)) (concat (getStepAgents <$> chain)) with
  | Some agentName => error_result ("Unknown agent: " +:+ agentName) MChain
  | None =>
      {| content := "Async chain: " +:+ JsString.join " -> " (chain_token <$> chain)
                    +:+ " [" +:+ id +:+ "]";
         isError := false; details_mode := MChain;
         details_results := []; details_asyncId := Some id |}
  end.

Definition executeAsyncSingle (id agentName : string) : ToolResult :=
  {| content := "Async: " +:+ agentName +:+ " [" +:+ id +:+ "]";
     isError := false; details_mode := MSingle;
     details_results := []; details_asyncId := Some id |}.

(** *** The validation of a chain, before any branching *)

Fixpoint findIndex {A : Type} (p : A -> bool) (l : list A) (i : nat) : option nat :=
  match l with
  | [] => None
  | x :: rest => if p x then Some i else findIndex p rest (S i)
  end.

Fixpoint validate_steps (h : Host) (i : nat) (chain : list ChainStep)
  : option ToolResult :=
  match chain with
  | [] => None
  | step :: rest =>
      match List.find (fun a => negb (known h a)) (getStepAgents step) with
      | Some agentName =>
          Some (error_result ("Unknown agent: " +:+ agentName +:+ " (step "
                              +:+ JsString.of_nat (i + 1) +:+ ")") MChain)
      | None =>
          match step with
          | ChainPar p =>
              match pl_parallel p with
              | [] => Some (error_result ("Parallel step " +:+ JsString.of_nat (i + 1)
                                          +:+ " must have at least one task") MChain)
              | _ => validate_steps h (S i) rest
              end
          | ChainSeq _ => validate_steps h (S i) rest
          end
      end
  end.

Definition validate_chain (h : Host) (params : SubagentParams)
    (chain : list ChainStep) : option ToolResult :=
  match chain with
  | [] => Some (error_result "Chain must have at least one step" MChain)
  | firstStep :: _ =>
      match
        (match firstStep with
         | ChainPar p =>
             match findIndex (fun t => negb (RunnerCode.truthy_opt (st_task t)))
                             (pl_parallel p) 0 with
             | Some missingTaskIndex =>
                 Some (error_result
                   ("First parallel step: task " +:+ JsString.of_nat (missingTaskIndex + 1)
                    +:+ " must have a task (no previous output to reference)") MChain)
             | None => None
             end
         | ChainSeq s =>
             if negb (RunnerCode.truthy_opt (st_task s))
                && negb (RunnerCode.truthy_opt (p_task params))
             then Some (error_result "First step in chain must have a task" MChain)
             else None
         end)
      with
      | Some e => Some e
      | None => validate_steps h 0 chain
      end
  end.

(** *** execute *)

Definition validActions : list string := ["list"; "get"; "create"; "update"; "delete"].

Definition management_params (params : SubagentParams) : Management.ManagementParams :=
  {| Management.action := p_action params;
     Management.agent := p_agent params;
     Management.chainName := p_chainName params;
     Management.agentScope := p_agentScope params;
     Management.config := p_config params |}.

(** [result()] of agent-management.ts gives every management answer the
    details [{ mode: "management", results: [] }]. *)
Definition management_result (r : Management.AgentToolResult) : ToolResult :=
  {| content := Management.text r;
     isError := Management.isError r;
     details_mode := MManagement;
     details_results := [];
     details_asyncId := None |}.

Definition blocked_result (h : Host) : ToolResult :=
  error_result
    ("Nested subagent call blocked (depth=" +:+ JsString.of_nat (depth h)
     +:+ ", max=" +:+ JsString.of_nat (maxDepth h) +:+ "). "
     +:+ "You are running at the maximum subagent nesting depth. "
     +:+ "Complete your current task directly without delegating to further subagents.")
    MSingle.

Definition cancelled (m : mode) : ToolResult :=
  {| content := "Cancelled"; isError := false; details_mode := m;
     details_results := []; details_asyncId := None |}.

Definition no_jiti (m : mode) : ToolResult :=
  error_result
    "Background mode requires jiti for TypeScript execution but it could not be found." m.

Definition set_baseCwd (v : string) (e : Extension) : Extension :=
  {| baseCwd := v;
     currentSessionId := currentSessionId e;
     completionSeen := completionSeen e;
     resultsDir := resultsDir e;
     emitted := emitted e;
     store := store e |}.

Definition set_currentSessionId (v : option string) (e : Extension) : Extension :=
  {| baseCwd := baseCwd e;
     currentSessionId := v;
     completionSeen := completionSeen e;
     resultsDir := resultsDir e;
     emitted := emitted e;
     store := store e |}.

Definition set_completionSeen (v : gmap string Z) (e : Extension) : Extension :=
  {| baseCwd := baseCwd e;
     currentSessionId := currentSessionId e;
     completionSeen := v;
     resultsDir := resultsDir e;
     emitted := emitted e;
     store := store e |}.

Definition set_resultsDir (v : gmap string (option ResultData)) (e : Extension) : Extension :=
  {| baseCwd := baseCwd e;
     currentSessionId := currentSessionId e;
     completionSeen := completionSeen e;
     resultsDir := v;
     emitted := emitted e;
     store := store e |}.

Definition set_emitted (v : list ResultData) (e : Extension) : Extension :=
  {| baseCwd := baseCwd e;
     currentSessionId := currentSessionId e;
     completionSeen := completionSeen e;
     resultsDir := resultsDir e;
     emitted := v;
     store := store e |}.

Definition set_store (v : Management.Files) (e : Extension) : Extension :=
  {| baseCwd := baseCwd e;
     currentSessionId := currentSessionId e;
     completionSeen := completionSeen e;
     resultsDir := resultsDir e;
     emitted := emitted e;
     store := v |}.

(** The callback that [execute] gives to [mapConcurrent]: it calls
    [runSync] for task [i] and waits for it. *)
Definition parallel_fn_start (t : TaskItem) (i : nat) (u : unit)
  : unit * (unit + SingleResult) := (u, inl tt).

Definition parallel_fn_resume (templates : list string) (t : TaskItem) (i : nat)
    (_ : unit) (o : RunOutcome) (u : unit) : unit * SingleResult :=
  (u, runSync (ti_agent t) (default "" (templates !! i)) o).

Definition aggregate_task (i : nat) (r : SingleResult) : string :=
  let header := "=== Task " +:+ JsString.of_nat (i + 1) +:+ ": " +:+ r_agent r +:+ " ===" in
  let hasOutput := JsString.truthy (JsString.trim (r_output r)) in
  let status :=
    if negb (r_exitCode r =? 0)%Z then
      "⚠️ FAILED (exit code " +:+ JsString.of_Z (r_exitCode r) +:+ ")"
      +:+ (if RunnerCode.truthy_opt (r_error r) then ": " +:+ default "" (r_error r) else "")
    else if RunnerCode.truthy_opt (r_error r) then
      "⚠️ WARNING: " +:+ default "" (r_error r)
    else if negb hasOutput then "⚠️ EMPTY OUTPUT"
    else "" in
  let body :=
    if JsString.truthy status
    then (if hasOutput then status +:+ NL +:+ r_output r else status)
    else r_output r in
  header +:+ NL +:+ body.

(** The run of the tasks of a parallel request, once validated. *)
Definition run_parallel (tasks : list TaskItem) (templates : list string)
    (parallelDowngraded : bool) (sched : list (nat * RunOutcome))
  : option ToolResult :=
  match mapConcurrent parallel_fn_start (parallel_fn_resume templates)
          tasks MAX_CONCURRENCY sched tt with
  | None => None
  | Some (slots, _) =>
      match mapM (fun r => r) slots with
      | None => None
      | Some results =>
          let ok := length (List.filter (fun r => (r_exitCode r =? 0)%Z) results) in
          let downgradeNote :=
            if parallelDowngraded then " (async not supported for parallel)" else "" in
          let aggregatedOutput := JsString.join (NL +:+ NL) (imap aggregate_task results) in
          let summary := JsString.of_nat ok +:+ "/" +:+ JsString.of_nat (length results)
                         +:+ " succeeded" +:+ downgradeNote in
          Some {| content := summary +:+ NL +:+ NL +:+ aggregatedOutput;
                  isError := false;
                  details_mode := MParallel;
                  details_results := results;
                  details_asyncId := None |}
      end
  end.

Definition execute_parallel (h : Host) (tasks : list TaskItem) (clarify : option bool)
    (parallelDowngraded : bool) (sched : list (nat * RunOutcome))
  : option ToolResult :=
  if bool_decide (MAX_PARALLEL < length tasks) then
    Some (error_result ("Max " +:+ JsString.of_nat MAX_PARALLEL +:+ " tasks") MParallel)
  else
    match List.find (fun t => negb (known h (ti_agent t))) tasks with
    | Some t => Some (error_result ("Unknown agent: " +:+ ti_agent t) MParallel)
    | None =>
        if bool_decide (clarify = Some true) && hasUI h then
          match clarify_dialog h with
          | None => Some (cancelled MParallel)
          | Some answer =>
              if negb (confirmed answer) then Some (cancelled MParallel)
              else if runInBackground answer then
                if negb (isAsyncAvailable h) then Some (no_jiti MParallel)
                else
                  Some (executeAsyncChain h (randomUUID h)
                    [ChainPar
                       {| pl_parallel :=
                            imap (fun i t => {| st_agent := ti_agent t;
                                                st_task := templates answer !! i |}) tasks;
                          pl_concurrency := None;
                          pl_failFast := None |}])
              else run_parallel tasks (templates answer) parallelDowngraded sched
          end
        else run_parallel tasks (ti_task <$> tasks) parallelDowngraded sched
    end.

Definition run_single (agentName task : string) (sched : list (nat * RunOutcome))
  : option ToolResult :=
  match sched with
  | [] => None
  | (_, o) :: _ =>
      let r := runSync agentName task o in
      if negb (r_exitCode r =? 0)%Z then
        Some {| content := if RunnerCode.truthy_opt (r_error r)
                           then default "" (r_error r) else "Failed";
                isError := true; details_mode := MSingle;
                details_results := [r]; details_asyncId := None |}
      else
        Some {| content := if JsString.truthy (r_output r) then r_output r
                           else "(no output)";
                isError := false; details_mode := MSingle;
                details_results := [r]; details_asyncId := None |}
  end.

Definition execute_single (h : Host) (agentName task : string) (clarify : option bool)
    (sched : list (nat * RunOutcome)) : option ToolResult :=
  if negb (known h agentName) then
    Some (error_result ("Unknown agent: " +:+ agentName) MSingle)
  else if bool_decide (clarify = Some true) && hasUI h then
    match clarify_dialog h with
    | None => Some (cancelled MSingle)
    | Some answer =>
        if negb (confirmed answer) then Some (cancelled MSingle)
        else
          let task' := default "" (templates answer !! 0) in
          if runInBackground answer then
            if negb (isAsyncAvailable h) then Some (no_jiti MSingle)
            else Some (executeAsyncSingle (randomUUID h) agentName)
          else run_single agentName task' sched
    end
  else run_single agentName task sched.

(** The execution half of [execute]: everything after the test of
    [params.action]. *)
Definition execute_request (h : Host) (params : SubagentParams)
    (sched : list (nat * RunOutcome)) (ext : Extension)
  : option ToolResult * Extension :=
  if depth_blocked h then (Some (blocked_result h), ext)
  else
    let ext1 := set_currentSessionId
                  (Some (default (freshSessionId h) (sessionFile h))) ext in
    let chain := default [] (p_chain params) in
    let tasks := default [] (p_tasks params) in
    let hasChain := bool_decide (0 < length chain) in
    let hasTasks := bool_decide (0 < length tasks) in
    let hasSingle := RunnerCode.truthy_opt (p_agent params)
                     && RunnerCode.truthy_opt (p_task params) in
    let requestedAsync := default (asyncByDefault h) (p_async params) in
    let parallelDowngraded := hasTasks && requestedAsync in
    let effectiveAsync :=
      requestedAsync && negb hasTasks
      && (if hasChain
          then bool_decide (p_clarify params = Some false)
          else negb (bool_decide (p_clarify params = Some true))) in
    let answer :=
      if negb (bool_decide (Nat.b2n hasChain + Nat.b2n hasTasks + Nat.b2n hasSingle = 1))
      then
        Some (error_result
                ("Provide exactly one mode. Agents: "
                 +:+ (match agent_names h with
                      | [] => "none"
                      | names =>
                          let joined := JsString.join ", " names in
                          if JsString.truthy joined then joined else "none"
                      end)) MSingle)
      else
        match (if hasChain then validate_chain h params chain else None) with
        | Some e => Some e
        | None =>
            if effectiveAsync then
              if negb (isAsyncAvailable h) then
                Some (error_result
                  "Async mode requires jiti for TypeScript execution but it could not be found. Install globally: npm install -g jiti"
                  MSingle)
              else if hasChain then Some (executeAsyncChain h (randomUUID h) chain)
              else
                let agentName := default "" (p_agent params) in
                if negb (known h agentName)
                then Some (error_result ("Unknown: " +:+ agentName) MSingle)
                else Some (executeAsyncSingle (randomUUID h) agentName)
            else if hasChain then
              let '(chainResult, requested) := executeChain h params in
              match requested with
              | Some chain' =>
                  if negb (isAsyncAvailable h) then Some (no_jiti MChain)
                  else Some (executeAsyncChain h (randomUUID h) chain')
              | None => Some chainResult
              end
            else if hasTasks then
              execute_parallel h tasks (p_clarify params) parallelDowngraded sched
            else if hasSingle then
              execute_single h (default "" (p_agent params))
                (default "" (p_task params)) (p_clarify params) sched
            else Some (error_result "Invalid params" MSingle)
        end in
    (answer, ext1).

(** [execute(_id, params, signal, onUpdate, ctx)].  The answer is absent
    while the promise is unresolved, which is the case when the runs it
    awaits have not all come back under the schedule. *)
Definition execute (h : Host) (params : SubagentParams)
    (sched : list (nat * RunOutcome)) (ext : Extension)
  : option ToolResult * Extension :=
  let ext0 := set_baseCwd (Management.ctx_cwd (management h)) ext in
  match p_action params with
  | Some act =>
      if JsString.truthy act then
        if bool_decide (act ∈ validActions) then
          let '(r, fs') :=
            Management.handleManagementAction act (management h)
              (management_params params) (store ext0) in
          (Some (management_result r), set_store fs' ext0)
        else
          (Some (error_result ("Unknown action: " +:+ act +:+ ". Valid: "
                               +:+ JsString.join ", " validActions) MManagement), ext0)
      else execute_request h params sched ext0
  | None => execute_request h params sched ext0
  end.

(** *** How a request reads *)

(** No management action is asked for. *)
Definition execution_request (params : SubagentParams) : Prop :=
  RunnerCode.truthy_opt (p_action params) = false.

(** The request is in parallel mode, and in that mode only: it has the
    tasks [tasks], at least one, no chain and no agent with a task. *)
Definition parallel_request (params : SubagentParams) (tasks : list TaskItem) : Prop :=
  execution_request params /\
  p_tasks params = Some tasks /\ tasks <> [] /\
  default [] (p_chain params) = [] /\
  RunnerCode.truthy_opt (p_agent params) && RunnerCode.truthy_opt (p_task params) = false.

(** The clarify dialog does not take the request away: either it is not
    shown, or the user confirms it and leaves it in the foreground. *)
Definition runs_in_foreground (h : Host) (params : SubagentParams) : Prop :=
  p_clarify params = Some true -> hasUI h = true ->
  exists answer, clarify_dialog h = Some answer /\
                 confirmed answer = true /\ runInBackground answer = false.

(** The request names, in one of its modes, an agent that discovery
    did not find. *)
Definition references_unknown (h : Host) (params : SubagentParams) : Prop :=
  (RunnerCode.truthy_opt (p_agent params) && RunnerCode.truthy_opt (p_task params) = true
   /\ known h (default "" (p_agent params)) = false)
  \/ (exists t, t ∈ default [] (p_tasks params) /\ known h (ti_agent t) = false)
  \/ (exists step a, step ∈ default [] (p_chain params)
                     /\ a ∈ getStepAgents step /\ known h a = false).

(** The messages of the checks that an agent exists. *)
Inductive unknown_agent_message (h : Host) : string -> Prop :=
| unknown_in_request a :
    known h a = false ->
    unknown_agent_message h ("Unknown agent: " +:+ a)
| unknown_in_chain a k :
    known h a = false ->
    unknown_agent_message h
      ("Unknown agent: " +:+ a +:+ " (step " +:+ JsString.of_nat k +:+ ")")
| unknown_in_background a :
    known h a = false ->
    unknown_agent_message h ("Unknown: " +:+ a).

(** The messages of the gates on the shape of a request that stand
    between the count of the modes and those checks: fixed words and,
    in three of them, a number. *)
Inductive shape_gate_message : string -> Prop :=
| gate_max_parallel :
    shape_gate_message ("Max " +:+ JsString.of_nat MAX_PARALLEL +:+ " tasks")
| gate_first_task :
    shape_gate_message "First step in chain must have a task"
| gate_first_parallel_task k :
    shape_gate_message
      ("First parallel step: task " +:+ JsString.of_nat k
       +:+ " must have a task (no previous output to reference)")
| gate_empty_parallel k :
    shape_gate_message
      ("Parallel step " +:+ JsString.of_nat k +:+ " must have at least one task")
| gate_no_jiti :
    shape_gate_message
      "Async mode requires jiti for TypeScript execution but it could not be found. Install globally: npm install -g jiti".

(** A validation error: flagged, with no result and no background run,
    and with one of the messages above. *)
Definition validation_error (h : Host) (r : ToolResult) : Prop :=
  isError r = true /\ details_results r = [] /\ details_asyncId r = None /\
  (unknown_agent_message h (content r) \/ shape_gate_message (content r)).

(** *** The result-file handler of the background registry *)

(** The two helpers of completion-dedupe.ts, which is not part of the
    sources at hand, are taken as they are given: the key under which a
    completion is remembered, and the test-and-record of a key with its
    time to live (it answers whether the key had been seen, and gives the
    record back). *)
Record Dedupe : Type := {
  buildCompletionKey : ResultData -> string -> string;
  markSeenWithTtl : gmap string Z -> string -> Z -> Z -> bool * gmap string Z;
}.

Definition completionTtlMs : Z := 10 * 60 * 1000.

Definition handleResult (dd : Dedupe) (now : Z) (file : string) (ext : Extension)
  : Extension :=
  match resultsDir ext !! file with
  | None => ext                      (* the file is gone *)
  | Some None => ext                 (* JSON.parse throws: caught *)
  | Some (Some data) =>
      if RunnerCode.truthy_opt (rd_sessionId data)
         && negb (bool_decide (rd_sessionId data = currentSessionId ext))
      then ext
      else if negb (RunnerCode.truthy_opt (rd_sessionId data))
              && RunnerCode.truthy_opt (rd_cwd data)
              && negb (bool_decide (rd_cwd data = Some (baseCwd ext)))
      then ext
      else
        let completionKey := buildCompletionKey dd data ("result:" +:+ file) in
        let '(seen, record) :=
          markSeenWithTtl dd (completionSeen ext) completionKey now completionTtlMs in
        let ext1 := set_completionSeen record ext in
        if seen then set_resultsDir (delete file (resultsDir ext1)) ext1
        else
          set_resultsDir (delete file (resultsDir ext1))
            (set_emitted (emitted ext1 ++ [data]) ext1)
  end.

(** The result is of another session: its session id is present and is
    not the current one; or it has none, and its cwd is present and is
    not the registry's.  (Present as the code tests it: not null and not
    the empty string.) *)
Definition foreign (ext : Extension) (data : ResultData) : Prop :=
  (RunnerCode.truthy_opt (rd_sessionId data) = true
   /\ rd_sessionId data <> currentSessionId ext)
  \/ (RunnerCode.truthy_opt (rd_sessionId data) = false
      /\ RunnerCode.truthy_opt (rd_cwd data) = true
      /\ rd_cwd data <> Some (baseCwd ext)).


(** How many of the three modes a request gives. *)
Definition mode_count (params : SubagentParams) : nat :=
  Nat.b2n (bool_decide (0 < length (default [] (p_chain params))))
  + Nat.b2n (bool_decide (0 < length (default [] (p_tasks params))))
  + Nat.b2n (RunnerCode.truthy_opt (p_agent params)
             && RunnerCode.truthy_opt (p_task params)).


(** [agents.map((a) => a.name).join(", ") || "none"] *)
Definition names_or_none (h : Host) : string :=
  match agent_names h with
  | [] => "none"
  | names =>
      let joined := JsString.join ", " names in
      if JsString.truthy joined then joined else "none"
  end.

(** What the gate on the count of the modes answers. *)
Definition one_mode_result (h : Host) : ToolResult :=
  error_result ("Provide exactly one mode. Agents: " +:+ names_or_none h) MSingle.

End Dispatcher.

(** ** The error heuristic (§4.11)

    [detectSubagentError] lives in utils.ts, which is not part of the
    sources at hand; its tests (detect-error.test.ts) are.  The
    definitions below follow the specification, and the tests are
    replayed against them. *)

Module DetectError.
Local Open Scope list_scope.

Inductive part : Type :=
| TextPart (text : string)
| ToolCallPart (name : string).

Inductive message : Type :=
| AssistantMessage (content : list part)
| ToolResultMessage (toolName : string) (text : string) (isError : bool)
| UserMessage (text : string).

Record ErrorInfo : Type := {
  hasError : bool;
  exitCode : option Z;
  errorType : option string;
  details : option string;
}.

Definition no_error : ErrorInfo :=
  {| hasError := false; exitCode := None; errorType := None; details := None |}.

(** An assistant message whose content includes non-white-space text;
    a message that only calls tools does not count. *)
Definition has_text (m : message) : bool :=
  match m with
  | AssistantMessage content =>
      existsb (fun p => match p with
                        | TextPart t => JsString.truthy (JsString.trim t)
                        | ToolCallPart _ => false
                        end) content
  | _ => false
  end.

Section Heuristic.

(** The fatal patterns of a tool: given the tool name and the text of a
    result that is not flagged as an error, whether the text is fatal,
    and the exit code it names if it names one. *)
Variable fatal : string -> string -> option (option Z).

(** Modelled from the spec: a tool result is an error when it is flagged
    [isError], or when its text matches a fatal pattern of its tool. *)
Definition tool_error (m : message) : option ErrorInfo :=
  match m with
  | ToolResultMessage toolName text isErr =>
      if isErr then
        Some {| hasError := true; exitCode := None;
                errorType := Some toolName; details := Some text |}
      else
        match fatal toolName text with
        | Some code =>
            Some {| hasError := true; exitCode := code;
                    errorType := Some toolName; details := Some text |}
        | None => None
        end
  | _ => None
  end.

(** Modelled from the spec: "find the index of the last assistant
    message whose content includes non-whitespace text". *)
Fixpoint lastTextIndex (messages : list message) (i : nat) (found : option nat)
  : option nat :=
  match messages with
  | [] => found
  | m :: rest => lastTextIndex rest (S i) (if has_text m then Some i else found)
  end.

Fixpoint first_error (messages : list message) : option ErrorInfo :=
  match messages with
  | [] => None
  | m :: rest =>
      match tool_error m with
      | Some e => Some e
      | None => first_error rest
      end
  end.

(** Modelled from the spec: "scan tool results after that index"; with
    no assistant text at all, every tool result is scanned. *)
Definition detectSubagentError (messages : list message) : ErrorInfo :=
  let start := match lastTextIndex messages 0 None with
               | Some i => S i
               | None => 0
               end in
  default no_error (first_error (drop start messages)).

Definition is_tool_error (m : message) : Prop := is_Some (tool_error m).

End Heuristic.

(** Modelled from the spec: the fatal patterns that §4.11 and the tests
    name for bash: a "permission denied" line, a segmentation fault, and
    an exit-code marker such as "code 127". *)
Fixpoint read_digits (s : string) (acc : option Z) : option Z :=
  match s with
  | String c r =>
      let n := nat_of_ascii c in
      if (48 <=? n) && (n <=? 57)
      then read_digits r (Some (default 0 acc * 10 + Z.of_nat (n - 48))%Z)
      else acc
  | EmptyString => acc
  end.

Fixpoint find_exit_code (s : string) : option Z :=
  match s with
  | EmptyString => None
  | String _ r =>
      if String.prefix "code " s
      then match read_digits (String.substring 5 (String.length s - 5) s) None with
           | Some z => Some z
           | None => find_exit_code r
           end
      else find_exit_code r
  end.

Definition bash_fatal (toolName text : string) : option (option Z) :=
  if String.eqb toolName "bash" then
    let lower := JsString.toLowerCase text in
    if JsString.includes "permission denied" lower
       || JsString.includes "segmentation fault" lower
    then Some None
    else match find_exit_code lower with
         | Some z => if (z =? 0)%Z then None else Some (Some z)
         | None => None
         end
  else None.

End DetectError.

(** ** Sample inputs, used by the examples *)

Module Samples.
Import ParallelUtils.

(** The callback of the tests of [mapConcurrent] (parallel-utils.test.ts):
    it counts the calls that are running, waits for a timer, and returns
    ten times its item.  The shared state is [(running, maxRunning)]. *)
Definition counting_start (item : nat) (i : nat) (s : nat * nat)
  : (nat * nat) * (unit + nat) :=
  let running := S s.1 in
  ((running, Nat.max s.2 running), inl tt).

Definition counting_resume (item : nat) (i : nat) (_ : unit) (_ : unit)
    (s : nat * nat) : (nat * nat) * nat :=
  ((Nat.pred s.1, s.2), item * 10).

(** An agent store with two agents, [scout] and [planner]. *)
Definition sample_agent (nm : string) : Agents.AgentConfig :=
  {| Agents.name := nm; Agents.description := "sample agent";
     Agents.tools := None; Agents.mcpDirectTools := None; Agents.model := None;
     Agents.thinking := None; Agents.systemPrompt := "";
     Agents.source := Agents.User;
     Agents.filePath := "/home/u/.pi/agent/agents/" +:+ nm +:+ ".md";
     Agents.skills := None; Agents.output := None; Agents.defaultReads := None;
     Agents.defaultProgress := None; Agents.interactive := None;
     Agents.extraFields := None |}.

Definition sample_discovery (cwd : string) (fs : Management.Files) : Agents.Discovery :=
  {| Agents.d_user := [sample_agent "scout"; sample_agent "planner"];
     Agents.d_project := [];
     Agents.d_chains := [];
     Agents.d_userDir := "/home/u/.pi/agent/agents";
     Agents.d_projectDir := None |}.

Definition sample_management : Management.ManagementContext :=
  {| Management.ctx_cwd := "/work";
     Management.modelRegistry := [];
     Management.discoverAgentsAll := sample_discovery;
     Management.discoverAvailableSkills := fun _ _ => [];
     Management.JSON_parse := fun _ => None;
     Management.localeCompare := fun a b =>
       match String.compare a b with Lt => (-1)%Z | Eq => 0%Z | Gt => 1%Z end |}.

Definition sample_chain_result : Dispatcher.ToolResult :=
  {| Dispatcher.content := "chain done"; Dispatcher.isError := false;
     Dispatcher.details_mode := Dispatcher.MChain;
     Dispatcher.details_results := []; Dispatcher.details_asyncId := None |}.

(** A host at nesting depth [d] with the limit 2 of the default. *)
Definition sample_host (d : nat) : Dispatcher.Host :=
  {| Dispatcher.depth_blocked := bool_decide (2 <= d);
     Dispatcher.depth := d;
     Dispatcher.maxDepth := 2;
     Dispatcher.agents := [sample_agent "scout"; sample_agent "planner"];
     Dispatcher.asyncByDefault := false;
     Dispatcher.isAsyncAvailable := true;
     Dispatcher.hasUI := false;
     Dispatcher.clarify_dialog := None;
     Dispatcher.sessionFile := Some "/sessions/s1.jsonl";
     Dispatcher.freshSessionId := "session-0";
     Dispatcher.randomUUID := "run-0001";
     Dispatcher.executeChain := fun _ => (sample_chain_result, None);
     Dispatcher.management := sample_management |}.

Definition empty_files : Management.Files :=
  {| Management.dirs := ∅; Management.files := ∅ |}.

Definition sample_extension : Dispatcher.Extension :=
  {| Dispatcher.baseCwd := "/";
     Dispatcher.currentSessionId := None;
     Dispatcher.completionSeen := ∅;
     Dispatcher.resultsDir := ∅;
     Dispatcher.emitted := [];
     Dispatcher.store := empty_files |}.

Definition no_params : Dispatcher.SubagentParams :=
  {| Dispatcher.p_agent := None; Dispatcher.p_task := None;
     Dispatcher.p_action := None; Dispatcher.p_chainName := None;
     Dispatcher.p_config := None; Dispatcher.p_agentScope := None;
     Dispatcher.p_tasks := None; Dispatcher.p_chain := None;
     Dispatcher.p_async := None; Dispatcher.p_clarify := None |}.

Definition task_item (a t : string) : Dispatcher.TaskItem :=
  {| Dispatcher.ti_agent := a; Dispatcher.ti_task := t;
     Dispatcher.ti_cwd := None; Dispatcher.ti_model := None |}.

(** [{ tasks: [{agent: "scout", task: "x"}, {agent: "planner", task: "y"}] }] *)
Definition two_tasks : list Dispatcher.TaskItem :=
  [task_item "scout" "x"; task_item "planner" "y"].

Definition parallel_params : Dispatcher.SubagentParams :=
  {| Dispatcher.p_agent := None; Dispatcher.p_task := None;
     Dispatcher.p_action := None; Dispatcher.p_chainName := None;
     Dispatcher.p_config := None; Dispatcher.p_agentScope := None;
     Dispatcher.p_tasks := Some two_tasks; Dispatcher.p_chain := None;
     Dispatcher.p_async := None; Dispatcher.p_clarify := None |}.

(** The same request with [clarify: true], and a host at depth 0 with a
    UI whose dialog the user dismisses. *)
Definition clarify_parallel_params : Dispatcher.SubagentParams :=
  {| Dispatcher.p_agent := None; Dispatcher.p_task := None;
     Dispatcher.p_action := None; Dispatcher.p_chainName := None;
     Dispatcher.p_config := None; Dispatcher.p_agentScope := None;
     Dispatcher.p_tasks := Some two_tasks; Dispatcher.p_chain := None;
     Dispatcher.p_async := None; Dispatcher.p_clarify := Some true |}.

Definition dismissing_host : Dispatcher.Host :=
  {| Dispatcher.depth_blocked := false;
     Dispatcher.depth := 0;
     Dispatcher.maxDepth := 2;
     Dispatcher.agents := [sample_agent "scout"; sample_agent "planner"];
     Dispatcher.asyncByDefault := false;
     Dispatcher.isAsyncAvailable := true;
     Dispatcher.hasUI := true;
     Dispatcher.clarify_dialog := None;
     Dispatcher.sessionFile := Some "/sessions/s1.jsonl";
     Dispatcher.freshSessionId := "session-0";
     Dispatcher.randomUUID := "run-0001";
     Dispatcher.executeChain := fun _ => (sample_chain_result, None);
     Dispatcher.management := sample_management |}.

(** [{ agent: "nope", task: "hello" }] *)
Definition unknown_single_params : Dispatcher.SubagentParams :=
  {| Dispatcher.p_agent := Some "nope"; Dispatcher.p_task := Some "hello";
     Dispatcher.p_action := None; Dispatcher.p_chainName := None;
     Dispatcher.p_config := None; Dispatcher.p_agentScope := None;
     Dispatcher.p_tasks := None; Dispatcher.p_chain := None;
     Dispatcher.p_async := None; Dispatcher.p_clarify := None |}.

Definition outcome_ok (out : string) : Dispatcher.RunOutcome :=
  {| Dispatcher.out_exitCode := 0; Dispatcher.out_output := out;
     Dispatcher.out_error := None |}.

(** [{ action: "create", config: { name: "Code Reviewer", description: "reviews" } }] *)
Definition create_params : Dispatcher.SubagentParams :=
  {| Dispatcher.p_agent := None; Dispatcher.p_task := None;
     Dispatcher.p_action := Some "create"; Dispatcher.p_chainName := None;
     Dispatcher.p_config :=
       Some (Management.JObj [("name", Management.JStr "Code Reviewer");
                              ("description", Management.JStr "reviews")]);
     Dispatcher.p_agentScope := None;
     Dispatcher.p_tasks := None; Dispatcher.p_chain := None;
     Dispatcher.p_async := None; Dispatcher.p_clarify := None |}.

(** Modelled from the spec: the completion dedup of §4.6, "exactly once
    per job (dedup key = id, TTL 10 minutes)". *)
Definition sample_dedupe : Dispatcher.Dedupe :=
  {| Dispatcher.buildCompletionKey := fun data fallback =>
       match Dispatcher.rd_id data with
       | Some i => if JsString.truthy i then "id:" +:+ i else fallback
       | None => fallback
       end;
     Dispatcher.markSeenWithTtl := fun seen key now ttl =>
       match seen !! key with
       | Some t => if (now - t <? ttl)%Z then (true, seen)
                   else (false, <[key := now]> seen)
       | None => (false, <[key := now]> seen)
       end |}.

Definition result_of (i : string) (session cwd : option string) : Dispatcher.ResultData :=
  {| Dispatcher.rd_id := Some i; Dispatcher.rd_sessionId := session;
     Dispatcher.rd_cwd := cwd; Dispatcher.rd_success := true |}.

(** A registry bound to session [s1] in [/work], with three result
    files: one of its own session, one of another session, and one
    without a session id written from another directory. *)
Definition registry_with_results : Dispatcher.Extension :=
  {| Dispatcher.baseCwd := "/work";
     Dispatcher.currentSessionId := Some "s1";
     Dispatcher.completionSeen := ∅;
     Dispatcher.resultsDir :=
       {[ "own.json" := Some (result_of "a" (Some "s1") (Some "/work"));
          "other-session.json" := Some (result_of "b" (Some "s2") (Some "/work"));
          "other-cwd.json" := Some (result_of "c" None (Some "/elsewhere")) ]};
     Dispatcher.emitted := [];
     Dispatcher.store := empty_files |}.

(** A background run of one parallel group of two tasks, one at a
    time, with fail-fast: the child of the first task exits with code 1,
    and the schedule gives the only worker its turns. *)
Definition runner_step (a t : string) : RunnerSubagentStep :=
  {| agent := a; task := t; cwd := None; model := None; tools := None;
     extensions := None; mcpDirectTools := None; systemPrompt := None;
     skills := None; outputPath := None |}.

Definition failfast_config : Runner.SubagentRunConfig :=
  {| Runner.cfg_id := "run1";
     Runner.steps :=
       [Group {| parallel := [runner_step "w1" "a"; runner_step "w2" "b"];
                 concurrency := Some (Js.of_nat 1);
                 failFast := Some true |}];
     Runner.cfg_cwd := "/work"; Runner.placeholder := "{previous}";
     Runner.taskIndex := None; Runner.totalTasks := None;
     Runner.maxOutput := None; Runner.artifactsDir := None;
     Runner.artifactConfig := None; Runner.share := None;
     Runner.sessionDir := None; Runner.asyncDir := "/async/run1";
     Runner.sessionId := Some "s" |}.

Definition failfast_world : Runner.World :=
  {| Runner.Date_now := fun n => Z.of_nat (100 + n);
     Runner.process_pid := 42;
     Runner.child := fun fi _ =>
       if Nat.eqb fi 0 then ("boom", Some 1%Z) else ("fine", Some 0%Z);
     Runner.persistSingleOutput := fun _ _ => (None, None);
     Runner.parseSessionTokens := fun _ _ => None;
     Runner.findLatestSessionFile := None;
     Runner.exportAndShare := fun _ => inr "no";
     Runner.truncateOutput := fun s _ _ => (false, s);
     Runner.schedule := fun _ => [0; 0; 0; 0; 0; 0; 0; 0] |}.

(** A parallel request that asks for the background. *)
Definition async_parallel_params : Dispatcher.SubagentParams :=
  {| Dispatcher.p_agent := None; Dispatcher.p_task := None;
     Dispatcher.p_action := None; Dispatcher.p_chainName := None;
     Dispatcher.p_config := None; Dispatcher.p_agentScope := None;
     Dispatcher.p_tasks := Some two_tasks; Dispatcher.p_chain := None;
     Dispatcher.p_async := Some true; Dispatcher.p_clarify := None |}.

(** A request with the single mode and the parallel mode at once. *)
Definition both_modes_params : Dispatcher.SubagentParams :=
  {| Dispatcher.p_agent := Some "scout"; Dispatcher.p_task := Some "look";
     Dispatcher.p_action := None; Dispatcher.p_chainName := None;
     Dispatcher.p_config := None; Dispatcher.p_agentScope := None;
     Dispatcher.p_tasks := Some two_tasks; Dispatcher.p_chain := None;
     Dispatcher.p_async := None; Dispatcher.p_clarify := None |}.

(** A callback that logs the index it is started with. *)
Definition logging_start (item i : nat) (s : list nat) : list nat * (unit + nat) :=
  ((s ++ [i])%list, inl tt).

Definition logging_resume (item i : nat) (_ : unit) (_ : unit) (s : list nat)
  : list nat * nat := (s, item * 10).

Definition logged (s : list nat) : list nat := s.

(** The disk with the files of the two sample agents. *)
Definition sample_agent_files : Management.Files :=
  Management.writeFileSync "/home/u/.pi/agent/agents/planner.md" "planner"
    (Management.writeFileSync "/home/u/.pi/agent/agents/scout.md" "scout" empty_files).

(** [{ action: "delete", agent: "scout" }] *)
Definition delete_scout : Management.ManagementParams :=
  {| Management.action := Some "delete"; Management.agent := Some "scout";
     Management.chainName := None; Management.agentScope := None;
     Management.config := None |}.

(** [{ agent: "nope", task: "hello", tasks: [...] }]: an unknown agent
    in a request with two modes. *)
Definition unknown_two_modes_params : Dispatcher.SubagentParams :=
  {| Dispatcher.p_agent := Some "nope"; Dispatcher.p_task := Some "hello";
     Dispatcher.p_action := None; Dispatcher.p_chainName := None;
     Dispatcher.p_config := None; Dispatcher.p_agentScope := None;
     Dispatcher.p_tasks := Some two_tasks; Dispatcher.p_chain := None;
     Dispatcher.p_async := None; Dispatcher.p_clarify := None |}.

End Samples.

(** ** text-editor.ts: the text field of the clarify dialog

    A JavaScript string is a sequence of UTF-16 code units, and the
    editor only counts and cuts them: a buffer is a list of code units,
    [length], [slice] and indexing are those of the list.  Positions
    are integers, as the arithmetic of the code makes them.  A read
    outside the string is [undefined]; the two places where the code
    would then throw or compute with it are kept as outcomes of their
    own. *)

Module TextEditor.
Local Open Scope list_scope.
Local Open Scope Z_scope.

Definition text : Type := list nat.

Definition NEWLINE : nat := 10.
Definition CR : nat := 13.
Definition TAB : nat := 9.
Definition SPACE : nat := 32.

Definition len (s : text) : Z := Z.of_nat (length s).

(** An index argument of [slice], as ECMAScript resolves it: a negative
    one counts from the end, and both ends are clamped to the string. *)
Definition resolve_index (s : text) (i : Z) : nat :=
  if i <? 0 then Z.to_nat (Z.max (len s + i) 0) else Z.to_nat (Z.min i (len s)).

(** [s.slice(start, end)] *)
Definition slice (s : text) (start finish : Z) : text :=
  let from := resolve_index s start in
  let to := resolve_index s finish in
  take (to - from)%nat (drop from s).

(** [s.slice(start)] *)
Definition slice_from (s : text) (start : Z) : text := drop (resolve_index s start) s.

(** [s[i]]: [undefined] outside the string. *)
Definition char_at (s : text) (i : Z) : option nat :=
  if i <? 0 then None else s !! Z.to_nat i.

Record TextEditorState : Type := {
  buffer : text;
  cursor : Z;
  viewportOffset : Z;
}.

Definition createEditorState (initial : text) : TextEditorState :=
  {| buffer := initial; cursor := 0; viewportOffset := 0 |}.

(** *** wrapText *)

(** [text.split("\n")] *)
Fixpoint split_lines (s : text) : list text :=
  match s with
  | [] => [[]]
  | c :: r =>
      if Nat.eqb c NEWLINE then [] :: split_lines r
      else match split_lines r with
           | first :: others => (c :: first) :: others
           | [] => [[c]]
           end
  end.

(** The inner loop of [wrapText]: [while (pos < segment.length)], one
    line of at most [width] units per turn.  [fuel] bounds the turns;
    the length of the segment is enough of it when [width] is positive
    (see [wrap_segment_fuel]). *)
Fixpoint wrap_segment (fuel : nat) (segment : text) (width offset pos : Z)
  : list (text * Z) :=
  match fuel with
  | O => []
  | S f =>
      if pos <? len segment
      then (slice segment pos (pos + width), offset + pos)
           :: wrap_segment f segment width offset (pos + width)
      else []
  end.

(** The loop over the segments: the lines with their starts. *)
Fixpoint wrap_segments (segments : list text) (width offset : Z) : list (text * Z) :=
  match segments with
  | [] => []
  | segment :: rest =>
      (if (len segment =? 0) then [([], offset)]
       else wrap_segment (length segment) segment width offset 0)
      ++ wrap_segments rest width
           (offset + len segment + (match rest with [] => 0 | _ => 1 end))
  end.

(** [text.endsWith("\n")] *)
Definition ends_with_newline (s : text) : bool :=
  match last s with
  | Some c => Nat.eqb c NEWLINE
  | None => false
  end.

(** [wrapText(text, width)]: the pairs of a line and its start. *)
Definition wrapText (s : text) (width : Z) : list (text * Z) :=
  if width <=? 0 then [(s, 0)]
  else if len s =? 0 then [([], 0)]
  else
    let wrapped := wrap_segments (split_lines s) width 0 in
    if negb (ends_with_newline s)
       && (0 <? len s)
       && (len (default [] (fst <$> last wrapped)) =? width)
    then wrapped ++ [([], len s)]
    else wrapped.

Definition lines_of (wrapped : list (text * Z)) : list text := fst <$> wrapped.
Definition starts_of (wrapped : list (text * Z)) : list Z := snd <$> wrapped.

(** *** getCursorDisplayPos and ensureCursorVisible *)

(** [for (let i = starts.length - 1; i >= 0; i--)], with [i + 1] the
    number of starts still to look at. *)
Fixpoint display_pos_from (cursor : Z) (starts : list Z) (n : nat) : nat * Z :=
  match n with
  | O => (0%nat, 0)
  | S i =>
      match starts !! i with
      | Some start => if start <=? cursor then (i, cursor - start)
                      else display_pos_from cursor starts i
      | None => display_pos_from cursor starts i
      end
  end.

Definition getCursorDisplayPos (cursor : Z) (starts : list Z) : nat * Z :=
  display_pos_from cursor starts (length starts).

Definition ensureCursorVisible (cursorLine viewportHeight currentOffset : Z) : Z :=
  let offset :=
    if cursorLine <? currentOffset then cursorLine
    else if currentOffset + viewportHeight <=? cursorLine
         then cursorLine - viewportHeight + 1
         else currentOffset in
  Z.max 0 offset.

(** *** Words *)

Definition isWordChar (code : nat) : bool :=
  ((48 <=? code) && (code <=? 57) || (65 <=? code) && (code <=? 90)
   || (97 <=? code) && (code <=? 122) || (code =? 95))%nat.

(** [while (pos > 0 && test(buffer[pos - 1])) pos--]; [None] where the
    code reads [undefined] and [charCodeAt] throws. *)
Fixpoint back_while (test : nat -> bool) (buf : text) (fuel : nat) (pos : Z)
  : option Z :=
  match fuel with
  | O => Some pos
  | S f =>
      if 0 <? pos then
        match char_at buf (pos - 1) with
        | Some c => if test c then back_while test buf f (pos - 1) else Some pos
        | None => None
        end
      else Some pos
  end.

(** [while (pos < len && test(buffer[pos])) pos++] *)
Fixpoint forth_while (test : nat -> bool) (buf : text) (fuel : nat) (pos : Z)
  : option Z :=
  match fuel with
  | O => Some pos
  | S f =>
      if pos <? len buf then
        match char_at buf pos with
        | Some c => if test c then forth_while test buf f (pos + 1) else Some pos
        | None => None
        end
      else Some pos
  end.

Definition wordBackward (buf : text) (cur : Z) : option Z :=
  pos ← back_while (fun c => negb (isWordChar c)) buf (Z.to_nat cur) cur;
  back_while isWordChar buf (Z.to_nat pos) pos.

Definition wordForward (buf : text) (cur : Z) : option Z :=
  pos ← forth_while isWordChar buf (Z.to_nat (len buf - cur)) cur;
  forth_while (fun c => negb (isWordChar c)) buf (Z.to_nat (len buf - pos)) pos.

(** *** normalizeInsertText *)

Fixpoint is_prefix (p s : text) : bool :=
  match p, s with
  | [], _ => true
  | a :: p', b :: s' => Nat.eqb a b && is_prefix p' s'
  | _ :: _, [] => false
  end.

(** [s.split(pat).join("")] for a non-empty [pat]: the occurrences of
    [pat], from the left and without overlap, are cut out. *)
Fixpoint cut_out (pat : text) (skip : nat) (s : text) : text :=
  match s with
  | [] => []
  | c :: r =>
      match skip with
      | S k => cut_out pat k r
      | O => if is_prefix pat s then cut_out pat (length pat - 1) r
             else c :: cut_out pat 0 r
      end
  end.

(** [s.replace(/\r\n/g, "\n").replace(/\r/g, "\n")] *)
Fixpoint crlf_to_lf (s : text) : text :=
  match s with
  | [] => []
  | c :: r =>
      if Nat.eqb c CR then
        match r with
        | d :: r' => if Nat.eqb d NEWLINE then NEWLINE :: crlf_to_lf r'
                     else c :: crlf_to_lf r
        | [] => [c]
        end
      else c :: crlf_to_lf r
  end.

Definition cr_to_lf (s : text) : text :=
  (fun c => if Nat.eqb c CR then NEWLINE else c) <$> s.

(** [text.slice(0, nl)] for the first ["\n"], when there is one. *)
Fixpoint first_line (s : text) : text :=
  match s with
  | [] => []
  | c :: r => if Nat.eqb c NEWLINE then [] else c :: first_line r
  end.

(** [s.replace(/\t/g, "    ")] *)
Definition expand_tabs (s : text) : text :=
  s ≫= (fun c => if Nat.eqb c TAB then [SPACE; SPACE; SPACE; SPACE] else [c]).

Definition PASTE_START : text := [27; 91; 50; 48; 48; 126]%nat.
Definition PASTE_END : text := [27; 91; 50; 48; 49; 126]%nat.

Definition normalizeInsertText (data : text) (multiLine : bool) : option text :=
  let t1 := cut_out PASTE_END 0 (cut_out PASTE_START 0 data) in
  let t2 := cr_to_lf (crlf_to_lf t1) in
  let t3 := if multiLine then t2 else first_line t2 in
  let t4 := expand_tabs t3 in
  if (len t4 =? 0) then None
  else if forallb (fun code => negb (code <? 32)%nat
                               || (multiLine && Nat.eqb code NEWLINE)) t4
       then Some t4
       else None.

(** *** handleEditorInput *)

Inductive outcome : Type :=
| Closed                          (* the function returns null *)
| Next (s : TextEditorState)
| Throws                          (* a read of undefined.charCodeAt *)
| NotANumber.                     (* the sum of a number and undefined *)

Definition with_cursor (s : TextEditorState) (c : Z) : TextEditorState :=
  {| buffer := buffer s; cursor := c; viewportOffset := viewportOffset s |}.

Definition with_buffer (s : TextEditorState) (b : text) (c : Z) : TextEditorState :=
  {| buffer := b; cursor := c; viewportOffset := viewportOffset s |}.

(** [starts[line] + col], where [starts[line]] may be undefined. *)
Definition at_line (wrapped : list (text * Z)) (line : nat) (col : Z) : option Z :=
  (fun start => start + col) <$> starts_of wrapped !! line.

(** [Math.min(col, wrapped[line]?.length ?? 0)] *)
Definition clamp_col (wrapped : list (text * Z)) (line : nat) (col : Z) : Z :=
  Z.min col (default 0 (len <$> lines_of wrapped !! line)).

Definition to_cursor (s : TextEditorState) (c : option Z) : outcome :=
  match c with
  | Some c' => Next (with_cursor s c')
  | None => NotANumber
  end.

Section Keys.
(** [matchesKey(data, name)] of pi-tui. *)
Variable matchesKey : text -> string -> bool.

Definition handleEditorInput (state : TextEditorState) (data : text)
    (textWidth : Z) (multiLine : bool) : outcome :=
  let key := matchesKey data in
  if key "escape" || key "ctrl+c" then Closed
  else if key "return" then
    if negb multiLine then Closed
    else Next (with_buffer state
                 (slice (buffer state) 0 (cursor state) ++ [NEWLINE]
                  ++ slice_from (buffer state) (cursor state))
                 (cursor state + 1))
  else
    let wrapped := wrapText (buffer state) textWidth in
    let cursorPos := getCursorDisplayPos (cursor state) (starts_of wrapped) in
    if key "alt+left" || key "ctrl+left" then
      match wordBackward (buffer state) (cursor state) with
      | Some c => Next (with_cursor state c)
      | None => Throws
      end
    else if key "alt+right" || key "ctrl+right" then
      match wordForward (buffer state) (cursor state) with
      | Some c => Next (with_cursor state c)
      | None => Throws
      end
    else if key "left" then
      if 0 <? cursor state then Next (with_cursor state (cursor state - 1))
      else Next state
    else if key "right" then
      if cursor state <? len (buffer state)
      then Next (with_cursor state (cursor state + 1))
      else Next state
    else if key "up" then
      if (0 <? cursorPos.1)%nat then
        let targetLine := (cursorPos.1 - 1)%nat in
        to_cursor state
          (at_line wrapped targetLine (clamp_col wrapped targetLine cursorPos.2))
      else Next state
    else if key "down" then
      if (Z.of_nat cursorPos.1 <? Z.of_nat (length wrapped) - 1) then
        let targetLine := (cursorPos.1 + 1)%nat in
        to_cursor state
          (at_line wrapped targetLine (clamp_col wrapped targetLine cursorPos.2))
      else Next state
    else if key "home" then
      to_cursor state (at_line wrapped cursorPos.1 0)
    else if key "end" then
      to_cursor state
        (at_line wrapped cursorPos.1
           (default 0 (len <$> lines_of wrapped !! cursorPos.1)))
    else if key "ctrl+home" then Next (with_cursor state 0)
    else if key "ctrl+end" then Next (with_cursor state (len (buffer state)))
    else if key "alt+backspace" then
      match wordBackward (buffer state) (cursor state) with
      | None => Throws
      | Some target =>
          if target =? cursor state then Next state
          else Next (with_buffer state
                       (slice (buffer state) 0 target
                        ++ slice_from (buffer state) (cursor state))
                       target)
      end
    else if key "backspace" then
      if 0 <? cursor state then
        Next (with_buffer state
                (slice (buffer state) 0 (cursor state - 1)
                 ++ slice_from (buffer state) (cursor state))
                (cursor state - 1))
      else Next state
    else if key "delete" then
      if cursor state <? len (buffer state) then
        Next (with_buffer state
                (slice (buffer state) 0 (cursor state)
                 ++ slice_from (buffer state) (cursor state + 1))
                (cursor state))
      else Next state
    else
      match normalizeInsertText data multiLine with
      | Some insert =>
          Next (with_buffer state
                  (slice (buffer state) 0 (cursor state) ++ insert
                   ++ slice_from (buffer state) (cursor state))
                  (cursor state + len insert))
      | None => Closed
      end.

End Keys.

(** The byte sequences a terminal sends for some keys in its legacy
    mode, as a sample of [matchesKey]. *)
Definition key_sequences : list (string * text) :=
  [("escape", [27]); ("ctrl+c", [3]); ("return", [13]); ("backspace", [127]);
   ("up", [27; 91; 65]); ("down", [27; 91; 66]);
   ("right", [27; 91; 67]); ("left", [27; 91; 68]);
   ("home", [27; 91; 72]); ("end", [27; 91; 70]);
   ("delete", [27; 91; 51; 126])]%nat.

Definition sample_keys (data : text) (name : string) : bool :=
  existsb (fun entry => String.eqb entry.1 name && bool_decide (entry.2 = data))
          key_sequences.

(** The cursor is in the buffer: between its two ends. *)
Definition cursor_in_buffer (s : TextEditorState) : Prop :=
  0 <= cursor s <= len (buffer s).

(** *** Predicates on the lines of [wrapText] *)

(** The length of [segments.join("\n")]. *)
Fixpoint joined_len (segments : list text) : Z :=
  match segments with
  | [] => 0
  | [s] => len s
  | s :: rest => len s + 1 + joined_len rest
  end.

(** A line with its start lies in the range from [lo] to [hi]. *)
Definition within (lo hi : Z) (entry : text * Z) : Prop :=
  lo <= entry.2 /\ entry.2 + len entry.1 <= hi.

(** [segments.join("\n")] *)
Fixpoint join_lines (segments : list text) : text :=
  match segments with
  | [] => []
  | s :: rest => match rest with
                 | [] => s
                 | _ :: _ => s ++ NEWLINE :: join_lines rest
                 end
  end.

(** The entry is the part of [whole] that begins at its start. *)
Definition piece (whole : text) (entry : text * Z) : Prop :=
  0 <= entry.2 /\
  entry.1 = take (length entry.1) (drop (Z.to_nat entry.2) whole).

(** Each line ends where the next one begins, or one unit (the line
    break) before it, and the last one ends at [hi]. *)
Fixpoint linked (l : list (text * Z)) (hi : Z) : Prop :=
  match l with
  | [] => True
  | e :: r =>
      match r with [] => hi | e' :: _ => e'.2 - 1 end <= e.2 + len e.1
      /\ linked r hi
  end.

End TextEditor.

(** * Theorems *)

(** ** Numbers: what the clamp of [mapConcurrent] computes *)

Module JsFacts.
Import Js.

Lemma Qfloor_nonpos (q : Q) : (q <= 0)%Q -> (Qfloor q <= 0)%Z.
Proof.
  intros Hq.
  destruct (Z_le_gt_dec (Qfloor q) 0) as [H|H]; [exact H|exfalso].
  assert (H1 : (1 <= Qfloor q)%Z) by lia.
  pose proof (Qfloor_le q) as Hfl.
  assert (H2 : (inject_Z 1 <= inject_Z (Qfloor q))%Q)
    by (rewrite <- Zle_Qle; exact H1).
  assert (H3 : (inject_Z 1 <= 0)%Q)
    by (eapply Qle_trans; [exact H2 | eapply Qle_trans; [exact Hfl | exact Hq]]).
  revert H3. unfold Qle, inject_Z. simpl. lia.
Qed.

Lemma Qfloor_ge_one (q : Q) : (1 <= q)%Q -> (1 <= Qfloor q)%Z.
Proof.
  intros Hq.
  change 1%Z with (Qfloor (inject_Z 1)). 
  apply Qfloor_resp_le. exact Hq.
Qed.

Lemma Qeq_bool_inject_Z (z : Z) : Qeq_bool (inject_Z z) 0 = (z =? 0)%Z.
Proof.
  unfold Qeq_bool, inject_Z. simpl.
  destruct (Z.eqb_spec z 0) as [->|Hne]; [reflexivity|].
  apply Z.eqb_neq. lia.
Qed.

Lemma Qle_bool_inject_Z (a b : Z) : Qle_bool (inject_Z a) (inject_Z b) = (a <=? b)%Z.
Proof. unfold Qle_bool, inject_Z. simpl. f_equal; lia. Qed.

End JsFacts.

(** ** parallel-utils.ts: the clamp *)

Module ClampFacts.
Import Js JsFacts ParallelUtils.

Lemma safeLimit_cases (limit : number) :
  safeLimit limit = PosInf \/
  exists z : Z, (1 <= z)%Z /\ safeLimit limit = of_Z z.
Proof.
  destruct limit as [| | |q].
  - right. exists 1%Z. split; [lia|reflexivity].
  - left. reflexivity.
  - right. exists 1%Z. split; [lia|reflexivity].
  - right. unfold safeLimit, Math_floor, or_else, truthy.
    rewrite Qeq_bool_inject_Z.
    destruct (Z.eqb_spec (Qfloor q) 0) as [Hz|Hz]; simpl negb; cbv iota.
    + exists 1%Z. split; [lia|reflexivity].
    + unfold of_nat, Math_max. rewrite Qle_bool_inject_Z.
      destruct (Z.leb_spec (Z.of_nat 1) (Qfloor q)) as [Hle|Hgt].
      * exists (Qfloor q). split; [lia|reflexivity].
      * exists 1%Z. split; [lia|reflexivity].
Qed.

Lemma safeLimit_clamped (limit : number) :
  clamped_limit limit -> safeLimit limit = of_nat 1.
Proof.
  destruct limit as [| | |q]; simpl; intros Hc; try reflexivity; [contradiction|].
  apply Qfloor_nonpos in Hc.
  unfold safeLimit, Math_floor, or_else, truthy.
  rewrite Qeq_bool_inject_Z.
  destruct (Z.eqb_spec (Qfloor q) 0) as [Hz|Hz]; simpl negb; cbv iota.
  - reflexivity.
  - unfold of_nat, Math_max. rewrite Qle_bool_inject_Z.
    destruct (Z.leb_spec (Z.of_nat 1) (Qfloor q)) as [Hle|Hgt]; [lia|reflexivity].
Qed.

Lemma safeLimit_ge_one (q : Q) :
  (1 <= q)%Q -> safeLimit (Fin q) = of_Z (Qfloor q).
Proof.
  intros Hq. apply Qfloor_ge_one in Hq.
  unfold safeLimit, Math_floor, or_else, truthy.
  rewrite Qeq_bool_inject_Z.
  destruct (Z.eqb_spec (Qfloor q) 0) as [Hz|Hz]; [lia|]. simpl negb; cbv iota.
  unfold of_nat, Math_max. rewrite Qle_bool_inject_Z.
  destruct (Z.leb_spec (Z.of_nat 1) (Qfloor q)) as [Hle|Hgt]; [reflexivity|lia].
Qed.

Lemma workerCount_finite (limit : number) (n : nat) (z : Z) :
  safeLimit limit = of_Z z -> workerCount limit n = Nat.min (Z.to_nat z) n.
Proof.
  intros Hs. unfold workerCount. rewrite Hs.
  unfold of_Z, of_nat, Math_min, to_length. rewrite Qle_bool_inject_Z.
  destruct (Z.leb_spec z (Z.of_nat n)) as [Hle|Hgt]; rewrite Qfloor_Z; lia.
Qed.

Lemma workerCount_infinite (limit : number) (n : nat) :
  safeLimit limit = PosInf -> workerCount limit n = n.
Proof.
  intros Hs. unfold workerCount. rewrite Hs.
  unfold of_nat, Math_min, to_length. rewrite Qfloor_Z. lia.
Qed.

Lemma workerCount_le (limit : number) (n : nat) : workerCount limit n <= n.
Proof.
  destruct (safeLimit_cases limit) as [Hinf|(z & Hz & Hs)].
  - rewrite (workerCount_infinite _ _ Hinf). lia.
  - rewrite (workerCount_finite _ _ _ Hs). lia.
Qed.

Lemma workerCount_pos (limit : number) (n : nat) :
  0 < n -> 0 < workerCount limit n.
Proof.
  intros Hn.
  destruct (safeLimit_cases limit) as [Hinf|(z & Hz & Hs)].
  - rewrite (workerCount_infinite _ _ Hinf). lia.
  - rewrite (workerCount_finite _ _ _ Hs). lia.
Qed.

Lemma workerCount_clamped (limit : number) (n : nat) :
  clamped_limit limit -> workerCount limit n = Nat.min 1 n.
Proof.
  intros Hc. apply (workerCount_finite limit n 1).
  rewrite (safeLimit_clamped _ Hc). reflexivity.
Qed.

End ClampFacts.

(** ** parallel-utils.ts: the worker pool of [mapConcurrent] *)

Module PoolFacts.
Import Js ParallelUtils ClampFacts.

Lemma sum_list_insert (l : list nat) (i x y : nat) :
  l !! i = Some x -> sum_list (<[i:=y]> l) + x = sum_list l + y.
Proof.
  revert i. induction l as [|a l IH]; intros [|i] Hl; simpl in *; try discriminate.
  - injection Hl as ->. lia.
  - specialize (IH i Hl). lia.
Qed.

Section Pool.
Context {T R L O St : Type}.
Variable fn_start : T -> nat -> St -> St * (L + R).
Variable fn_resume : T -> nat -> L -> O -> St -> St * R.
Variable items : list T.

Local Abbreviation state := (@mc_state R L St).
Local Abbreviation step := (mc_step fn_start fn_resume items).
Local Abbreviation exec := (mc_exec fn_start fn_resume items).
Local Abbreviation turn := (mc_turn fn_start fn_resume items).
Local Abbreviation inv := (mc_inv fn_start fn_resume items).
Local Abbreviation measure := (@mc_measure T R L St items).

(** The step function and the turn relation are the same machine. *)
Lemma mc_step_turn (w : nat) (o : O) (st st' : state) :
  step w o st = Some st' <-> turn w o st st'.
Proof.
  unfold mc_step. split.
  - intros H. destruct (mc_workers st !! w) as [[|i l|i r|]|] eqn:Hw; try discriminate.
    + destruct (decide (mc_next st < length items)) as [Hlt|Hge].
      * destruct (items !! mc_next st) as [x|] eqn:Hx; [|discriminate].
        destruct (fn_start x (mc_next st) (mc_shared st)) as [s' res] eqn:Hf.
        injection H as <-. eapply turn_call; eauto.
      * injection H as <-. apply turn_exit; [done|lia].
    + destruct (items !! i) as [x|] eqn:Hx; [|discriminate].
      destruct (fn_resume x i l o (mc_shared st)) as [s' r] eqn:Hf.
      injection H as <-. eapply turn_complete; eauto.
    + injection H as <-. by apply turn_store.
  - intros H. destruct H as [x s' res Hw Hlt Hx Hf|Hw Hge|i l x s' r Hw Hx Hf|i r Hw];
      rewrite Hw.
    + rewrite decide_True by done. rewrite Hx, Hf. done.
    + rewrite decide_False by lia. done.
    + rewrite Hx, Hf. done.
    + done.
Qed.

Lemma mc_exec_app (s1 s2 : list (nat * O)) (st : state) :
  exec (s1 ++ s2) st = exec s1 st ≫= exec s2.
Proof.
  revert st. induction s1 as [|[w o] s1 IH]; intros st; simpl; [done|].
  destruct (step w o st); simpl; [apply IH|done].
Qed.

(** *** The invariant *)

Lemma mc_inv_init (limit : number) (s : St) :
  inv (workerCount limit (length items)) (mc_init items limit s).
Proof.
  split; simpl.
  - apply length_replicate.
  - apply length_replicate.
  - lia.
  - intros Hk. destruct (length items) as [|n] eqn:Hn; [done|].
    pose proof (workerCount_pos limit (S n)). lia.
  - intros w wk i Hw. apply lookup_replicate in Hw as [-> _]. simpl. tauto.
  - intros w Hw. apply lookup_replicate in Hw as [? _]. discriminate.
  - intros i Hi. lia.
  - intros i r Hr. apply lookup_replicate in Hr as [? _]. discriminate.
  - intros w i r Hw. apply lookup_replicate in Hw as [? _]. discriminate.
Qed.

Lemma mc_inv_turn (k w : nat) (o : O) (st st' : state) :
  inv k st -> turn w o st st' -> inv k st'.
Proof.
  intros [Hwk Hres Hnext Hne Hheld Hdone Hcover Hstored Hsettled] Hturn.
  assert (Hwlt : forall wk, mc_workers st !! w = Some wk -> w < length (mc_workers st))
    by (intros wk Hw; eapply lookup_lt_Some; eauto).
  destruct Hturn as [x s' res Hw Hlt Hx Hf|Hw Hge|i l x s' r Hw Hx Hf|i r Hw];
    split; simpl.
  (* a call of fn on the next item *)
  - by rewrite length_insert.
  - done.
  - lia.
  - done.
  - intros w' wk i Hw' Hh.
    apply list_lookup_insert_Some in Hw' as [(-> & <- & _)|(Hne' & Hw')].
    + destruct res; simpl in Hh; lia.
    + specialize (Hheld _ _ _ Hw' Hh). lia.
  - intros w' Hw'.
    apply list_lookup_insert_Some in Hw' as [(-> & Heq & _)|(Hne' & Hw')].
    + destruct res; discriminate.
    + specialize (Hdone _ Hw'). lia.
  - intros i Hi. destruct (decide (i = mc_next st)) as [->|Hneq].
    + left. exists w. eexists. split.
      * apply list_lookup_insert_eq. eauto.
      * destruct res; reflexivity.
    + destruct (Hcover i) as [(w' & wk & Hw' & Hh)|Hr]; [lia| |by right].
      left. exists w', wk. split; [|done].
      rewrite list_lookup_insert_ne; [done|].
      intros ->. rewrite Hw in Hw'. injection Hw' as <-. simpl in Hh. done.
  - done.
  - intros w' i r Hw'.
    apply list_lookup_insert_Some in Hw' as [(-> & Heq & _)|(Hne' & Hw')].
    + destruct res as [l|r']; [discriminate|]. injection Heq as <- <-.
      exists x. split; [done|]. left. eauto.
    + eauto.
  (* a worker leaves the loop *)
  - by rewrite length_insert.
  - done.
  - done.
  - done.
  - intros w' wk i Hw' Hh.
    apply list_lookup_insert_Some in Hw' as [(-> & <- & _)|(Hne' & Hw')].
    + simpl in Hh. done.
    + eauto.
  - intros w' _. lia.
  - intros i Hi. destruct (Hcover i Hi) as [(w' & wk & Hw' & Hh)|Hr]; [|by right].
    left. exists w', wk. split; [|done].
    rewrite list_lookup_insert_ne; [done|].
    intros ->. rewrite Hw in Hw'. injection Hw' as <-. simpl in Hh. done.
  - done.
  - intros w' i r Hw'.
    apply list_lookup_insert_Some in Hw' as [(-> & Heq & _)|(Hne' & Hw')].
    + discriminate.
    + eauto.
  (* a pending call completes *)
  - by rewrite length_insert.
  - done.
  - done.
  - done.
  - intros w' wk j Hw' Hh.
    apply list_lookup_insert_Some in Hw' as [(-> & <- & _)|(Hne' & Hw')].
    + simpl in Hh. subst j. eapply Hheld; [exact Hw|reflexivity].
    + eauto.
  - intros w' Hw'.
    apply list_lookup_insert_Some in Hw' as [(-> & Heq & _)|(Hne' & Hw')].
    + discriminate.
    + eauto.
  - intros j Hj. destruct (Hcover j Hj) as [(w' & wk & Hw' & Hh)|Hr]; [|by right].
    left. destruct (decide (w' = w)) as [->|Hne'].
    + exists w. eexists. split; [apply list_lookup_insert_eq; eauto|].
      rewrite Hw in Hw'. injection Hw' as <-. exact Hh.
    + exists w', wk. split; [|done]. by rewrite list_lookup_insert_ne.
  - done.
  - intros w' j r' Hw'.
    apply list_lookup_insert_Some in Hw' as [(-> & Heq & _)|(Hne' & Hw')].
    + injection Heq as <- <-. exists x. split; [done|]. right. eauto 10.
    + eauto.
  (* a settled value is stored *)
  - by rewrite length_insert.
  - by rewrite length_insert.
  - done.
  - done.
  - intros w' wk j Hw' Hh.
    apply list_lookup_insert_Some in Hw' as [(-> & <- & _)|(Hne' & Hw')].
    + simpl in Hh. done.
    + eauto.
  - intros w' Hw'.
    apply list_lookup_insert_Some in Hw' as [(-> & Heq & _)|(Hne' & Hw')].
    + discriminate.
    + eauto.
  - intros j Hj. destruct (decide (j = i)) as [->|Hji].
    + right. exists r. apply list_lookup_insert_eq.
      rewrite Hres. specialize (Hheld _ _ i Hw eq_refl). lia.
    + destruct (Hcover j Hj) as [(w' & wk & Hw' & Hh)|(r' & Hr)].
      * left. exists w', wk. split; [|done].
        rewrite list_lookup_insert_ne; [done|].
        intros ->. rewrite Hw in Hw'. injection Hw' as <-. simpl in Hh. done.
      * right. exists r'. rewrite list_lookup_insert_ne; done.
  - intros j r' Hr.
    apply list_lookup_insert_Some in Hr as [(-> & Heq & _)|(Hne' & Hr)].
    + injection Heq as <-. eauto.
    + eauto.
  - intros w' j r' Hw'.
    apply list_lookup_insert_Some in Hw' as [(-> & Heq & _)|(Hne' & Hw')].
    + discriminate.
    + eauto.
Qed.

Lemma mc_inv_exec (k : nat) (sched : list (nat * O)) (st st' : state) :
  inv k st -> exec sched st = Some st' -> inv k st'.
Proof.
  revert st. induction sched as [|[w o] sched IH]; intros st Hinv Hex; simpl in Hex.
  - by injection Hex as <-.
  - destruct (step w o st) as [st1|] eqn:Hst; [|discriminate].
    apply mc_step_turn in Hst. eapply IH; [|exact Hex].
    eapply mc_inv_turn; eauto.
Qed.

(** *** At most [workerCount] calls are in flight *)

Lemma in_flight_le_workers (st : state) : in_flight st <= length (mc_workers st).
Proof. unfold in_flight. apply length_filter. Qed.

Lemma mc_reachable_inv (limit : number) (s : St) (st : state) :
  mc_reachable fn_start fn_resume items limit s st ->
  inv (workerCount limit (length items)) st.
Proof.
  intros [sched Hex]. eapply mc_inv_exec; [apply mc_inv_init|exact Hex].
Qed.

Lemma in_flight_bound (limit : number) (s : St) (st : state) :
  mc_reachable fn_start fn_resume items limit s st ->
  in_flight st <= workerCount limit (length items).
Proof.
  intros Hr. apply mc_reachable_inv in Hr.
  rewrite <- (inv_workers _ _ _ _ _ Hr). apply in_flight_le_workers.
Qed.

(** *** Every turn decreases the measure: no schedule is infinite *)

Lemma mc_measure_turn (w : nat) (o : O) (st st' : state) :
  turn w o st st' -> measure st' < measure st.
Proof.
  intros Hturn.
  assert (Hrank : forall old new,
    mc_workers st !! w = Some old ->
    sum_list (worker_rank <$> <[w:=new]> (mc_workers st)) + worker_rank old
    = sum_list (worker_rank <$> mc_workers st) + worker_rank new).
  { intros old new Hold. rewrite list_fmap_insert. apply sum_list_insert.
    rewrite list_lookup_fmap, Hold. reflexivity. }
  destruct Hturn as [x s' res Hw Hlt Hx Hf|Hw Hge|i l x s' r Hw Hx Hf|i r Hw];
    unfold mc_measure; simpl.
  - pose proof (Hrank _ (match res with
                         | inl l => WPending (mc_next st) l
                         | inr r => WSettled (mc_next st) r
                         end) Hw) as H.
    simpl in H. destruct res; simpl in H; lia.
  - pose proof (Hrank _ WDone Hw) as H. simpl in H. lia.
  - pose proof (Hrank _ (WSettled i r) Hw) as H. simpl in H. lia.
  - pose proof (Hrank _ WIdle Hw) as H. simpl in H. lia.
Qed.

Lemma mc_exec_length (sched : list (nat * O)) (st st' : state) :
  exec sched st = Some st' -> length sched + measure st' <= measure st.
Proof.
  revert st. induction sched as [|[w o] sched IH]; intros st Hex; simpl in Hex.
  - injection Hex as <-. simpl. lia.
  - destruct (step w o st) as [st1|] eqn:Hst; [|discriminate].
    apply mc_step_turn, mc_measure_turn in Hst.
    specialize (IH _ Hex). simpl. lia.
Qed.

(** *** A worker that is not done can always take its turn *)

Lemma mc_not_final (st : state) :
  mc_final st = false ->
  exists w wk, mc_workers st !! w = Some wk /\ is_done wk = false.
Proof.
  unfold mc_final. induction (mc_workers st) as [|wk ws IH]; simpl; [discriminate|].
  destruct (is_done wk) eqn:Hd; simpl.
  - intros H. destruct (IH H) as (w & wk' & Hw & Hd'). exists (S w), wk'. done.
  - intros _. exists 0, wk. done.
Qed.

Lemma mc_progress (k : nat) (st : state) :
  inv k st -> mc_final st = false ->
  exists w, forall o, is_Some (step w o st).
Proof.
  intros Hinv Hnf. destruct (mc_not_final _ Hnf) as (w & wk & Hw & Hd).
  exists w. intros o. unfold mc_step. rewrite Hw.
  destruct wk as [|i l|i r|]; [| | |discriminate].
  - destruct (decide (mc_next st < length items)) as [Hlt|Hge]; [|eauto].
    destruct (lookup_lt_is_Some_2 items (mc_next st) Hlt) as [x ->].
    destruct (fn_start x (mc_next st) (mc_shared st)). eauto.
  - assert (Hi : i < length items).
    { pose proof (inv_held _ _ _ _ _ Hinv w _ i Hw eq_refl).
      pose proof (inv_next _ _ _ _ _ Hinv). lia. }
    destruct (lookup_lt_is_Some_2 items i Hi) as [x ->].
    destruct (fn_resume x i l o (mc_shared st)). eauto.
  - eauto.
Qed.

(** Whatever the outside world answers, the pool can be run to the end. *)
Lemma mc_completes (answer : nat -> O) (k : nat) (st : state) :
  inv k st ->
  exists sched st', exec sched st = Some st' /\ mc_final st' = true.
Proof.
  remember (measure st) as m eqn:Hm. revert st Hm.
  induction m as [m IH] using lt_wf_ind. intros st -> Hinv.
  destruct (mc_final st) eqn:Hfin.
  - exists [], st. done.
  - destruct (mc_progress _ _ Hinv Hfin) as [w Hw].
    destruct (Hw (answer w)) as [st1 Hst].
    pose proof Hst as Hturn. apply mc_step_turn in Hturn.
    destruct (IH (measure st1) (mc_measure_turn _ _ _ _ Hturn) st1 eq_refl)
      as (sched & st' & Hex & Hfin').
    { eapply mc_inv_turn; eauto. }
    exists ((w, answer w) :: sched), st'. simpl. rewrite Hst. done.
Qed.

(** *** When every worker is done, every item has its value *)

Lemma mc_final_done (st : state) (w : nat) (wk : worker) :
  mc_final st = true -> mc_workers st !! w = Some wk -> wk = WDone.
Proof.
  unfold mc_final. intros Hf Hw. rewrite forallb_forall in Hf.
  assert (Hin : In wk (mc_workers st)).
  { apply list_elem_of_In. eapply list_elem_of_lookup_2. exact Hw. }
  specialize (Hf _ Hin). destruct wk; done.
Qed.

Lemma mc_final_results (k : nat) (st : state) :
  inv k st -> mc_final st = true ->
  length (mc_results st) = length items /\
  forall i x, items !! i = Some x ->
    exists r, mc_results st !! i = Some (Some r) /\
              returned fn_start fn_resume x i r.
Proof.
  intros Hinv Hfin. split; [apply (inv_results _ _ _ _ _ Hinv)|].
  intros i x Hx.
  assert (Hi : i < length items) by (eapply lookup_lt_Some; eauto).
  assert (Hnext : length items <= mc_next st).
  { destruct k as [|k'].
    - pose proof (inv_nonempty _ _ _ _ _ Hinv eq_refl). lia.
    - assert (H0 : 0 < length (mc_workers st))
        by (rewrite (inv_workers _ _ _ _ _ Hinv); lia).
      destruct (lookup_lt_is_Some_2 _ _ H0) as [wk Hwk].
      pose proof (mc_final_done _ _ _ Hfin Hwk) as ->.
      apply (inv_done _ _ _ _ _ Hinv 0 Hwk). }
  destruct (inv_cover _ _ _ _ _ Hinv i) as [(w & wk & Hw & Hh)|(r & Hr)]; [lia| |].
  - pose proof (mc_final_done _ _ _ Hfin Hw) as ->. simpl in Hh. done.
  - exists r. split; [done|].
    destruct (inv_stored _ _ _ _ _ Hinv i r Hr) as (x' & Hx' & Hret).
    rewrite Hx in Hx'. injection Hx' as <-. exact Hret.
Qed.

(** *** The function: results for every item, in input order *)

Lemma mapConcurrent_results (limit : number) (sched : list (nat * O)) (s s' : St)
    (res : list (option R)) :
  mapConcurrent fn_start fn_resume items limit sched s = Some (res, s') ->
  length res = length items /\
  forall i x, items !! i = Some x ->
    exists r, res !! i = Some (Some r) /\ returned fn_start fn_resume x i r.
Proof.
  unfold mapConcurrent. intros H.
  destruct (exec sched (mc_init items limit s)) as [st|] eqn:Hex; [|discriminate].
  destruct (mc_final st) eqn:Hfin; [|discriminate].
  injection H as <- <-.
  eapply mc_final_results; [|exact Hfin].
  eapply mc_inv_exec; [apply mc_inv_init|exact Hex].
Qed.

Lemma mapConcurrent_returns (answer : nat -> O) (limit : number) (s : St) :
  exists sched res s',
    mapConcurrent fn_start fn_resume items limit sched s = Some (res, s').
Proof.
  destruct (mc_completes answer _ _ (mc_inv_init limit s)) as (sched & st & Hex & Hfin).
  exists sched, (mc_results st), (mc_shared st).
  unfold mapConcurrent. rewrite Hex, Hfin. reflexivity.
Qed.

Lemma mapConcurrent_turns (limit : number) (sched : list (nat * O)) (s : St)
    (st : state) :
  exec sched (mc_init items limit s) = Some st ->
  length sched <= 3 * length items + workerCount limit (length items).
Proof.
  intros Hex. apply mc_exec_length in Hex.
  assert (Hm : measure (mc_init items limit s)
               = 3 * length items + workerCount limit (length items)).
  { unfold mc_measure, mc_init. simpl. rewrite Nat.sub_0_r. f_equal.
    generalize (workerCount limit (length items)). intros k.
    induction k as [|k IH]; [reflexivity|].
    change (S (sum_list (worker_rank <$> replicate k (@WIdle R L))) = S k).
    f_equal. exact IH. }
  lia.
Qed.

End Pool.
End PoolFacts.

(** ** C7: the clamp and the bound of [mapConcurrent] *)

Module ConcurrencyBound.
Import Js JsFacts ParallelUtils ClampFacts PoolFacts Samples.

Lemma le_of_nat_of_Z (a : nat) (z : Z) :
  (Z.of_nat a <= z)%Z -> Js.le (of_nat a) (of_Z z).
Proof. intros H. simpl. rewrite <- Zle_Qle. exact H. Qed.

Lemma in_flight_le_safeLimit {T R L O St : Type}
    (fn_start : T -> nat -> St -> St * (L + R))
    (fn_resume : T -> nat -> L -> O -> St -> St * R)
    (items : list T) (limit : number) (s : St) (st : mc_state) :
  mc_reachable fn_start fn_resume items limit s st ->
  Js.le (of_nat (in_flight st)) (safeLimit limit).
Proof.
  intros Hr. apply in_flight_bound in Hr.
  destruct (safeLimit_cases limit) as [Hinf|(z & Hz & Hs)].
  - rewrite Hinf. exact I.
  - rewrite Hs. apply le_of_nat_of_Z.
    rewrite (workerCount_finite _ _ _ Hs) in Hr. lia.
Qed.

Lemma in_flight_le_limit {T R L O St : Type}
    (fn_start : T -> nat -> St -> St * (L + R))
    (fn_resume : T -> nat -> L -> O -> St -> St * R)
    (items : list T) (limit : number) (s : St) (st : mc_state) :
  Js.le (of_nat 1) limit ->
  mc_reachable fn_start fn_resume items limit s st ->
  Js.le (of_nat (in_flight st)) limit.
Proof.
  intros Hone Hr. destruct limit as [| | |q]; simpl in Hone; try contradiction.
  - exact I.
  - pose proof (in_flight_le_safeLimit _ _ _ _ _ _ Hr) as Hle.
    rewrite (safeLimit_ge_one q Hone) in Hle. simpl in Hle |- *.
    eapply Qle_trans; [exact Hle|apply Qfloor_le].
Qed.

(** C7, as amended.  For every callback, every list of items and every
    limit: a limit that is zero, negative or not a number is clamped to
    1, and then at most one call is in flight in every state the pool
    can reach; whatever the limit, the calls in flight never exceed
    [max(1, floor(limit))], hence never exceed the limit itself when it
    is at least 1; every run that resolves gives a value for every item,
    at the index of the item; and a schedule under which the call
    resolves exists (no schedule runs for more than
    [3 * items.length + workers] turns). *)
Theorem mapConcurrent_clamp_and_bound {T R L O St : Type}
    (fn_start : T -> nat -> St -> St * (L + R))
    (fn_resume : T -> nat -> L -> O -> St -> St * R)
    (items : list T) (limit : number) (s : St) :
  (clamped_limit limit ->
     safeLimit limit = of_nat 1 /\
     forall st, mc_reachable fn_start fn_resume items limit s st -> in_flight st <= 1) /\
  (forall st, mc_reachable fn_start fn_resume items limit s st ->
     Js.le (of_nat (in_flight st)) (safeLimit limit)) /\
  (Js.le (of_nat 1) limit ->
     forall st, mc_reachable fn_start fn_resume items limit s st ->
       Js.le (of_nat (in_flight st)) limit) /\
  (forall sched res s',
     mapConcurrent fn_start fn_resume items limit sched s = Some (res, s') ->
     length res = length items /\
     forall i x, items !! i = Some x ->
       exists r, res !! i = Some (Some r) /\ returned fn_start fn_resume x i r) /\
  (forall answer : nat -> O,
     exists sched res s',
       mapConcurrent fn_start fn_resume items limit sched s = Some (res, s')) /\
  (forall sched st,
     mc_exec fn_start fn_resume items sched (mc_init items limit s) = Some st ->
     length sched <= 3 * length items + workerCount limit (length items)).
Proof.
  repeat split.
  - by apply safeLimit_clamped.
  - intros st Hr. apply in_flight_bound in Hr.
    rewrite (workerCount_clamped _ _ H) in Hr. lia.
  - intros st Hr. by eapply in_flight_le_safeLimit.
  - intros Hone st Hr. by eapply in_flight_le_limit.
  - eapply mapConcurrent_results; eauto.
  - eapply mapConcurrent_results; eauto.
  - intros answer. by apply mapConcurrent_returns.
  - intros sched st. apply mapConcurrent_turns.
Qed.

(** The theorem at the limit 0 of the tests, with their callback:
    three items, one at a time. *)
Lemma mapConcurrent_clamp_and_bound_witness :
  clamped_limit (of_nat 0) /\
  safeLimit (of_nat 0) = of_nat 1 /\
  forall st,
    mc_reachable counting_start counting_resume [1; 2; 3] (of_nat 0) (0, 0) st ->
    in_flight st <= 1.
Proof.
  assert (Hc : clamped_limit (of_nat 0)) by (simpl; unfold Qle; simpl; lia).
  split; [exact Hc|].
  exact (proj1 (mapConcurrent_clamp_and_bound counting_start counting_resume
                  [1; 2; 3] (of_nat 0) (0, 0)) Hc).
Defined.

(** C7 as stated fails for a positive limit below 1: with the limit
    1/2 the clamp gives one worker, and after its first turn one call is
    in flight, which is more than 1/2. *)
Lemma positive_limit_exceeded :
  positive_limit (Fin (1 # 2)) /\
  exists st,
    mc_reachable counting_start counting_resume [1; 2; 3] (Fin (1 # 2)) (0, 0) st /\
    in_flight st = 1 /\
    ~ Js.le (of_nat (in_flight st)) (Fin (1 # 2)).
Proof.
  split; [vm_compute; reflexivity|].
  eexists. split; [exists [(0, tt)]; vm_compute; reflexivity|].
  split; [reflexivity|].
  vm_compute. intros H. apply H. reflexivity.
Qed.

(** The tests of parallel-utils.test.ts, replayed: the workers are
    started one after the other and then take their turns in rotation. *)
Example test_preserves_order :
  (mapConcurrent counting_start counting_resume [1; 2; 3; 4] (of_nat 2)
     ([(0, tt); (1, tt); (1, tt); (0, tt); (1, tt); (0, tt); (1, tt); (0, tt);
       (1, tt); (0, tt); (1, tt); (0, tt); (0, tt); (1, tt)]) (0, 0))
  = Some ([Some 10; Some 20; Some 30; Some 40], (0, 2)).
Proof. vm_compute. reflexivity. Qed.

Example test_limit_zero_is_sequential :
  (mapConcurrent counting_start counting_resume [1; 2; 3] (of_nat 0)
     (replicate 10 (0, tt)) (0, 0))
  = Some ([Some 10; Some 20; Some 30], (0, 1)).
Proof. vm_compute. reflexivity. Qed.

Example test_limit_minus_one_is_sequential :
  (mapConcurrent counting_start counting_resume [1; 2; 3] (of_Z (-1))
     (replicate 10 (0, tt)) (0, 0))
  = Some ([Some 10; Some 20; Some 30], (0, 1)).
Proof. vm_compute. reflexivity. Qed.

Example test_empty_input :
  (mapConcurrent counting_start counting_resume [] (of_nat 4) [] (0, 0))
  = Some ([], (0, 0)).
Proof. vm_compute. reflexivity. Qed.

End ConcurrencyBound.

(** ** C5: the results of a top-level parallel request *)

Module ParallelOrder.
Import Js ParallelUtils PoolFacts Dispatcher Samples.

Lemma mapM_all_some {A : Type} (slots : list (option A)) :
  (forall i, i < length slots -> exists a, slots !! i = Some (Some a)) ->
  exists l, mapM (fun r => r) slots = Some l.
Proof.
  induction slots as [|o slots IH]; intros H.
  - exists []. reflexivity.
  - destruct (H 0) as [a Ha]; [simpl; lia|]. simpl in Ha. injection Ha as ->.
    destruct IH as [l Hl].
    { intros i Hi. apply (H (S i)). simpl. lia. }
    exists (a :: l). simpl. rewrite Hl. reflexivity.
Qed.

Lemma mapM_lookup {A : Type} (slots : list (option A)) (l : list A) :
  mapM (fun r => r) slots = Some l ->
  length l = length slots /\
  forall i a, slots !! i = Some (Some a) -> l !! i = Some a.
Proof.
  intros H. apply mapM_Some in H. split.
  - symmetry. eapply Forall2_length; eauto.
  - intros i a Hi.
    destruct (Forall2_lookup_l _ _ _ _ _ H Hi) as (y & Hy & Heq).
    simpl in Heq. by injection Heq as ->.
Qed.

(** What [runSync] returns names the agent of the task. *)
Lemma parallel_returned (templates : list string) (t : TaskItem) (i : nat)
    (r : SingleResult) :
  returned parallel_fn_start (parallel_fn_resume templates) t i r ->
  r_agent r = ti_agent t.
Proof.
  intros [(s & s' & H)|(l & o & s & s' & H)].
  - unfold parallel_fn_start in H. discriminate.
  - unfold parallel_fn_resume in H. injection H as _ <-. reflexivity.
Qed.

Lemma run_parallel_results (tasks : list TaskItem) (templates : list string)
    (downgraded : bool) (sched : list (nat * RunOutcome)) (r : ToolResult) :
  run_parallel tasks templates downgraded sched = Some r ->
  length (details_results r) = length tasks /\
  forall i t, tasks !! i = Some t ->
    exists x, details_results r !! i = Some x /\ r_agent x = ti_agent t.
Proof.
  unfold run_parallel. intros H.
  destruct (mapConcurrent _ _ tasks MAX_CONCURRENCY sched tt) as [[slots u]|] eqn:Hmc;
    [|discriminate].
  destruct (mapM (fun r => r) slots) as [results|] eqn:Hm; [|discriminate].
  injection H as <-. simpl.
  destruct (mapConcurrent_results _ _ _ _ _ _ _ _ Hmc) as [Hlen Hall].
  destruct (mapM_lookup _ _ Hm) as [Hlen' Hlook].
  split; [congruence|].
  intros i t Ht. destruct (Hall i t Ht) as (x & Hx & Hret).
  exists x. split; [by apply Hlook|]. by eapply parallel_returned.
Qed.

Lemma run_parallel_resolves (tasks : list TaskItem) (templates : list string)
    (downgraded : bool) :
  exists sched r, run_parallel tasks templates downgraded sched = Some r.
Proof.
  destruct (mapConcurrent_returns parallel_fn_start (parallel_fn_resume templates)
              tasks (fun _ => outcome_ok "") MAX_CONCURRENCY tt)
    as (sched & slots & u & Hmc).
  destruct (mapConcurrent_results _ _ _ _ _ _ _ _ Hmc) as [Hlen Hall].
  destruct (mapM_all_some slots) as [results Hm].
  { intros i Hi. rewrite Hlen in Hi.
    destruct (lookup_lt_is_Some_2 tasks i Hi) as [t Ht].
    destruct (Hall i t Ht) as (x & Hx & _). eauto. }
  exists sched. unfold run_parallel. rewrite Hmc, Hm. eauto.
Qed.

Lemma find_unknown_none (h : Host) (tasks : list TaskItem) :
  (forall t, t ∈ tasks -> known h (ti_agent t) = true) ->
  List.find (fun t => negb (known h (ti_agent t))) tasks = None.
Proof.
  intros H. induction tasks as [|t tasks IH]; [reflexivity|]. simpl.
  rewrite (H t) by (left). simpl. apply IH. intros t' Ht'. apply H. by right.
Qed.

(** A request in parallel mode that passes the gates goes to the
    scheduler, with its tasks or with the templates of the dialog. *)
Lemma execute_parallel_request (h : Host) (params : SubagentParams)
    (tasks : list TaskItem) (ext : Extension) :
  parallel_request params tasks ->
  depth_blocked h = false ->
  length tasks <= MAX_PARALLEL ->
  (forall t, t ∈ tasks -> known h (ti_agent t) = true) ->
  runs_in_foreground h params ->
  exists templates downgraded, forall sched,
    (execute h params sched ext).1 = run_parallel tasks templates downgraded sched.
Proof.
  intros (Hex & Htasks & Hne & Hchain & Hsingle) Hdepth Hmax Hknown Hfg.
  assert (Hreq : forall sched, execute h params sched ext
                 = execute_request h params sched
                     (set_baseCwd (Management.ctx_cwd (management h)) ext)).
  { intros sched. unfold execute. unfold execution_request in Hex.
    destruct (p_action params) as [act|]; [|reflexivity].
    simpl in Hex. rewrite Hex. reflexivity. }
  assert (Hlen : bool_decide (0 < length tasks) = true).
  { apply bool_decide_eq_true_2. destruct tasks; [done|simpl; lia]. }
  assert (Hbody : forall sched,
    (execute h params sched ext).1
    = execute_parallel h tasks (p_clarify params)
        (default (asyncByDefault h) (p_async params)) sched).
  { intros sched. rewrite Hreq. unfold execute_request.
    rewrite Hdepth, Htasks, Hchain. simpl. rewrite Hsingle, Hlen. simpl.
    rewrite andb_false_r. simpl. reflexivity. }
  unfold execute_parallel in Hbody.
  rewrite (bool_decide_eq_false_2 (MAX_PARALLEL < length tasks)) in Hbody by lia.
  rewrite (find_unknown_none _ _ Hknown) in Hbody.
  destruct (bool_decide (p_clarify params = Some true)) eqn:Hcl; simpl in Hbody.
  - apply bool_decide_eq_true_1 in Hcl.
    destruct (hasUI h) eqn:Hui.
    + destruct (Hfg Hcl Hui) as (answer & Ha & Hc & Hb).
      rewrite Ha in Hbody. simpl in Hbody. rewrite Hc in Hbody. simpl in Hbody.
      rewrite Hb in Hbody. simpl in Hbody. eauto.
    + eauto.
  - eauto.
Qed.

(** C5, as amended.  For every top-level parallel request with N tasks
    (N within the parallel limit, all agents known) that is not stopped
    by the depth guard and that the clarify dialog, when it is shown,
    confirms and leaves in the foreground: whenever [execute] returns,
    [details.results] has length N and [results[i].agent] is the agent
    of [tasks[i]], under every schedule of the concurrent runs; and
    there is a schedule under which it returns. *)
Theorem parallel_results_in_input_order (h : Host) (params : SubagentParams)
    (tasks : list TaskItem) (ext : Extension) :
  parallel_request params tasks ->
  depth_blocked h = false ->
  length tasks <= MAX_PARALLEL ->
  (forall t, t ∈ tasks -> known h (ti_agent t) = true) ->
  runs_in_foreground h params ->
  (forall sched r,
     (execute h params sched ext).1 = Some r ->
     length (details_results r) = length tasks /\
     forall i t, tasks !! i = Some t ->
       exists x, details_results r !! i = Some x /\ r_agent x = ti_agent t) /\
  (exists sched r, (execute h params sched ext).1 = Some r).
Proof.
  intros Hp Hd Hmax Hknown Hfg.
  destruct (execute_parallel_request h params tasks ext Hp Hd Hmax Hknown Hfg)
    as (templates & downgraded & Heq).
  split.
  - intros sched r Hr. rewrite Heq in Hr. by eapply run_parallel_results.
  - destruct (run_parallel_resolves tasks templates downgraded) as (sched & r & Hr).
    exists sched, r. by rewrite Heq.
Qed.

(** The theorem at the request of scenario 3: two tasks, [scout] and
    [planner], at nesting depth 0. *)
Lemma parallel_results_in_input_order_witness :
  (forall sched r,
     (execute (sample_host 0) parallel_params sched sample_extension).1 = Some r ->
     length (details_results r) = 2 /\
     forall i t, two_tasks !! i = Some t ->
       exists x, details_results r !! i = Some x /\ r_agent x = ti_agent t) /\
  (exists sched r,
     (execute (sample_host 0) parallel_params sched sample_extension).1 = Some r).
Proof.
  apply (parallel_results_in_input_order (sample_host 0) parallel_params two_tasks
           sample_extension).
  - repeat split; try reflexivity. discriminate.
  - reflexivity.
  - vm_compute. lia.
  - intros t Ht. repeat (apply elem_of_cons in Ht as [->|Ht]; [reflexivity|]).
    by apply elem_of_nil in Ht.
  - intros Hcl. discriminate.
Defined.

(** The same request with the second run finishing first: the results
    still come in the order of the tasks. *)
Example parallel_out_of_order_completion :
  details_results <$>
    (execute (sample_host 0) parallel_params
       [(0, outcome_ok ""); (1, outcome_ok ""); (1, outcome_ok "second");
        (1, outcome_ok ""); (0, outcome_ok "first"); (0, outcome_ok "");
        (0, outcome_ok ""); (1, outcome_ok "")] sample_extension).1
  = Some [runSync "scout" "x" (outcome_ok "first");
          runSync "planner" "y" (outcome_ok "second")].
Proof. vm_compute. reflexivity. Qed.

(** C5 as stated fails where [execute] answers before the scheduler
    runs.  With [clarify: true] and a UI, a request for the two known
    agents at nesting depth 0 whose dialog the user dismisses is
    answered "Cancelled", with empty results; and the request made at
    nesting depth 2 is answered by the "blocked" error, with empty
    results too. *)
Lemma parallel_request_answered_without_results :
  parallel_request clarify_parallel_params two_tasks /\
  parallel_request parallel_params two_tasks /\
  length two_tasks <= MAX_PARALLEL /\
  (forall t, t ∈ two_tasks -> known dismissing_host (ti_agent t) = true) /\
  (forall t, t ∈ two_tasks -> known (sample_host 2) (ti_agent t) = true) /\
  depth_blocked dismissing_host = false /\
  forall sched,
    (exists r,
       (execute dismissing_host clarify_parallel_params sched sample_extension).1 = Some r /\
       content r = "Cancelled" /\
       details_results r = [] /\
       length (details_results r) <> length two_tasks) /\
    (exists r,
       (execute (sample_host 2) parallel_params sched sample_extension).1 = Some r /\
       details_results r = [] /\
       length (details_results r) <> length two_tasks).
Proof.
  assert (Hknown : forall h, agents h = [sample_agent "scout"; sample_agent "planner"] ->
            forall t, t ∈ two_tasks -> known h (ti_agent t) = true).
  { intros h Hh t Ht. unfold known. rewrite Hh.
    repeat (apply elem_of_cons in Ht as [->|Ht]; [reflexivity|]).
    by apply elem_of_nil in Ht. }
  split; [repeat split; try reflexivity; discriminate|].
  split; [repeat split; try reflexivity; discriminate|].
  split; [vm_compute; lia|].
  split; [by apply Hknown|]. split; [by apply Hknown|]. split; [reflexivity|].
  intros sched. split.
  - eexists. split; [reflexivity|]. split; [reflexivity|]. split; [reflexivity|].
    discriminate.
  - eexists. split; [reflexivity|]. split; [reflexivity|]. discriminate.
Qed.

End ParallelOrder.

(** ** C9: management actions are routed before the depth guard *)

Module ManagementRouting.
Import Dispatcher Samples.

Lemma management_result_mode (r : Management.AgentToolResult) :
  details_mode (management_result r) = MManagement.
Proof. reflexivity. Qed.

(** C9.  For every request whose [action] is one of list, get, create,
    update, delete, [execute] is the management handler applied to the
    agent store, whatever the depth guard says: the depth of the host
    does not occur in the answer, and the store that the handler leaves
    is kept.  The "Nested subagent call blocked" error is never the
    answer to such a request: a call that returns it carries no
    management action. *)
Theorem management_routed_before_depth_guard (h : Host)
    (sched : list (nat * RunOutcome)) (ext : Extension) :
  (forall params act,
     p_action params = Some act -> act ∈ validActions ->
     let ext0 := set_baseCwd (Management.ctx_cwd (management h)) ext in
     let out := Management.handleManagementAction act (management h)
                  (management_params params) (store ext0) in
     execute h params sched ext = (Some (management_result out.1), set_store out.2 ext0)) /\
  (forall params,
     (execute h params sched ext).1 = Some (blocked_result h) ->
     execution_request params).
Proof.
  split.
  - intros params act Hact Hvalid. cbv zeta. unfold execute. rewrite Hact.
    assert (Ht : JsString.truthy act = true).
    { unfold validActions in Hvalid.
      repeat (apply elem_of_cons in Hvalid as [->|Hvalid]; [reflexivity|]).
      by apply elem_of_nil in Hvalid. }
    rewrite Ht. rewrite bool_decide_eq_true_2 by exact Hvalid.
    destruct (Management.handleManagementAction act (management h)
                (management_params params)
                (store (set_baseCwd (Management.ctx_cwd (management h)) ext)))
      as [r fs']. reflexivity.
  - intros params Hb. unfold execution_request.
    unfold execute in Hb.
    destruct (p_action params) as [act|]; [|reflexivity]. simpl.
    destruct (JsString.truthy act) eqn:Ht; [|reflexivity].
    exfalso. destruct (bool_decide (act ∈ validActions)).
    + destruct (Management.handleManagementAction act (management h)
                  (management_params params)
                  (store (set_baseCwd (Management.ctx_cwd (management h)) ext)))
        as [r fs'].
      simpl in Hb. apply (f_equal (fmap details_mode)) in Hb. discriminate.
    + simpl in Hb. apply (f_equal (fmap details_mode)) in Hb. discriminate.
Qed.

(** The theorem at a create request made at the maximum depth. *)
Lemma management_routed_before_depth_guard_witness :
  depth_blocked (sample_host 2) = true /\
  let ext0 := set_baseCwd "/work" sample_extension in
  let out := Management.handleManagementAction "create" sample_management
               (management_params create_params) (store ext0) in
  execute (sample_host 2) create_params [] sample_extension
  = (Some (management_result out.1), set_store out.2 ext0).
Proof.
  split; [reflexivity|].
  apply (proj1 (management_routed_before_depth_guard (sample_host 2) []
                  sample_extension) create_params "create").
  - reflexivity.
  - unfold validActions. set_solver.
Defined.

(** At the maximum depth the create request still writes the definition,
    and an execution request is refused. *)
Example create_at_maximum_depth :
  let out := execute (sample_host 2) create_params [] sample_extension in
  (content <$> out.1)
    = Some "Created agent 'code-reviewer' at /home/u/.pi/agent/agents/code-reviewer.md."
  /\ (isError <$> out.1) = Some false
  /\ is_Some (Management.files (store out.2)
                !! "/home/u/.pi/agent/agents/code-reviewer.md").
Proof. vm_compute. repeat split. eexists. reflexivity. Qed.

Example execution_at_maximum_depth :
  (execute (sample_host 2) unknown_single_params [] sample_extension).1
  = Some (blocked_result (sample_host 2)).
Proof. reflexivity. Qed.

End ManagementRouting.

(** ** C6: a request that names an unknown agent *)

Module UnknownAgent.
Import Dispatcher Samples.

Lemma find_unknown_spec (h : Host) (l : list string) :
  match List.find (fun a => negb (known h a)) l with
  | Some a => known h a = false
  | None => forall a, a ∈ l -> known h a = true
  end.
Proof.
  induction l as [|x l IH]; simpl.
  - intros a Ha. by apply elem_of_nil in Ha.
  - destruct (known h x) eqn:Hx; simpl; [|done].
    destruct (List.find (fun a => negb (known h a)) l); [done|].
    intros a Ha. apply elem_of_cons in Ha as [->|Ha]; auto.
Qed.

Lemma find_unknown_task_spec (h : Host) (l : list TaskItem) :
  match List.find (fun t => negb (known h (ti_agent t))) l with
  | Some t => known h (ti_agent t) = false
  | None => forall t, t ∈ l -> known h (ti_agent t) = true
  end.
Proof.
  induction l as [|x l IH]; simpl.
  - intros a Ha. by apply elem_of_nil in Ha.
  - destruct (known h (ti_agent x)) eqn:Hx; simpl; [|done].
    destruct (List.find (fun t => negb (known h (ti_agent t))) l); [done|].
    intros a Ha. apply elem_of_cons in Ha as [->|Ha]; auto.
Qed.

Lemma error_is_validation (h : Host) (msg : string) (m : mode) :
  unknown_agent_message h msg \/ shape_gate_message msg ->
  validation_error h (error_result msg m).
Proof. intros H. repeat split; done. Qed.

(** The loop over the steps of a chain stops with an error at the first
    step that names an unknown agent, if not before. *)
Lemma validate_steps_unknown (h : Host) (chain : list ChainStep) (i : nat) :
  (exists step a, step ∈ chain /\ a ∈ getStepAgents step /\ known h a = false) ->
  exists e, validate_steps h i chain = Some e /\ validation_error h e.
Proof.
  revert i. induction chain as [|s chain IH]; intros i (step & a & Hin & Ha & Hk).
  - by apply elem_of_nil in Hin.
  - simpl. pose proof (find_unknown_spec h (getStepAgents s)) as Hf.
    destruct (List.find (fun a => negb (known h a)) (getStepAgents s)) as [b|].
    + eexists. split; [reflexivity|]. apply error_is_validation. left.
      by apply unknown_in_chain.
    + assert (Hrest : exists step a, step ∈ chain /\ a ∈ getStepAgents step
                                     /\ known h a = false).
      { apply elem_of_cons in Hin as [->|Hin].
        - rewrite (Hf a Ha) in Hk. discriminate.
        - eauto. }
      destruct s as [q|p].
      * apply IH. exact Hrest.
      * destruct (pl_parallel p).
        -- eexists. split; [reflexivity|]. apply error_is_validation. right.
           apply gate_empty_parallel.
        -- apply IH. exact Hrest.
Qed.

Lemma validate_chain_unknown (h : Host) (params : SubagentParams)
    (chain : list ChainStep) :
  (exists step a, step ∈ chain /\ a ∈ getStepAgents step /\ known h a = false) ->
  exists e, validate_chain h params chain = Some e /\ validation_error h e.
Proof.
  intros Hu. unfold validate_chain. destruct chain as [|firstStep rest].
  - destruct Hu as (step & a & Hin & _). by apply elem_of_nil in Hin.
  - destruct firstStep as [q|p].
    + destruct (negb (RunnerCode.truthy_opt (st_task q))
                && negb (RunnerCode.truthy_opt (p_task params))).
      * eexists. split; [reflexivity|]. apply error_is_validation. right.
        apply gate_first_task.
      * by apply validate_steps_unknown.
    + destruct (findIndex _ (pl_parallel p) 0).
      * eexists. split; [reflexivity|]. apply error_is_validation. right.
        apply gate_first_parallel_task.
      * by apply validate_steps_unknown.
Qed.

Lemma execute_parallel_unknown (h : Host) (tasks : list TaskItem)
    (clarify : option bool) (downgraded : bool) (sched : list (nat * RunOutcome)) :
  (exists t, t ∈ tasks /\ known h (ti_agent t) = false) ->
  exists e, execute_parallel h tasks clarify downgraded sched = Some e
            /\ validation_error h e.
Proof.
  intros (t & Hin & Hk). unfold execute_parallel.
  destruct (bool_decide (MAX_PARALLEL < length tasks)).
  - eexists. split; [reflexivity|]. apply error_is_validation. right.
    apply gate_max_parallel.
  - pose proof (find_unknown_task_spec h tasks) as Hf.
    destruct (List.find (fun t => negb (known h (ti_agent t))) tasks) as [u|].
    + eexists. split; [reflexivity|]. apply error_is_validation. left.
      by apply unknown_in_request.
    + rewrite (Hf t Hin) in Hk. discriminate.
Qed.

Lemma b2n_sum_one (a b c : bool) :
  Nat.b2n a + Nat.b2n b + Nat.b2n c = 1 ->
  (a = true /\ b = false /\ c = false) \/
  (a = false /\ b = true /\ c = false) \/
  (a = false /\ b = false /\ c = true).
Proof. destruct a, b, c; simpl; intros H; try lia; tauto. Qed.

Lemma elem_of_nonempty {A : Type} (x : A) (l : list A) : x ∈ l -> 0 < length l.
Proof. intros H. destruct l; [by apply elem_of_nil in H|simpl; lia]. Qed.

(** C6, as amended.  Whenever an execution request (single, parallel or
    chain mode) names an agent that does not exist in the resolved
    scope, [execute] returns (under every schedule, so without waiting
    for any run) a result flagged as an error, with no step result and
    no background run.  When the depth guard blocks, it is the answer of
    the guard.  Otherwise, when the request does not give exactly one
    mode, it is "Provide exactly one mode. Agents: " followed by the
    available names, joined by ", ", or by "none": the one answer that
    lists them.  Otherwise its message is that of a gate on the shape of
    the request (the number of tasks, the task of the first step, an
    empty parallel step, the missing jiti), or that of a check that an
    agent exists: "Unknown agent: <name>", with " (step k)" in a chain,
    or "Unknown: <name>" for a background single request, where <name>
    is an unknown agent and nothing follows. *)
Theorem unknown_agent_is_a_validation_error (h : Host) (params : SubagentParams)
    (sched : list (nat * RunOutcome)) (ext : Extension) :
  execution_request params ->
  references_unknown h params ->
  exists r,
    (execute h params sched ext).1 = Some r /\
    isError r = true /\ details_results r = [] /\ details_asyncId r = None /\
    (depth_blocked h = true -> r = blocked_result h) /\
    (depth_blocked h = false -> mode_count params <> 1 -> r = one_mode_result h) /\
    (depth_blocked h = false -> mode_count params = 1 -> validation_error h r).
Proof.
  intros Hex Hu.
  assert (Hreq : execute h params sched ext
                 = execute_request h params sched
                     (set_baseCwd (Management.ctx_cwd (management h)) ext)).
  { unfold execute. unfold execution_request in Hex.
    destruct (p_action params) as [act|]; [|reflexivity].
    simpl in Hex. rewrite Hex. reflexivity. }
  rewrite Hreq. unfold execute_request. unfold references_unknown in Hu.
  destruct (depth_blocked h).
  { eexists. split; [reflexivity|]. repeat split; done. }
  simpl. unfold mode_count.
  set (chain := default [] (p_chain params)) in *.
  set (tasks := default [] (p_tasks params)) in *.
  set (hasChain := bool_decide (0 < length chain)).
  set (hasTasks := bool_decide (0 < length tasks)).
  set (hasSingle := RunnerCode.truthy_opt (p_agent params)
                    && RunnerCode.truthy_opt (p_task params)) in *.
  assert (Hval : forall o : option ToolResult,
            Nat.b2n hasChain + Nat.b2n hasTasks + Nat.b2n hasSingle = 1 ->
            (exists e, o = Some e /\ validation_error h e) ->
            exists r,
              o = Some r /\
              isError r = true /\ details_results r = [] /\ details_asyncId r = None /\
              (false = true -> r = blocked_result h) /\
              (false = false ->
               Nat.b2n hasChain + Nat.b2n hasTasks + Nat.b2n hasSingle <> 1 ->
               r = one_mode_result h) /\
              (false = false ->
               Nat.b2n hasChain + Nat.b2n hasTasks + Nat.b2n hasSingle = 1 ->
               validation_error h r)).
  { intros o H1 (e & -> & He). exists e. split; [reflexivity|].
    destruct He as (E1 & E2 & E3 & E4).
    repeat split; try done. }
  destruct (bool_decide (Nat.b2n hasChain + Nat.b2n hasTasks + Nat.b2n hasSingle = 1))
    eqn:Hone; simpl.
  2:{ apply bool_decide_eq_false_1 in Hone.
      eexists. split; [reflexivity|]. repeat split; done. }
  apply bool_decide_eq_true_1 in Hone. apply Hval; [exact Hone|]. clear Hval.
  apply b2n_sum_one in Hone.
  assert (Hc0 : hasChain = false -> chain = []).
  { intros H. apply bool_decide_eq_false_1 in H. destruct chain; [done|simpl in H; lia]. }
  assert (Ht0 : hasTasks = false -> tasks = []).
  { intros H. apply bool_decide_eq_false_1 in H. destruct tasks; [done|simpl in H; lia]. }
  destruct Hone as [(Hc & Ht & Hs)|[(Hc & Ht & Hs)|(Hc & Ht & Hs)]];
    rewrite Hc, Ht; try rewrite Hs.
  - (* chain mode *)
    assert (Huc : exists step a, step ∈ chain /\ a ∈ getStepAgents step
                                 /\ known h a = false).
    { destruct Hu as [(Hs' & _)|[(t & Hin & _)|Huc]].
      - rewrite Hs in Hs'. discriminate.
      - rewrite (Ht0 Ht) in Hin. by apply elem_of_nil in Hin.
      - exact Huc. }
    destruct (validate_chain_unknown h params chain Huc) as (e & -> & He).
    eauto.
  - (* parallel mode *)
    assert (Hut : exists t, t ∈ tasks /\ known h (ti_agent t) = false).
    { destruct Hu as [(Hs' & _)|[Hut|(step & a & Hin & _)]].
      - rewrite Hs in Hs'. discriminate.
      - exact Hut.
      - rewrite (Hc0 Hc) in Hin. by apply elem_of_nil in Hin. }
    simpl. rewrite andb_false_r. simpl.
    by apply execute_parallel_unknown.
  - (* single mode *)
    assert (Hk : known h (default "" (p_agent params)) = false).
    { destruct Hu as [(_ & Hk)|[(t & Hin & _)|(step & a & Hin & _)]].
      - exact Hk.
      - rewrite (Ht0 Ht) in Hin. by apply elem_of_nil in Hin.
      - rewrite (Hc0 Hc) in Hin. by apply elem_of_nil in Hin. }
    simpl.
    destruct (default (asyncByDefault h) (p_async params)
              && true && negb (bool_decide (p_clarify params = Some true))).
    + destruct (negb (isAsyncAvailable h)).
      * eexists. split; [reflexivity|]. apply error_is_validation. right.
        apply gate_no_jiti.
      * rewrite Hk. simpl. eexists. split; [reflexivity|].
        apply error_is_validation. left. by apply unknown_in_background.
    + unfold execute_single. rewrite Hk. simpl.
      eexists. split; [reflexivity|]. apply error_is_validation. left.
      by apply unknown_in_request.
Qed.

(** The theorem at the request [{agent: "nope", task: "hello"}] with the
    agents [scout] and [planner] available. *)
Lemma unknown_agent_is_a_validation_error_witness :
  exists r,
    (execute (sample_host 0) unknown_single_params [] sample_extension).1 = Some r /\
    isError r = true /\ details_results r = [] /\ details_asyncId r = None /\
    (depth_blocked (sample_host 0) = true -> r = blocked_result (sample_host 0)) /\
    (depth_blocked (sample_host 0) = false -> mode_count unknown_single_params <> 1 ->
     r = one_mode_result (sample_host 0)) /\
    (depth_blocked (sample_host 0) = false -> mode_count unknown_single_params = 1 ->
     validation_error (sample_host 0) r).
Proof.
  apply (unknown_agent_is_a_validation_error (sample_host 0) unknown_single_params []
           sample_extension).
  - reflexivity.
  - left. split; reflexivity.
Defined.

(** C6 as stated fails on the message: for that request the answer is
    "Unknown agent: nope"; it contains neither the list of the available
    names nor any of them. *)
Lemma unknown_agent_message_lists_no_names :
  references_unknown (sample_host 0) unknown_single_params /\
  exists r,
    (execute (sample_host 0) unknown_single_params [] sample_extension).1 = Some r
    /\ isError r = true
    /\ content r = "Unknown agent: nope"
    /\ agent_names (sample_host 0) = ["scout"; "planner"]
    /\ JsString.includes (JsString.join ", " (agent_names (sample_host 0))) (content r)
       = false
    /\ JsString.includes "scout" (content r) = false
    /\ JsString.includes "planner" (content r) = false.
Proof.
  split; [left; split; reflexivity|].
  eexists. split; [reflexivity|]. repeat split; reflexivity.
Qed.

(** A request that names an unknown agent and gives two modes is stopped
    by the count of the modes, whose answer does list the names. *)
Example unknown_agent_with_two_modes :
  references_unknown (sample_host 0) unknown_two_modes_params /\
  content <$>
    (execute (sample_host 0) unknown_two_modes_params [] sample_extension).1
  = Some "Provide exactly one mode. Agents: scout, planner".
Proof. split; [left; split; reflexivity|reflexivity]. Qed.

(** The other two modes answer alike. *)
Example unknown_agent_in_parallel :
  content <$>
    (execute (sample_host 0)
       {| p_agent := None; p_task := None; p_action := None; p_chainName := None;
          p_config := None; p_agentScope := None;
          p_tasks := Some [task_item "scout" "x"; task_item "ghost" "y"];
          p_chain := None; p_async := None; p_clarify := None |}
       [] sample_extension).1
  = Some "Unknown agent: ghost".
Proof. reflexivity. Qed.

Example unknown_agent_in_chain :
  content <$>
    (execute (sample_host 0)
       {| p_agent := None; p_task := None; p_action := None; p_chainName := None;
          p_config := None; p_agentScope := None; p_tasks := None;
          p_chain := Some [ChainSeq {| st_agent := "scout"; st_task := Some "scan" |};
                           ChainSeq {| st_agent := "ghost"; st_task := None |}];
          p_async := None; p_clarify := None |}
       [] sample_extension).1
  = Some "Unknown agent: ghost (step 2)".
Proof. vm_compute. reflexivity. Qed.

End UnknownAgent.

(** ** C10: result files of another session are left in place *)

Module ResultHandler.
Import Dispatcher Samples.
Local Open Scope list_scope.

(** C10.  When the handler reads a result whose session id is present
    and differs from the current one, or which has no session id and
    whose cwd differs from the base cwd, it changes nothing: no
    [subagent:complete] event is emitted and the file stays in the
    results directory.  A file that the handler removes was either
    dispatched (its event is the last one emitted) or suppressed by the
    dedup record; and the handler touches no other file. *)
Theorem foreign_results_stay (dd : Dedupe) (now : Z) (file : string)
    (ext : Extension) :
  (forall data,
     resultsDir ext !! file = Some (Some data) -> foreign ext data ->
     handleResult dd now file ext = ext) /\
  (is_Some (resultsDir ext !! file) ->
   resultsDir (handleResult dd now file ext) !! file = None ->
   exists data,
     resultsDir ext !! file = Some (Some data) /\ ~ foreign ext data /\
     let seen := (markSeenWithTtl dd (completionSeen ext)
                    (buildCompletionKey dd data ("result:" +:+ file))
                    now completionTtlMs).1 in
     (seen = false /\ emitted (handleResult dd now file ext) = emitted ext ++ [data])
     \/ (seen = true /\ emitted (handleResult dd now file ext) = emitted ext)) /\
  (forall other, other <> file ->
     resultsDir (handleResult dd now file ext) !! other = resultsDir ext !! other).
Proof.
  unfold handleResult.
  destruct (resultsDir ext !! file) as [[data|]|] eqn:Hfile.
  2:{ split; [intros data Hd; discriminate|].
      split; [intros _ Hn; rewrite Hfile in Hn; discriminate|done]. }
  2:{ split; [intros data Hd; discriminate|].
      split; [intros [x Hx]; discriminate|done]. }
  destruct (RunnerCode.truthy_opt (rd_sessionId data)) eqn:Hs; simpl.
  - destruct (bool_decide (rd_sessionId data = currentSessionId ext)) eqn:Hcur; simpl.
    + apply bool_decide_eq_true_1 in Hcur.
      destruct (markSeenWithTtl dd (completionSeen ext)
                  (buildCompletionKey dd data ("result:" +:+ file)) now completionTtlMs)
        as [seen record] eqn:Hseen.
      split; [|split].
      * intros d Hd [[_ Hne]|[Hno _]]; injection Hd as <-; [done|congruence].
      * intros _ _. exists data. split; [done|]. split.
        { intros [[_ Hne]|[Hno _]]; [done|congruence]. }
        simpl. rewrite Hseen. destruct seen; simpl; [right|left]; done.
      * intros other Hne. destruct seen; simpl; by rewrite lookup_delete_ne.
    + split; [done|]. split; [|done].
      intros _ Hn. rewrite Hfile in Hn. discriminate.
  - destruct (RunnerCode.truthy_opt (rd_cwd data)) eqn:Hc; simpl.
    + destruct (bool_decide (rd_cwd data = Some (baseCwd ext))) eqn:Hcwd; simpl.
      * apply bool_decide_eq_true_1 in Hcwd.
        destruct (markSeenWithTtl dd (completionSeen ext)
                    (buildCompletionKey dd data ("result:" +:+ file)) now completionTtlMs)
          as [seen record] eqn:Hseen.
        split; [|split].
        -- intros d Hd [[Hyes _]|(_ & _ & Hne)]; injection Hd as <-; [congruence|done].
        -- intros _ _. exists data. split; [done|]. split.
           { intros [[Hyes _]|(_ & _ & Hne)]; [congruence|done]. }
           simpl. rewrite Hseen. destruct seen; simpl; [right|left]; done.
        -- intros other Hne. destruct seen; simpl; by rewrite lookup_delete_ne.
      * split; [done|]. split; [|done].
        intros _ Hn. rewrite Hfile in Hn. discriminate.
    + destruct (markSeenWithTtl dd (completionSeen ext)
                  (buildCompletionKey dd data ("result:" +:+ file)) now completionTtlMs)
        as [seen record] eqn:Hseen.
      split; [|split].
      * intros d Hd [[Hyes _]|(_ & Hyes & _)]; injection Hd as <-; congruence.
      * intros _ _. exists data. split; [done|]. split.
        { intros [[Hyes _]|(_ & Hyes & _)]; congruence. }
        simpl. rewrite Hseen. destruct seen; simpl; [right|left]; done.
      * intros other Hne. destruct seen; simpl; by rewrite lookup_delete_ne.
Qed.

(** The theorem at the result file of another session. *)
Lemma foreign_results_stay_witness :
  handleResult sample_dedupe 1000 "other-session.json" registry_with_results
  = registry_with_results.
Proof.
  apply (proj1 (foreign_results_stay sample_dedupe 1000 "other-session.json"
                  registry_with_results)
           (result_of "b" (Some "s2") (Some "/work"))).
  - reflexivity.
  - left. split; [reflexivity|discriminate].
Defined.

Example other_cwd_stays :
  handleResult sample_dedupe 1000 "other-cwd.json" registry_with_results
  = registry_with_results.
Proof. reflexivity. Qed.

(** Scenario 5: the result of the own session is dispatched once and
    its file removed; a second file for the same job within ten minutes
    is removed without an event. *)
Example own_result_dispatched_once :
  let once := handleResult sample_dedupe 1000 "own.json" registry_with_results in
  let again :=
    handleResult sample_dedupe 2000 "own-again.json"
      (set_resultsDir (<["own-again.json" := Some (result_of "a" (Some "s1") (Some "/work"))]>
                         (resultsDir once)) once) in
  emitted once = [result_of "a" (Some "s1") (Some "/work")]
  /\ resultsDir once !! "own.json" = None
  /\ emitted again = emitted once
  /\ resultsDir again !! "own-again.json" = None.
Proof. vm_compute. repeat split. Qed.

End ResultHandler.

(** ** C2: the error heuristic *)

Module DetectErrorFacts.
Import DetectError.
Local Open Scope list_scope.

Section Facts.
Variable fatal : string -> string -> option (option Z).

Local Abbreviation tool_error := (tool_error fatal).
Local Abbreviation first_error := (first_error fatal).
Local Abbreviation detect := (detectSubagentError fatal).

Lemma tool_error_flags (m : message) (e : ErrorInfo) :
  tool_error m = Some e -> hasError e = true.
Proof.
  destruct m as [content|toolName text isErr|text]; simpl; try discriminate.
  destruct isErr.
  - intros H. injection H as <-. reflexivity.
  - destruct (fatal toolName text); [|discriminate].
    intros H. injection H as <-. reflexivity.
Qed.

(** The scan finds an error exactly when the list holds one. *)
Lemma first_error_some (l : list message) :
  is_Some (first_error l) <->
  exists j m, l !! j = Some m /\ is_tool_error fatal m.
Proof.
  induction l as [|x l IH]; simpl.
  - split; [intros [e He]; discriminate|intros (j & m & Hj & _); discriminate].
  - destruct (tool_error x) as [e|] eqn:Hx.
    + split; [|eauto]. intros _. exists 0, x. split; [reflexivity|].
      unfold is_tool_error. rewrite Hx. eauto.
    + rewrite IH. split.
      * intros (j & m & Hj & Hm). exists (S j), m. done.
      * intros (j & m & Hj & Hm). destruct j as [|j].
        -- simpl in Hj. injection Hj as <-. unfold is_tool_error in Hm.
           rewrite Hx in Hm. by destruct Hm.
        -- eauto.
Qed.

Lemma first_error_flags (l : list message) (e : ErrorInfo) :
  first_error l = Some e -> hasError e = true.
Proof.
  induction l as [|x l IH]; simpl; [discriminate|].
  destruct (tool_error x) as [e'|] eqn:Hx; [|exact IH].
  intros H. injection H as <-. by eapply tool_error_flags.
Qed.

(** What the backward-looking index is: the position of the last
    message with text, or the value carried in when there is none. *)
Lemma lastTextIndex_spec (l : list message) (i : nat) (found : option nat) :
  (lastTextIndex l i found = found /\
   forall k m, l !! k = Some m -> has_text m = false)
  \/ (exists k m, lastTextIndex l i found = Some (i + k) /\
                  l !! k = Some m /\ has_text m = true /\
                  forall k' m', k < k' -> l !! k' = Some m' -> has_text m' = false).
Proof.
  revert i found. induction l as [|x l IH]; intros i found; simpl.
  - left. split; [reflexivity|]. intros k m H. discriminate.
  - destruct (IH (S i) (if has_text x then Some i else found))
      as [[Heq Hnone]|(k & m & Heq & Hk & Hm & Hafter)].
    + destruct (has_text x) eqn:Hx.
      * right. exists 0, x. rewrite Heq, Nat.add_0_r.
        split; [reflexivity|]. split; [reflexivity|]. split; [exact Hx|].
        intros k' m' Hlt Hk'. destruct k' as [|k']; [lia|]. simpl in Hk'. eauto.
      * left. split; [exact Heq|]. intros k m Hk. destruct k as [|k].
        -- simpl in Hk. by injection Hk as <-.
        -- simpl in Hk. eauto.
    + right. exists (S k), m. rewrite Heq.
      split; [f_equal; lia|]. split; [exact Hk|]. split; [exact Hm|].
      intros k' m' Hlt Hk'. destruct k' as [|k']; [lia|]. simpl in Hk'.
      apply (Hafter k' m'); [lia|exact Hk'].
Qed.

Lemma detect_flags_iff_scan (M : list message) :
  hasError (detect M) = true <->
  is_Some (first_error
             (drop (match lastTextIndex M 0 None with Some i => S i | None => 0 end) M)).
Proof.
  unfold detectSubagentError.
  destruct (DetectError.first_error fatal _) as [e|] eqn:He; simpl.
  - split; [eauto|]. intros _. by eapply first_error_flags.
  - split; [discriminate|]. intros [e He']. discriminate.
Qed.

(** C2.  [detectSubagentError(M).hasError] is true if and only if [M]
    holds a tool-result error (flagged [isError], or matching a fatal
    pattern of its tool) at a position after every assistant message
    with non-white-space text; when no such assistant message exists
    this is: [M] holds a tool-result error.  Hence when every error is
    followed by an assistant message with text, [hasError] is false. *)
Theorem hasError_iff_error_after_last_text (M : list message) :
  (hasError (detect M) = true <->
   exists j m, M !! j = Some m /\ is_tool_error fatal m /\
               forall k m', M !! k = Some m' -> has_text m' = true -> k < j) /\
  ((forall k m', M !! k = Some m' -> has_text m' = false) ->
   (hasError (detect M) = true <->
    exists j m, M !! j = Some m /\ is_tool_error fatal m)) /\
  ((forall j m, M !! j = Some m -> is_tool_error fatal m ->
      exists k m', j < k /\ M !! k = Some m' /\ has_text m' = true) ->
   hasError (detect M) = false).
Proof.
  assert (Hiff : hasError (detect M) = true <->
    exists j m, M !! j = Some m /\ is_tool_error fatal m /\
                forall k m', M !! k = Some m' -> has_text m' = true -> k < j).
  { rewrite detect_flags_iff_scan, first_error_some.
    destruct (lastTextIndex_spec M 0 None) as [[-> Hnone]|(k & m & -> & Hk & Hm & Hafter)].
    - rewrite drop_0. split.
      + intros (j & x & Hj & Hx). exists j, x. split; [done|]. split; [done|].
        intros k m' Hk Ht. rewrite (Hnone _ _ Hk) in Ht. discriminate.
      + intros (j & x & Hj & Hx & _). eauto.
    - simpl. split.
      + intros (j & x & Hj & Hx). rewrite lookup_drop in Hj.
        exists (S k + j), x. split; [done|]. split; [done|].
        intros k' m' Hk' Ht.
        destruct (decide (k < k')) as [Hlt|Hge]; [|lia].
        rewrite (Hafter _ _ Hlt Hk') in Ht. discriminate.
      + intros (j & x & Hj & Hx & Hall).
        pose proof (Hall _ _ Hk Hm) as Hlt.
        exists (j - S k), x. split; [|done].
        rewrite lookup_drop. replace (S k + (j - S k)) with j by lia. exact Hj. }
  split; [exact Hiff|]. split.
  - intros Hnone. rewrite Hiff. split.
    + intros (j & m & Hj & Hm & _). eauto.
    + intros (j & m & Hj & Hm). exists j, m. split; [done|]. split; [done|].
      intros k m' Hk Ht. rewrite (Hnone _ _ Hk) in Ht. discriminate.
  - intros Hrec. apply not_true_is_false. intros Hh.
    apply Hiff in Hh as (j & m & Hj & Hm & Hall).
    destruct (Hrec _ _ Hj Hm) as (k & m' & Hlt & Hk & Ht).
    specialize (Hall _ _ Hk Ht). lia.
Qed.

End Facts.

(** The theorem at scenario 6: a read that fails with EISDIR, then the
    agent's review. *)
Lemma hasError_iff_error_after_last_text_witness :
  hasError (detectSubagentError bash_fatal
    [ToolResultMessage "read" "file contents" false;
     ToolResultMessage "read" "EISDIR: illegal operation on a directory, read" true;
     AssistantMessage [TextPart "Complete review"]]) = false.
Proof.
  apply (proj2 (proj2 (hasError_iff_error_after_last_text bash_fatal _))).
  intros j m Hj Hm. exists 2, (AssistantMessage [TextPart "Complete review"]).
  destruct j as [|[|[|j]]]; simpl in Hj; try discriminate.
  - injection Hj as <-. destruct Hm as [e He]. discriminate.
  - split; [lia|]. split; reflexivity.
  - injection Hj as <-. destruct Hm as [e He]. discriminate.
Defined.

(** *** detect-error.test.ts, replayed *)

Definition toolResult (toolName text : string) (isErr : bool) : message :=
  ToolResultMessage toolName text isErr.
Definition assistantMsg (text : string) : message := AssistantMessage [TextPart text].
Definition assistantToolCall (toolName : string) : message :=
  AssistantMessage [ToolCallPart toolName].

Local Abbreviation detect := (detectSubagentError bash_fatal).

Example test_empty : hasError (detect []) = false.
Proof. reflexivity. Qed.

Example test_all_succeed :
  hasError (detect [toolResult "read" "file contents here" false;
                    toolResult "bash" "ls output" false;
                    toolResult "read" "more contents" false]) = false.
Proof. vm_compute. reflexivity. Qed.

Example test_isError_no_response :
  let r := detect [toolResult "read" "file contents" false;
                   toolResult "read" "EISDIR: illegal operation on a directory, read" true] in
  hasError r = true /\ errorType r = Some "read".
Proof. vm_compute. split; reflexivity. Qed.

Example test_bash_permission_denied :
  let r := detect [toolResult "bash" "ls: permission denied: /root/secret" false] in
  hasError r = true /\ errorType r = Some "bash".
Proof. vm_compute. split; reflexivity. Qed.

Example test_bash_exit_code :
  let r := detect [toolResult "bash" "error: process exited with code 127" false] in
  hasError r = true /\ exitCode r = Some 127%Z.
Proof. vm_compute. split; reflexivity. Qed.

Example test_recovered_and_continued :
  hasError (detect [toolResult "read" "file contents" false;
                    toolResult "bash" "ok" false;
                    toolResult "read" "EISDIR: illegal operation on a directory" true;
                    toolResult "bash" "directory listing via bash" false;
                    assistantMsg "Here is my complete review..."]) = false.
Proof. vm_compute. reflexivity. Qed.

Example test_fatal_pattern_before_response :
  hasError (detect [toolResult "bash" "ls: permission denied: /root/secret" false;
                    assistantMsg "I couldn't access /root/secret, but I found the data elsewhere."])
  = false.
Proof. vm_compute. reflexivity. Qed.

Example test_error_after_last_response :
  let r := detect [assistantMsg "Here is my analysis...";
                   toolResult "bash" "rm -rf /important" false;
                   toolResult "bash" "error: process exited with code 1" false] in
  hasError r = true /\ exitCode r = Some 1%Z.
Proof. vm_compute. split; reflexivity. Qed.

Example test_isError_after_last_response :
  let r := detect [toolResult "read" "file ok" false;
                   assistantMsg "Let me try one more thing...";
                   toolResult "write" "Permission denied" true] in
  hasError r = true /\ errorType r = Some "write".
Proof. vm_compute. split; reflexivity. Qed.

Example test_no_assistant_messages :
  hasError (detect [toolResult "read" "ok" false;
                    toolResult "bash" "segmentation fault" false]) = true.
Proof. vm_compute. reflexivity. Qed.

Example test_tool_call_only_is_no_recovery :
  hasError (detect [toolResult "bash" "permission denied: /etc/shadow" false;
                    assistantToolCall "bash";
                    toolResult "bash" "permission denied: /etc/shadow" false]) = true.
Proof. vm_compute. reflexivity. Qed.

Example test_whitespace_is_no_recovery :
  hasError (detect [toolResult "read" "EISDIR: illegal operation on a directory" true;
                    assistantMsg "   "]) = true.
Proof. vm_compute. reflexivity. Qed.

Example test_only_assistant_messages :
  hasError (detect [assistantMsg "Hello, I'm ready to help.";
                    assistantMsg "Here's my analysis."]) = false.
Proof. vm_compute. reflexivity. Qed.

Example test_errors_with_recovery_between :
  hasError (detect [toolResult "read" "ENOENT: no such file" true;
                    assistantMsg "File not found, trying alternative...";
                    toolResult "read" "file contents" false;
                    toolResult "read" "EISDIR: illegal operation on a directory" true;
                    assistantMsg "Got what I needed. Here's the full review."]) = false.
Proof. vm_compute. reflexivity. Qed.

Example test_trailing_EISDIR_after_npm_test :
  hasError (detect [toolResult "read" "contents of file 1" false;
                    toolResult "bash" ("npm test" +:+ String "010" "46 pass"
                                       +:+ String "010" "2 fail" +:+ String "010" "Tests 48") false;
                    toolResult "read" "EISDIR: illegal operation on a directory, read" true;
                    assistantMsg "## Implementation Review"]) = false.
Proof. vm_compute. reflexivity. Qed.

End DetectErrorFacts.

(** ** C8: names are sanitized before they are stored *)

Module SanitizedNames.
Import Agents Serializer Management Samples.
Local Open Scope list_scope.

(** *** The shape of [sanitizeName] *)

Lemma keep_forall (cls : ascii -> bool) (s : string) :
  string_forall cls (keep cls s) = true.
Proof.
  induction s as [|c r IH]; simpl; [reflexivity|].
  destruct (cls c) eqn:Hc; simpl; [rewrite Hc|]; done.
Qed.

Lemma runs_forall (p cls : ascii -> bool) (b : bool) (s : string) :
  p hyphen = true -> string_forall p s = true ->
  string_forall p (runs_to_hyphen cls b s) = true.
Proof.
  intros Hh. revert b. induction s as [|c r IH]; intros b; simpl; [done|].
  intros H. apply andb_true_iff in H as [Hc Hr].
  destruct (cls c); [destruct b|]; simpl; rewrite ?Hh, ?Hc; simpl; auto.
Qed.

Lemma dropStart_forall (p cls : ascii -> bool) (s : string) :
  string_forall p s = true -> string_forall p (dropStart cls s) = true.
Proof.
  induction s as [|c r IH]; simpl; [done|].
  intros H. destruct (cls c); [|exact H].
  apply andb_true_iff in H as [_ Hr]. auto.
Qed.

Lemma dropEnd_forall (p cls : ascii -> bool) (s : string) :
  string_forall p s = true -> string_forall p (dropEnd cls s) = true.
Proof.
  induction s as [|c r IH]; simpl; [done|].
  intros H. apply andb_true_iff in H as [Hc Hr]. specialize (IH Hr).
  destruct (dropEnd cls r) as [|c' r'].
  - destruct (cls c); simpl; [done|]. by rewrite Hc.
  - simpl in *. by rewrite Hc, IH.
Qed.

(** After [replace(/-+/g, "-")] no two hyphens are adjacent; inside a
    run the output does not begin with one. *)
Lemma collapse_no_double (b : bool) (s : string) :
  no_double_hyphen (runs_to_hyphen is_hyphen b s) = true /\
  (b = true -> starts_with_hyphen (runs_to_hyphen is_hyphen b s) = false).
Proof.
  revert b. induction s as [|c r IH]; intros b; simpl; [done|].
  destruct (is_hyphen c) eqn:Hc.
  - destruct (IH true) as [Hnd Hst]. destruct b.
    + split; [exact Hnd|]. intros _. by apply Hst.
    + split; [|discriminate].
      specialize (Hst eq_refl).
      destruct (runs_to_hyphen is_hyphen true r) as [|c' r'] eqn:Hr; [done|].
      simpl in Hst.
      change (negb (is_hyphen hyphen && is_hyphen c')
              && no_double_hyphen (String c' r') = true).
      rewrite Hst, andb_false_r. exact Hnd.
  - destruct (IH false) as [Hnd _]. split.
    + destruct (runs_to_hyphen is_hyphen false r) as [|c' r'] eqn:Hr; [done|].
      change (negb (is_hyphen c && is_hyphen c')
              && no_double_hyphen (String c' r') = true).
      rewrite Hc. exact Hnd.
    + intros _. simpl. exact Hc.
Qed.

Lemma no_double_tail (c : ascii) (r : string) :
  no_double_hyphen (String c r) = true -> no_double_hyphen r = true.
Proof.
  simpl. destruct r as [|c' r']; [done|]. intros H.
  apply andb_true_iff in H as [_ H]. exact H.
Qed.

Lemma dropStart_no_double (s : string) :
  no_double_hyphen s = true -> no_double_hyphen (dropStart is_hyphen s) = true.
Proof.
  induction s as [|c r IH]; [done|]. intros H.
  simpl dropStart. destruct (is_hyphen c); [|exact H].
  apply IH. by eapply no_double_tail.
Qed.

Lemma dropEnd_head (cls : ascii -> bool) (s : string) :
  match dropEnd cls s with
  | String c _ => exists r, s = String c r
  | EmptyString => True
  end.
Proof.
  destruct s as [|c r]; simpl; [done|].
  destruct (dropEnd cls r); [destruct (cls c)|]; eauto.
Qed.

Lemma dropEnd_no_double (s : string) :
  no_double_hyphen s = true -> no_double_hyphen (dropEnd is_hyphen s) = true.
Proof.
  induction s as [|c r IH]; [done|]. intros H.
  pose proof (no_double_tail _ _ H) as Hr. specialize (IH Hr).
  simpl dropEnd. pose proof (dropEnd_head is_hyphen r) as Hhead.
  destruct (dropEnd is_hyphen r) as [|c' r'] eqn:Hd.
  - destruct (is_hyphen c); done.
  - destruct Hhead as [r0 ->].
    simpl in H. apply andb_true_iff in H as [Hcc _].
    change (negb (is_hyphen c && is_hyphen c') && no_double_hyphen (String c' r') = true).
    rewrite Hcc. exact IH.
Qed.

Lemma dropStart_starts (s : string) :
  starts_with_hyphen (dropStart is_hyphen s) = false.
Proof.
  induction s as [|c r IH]; simpl; [done|].
  destruct (is_hyphen c) eqn:Hc; [exact IH|]. simpl. exact Hc.
Qed.

Lemma dropEnd_starts (s : string) :
  starts_with_hyphen s = false -> starts_with_hyphen (dropEnd is_hyphen s) = false.
Proof.
  destruct s as [|c r]; simpl; [done|]. intros Hc.
  destruct (dropEnd is_hyphen r); [rewrite Hc|]; simpl; done.
Qed.

Lemma dropEnd_ends (s : string) :
  ends_with_hyphen (dropEnd is_hyphen s) = false.
Proof.
  induction s as [|c r IH]; simpl; [done|].
  destruct (dropEnd is_hyphen r) as [|c' r'] eqn:Hd.
  - destruct (is_hyphen c) eqn:Hc; simpl; done.
  - simpl in *. exact IH.
Qed.

Lemma hyphen_is_name_char : is_name_char hyphen = true.
Proof. reflexivity. Qed.

Lemma sanitizeName_well_formed (s : string) : well_formed_name (sanitizeName s).
Proof.
  unfold sanitizeName. repeat split.
  - apply dropEnd_forall, dropStart_forall, runs_forall; [apply hyphen_is_name_char|].
    apply keep_forall.
  - apply dropEnd_no_double, dropStart_no_double, collapse_no_double.
  - apply dropEnd_starts, dropStart_starts.
  - apply dropEnd_ends.
Qed.

(** *** What the handlers store *)









Lemma resolveTarget_error {T : Type} (ctx : ManagementContext) (fs : Files)
    (chains : bool) (src : T -> source_scope) (fpath : T -> string) (nm : string)
    (matches : list T) (hint : option string) (e : AgentToolResult) :
  resolveTarget ctx fs chains src fpath nm matches hint = inr e -> isError e = true.
Proof.
  unfold resolveTarget. intros H.
  repeat match type of H with
         | match ?X with _ => _ end = _ => destruct X
         end; try discriminate; injection H as <-; reflexivity.
Qed.








(** Outside ASCII: a no-break space is white space, the Kelvin sign and
    the dotted capital I have a lower case in ASCII, and all other
    characters outside ASCII go.  The first name has U+00A0 between
    [a] and [b], the second begins with U+212A, the third with U+0130,
    and the last has U+3000 between [x] and [y]. *)
Example sanitizeName_outside_ascii :
  sanitizeName "a b" = "a-b" /\
  sanitizeName "K9" = "k9" /\
  sanitizeName "İstanbul Café" = "istanbul-caf" /\
  sanitizeName "  x　y " = "x-y".
Proof. repeat split; vm_compute; reflexivity. Qed.


End SanitizedNames.

(** * subagent-runner.ts: the calls of a run *)

Module RunnerFacts.
Import ParallelUtils Runner RunnerCode.
Local Open Scope list_scope.

(** ** Traces *)

Lemma paired_from_mono (ops : list fs_op) (b : bool) :
  paired_from b ops = true -> paired_from true ops = true.
Proof.
  destruct ops as [|op rest]; [done|]. simpl.
  destruct (is_status_write op); [|done].
  destruct b; [done|]. simpl. discriminate.
Qed.

Lemma paired_from_app (a c : list fs_op) (b : bool) :
  paired_from b a = true -> status_paired c = true -> paired_from b (a ++ c) = true.
Proof.
  revert b. induction a as [|op rest IH]; intros b Ha Hc; simpl in *.
  - destruct b; [by eapply paired_from_mono|done].
  - apply andb_true_iff in Ha as [H1 H2]. rewrite H1. simpl. by apply IH.
Qed.

Lemma extends_refl (s : rstate) : extends s s.
Proof. exists []. by rewrite app_nil_r. Qed.

Lemma extends_trans (s1 s2 s3 : rstate) :
  extends s1 s2 -> extends s2 s3 -> extends s1 s3.
Proof.
  intros (a & Ha & Pa & Qa) (c & Hc & Pc & Qc). exists (a ++ c).
  split; [by rewrite Hc, Ha, app_assoc|].
  split; [by rewrite forallb_app, Pa, Pc|by apply paired_from_app].
Qed.

Lemma extends_same_trace (s s' : rstate) : rs_trace s' = rs_trace s -> extends s s'.
Proof. intros H. exists []. by rewrite app_nil_r. Qed.

(** ** The actions of the runner *)

Lemma emits_ret {A : Type} (a : A) : emits (mret a).
Proof. intros st. apply extends_refl. Qed.

Lemma emits_bind {A B : Type} (m : Run A) (f : A -> Run B) :
  emits m -> (forall a, emits (f a)) -> emits (m ≫= f).
Proof.
  intros Hm Hf st. unfold mbind, run_bind. specialize (Hm st).
  destruct (m st) as [a st'] eqn:E. simpl in Hm.
  eapply extends_trans; [exact Hm|apply Hf].
Qed.

Lemma emits_get {A : Type} (f : rstate -> A) : emits (get f).
Proof. intros st. apply extends_refl. Qed.

Lemma emits_modify (f : rstate -> rstate) :
  (forall st, rs_trace (f st) = rs_trace st) -> emits (modify f).
Proof. intros H st. apply extends_same_trace. simpl. apply H. Qed.

Lemma emits_now (w : World) : emits (now w).
Proof. intros st. apply extends_same_trace. reflexivity. Qed.

Lemma emits_update_status (f : StatusPayload -> StatusPayload) : emits (update_status f).
Proof. intros st. apply extends_same_trace. reflexivity. Qed.

Lemma emits_update_row (fi : nat) (f : StepRow -> StepRow) : emits (update_row fi f).
Proof. intros st. apply extends_same_trace. reflexivity. Qed.

Lemma emits_emit (op : fs_op) :
  step_op op = true -> is_status_write op = false -> emits (emit op).
Proof.
  intros Hop Hs st. exists [op]. split; [reflexivity|].
  split; [simpl; by rewrite Hop|]. unfold status_paired. simpl. by rewrite Hs.
Qed.

Lemma emits_writeStatus : emits writeStatus.
Proof.
  intros st. exists [MkdirSync AsyncDir; WriteFileSync StatusPath (CStatus (rs_status st))].
  split; [|done]. unfold writeStatus, writeJson, emit, modify, get, mbind, run_bind.
  simpl. by rewrite <- app_assoc.
Qed.

Lemma emits_appendJsonl (e : event) : emits (appendJsonl e).
Proof. by apply emits_emit. Qed.

Lemma emits_when (b : bool) (m : Run unit) : emits m -> emits (when b m).
Proof. intros H. destruct b; [exact H|apply emits_ret]. Qed.

(** One step of the proof that an action only makes step calls. *)
Ltac emits_step :=
  lazymatch goal with
  | |- emits (mbind _ _) => apply emits_bind; [|intros ?]
  | |- emits (mret _) => apply emits_ret
  | |- emits (get _) => apply emits_get
  | |- emits (emit _) => apply emits_emit; reflexivity
  | |- emits (now _) => apply emits_now
  | |- emits (update_status _) => apply emits_update_status
  | |- emits (update_row _ _) => apply emits_update_row
  | |- emits (modify _) => apply emits_modify; intros ?; reflexivity
  | |- emits writeStatus => apply emits_writeStatus
  | |- emits (appendJsonl _) => apply emits_appendJsonl
  | |- emits (when _ _) => apply emits_when
  | |- emits (match ?x with _ => _ end) => destruct x
  end.

Ltac emits_all := repeat emits_step.

Lemma emits_runSingleStep_begin (cfg : SubagentRunConfig) (step : RunnerSubagentStep)
    (dir : option path) (fi : nat) :
  emits (runSingleStep_begin cfg step dir fi).
Proof. unfold runSingleStep_begin. emits_all. Qed.

Lemma emits_runSingleStep_end (cfg : SubagentRunConfig) (w : World)
    (step : RunnerSubagentStep) (fi : nat) (loc : StepLocals) :
  emits (runSingleStep_end cfg w step fi loc).
Proof. unfold runSingleStep_end. emits_all. Qed.

Lemma emits_group_task_start (cfg : SubagentRunConfig) (w : World) (failFast : bool)
    (g : nat) (task : RunnerSubagentStep) (taskIdx : nat) :
  emits (group_task_start cfg w failFast g task taskIdx).
Proof.
  unfold group_task_start. emits_all. apply emits_runSingleStep_begin.
Qed.

Lemma emits_group_task_finish (cfg : SubagentRunConfig) (w : World) (failFast : bool)
    (g : nat) (task : RunnerSubagentStep) (taskIdx : nat) (locals : StepLocals * Z) :
  emits (group_task_finish cfg w failFast g task taskIdx locals).
Proof.
  unfold group_task_finish. destruct locals as [loc t0].
  apply emits_bind; [apply emits_runSingleStep_end|intros ?]. emits_all.
Qed.

Lemma emits_mark_running (g : nat) (t0 : Z) (count : nat) :
  emits (mark_running g t0 count).
Proof. induction count as [|t IH]; simpl; [apply emits_ret|]. by emits_all. Qed.

Lemma emits_collect_group_tokens (w : World) (g count : nat) :
  emits (collect_group_tokens w g count).
Proof.
  induction count as [|t IH]; simpl; [apply emits_ret|].
  apply emits_bind; [exact IH|intros ?]. emits_all.
Qed.

(** ** The pool keeps what every call of the callback keeps *)

Section SharedState.
Context {T R L O St : Type}.
Variable fn_start : T -> nat -> St -> St * (L + R).
Variable fn_resume : T -> nat -> L -> O -> St -> St * R.
Variable rel : St -> St -> Prop.
Hypothesis rel_refl : forall s, rel s s.
Hypothesis rel_trans : forall s1 s2 s3, rel s1 s2 -> rel s2 s3 -> rel s1 s3.
Hypothesis start_rel : forall x i s, rel s (fn_start x i s).1.
Hypothesis resume_rel : forall x i l o s, rel s (fn_resume x i l o s).1.

Lemma mc_step_shared (items : list T) (w : nat) (o : O)
    (st st' : mc_state (R := R) (L := L) (St := St)) :
  mc_step fn_start fn_resume items w o st = Some st' ->
  rel (mc_shared st) (mc_shared st').
Proof.
  unfold mc_step. intros H.
  destruct (mc_workers st !! w) as [[|i l|i r|]|]; try discriminate.
  - destruct (decide (mc_next st < length items)).
    + destruct (items !! mc_next st) as [x|]; [|discriminate].
      pose proof (start_rel x (mc_next st) (mc_shared st)) as Hs.
      destruct (fn_start x (mc_next st) (mc_shared st)) as [s' res].
      injection H as <-. exact Hs.
    + injection H as <-. apply rel_refl.
  - destruct (items !! i) as [x|]; [|discriminate].
    pose proof (resume_rel x i l o (mc_shared st)) as Hs.
    destruct (fn_resume x i l o (mc_shared st)) as [s' r].
    injection H as <-. exact Hs.
  - injection H as <-. apply rel_refl.
Qed.

Lemma mc_run_shared (items : list T) (sched : list (nat * O))
    (st : mc_state (R := R) (L := L) (St := St)) :
  rel (mc_shared st) (mc_shared (mc_run fn_start fn_resume items sched st)).
Proof.
  revert st. induction sched as [|[w o] rest IH]; intros st; simpl.
  - apply rel_refl.
  - destruct (mc_step fn_start fn_resume items w o st) as [st'|] eqn:E; [|apply IH].
    eapply rel_trans; [by eapply mc_step_shared|apply IH].
Qed.

End SharedState.

Lemma emits_await_group (cfg : SubagentRunConfig) (w : World) (stepIndex : nat)
    (group : ParallelStepGroup) (c : Js.number) (failFast : bool) (g : nat) :
  emits (await_group cfg w stepIndex group c failFast g).
Proof.
  intros st. unfold await_group.
  match goal with |- context [mc_run ?a ?b ?i ?sc ?st0] =>
    pose proof (mc_run_shared a b extends extends_refl extends_trans) as H;
    specialize (fun Hs Hr => H Hs Hr i sc st0) end.
  match type of H with ?A -> ?B -> _ => assert (Hs : A); [|assert (Hr : B)] end.
  - intros x i s. unfold group_fn_start.
    pose proof (emits_group_task_start cfg w failFast g x i s) as Hx.
    by destruct (group_task_start cfg w failFast g x i s).
  - intros x i l o s. unfold group_fn_resume.
    pose proof (emits_group_task_finish cfg w failFast g x i l s) as Hx.
    by destruct (group_task_finish cfg w failFast g x i l s).
  - specialize (H Hs Hr). simpl in H.
    by destruct (mc_final _).
Qed.

Lemma emits_run_group (cfg : SubagentRunConfig) (w : World) (stepIndex : nat)
    (group : ParallelStepGroup) :
  emits (run_group cfg w stepIndex group).
Proof.
  unfold run_group.
  repeat first [apply emits_mark_running | apply emits_await_group
               | apply emits_collect_group_tokens | emits_step].
Qed.

Lemma emits_run_sequential (cfg : SubagentRunConfig) (w : World)
    (seqStep : RunnerSubagentStep) :
  emits (run_sequential cfg w seqStep).
Proof.
  unfold run_sequential.
  repeat first [apply emits_runSingleStep_begin | apply emits_runSingleStep_end
               | emits_step].
Qed.

Lemma emits_run_steps (cfg : SubagentRunConfig) (w : World) (stepIndex : nat)
    (todo : list RunnerStep) :
  emits (run_steps cfg w stepIndex todo).
Proof.
  revert stepIndex. induction todo as [|step rest IH]; intros stepIndex; simpl.
  - apply emits_ret.
  - apply emits_bind.
    + destruct step; [apply emits_run_sequential|apply emits_run_group].
    + intros [| |]; [apply IH|apply emits_ret|apply emits_ret].
Qed.

(** ** The end of a run *)

Lemma same_frame_trans (p0 p1 p2 : StatusPayload) :
  same_frame p0 p1 -> same_frame p1 p2 -> same_frame p0 p2.
Proof.
  intros (A1 & A2 & A3 & A4 & A5 & A6) (B1 & B2 & B3 & B4 & B5 & B6).
  repeat split; congruence.
Qed.

(** *** The end of a run, in detail *)

Lemma bind_eq {A B} (m : Run A) (f : A -> Run B) st :
  (m ≫= f) st = f (m st).1 (m st).2.
Proof. unfold mbind, run_bind. by destruct (m st). Qed.

Lemma get_1 {A} (f : rstate -> A) st : (get f st).1 = f st.
Proof. reflexivity. Qed.
Lemma get_2 {A} (f : rstate -> A) st : (get f st).2 = st.
Proof. reflexivity. Qed.
Lemma now_1 w st : (now w st).1 = Date_now w (rs_clock st).
Proof. reflexivity. Qed.

(** The note of the failed step changes only the error field. *)
Lemma note_failure_frame (b : bool) (rows : list StepRow) (s2 : rstate) :
  let s3 := (when b
               (match List.find is_failed_row rows with
                | Some failedStep =>
                    when (JsString.truthy (row_agent failedStep))
                      (update_status
                         (set_sp_error (Some ("Step failed: " ++ row_agent failedStep)%string)))
                | None => mret tt
                end) s2).2 in
  rs_trace s3 = rs_trace s2 /\
  sp_state (rs_status s3) = sp_state (rs_status s2) /\
  sp_endedAt (rs_status s3) = sp_endedAt (rs_status s2) /\
  sp_steps (rs_status s3) = sp_steps (rs_status s2) /\
  same_frame (rs_status s2) (rs_status s3).
Proof.
  destruct b; [|repeat split; reflexivity].
  destruct (List.find is_failed_row rows) as [failedStep|]; [|repeat split; reflexivity].
  destruct (JsString.truthy (row_agent failedStep)) eqn:E; cbv zeta; unfold when; rewrite ?E;
    repeat split; reflexivity.
Qed.

Lemma finish_detail (cfg : SubagentRunConfig) (w : World) (t0 : Z) (st : rstate) :
  exists p e log r,
    rs_status (finish cfg w t0 st).2 = p /\
    rs_trace (finish cfg w t0 st).2 = rs_trace st ++ finish_ops p e log r /\
    sp_state p = (if forallb sr_success (rs_results st) then RunComplete else RunFailed) /\
    sp_endedAt p = Some (rf_timestamp r) /\
    sp_steps p = sp_steps (rs_status st) /\
    same_frame (rs_status st) p /\
    rf_success r = forallb sr_success (rs_results st) /\
    rf_exitCode r = (if forallb sr_success (rs_results st) then 0 else 1)%Z /\
    rf_id r = cfg_id cfg /\
    sr_agent <$> rf_results r = sr_agent <$> rs_results st /\
    sr_success <$> rf_results r = sr_success <$> rs_results st /\
    e = RunCompleted (rf_timestamp r) (sp_state p).
Proof.
  unfold finish. rewrite ?bind_eq, ?get_1, ?get_2, ?now_1. cbv beta.
  destruct (match maxOutput cfg with Some _ => _ | None => _ end) as [truncated summary].
  destruct (if _ && _ then _ else _) as [[[sessionFile shareUrl] gistUrl] shareError].
  rewrite ?bind_eq, ?get_1, ?get_2, ?now_1. cbv beta.
  set (t := Date_now w (rs_clock st)).
  set (s1 := (now w st).2).
  assert (Hs1 : rs_trace s1 = rs_trace st /\ rs_status s1 = rs_status st) by done.
  clearbody s1. destruct Hs1 as [Ht1 Hst1].
  rewrite ?bind_eq, ?get_1, ?get_2, ?now_1. cbv beta.
  match goal with |- context [update_status ?f s1] =>
    set (s2 := (update_status f s1).2) end.
  assert (Hs2 : rs_trace s2 = rs_trace s1 /\
                sp_state (rs_status s2)
                = (if forallb sr_success (rs_results st) then RunComplete else RunFailed) /\
                sp_endedAt (rs_status s2) = Some t /\
                sp_steps (rs_status s2) = sp_steps (rs_status s1) /\
                same_frame (rs_status s1) (rs_status s2)).
  { subst s2. simpl. repeat split; reflexivity. }
  clearbody s2. destruct Hs2 as (Ht2 & Hst2 & He2 & Hrows2 & Hid2).
  rewrite ?bind_eq, ?get_1, ?get_2, ?now_1. cbv beta.
  match goal with |- context [when ?b ?m s2] => set (s3 := (when b m s2).2) end.
  assert (Hs3 : rs_trace s3 = rs_trace s2 /\
                sp_state (rs_status s3) = sp_state (rs_status s2) /\
                sp_endedAt (rs_status s3) = sp_endedAt (rs_status s2) /\
                sp_steps (rs_status s3) = sp_steps (rs_status s2) /\
                same_frame (rs_status s2) (rs_status s3)).
  { subst s3. exact (note_failure_frame _ _ s2). }
  clearbody s3. destruct Hs3 as (Ht3 & Hst3 & He3 & Hrows3 & Hid3).
  set (s4 := (writeStatus s3).2).
  assert (Hs4 : rs_status s4 = rs_status s3 /\
                rs_trace s4 = rs_trace s3 ++ [MkdirSync AsyncDir;
                                              WriteFileSync StatusPath (CStatus (rs_status s3))]).
  { subst s4. unfold writeStatus, writeJson, emit, modify, get, mbind, run_bind. simpl.
    split; [reflexivity|]. by rewrite <- app_assoc. }
  clearbody s4. destruct Hs4 as [Hst4 Ht4].
  unfold appendJsonl, emit, modify. simpl.
  do 4 eexists. split; [exact Hst4|].
  split; [rewrite Ht4, Ht3, Ht2, Ht1; unfold finish_ops; rewrite <- !app_assoc;
          simpl; rewrite Hst4; reflexivity|].
  rewrite Hst3, Hst2, He3, He2, Hrows3, Hrows2, Hst1. simpl.
  split; [reflexivity|]. split; [reflexivity|]. split; [reflexivity|].
  split; [rewrite <- Hst1; by apply (same_frame_trans _ (rs_status s2))|].
  repeat split; try reflexivity.
  - rewrite <- list_fmap_compose. reflexivity.
  - rewrite <- list_fmap_compose. reflexivity.
Qed.

Lemma finish_trace (cfg : SubagentRunConfig) (w : World) (t0 : Z) (st : rstate) :
  exists p e log r,
    terminal (sp_state p) /\
    rs_status (finish cfg w t0 st).2 = p /\
    rs_trace (finish cfg w t0 st).2 = rs_trace st ++ finish_ops p e log r.
Proof.
  destruct (finish_detail cfg w t0 st) as (p & e & log & r & Hst & Htr & Hstate & _).
  exists p, e, log, r. split; [|by split].
  rewrite Hstate. destruct (forallb sr_success (rs_results st)); [by left|by right].
Qed.

(** The trace of a run: the opening, step calls, and, when the promise
    of [runSubagent] resolves, the calls of [finish]. *)
Lemma run_trace_shape (cfg : SubagentRunConfig) (w : World) :
  exists ops,
    forallb step_op (opening_ops cfg w ++ ops) = true /\
    status_paired (opening_ops cfg w ++ ops) = true /\
    (((runSubagent cfg w).1 = false /\ run_trace cfg w = opening_ops cfg w ++ ops) \/
     ((runSubagent cfg w).1 = true /\
      exists p e log r,
        terminal (sp_state p) /\
        rs_status (runSubagent cfg w).2 = p /\
        run_trace cfg w = (opening_ops cfg w ++ ops) ++ finish_ops p e log r)).
Proof.
  unfold run_trace, runSubagent, run_body, writeStatus, writeJson, appendJsonl, emit,
    modify, get, mbind, run_bind. simpl.
  match goal with |- context [run_steps cfg w 0 (steps cfg) ?S] =>
    pose proof (emits_run_steps cfg w 0 (steps cfg) S) as (ops & Ht & Hp & Hq);
    destruct (run_steps cfg w 0 (steps cfg) S) as [f s2] end.
  simpl in Ht. exists ops.
  assert (Hops : forallb step_op (opening_ops cfg w ++ ops) = true)
    by (rewrite forallb_app, Hp; reflexivity).
  assert (Hpair : status_paired (opening_ops cfg w ++ ops) = true)
    by (apply paired_from_app; [reflexivity|exact Hq]).
  split; [exact Hops|]. split; [exact Hpair|].
  destruct f.
  - destruct (finish_trace cfg w (Date_now w 0) s2) as (p & e & log & r & Hterm & Hst & Htr).
    unfold mret, run_ret. destruct (finish cfg w (Date_now w 0) s2) as [u s3]. simpl in *.
    right. split; [reflexivity|]. exists p, e, log, r.
    split; [exact Hterm|]. split; [exact Hst|]. by rewrite Htr, Ht.
  - destruct (finish_trace cfg w (Date_now w 0) s2) as (p & e & log & r & Hterm & Hst & Htr).
    unfold mret, run_ret. destruct (finish cfg w (Date_now w 0) s2) as [u s3]. simpl in *.
    right. split; [reflexivity|]. exists p, e, log, r.
    split; [exact Hterm|]. split; [exact Hst|]. by rewrite Htr, Ht.
  - left. split; [reflexivity|]. exact Ht.
Qed.

(** ** Replaying a trace on a file system *)

Lemma replay_app (fs : gmap path content) (a b : list fs_op) :
  replay fs (a ++ b) = replay (replay fs a) b.
Proof. apply foldl_app. Qed.

Lemma apply_op_untouched (fs : gmap path content) (op : fs_op) (p : path) :
  touches p op = false -> apply_op fs op !! p = fs !! p.
Proof.
  destruct op as [d|d|q c|q e|q|src dst|d]; simpl; intros H; try reflexivity.
  - apply bool_decide_eq_false in H. by rewrite lookup_insert_ne.
  - apply bool_decide_eq_false in H.
    destruct (fs !! q) as [[| | |l]|]; by rewrite lookup_insert_ne.
  - apply bool_decide_eq_false in H. by rewrite lookup_insert_ne.
  - apply orb_false_iff in H as [H1 H2].
    apply bool_decide_eq_false in H1. apply bool_decide_eq_false in H2.
    destruct (fs !! src); [|reflexivity].
    by rewrite lookup_insert_ne, lookup_delete_ne.
  - rewrite map_lookup_filter. destruct (fs !! p) as [c|]; [|reflexivity].
    simpl. rewrite option_guard_True; [reflexivity|exact H].
Qed.

Lemma replay_untouched (fs : gmap path content) (ops : list fs_op) (p : path) :
  forallb (fun op => negb (touches p op)) ops = true -> replay fs ops !! p = fs !! p.
Proof.
  revert fs. induction ops as [|op rest IH]; intros fs H; [reflexivity|].
  simpl in H. apply andb_true_iff in H as [H1 H2]. apply negb_true_iff in H1.
  unfold replay in *. simpl. rewrite (IH _ H2). by apply apply_op_untouched.
Qed.

Lemma step_ops_leave_result (ops : list fs_op) :
  forallb step_op ops = true -> forallb (fun op => negb (touches ResultPath op)) ops = true.
Proof.
  intros H. apply forallb_forall. intros op Hin.
  eapply forallb_forall in H; [|exact Hin].
  unfold step_op in H. by apply andb_true_iff in H as [_ H].
Qed.

Lemma step_ops_in_place (ops : list fs_op) :
  forallb step_op ops = true -> forallb in_place ops = true.
Proof.
  intros H. apply forallb_forall. intros op Hin.
  eapply forallb_forall in H; [|exact Hin].
  unfold step_op in H. by apply andb_true_iff in H as [H _].
Qed.

Lemma forallb_prefix {A : Type} (f : A -> bool) (l1 l2 : list A) :
  l1 `prefix_of` l2 -> forallb f l2 = true -> forallb f l1 = true.
Proof. intros [k ->]. rewrite forallb_app. by intros [H _]%andb_true_iff. Qed.

(** A point of a run that ends with [finish]: before the last call, or
    after it. *)
Lemma prefix_of_snoc {A : Type} (l1 l2 : list A) (x : A) :
  l1 `prefix_of` (l2 ++ [x]) -> l1 `prefix_of` l2 \/ l1 = l2 ++ [x].
Proof.
  intros [k Hk]. destruct (decide (k = [])) as [->|Hne].
  - right. by rewrite app_nil_r in Hk.
  - left. destruct (exists_last Hne) as (k' & y & ->).
    rewrite app_assoc in Hk. apply app_inj_tail in Hk as [-> _]. by exists k'.
Qed.

End RunnerFacts.

(** ** C1: the result file comes after the terminal status *)

Module ResultAfterStatus.
Import ParallelUtils Runner RunnerCode RunnerFacts.
Local Open Scope list_scope.

Lemma finish_ops_split (p : StatusPayload) (e : event) (log : string) (r : ResultFile) :
  finish_ops p e log r =
  [MkdirSync AsyncDir; WriteFileSync StatusPath (CStatus p);
   AppendLine EventsPath e; WriteFileSync LogPath (CText log); MkdirSync ResultsDir]
  ++ [WriteFileSync ResultPath (CResult r)].
Proof. reflexivity. Qed.

(** When the promise of [runSubagent] resolves, the run has written the
    result file. *)
Lemma result_file_written (cfg : SubagentRunConfig) (w : World)
    (fs0 : gmap path content) :
  (runSubagent cfg w).1 = true -> result_exists (replay fs0 (run_trace cfg w)).
Proof.
  intros Hdone. destruct (run_trace_shape cfg w) as (ops & _ & _ & [[Hw _]|[_ Hfin]]);
    [congruence|].
  destruct Hfin as (p & e & log & r & _ & _ & ->).
  rewrite replay_app. generalize (replay fs0 (opening_ops cfg w ++ ops)). intros fs1.
  unfold result_exists, replay. simpl. rewrite lookup_insert_eq. by eexists.
Qed.

(** C1.  Take a run that starts where the result file is not there, and
    any point of it, that is, any number of its file-system calls, in
    the order the run makes them.  If at that point the result file
    exists, then status.json holds a payload whose state is [complete]
    or [failed]. *)
Theorem result_file_only_after_terminal_status (cfg : SubagentRunConfig) (w : World)
    (fs0 : gmap path content) (calls : list fs_op) :
  fs0 !! ResultPath = None ->
  calls `prefix_of` run_trace cfg w ->
  result_exists (replay fs0 calls) ->
  status_terminal (replay fs0 calls).
Proof.
  intros Hfresh Hpre Hres.
  assert (Hno : forall l, forallb step_op l = true ->
                          calls `prefix_of` l -> False).
  { intros l Hl Hp. pose proof (forallb_prefix _ _ _ Hp Hl) as Hc.
    apply step_ops_leave_result in Hc.
    destruct Hres as [c Hc']. rewrite (replay_untouched _ _ _ Hc) in Hc'. congruence. }
  destruct (run_trace_shape cfg w) as (ops & Hstep & _ & [[_ Htr]|[_ Hfin]]).
  - rewrite Htr in Hpre. by destruct (Hno _ Hstep).
  - destruct Hfin as (p & e & log & r & Hterm & _ & Htr).
    rewrite Htr, finish_ops_split, app_assoc in Hpre.
    apply prefix_of_snoc in Hpre as [Hpre| ->].
    + exfalso. eapply Hno; [|exact Hpre].
      rewrite forallb_app, Hstep. reflexivity.
    + exists p. split; [|exact Hterm].
      rewrite <- app_assoc, replay_app.
      generalize (replay fs0 (opening_ops cfg w ++ ops)). intros fs1.
      unfold replay. simpl.
      rewrite lookup_insert_ne by done. rewrite lookup_insert_ne by done.
      destruct (_ !! EventsPath) as [[| | |l]|];
        rewrite lookup_insert_ne by done; apply lookup_insert_eq.
Qed.

Lemma result_file_only_after_terminal_status_witness :
  (∅ : gmap path content) !! ResultPath = None /\
  run_trace Samples.failfast_config Samples.failfast_world
    `prefix_of` run_trace Samples.failfast_config Samples.failfast_world /\
  result_exists (replay ∅ (run_trace Samples.failfast_config Samples.failfast_world)) /\
  status_terminal (replay ∅ (run_trace Samples.failfast_config Samples.failfast_world)).
Proof.
  assert (H1 : (∅ : gmap path content) !! ResultPath = None) by reflexivity.
  assert (H2 : run_trace Samples.failfast_config Samples.failfast_world
                 `prefix_of` run_trace Samples.failfast_config Samples.failfast_world)
    by (exists []; vm_compute; reflexivity).
  assert (H3 : result_exists
                 (replay ∅ (run_trace Samples.failfast_config Samples.failfast_world)))
    by (vm_compute; eexists; reflexivity).
  exact (conj H1 (conj H2 (conj H3
    (result_file_only_after_terminal_status Samples.failfast_config
       Samples.failfast_world ∅ _ H1 H2 H3)))).
Defined.

End ResultAfterStatus.

(** ** C4: how status.json is written *)

Module StatusWrites.
Import ParallelUtils Runner RunnerCode RunnerFacts.
Local Open Scope list_scope.

(** The run of [Samples.failfast_config] writes status.json four times,
    each time with [fs.writeFileSync] on status.json itself, and renames
    nothing: no write goes through a temporary file. *)
Lemma status_json_is_not_renamed_into_place :
  let calls := run_trace Samples.failfast_config Samples.failfast_world in
  length (filter (fun op => is_status_write op = true) calls) = 4 /\
  filter (fun op => is_rename op = true) calls = [] /\
  take 3 calls =
    [MkdirSync AsyncDir; MkdirSync AsyncDir;
     WriteFileSync StatusPath
       (CStatus (initial_status Samples.failfast_config Samples.failfast_world 100))].
Proof. vm_compute. done. Qed.

(** C4, as amended.  Every update of status.json, the initial write,
    the updates at the start and at the end of a step and the terminal
    write alike, is made by [writeJson]: [fs.mkdirSync] of the run
    directory, then [fs.writeFileSync] of the payload on status.json
    itself.  No call of a run renames a file, and no status payload is
    written to any other file.  A run opens with the write of the
    initial status, and a run that ends closes with the calls of
    [finish], whose status write carries the final payload, in a
    terminal state. *)
Theorem status_json_written_in_place (cfg : SubagentRunConfig) (w : World) :
  forallb in_place (run_trace cfg w) = true /\
  status_paired (run_trace cfg w) = true /\
  opening_ops cfg w `prefix_of` run_trace cfg w /\
  ((runSubagent cfg w).1 = false \/
   exists pre e log r,
     run_trace cfg w = pre ++ finish_ops (rs_status (runSubagent cfg w).2) e log r /\
     terminal (sp_state (rs_status (runSubagent cfg w).2))).
Proof.
  destruct (run_trace_shape cfg w) as (ops & Hstep & Hpair & [[Hw Htr]|[_ Hfin]]).
  - rewrite Htr. split; [by apply step_ops_in_place|]. split; [exact Hpair|].
    split; [by exists ops|by left].
  - destruct Hfin as (p & e & log & r & Hterm & Hst & Htr). rewrite Htr.
    split; [rewrite forallb_app, (step_ops_in_place _ Hstep); reflexivity|].
    split; [by apply paired_from_app|].
    split; [exists (ops ++ finish_ops p e log r); by rewrite app_assoc|].
    right. exists (opening_ops cfg w ++ ops), e, log, r. by rewrite Hst.
Qed.

End StatusWrites.

(** ** C3: the peers that fail-fast skips *)

Module FailFastSkip.
Import ParallelUtils Runner RunnerCode.
Local Open Scope list_scope.

(** Once a task of the group has failed, the callback of a fail-fast
    group returns the skipped value at once, and the run's state, its
    status payload and its calls included, is as it was. *)
Lemma skipped_callback_changes_nothing (cfg : SubagentRunConfig) (w : World)
    (g : nat) (task : RunnerSubagentStep) (taskIdx : nat) (st : rstate) :
  rs_aborted st = true ->
  group_task_start cfg w true g task taskIdx st = (inr (skipped_result task), st).
Proof.
  intros H. unfold group_task_start, get, mbind, run_bind. simpl. by rewrite H.
Qed.

(** The run of [Samples.failfast_config]: what it returns and what it
    leaves in status.json. *)
Lemma failfast_run_outcome :
  let out := runSubagent Samples.failfast_config Samples.failfast_world in
  out.1 = true /\
  (sr_agent <$> rs_results out.2) = ["w1"; "w2"] /\
  (sr_output <$> rs_results out.2) = ["boom"; "(skipped ‚Äî fail-fast)"] /\
  (sr_skipped <$> rs_results out.2) = [Some false; Some true] /\
  replay ∅ (rs_trace out.2) !! StatusPath = Some (CStatus (rs_status out.2)) /\
  sp_state (rs_status out.2) = RunFailed /\
  (row_agent <$> sp_steps (rs_status out.2)) = ["w1"; "w2"] /\
  (row_status <$> sp_steps (rs_status out.2)) = [Failed; Running] /\
  (row_exitCode <$> sp_steps (rs_status out.2)) = [Some (Some 1%Z); None] /\
  (row_endedAt <$> sp_steps (rs_status out.2)) = [Some 103%Z; None].
Proof. vm_compute. repeat split. Qed.

(** C3.  In a fail-fast group, a task whose turn comes after a failure
    gets the skipped value, with exit code -1, and its row in
    status.json does not become [failed].  The body of the value is the
    literal of the source, whose dash is the bytes e2 80 9a c3 84 c3 ae
    and not the em dash of [(skipped — fail-fast)].  The callback
    returns the value with the state of the run as it was, so the row
    of the task is not written.  On the run of
    [Samples.failfast_config], a group of the tasks [w1] and [w2], one
    at a time, fail-fast, where [w1] exits with code 1, the run ends
    with the skipped result for [w2], and the row of [w2] in the
    status.json that it leaves is [running], as the start of the group
    set it, with no exit code and no end time, in a payload whose state
    is [failed]. *)
Theorem failfast_skipped_peer_stays_running :
  (forall cfg w g task taskIdx st,
     rs_aborted st = true ->
     exists r,
       group_task_start cfg w true g task taskIdx st = (inr r, st) /\
       tr_agent r = agent task /\
       tr_exitCode r = Some (-1)%Z /\
       tr_output r = "(skipped ‚Äî fail-fast)"%string /\
       tr_skipped r = true) /\
  "(skipped ‚Äî fail-fast)"%string <> "(skipped — fail-fast)"%string /\
  let out := runSubagent Samples.failfast_config Samples.failfast_world in
  out.1 = true /\
  (sr_agent <$> rs_results out.2) = ["w1"; "w2"] /\
  (sr_output <$> rs_results out.2) = ["boom"; "(skipped ‚Äî fail-fast)"] /\
  (sr_skipped <$> rs_results out.2) = [Some false; Some true] /\
  replay ∅ (rs_trace out.2) !! StatusPath = Some (CStatus (rs_status out.2)) /\
  sp_state (rs_status out.2) = RunFailed /\
  (row_agent <$> sp_steps (rs_status out.2)) = ["w1"; "w2"] /\
  (row_status <$> sp_steps (rs_status out.2)) = [Failed; Running] /\
  (row_exitCode <$> sp_steps (rs_status out.2)) = [Some (Some 1%Z); None] /\
  (row_endedAt <$> sp_steps (rs_status out.2)) = [Some 103%Z; None].
Proof.
  split; [|split; [discriminate|exact failfast_run_outcome]].
  intros cfg w g task taskIdx st Hab. exists (skipped_result task).
  split; [by apply skipped_callback_changes_nothing|]. by repeat split.
Qed.

(** The callback at a state of the sample run in which the flag is set. *)
Lemma failfast_skipped_peer_stays_running_witness :
  let st := set_rs_aborted true
              (initial_state Samples.failfast_config Samples.failfast_world) in
  rs_aborted st = true /\
  exists r,
    group_task_start Samples.failfast_config Samples.failfast_world true 0
      (Samples.runner_step "w2" "b") 1 st = (inr r, st) /\
    tr_agent r = "w2"%string /\
    tr_exitCode r = Some (-1)%Z /\
    tr_output r = "(skipped ‚Äî fail-fast)"%string /\
    tr_skipped r = true.
Proof.
  split; [reflexivity|].
  apply (proj1 failfast_skipped_peer_stays_running Samples.failfast_config
           Samples.failfast_world 0 (Samples.runner_step "w2" "b") 1).
  reflexivity.
Defined.

End FailFastSkip.

(** * More on agent-management.ts *)

Module ManagementFacts.
Import Agents Serializer Management.
Local Open Scope list_scope.

(** *** [sanitizeName] on a name that is already well formed *)

Lemma name_char_lower (c : ascii) :
  is_name_char c = true -> JsString.lower_char c = c.
Proof. destruct c as [[] [] [] [] [] [] [] []]; try reflexivity; discriminate. Qed.

Lemma is_hyphen_eq (c : ascii) : is_hyphen c = true -> c = hyphen.
Proof. unfold is_hyphen. intros H. by apply Ascii.eqb_eq in H. Qed.

(** A character of a name is a character of one byte, and no white
    space: the functions that look for white space or for a letter
    outside ASCII pass it by. *)
Lemma toLowerCase_name_char (c : ascii) (r : string) :
  is_name_char c = true ->
  JsString.toLowerCase (String c r) = String c (JsString.toLowerCase r).
Proof.
  intros Hc. destruct r as [|c2 [|c3 r3]];
    destruct c as [[] [] [] [] [] [] [] []]; try discriminate Hc; reflexivity.
Qed.

Lemma space_rest_name_char (c : ascii) (r : string) :
  is_name_char c = true -> JsString.space_rest (String c r) = None.
Proof.
  intros Hc. destruct r as [|c2 [|c3 r3]];
    destruct c as [[] [] [] [] [] [] [] []]; try discriminate Hc; reflexivity.
Qed.

Lemma trimStart_name_char (c : ascii) (r : string) :
  is_name_char c = true -> JsString.trimStart (String c r) = String c r.
Proof.
  intros Hc. destruct r as [|c2 [|c3 r3]];
    destruct c as [[] [] [] [] [] [] [] []]; try discriminate Hc; reflexivity.
Qed.

Lemma spaces_to_hyphen_name_char (b : bool) (c : ascii) (r : string) :
  is_name_char c = true ->
  JsString.spaces_to_hyphen b (String c r)
  = String c (JsString.spaces_to_hyphen false r).
Proof.
  intros Hc. destruct r as [|c2 [|c3 r3]];
    destruct c as [[] [] [] [] [] [] [] []]; try discriminate Hc; reflexivity.
Qed.

Lemma toLowerCase_name (s : string) :
  string_forall is_name_char s = true -> JsString.toLowerCase s = s.
Proof.
  induction s as [|c r IH]; [done|].
  intros [Hc Hr]%andb_true_iff. by rewrite (toLowerCase_name_char _ _ Hc), IH.
Qed.

Lemma trimStart_name (s : string) :
  string_forall is_name_char s = true -> JsString.trimStart s = s.
Proof.
  destruct s as [|c r]; [done|].
  intros [Hc _]%andb_true_iff. by apply trimStart_name_char.
Qed.

Lemma trimEnd_name (s : string) :
  string_forall is_name_char s = true -> JsString.trimEnd s = s.
Proof.
  induction s as [|c r IH]; [done|].
  intros [Hc Hr]%andb_true_iff.
  change (JsString.trimEnd (String c r))
    with (match JsString.trimStart (String c r) with
          | EmptyString => EmptyString
          | _ => String c (JsString.trimEnd r)
          end).
  by rewrite (trimStart_name_char _ _ Hc), (IH Hr).
Qed.

Lemma spaces_to_hyphen_name (b : bool) (s : string) :
  string_forall is_name_char s = true -> JsString.spaces_to_hyphen b s = s.
Proof.
  revert b. induction s as [|c r IH]; intros b; [done|].
  intros [Hc Hr]%andb_true_iff. by rewrite (spaces_to_hyphen_name_char _ _ _ Hc), IH.
Qed.

Lemma keep_name (s : string) :
  string_forall is_name_char s = true -> keep is_name_char s = s.
Proof.
  induction s as [|c r IH]; simpl; [done|].
  intros [Hc Hr]%andb_true_iff. by rewrite Hc, IH.
Qed.

Lemma collapse_name (b : bool) (s : string) :
  no_double_hyphen s = true ->
  (b = true -> starts_with_hyphen s = false) ->
  runs_to_hyphen is_hyphen b s = s.
Proof.
  revert b. induction s as [|c r IH]; intros b Hnd Hst; simpl; [done|].
  destruct (is_hyphen c) eqn:Hc.
  - destruct b; [specialize (Hst eq_refl); simpl in Hst; congruence|].
    rewrite (is_hyphen_eq _ Hc). f_equal. apply IH.
    + destruct r; [done|]. simpl in Hnd. by apply andb_true_iff in Hnd as [_ ?].
    + intros _. destruct r as [|c' r']; [done|]. simpl in *.
      rewrite Hc in Hnd. simpl in Hnd.
      apply andb_true_iff in Hnd as [Hn _]. by apply negb_true_iff in Hn.
  - f_equal. apply IH; [|discriminate].
    destruct r; [done|]. simpl in Hnd. by apply andb_true_iff in Hnd as [_ ?].
Qed.

Lemma dropStart_name (s : string) :
  starts_with_hyphen s = false -> dropStart is_hyphen s = s.
Proof. destruct s as [|c r]; simpl; [done|]. by intros ->. Qed.

Lemma dropEnd_name (s : string) :
  ends_with_hyphen s = false -> dropEnd is_hyphen s = s.
Proof.
  induction s as [|c r IH]; simpl; [done|].
  destruct r as [|c' r'].
  - simpl. by intros ->.
  - intros H. rewrite (IH H). reflexivity.
Qed.

Lemma sanitizeName_fixes_well_formed (s : string) :
  well_formed_name s -> sanitizeName s = s.
Proof.
  intros (Hall & Hnd & Hst & Hend). unfold sanitizeName, JsString.trim.
  rewrite (toLowerCase_name _ Hall), (trimStart_name _ Hall), (trimEnd_name _ Hall).
  rewrite (spaces_to_hyphen_name _ _ Hall), (keep_name _ Hall).
  rewrite (collapse_name _ _ Hnd) by discriminate.
  by rewrite (dropStart_name _ Hst), (dropEnd_name _ Hend).
Qed.

(** [sanitizeName] is idempotent, and the names it leaves unchanged are
    exactly the well-formed ones. *)
Theorem sanitizeName_idempotent :
  (forall s, sanitizeName (sanitizeName s) = sanitizeName s) /\
  (forall s, sanitizeName s = s <-> well_formed_name s).
Proof.
  split.
  - intros s. apply sanitizeName_fixes_well_formed, SanitizedNames.sanitizeName_well_formed.
  - intros s. split.
    + intros <-. apply SanitizedNames.sanitizeName_well_formed.
    + apply sanitizeName_fixes_well_formed.
Qed.


(** *** parseCsv *)

Lemma trimStart_eq (s : string) :
  JsString.trimStart s
  = match JsString.space_rest s with
    | Some rest => JsString.trimStart rest
    | None => s
    end.
Proof.
  destruct s as [|c1 [|c2 [|c3 r3]]]; simpl; try reflexivity.
  - by destruct (JsString.is_space c1).
  - destruct (JsString.is_space c1); [done|]. by destruct (JsString.is_space2 c1 c2).
  - destruct (JsString.is_space c1); [done|].
    destruct (JsString.is_space2 c1 c2); [done|].
    by destruct (JsString.is_space3 c1 c2 c3).
Qed.

Lemma space_rest_shorter (s rest : string) :
  JsString.space_rest s = Some rest -> String.length rest < String.length s.
Proof.
  destruct s as [|c1 [|c2 [|c3 r3]]]; simpl; try discriminate.
  - destruct (JsString.is_space c1); [|discriminate]. intros [= <-]. simpl. lia.
  - destruct (JsString.is_space c1); [intros [= <-]; simpl; lia|].
    destruct (JsString.is_space2 c1 c2); [|discriminate]. intros [= <-]. simpl. lia.
  - destruct (JsString.is_space c1); [intros [= <-]; simpl; lia|].
    destruct (JsString.is_space2 c1 c2); [intros [= <-]; simpl; lia|].
    destruct (JsString.is_space3 c1 c2 c3); [|discriminate]. intros [= <-]. simpl. lia.
Qed.

(** The white-space character at the front of a string is at the front
    of every string that begins with it. *)
Lemma space_rest_app (s rest q : string) :
  JsString.space_rest s = Some rest ->
  JsString.space_rest (s +:+ q) = Some (rest +:+ q).
Proof.
  destruct s as [|c1 [|c2 [|c3 r3]]]; simpl; try discriminate.
  - destruct (JsString.is_space c1); [|discriminate]. by intros [= <-].
  - destruct (JsString.is_space c1); [by intros [= <-]|].
    destruct (JsString.is_space2 c1 c2); [|discriminate]. by intros [= <-].
  - destruct (JsString.is_space c1); [by intros [= <-]|].
    destruct (JsString.is_space2 c1 c2); [by intros [= <-]|].
    destruct (JsString.is_space3 c1 c2 c3); [|discriminate]. by intros [= <-].
Qed.

(** Induction on the length of a string. *)
Lemma string_length_ind (P : string -> Prop) :
  (forall s, (forall t, String.length t < String.length s -> P t) -> P s) ->
  forall s, P s.
Proof.
  intros Hstep s. remember (String.length s) as n eqn:Hn. revert s Hn.
  induction n as [n IH] using lt_wf_ind. intros s ->.
  apply Hstep. intros t Ht. by apply (IH (String.length t)).
Qed.

Lemma trimStart_no_space (s : string) :
  JsString.space_rest (JsString.trimStart s) = None.
Proof.
  induction s as [s IH] using string_length_ind.
  rewrite trimStart_eq. destruct (JsString.space_rest s) as [rest|] eqn:Hs; [|exact Hs].
  apply IH. by apply space_rest_shorter.
Qed.

Lemma trimStart_fixed (s : string) :
  JsString.space_rest s = None -> JsString.trimStart s = s.
Proof. intros H. by rewrite trimStart_eq, H. Qed.

Lemma trimStart_idem (s : string) :
  JsString.trimStart (JsString.trimStart s) = JsString.trimStart s.
Proof. apply trimStart_fixed, trimStart_no_space. Qed.

Lemma trimStart_shorter (s : string) :
  String.length (JsString.trimStart s) <= String.length s.
Proof.
  induction s as [s IH] using string_length_ind.
  rewrite trimStart_eq. destruct (JsString.space_rest s) as [rest|] eqn:Hs; [|lia].
  apply space_rest_shorter in Hs. specialize (IH rest Hs). lia.
Qed.

(** What [trimStart] leaves as it is begins with no white space. *)
Lemma trimStart_fixed_inv (s : string) :
  JsString.trimStart s = s -> JsString.space_rest s = None.
Proof.
  intros H. destruct (JsString.space_rest s) as [rest|] eqn:Hs; [|done].
  exfalso. rewrite trimStart_eq, Hs in H.
  pose proof (trimStart_shorter rest). apply space_rest_shorter in Hs.
  rewrite H in *. lia.
Qed.

(** White space at the front, then more of it. *)
Lemma trimStart_app_space (p q : string) :
  JsString.trimStart p = "" -> JsString.trimStart (p +:+ q) = JsString.trimStart q.
Proof.
  induction p as [p IH] using string_length_ind. intros Hp.
  destruct (JsString.space_rest p) as [rest|] eqn:Hs.
  - rewrite (trimStart_eq (p +:+ q)), (space_rest_app _ _ q Hs).
    apply IH; [by apply space_rest_shorter|].
    by rewrite trimStart_eq, Hs in Hp.
  - rewrite (trimStart_fixed _ Hs) in Hp. by subst p.
Qed.

Lemma trimEnd_eq (c : ascii) (r : string) :
  JsString.trimEnd (String c r)
  = match JsString.trimStart (String c r) with
    | EmptyString => EmptyString
    | _ => String c (JsString.trimEnd r)
    end.
Proof. reflexivity. Qed.

(** [trimEnd] cuts white space off the end. *)
Lemma trimEnd_cut (s : string) :
  exists q, s = JsString.trimEnd s +:+ q /\ JsString.trimStart q = "".
Proof.
  induction s as [|c r IH]; [by exists ""|].
  rewrite trimEnd_eq. destruct (JsString.trimStart (String c r)) eqn:Ht.
  - by exists (String c r).
  - destruct IH as (q & Hq & Hs). exists q. split; [|exact Hs].
    rewrite Hq at 1. reflexivity.
Qed.

(** If what [trimEnd] leaves is white space, so was the string. *)
Lemma trimEnd_all_space (s : string) :
  JsString.trimStart (JsString.trimEnd s) = "" -> JsString.trimStart s = "".
Proof.
  intros H. destruct (trimEnd_cut s) as (q & Hq & Hs).
  rewrite Hq at 1. by rewrite (trimStart_app_space _ _ H).
Qed.

Lemma trimEnd_idem (s : string) :
  JsString.trimEnd (JsString.trimEnd s) = JsString.trimEnd s.
Proof.
  induction s as [|c r IH]; [done|].
  rewrite trimEnd_eq. destruct (JsString.trimStart (String c r)) as [|c' r'] eqn:Ht;
    [done|].
  rewrite trimEnd_eq, IH.
  destruct (JsString.trimStart (String c (JsString.trimEnd r))) eqn:Ht'; [|done].
  exfalso.
  assert (He : JsString.trimEnd (String c r) = String c (JsString.trimEnd r))
    by (by rewrite trimEnd_eq, Ht).
  rewrite <- He in Ht'. apply trimEnd_all_space in Ht'. congruence.
Qed.

(** What starts with no space still does after [trimEnd]. *)
Lemma trimStart_trimEnd (s : string) :
  JsString.trimStart s = s -> JsString.trimStart (JsString.trimEnd s) = JsString.trimEnd s.
Proof.
  intros Hs. apply trimStart_fixed_inv in Hs. apply trimStart_fixed.
  destruct (JsString.space_rest (JsString.trimEnd s)) as [rest|] eqn:He; [|done].
  destruct (trimEnd_cut s) as (q & Hq & _).
  apply (space_rest_app _ _ q) in He. rewrite <- Hq in He. congruence.
Qed.

Lemma trim_idem (s : string) : JsString.trim (JsString.trim s) = JsString.trim s.
Proof.
  unfold JsString.trim.
  rewrite (trimStart_trimEnd (JsString.trimStart s)) by apply trimStart_idem.
  apply trimEnd_idem.
Qed.

Lemma dedupe_go_spec (seen todo : list string) :
  NoDup (dedupe_go seen todo) /\
  forall x, x ∈ dedupe_go seen todo <-> x ∈ todo /\ x ∉ seen.
Proof.
  revert seen. induction todo as [|y rest IH]; intros seen; simpl.
  - split; [constructor|]. intros x. split; [by intros ?%elem_of_nil|].
    by intros [?%elem_of_nil _].
  - destruct (bool_decide (y ∈ seen)) eqn:Hy.
    + apply bool_decide_eq_true_1 in Hy. destruct (IH seen) as [Hnd Hin].
      split; [exact Hnd|]. intros x. rewrite Hin, elem_of_cons.
      split; [tauto|]. intros [[->|Hx] Hns]; [done|tauto].
    + apply bool_decide_eq_false_1 in Hy. destruct (IH (y :: seen)) as [Hnd Hin].
      split.
      * constructor; [|exact Hnd]. rewrite Hin, elem_of_cons. tauto.
      * intros x. rewrite !elem_of_cons, Hin, elem_of_cons.
        split.
        -- intros [->|[Hx Hn]]; [tauto|]. split; [tauto|]. tauto.
        -- intros [[->|Hx] Hns]; [tauto|].
           destruct (decide (x = y)) as [->|Hne]; [tauto|]. right. tauto.
Qed.

Lemma dedupe_spec (l : list string) :
  NoDup (dedupe l) /\ forall x, x ∈ dedupe l <-> x ∈ l.
Proof.
  destruct (dedupe_go_spec [] l) as [Hnd Hin]. split; [exact Hnd|].
  intros x. unfold dedupe. rewrite Hin. split; [tauto|].
  intros Hx. split; [exact Hx|]. apply not_elem_of_nil.
Qed.

(** [parseCsv(value)]: the pieces of [value] between commas, trimmed,
    without the empty ones and without repeats. *)
Theorem parseCsv_entries (value : string) :
  NoDup (parseCsv value) /\
  (forall x, x ∈ parseCsv value <->
     x <> "" /\ exists piece, piece ∈ split ","%char value /\ x = JsString.trim piece) /\
  (forall x, x ∈ parseCsv value -> JsString.trim x = x).
Proof.
  unfold parseCsv.
  destruct (dedupe_spec (List.filter nonempty (JsString.trim <$> split ","%char value)))
    as [Hnd Hin].
  assert (Hmem : forall x, x ∈ dedupe (List.filter nonempty
                                (JsString.trim <$> split ","%char value)) <->
            x <> "" /\ exists piece, piece ∈ split ","%char value /\ x = JsString.trim piece).
  { intros x. rewrite Hin, list_elem_of_In, filter_In, <- list_elem_of_In, list_elem_of_fmap.
    unfold nonempty. split.
    - intros [(piece & -> & Hp) Hx]. split; [|eauto].
      intros Hempty. rewrite Hempty in Hx. discriminate.
    - intros [Hx (piece & Hp & ->)]. split; [eauto|].
      by destruct (JsString.trim piece). }
  split; [exact Hnd|]. split; [exact Hmem|].
  intros x Hx. apply Hmem in Hx as [_ (piece & _ & ->)]. apply trim_idem.
Qed.


(** *** What the handlers do to the files *)

Ltac handler_case H :=
  match type of H with
  | context [match ?X with _ => _ end] =>
      lazymatch X with
      | context [match _ with _ => _ end] => fail
      | _ => let E := fresh "E" in destruct X eqn:E
      end
  end.

Lemma renamePath_error (ctx : ManagementContext) (chains : bool)
    (cur nm : string) (scope : source_scope) (fs fs1 : Files) (e : string) :
  renamePath ctx chains cur nm scope fs = (inr e, fs1) -> fs1 = fs.
Proof.
  unfold renamePath.
  destruct (nameExistsInScope _ _ _ _ _); [by intros [= _ <-]|].
  destruct (_ && _); [by intros [= _ <-]|]. discriminate.
Qed.

Lemma handleCreate_error (ctx : ManagementContext) (params : ManagementParams)
    (fs : Files) :
  isError (handleCreate ctx params fs).1 = true ->
  files (handleCreate ctx params fs).2 = files fs.
Proof.
  unfold handleCreate.
  repeat match goal with
         | |- context [match ?X with _ => _ end] =>
             lazymatch X with
             | context [match _ with _ => _ end] => fail
             | _ => destruct X
             end
         end; simpl; try done.
Qed.

Lemma updateAgent_error (ctx : ManagementContext) (params : ManagementParams)
    (cfg : list (string * json)) (nm : string) (fs : Files) :
  isError (updateAgent ctx params cfg nm fs).1 = true ->
  files (updateAgent ctx params cfg nm fs).2 = files fs.
Proof.
  unfold updateAgent.
  destruct (resolveTarget _ _ _ _ _ _ _ _) as [target|e]; [|done].
  destruct (bad_string_key cfg "name"); [done|].
  destruct (bad_string_key cfg "description"); [done|].
  cbv zeta.
  destruct (bool_decide _); [done|].
  destruct (applyAgentConfig target cfg) as [applied|e]; [|done].
  match goal with |- context [if ?b then renamePath ?a1 ?a2 ?a3 ?a4 ?a5 ?a6 else ?x] =>
    destruct b; [destruct (renamePath a1 a2 a3 a4 a5 a6) as [[p|e] fs1] eqn:Hr|] end;
    simpl; try done.
  intros _. apply renamePath_error in Hr. by subst.
Qed.

Lemma updateChain_error (ctx : ManagementContext) (params : ManagementParams)
    (cfg : list (string * json)) (nm : string) (fs : Files) :
  isError (updateChain ctx params cfg nm fs).1 = true ->
  files (updateChain ctx params cfg nm fs).2 = files fs.
Proof.
  unfold updateChain.
  destruct (resolveTarget _ _ _ _ _ _ _ _) as [target|e]; [|done].
  destruct (bad_string_key cfg "name"); [done|].
  destruct (bad_string_key cfg "description"); [done|].
  cbv zeta.
  destruct (bool_decide _); [done|].
  match goal with |- context [if hasKey cfg "steps" then ?a else ?b] =>
    destruct (if hasKey cfg "steps" then a else b) as [parsed|e] end; [|done].
  match goal with |- context [if ?b then renamePath ?a1 ?a2 ?a3 ?a4 ?a5 ?a6 else ?x] =>
    destruct b; [destruct (renamePath a1 a2 a3 a4 a5 a6) as [[p|e] fs1] eqn:Hr|] end;
    simpl; try done.
  intros _. apply renamePath_error in Hr. by subst.
Qed.

Lemma handleDelete_error (ctx : ManagementContext) (params : ManagementParams)
    (fs : Files) :
  isError (handleDelete ctx params fs).1 = true ->
  files (handleDelete ctx params fs).2 = files fs.
Proof.
  unfold handleDelete.
  destruct (_ && _); [done|]. destruct (_ && _); [done|].
  destruct (RunnerCode.truthy_opt (agent params)).
  - destruct (resolveTarget _ _ _ _ _ _ _ _); [simpl; discriminate|done].
  - destruct (resolveTarget _ _ _ _ _ _ _ _); [simpl; discriminate|done].
Qed.

Lemma handleGet_error (ctx : ManagementContext) (params : ManagementParams)
    (fs : Files) :
  isError (handleGet ctx params fs).1 = true ->
  files (handleGet ctx params fs).2 = files fs.
Proof.
  unfold handleGet. destruct (_ && _); [done|].
  repeat match goal with |- context [if ?b then _ else _] => destruct b end; done.
Qed.

Lemma handleUpdate_error (ctx : ManagementContext) (params : ManagementParams)
    (fs : Files) :
  isError (handleUpdate ctx params fs).1 = true ->
  files (handleUpdate ctx params fs).2 = files fs.
Proof.
  unfold handleUpdate.
  destruct (_ && _); [done|]. destruct (_ && _); [done|].
  destruct (configObject _ _); [|done].
  destruct (RunnerCode.truthy_opt (agent params));
    [apply updateAgent_error|apply updateChain_error].
Qed.

(** A management action that answers with an error has changed no
    file. *)
Theorem management_error_changes_no_file (act : string) (ctx : ManagementContext)
    (params : ManagementParams) (fs : Files) :
  isError (handleManagementAction act ctx params fs).1 = true ->
  files (handleManagementAction act ctx params fs).2 = files fs.
Proof.
  unfold handleManagementAction.
  repeat match goal with
         | |- context [match ?X with _ => _ end] =>
             lazymatch X with
             | context [match _ with _ => _ end] => fail
             | _ => destruct X
             end
         end; try done;
    first [apply handleCreate_error | apply handleDelete_error
          | apply handleGet_error | apply handleUpdate_error].
Qed.


Lemma management_error_changes_no_file_witness :
  let params := {| action := Some "create"; agent := None; chainName := None;
                   agentScope := None;
                   config := Some (JObj [("name", JStr "Scout");
                                         ("description", JStr "again")]) |} in
  isError (handleManagementAction "create" Samples.sample_management params
             Samples.empty_files).1 = true /\
  files (handleManagementAction "create" Samples.sample_management params
           Samples.empty_files).2 = files Samples.empty_files.
Proof.
  split; [reflexivity|].
  apply (management_error_changes_no_file "create" Samples.sample_management).
  reflexivity.
Defined.

(** [create] never replaces a file: when it succeeds, the file it wrote
    was not there before, and every other file is as it was. *)
Theorem handleCreate_adds_one_file (ctx : ManagementContext) (params : ManagementParams)
    (fs : Files) :
  isError (handleCreate ctx params fs).1 = false ->
  exists path content,
    files fs !! path = None /\
    files (handleCreate ctx params fs).2 = <[path := content]> (files fs).
Proof.
  unfold handleCreate.
  destruct (configObject ctx (config params)) as [cfg|]; [|done].
  destruct (string_field cfg "name") as [rawName|]; [|done].
  destruct (string_field cfg "description") as [rawDescription|]; [|done].
  destruct (negb (JsString.truthy (sanitizeName rawName))); [done|].
  match goal with |- context [match ?X with Some _ => _ | None => _ end] =>
    destruct X as [scope|] end; [|done].
  cbv zeta.
  destruct (nameExistsInScope _ _ _ _ _); [done|].
  match goal with |- context [existsSync ?p ?f] => destruct (existsSync p f) eqn:Hex end;
    [done|].
  apply orb_false_iff in Hex as [Hfile _]. apply bool_decide_eq_false_1 in Hfile.
  simpl in Hfile.
  match type of Hfile with ~ is_Some (?m !! ?p) =>
    assert (Hnone : m !! p = None) by (by apply eq_None_not_Some) end.
  destruct (hasKey cfg "steps").
  - destruct (parseStepList _) as [steps|e]; [|done].
    intros _. eexists _, _. split; [exact Hnone|reflexivity].
  - destruct (applyAgentConfig _ _) as [agent1|e]; [|done].
    intros _. eexists _, _. split; [exact Hnone|reflexivity].
Qed.

Lemma handleCreate_adds_one_file_witness :
  exists path content,
    files Samples.empty_files !! path = None /\
    files (handleCreate Samples.sample_management
             (Dispatcher.management_params Samples.create_params)
             Samples.empty_files).2 = <[path := content]> (files Samples.empty_files).
Proof.
  apply (handleCreate_adds_one_file Samples.sample_management
           (Dispatcher.management_params Samples.create_params) Samples.empty_files).
  vm_compute. reflexivity.
Defined.

(** *** delete *)

Lemma sort_insert_elem {A : Type} (cmp : A -> A -> Z) (x y : A) (l : list A) :
  y ∈ sort_insert cmp x l <-> y = x \/ y ∈ l.
Proof.
  induction l as [|z rest IH]; simpl.
  - rewrite list_elem_of_singleton. split; [tauto|]. intros [?|?%elem_of_nil]; done.
  - destruct (cmp x z <=? 0)%Z; rewrite !elem_of_cons; [tauto|].
    rewrite IH. tauto.
Qed.

Lemma sort_by_elem {A : Type} (cmp : A -> A -> Z) (y : A) (l : list A) :
  y ∈ sort_by cmp l <-> y ∈ l.
Proof.
  unfold sort_by. induction l as [|x rest IH]; simpl; [done|].
  rewrite sort_insert_elem, IH, elem_of_cons. tauto.
Qed.

Lemma resolveTarget_elem {T : Type} (ctx : ManagementContext) (fs : Files)
    (chains : bool) (src : T -> source_scope) (fpath : T -> string) (nm : string)
    (matches : list T) (hint : option string) (t : T) :
  resolveTarget ctx fs chains src fpath nm matches hint = inl t -> t ∈ matches.
Proof.
  unfold resolveTarget.
  destruct matches as [|m1 [|m2 rest]]; [discriminate| |].
  - intros [= ->]. apply list_elem_of_here.
  - destruct (asDisambiguationScope hint) as [scope|]; [|discriminate].
    destruct (List.filter _ _) as [|f1 [|f2 frest]] eqn:Hf; try discriminate.
    intros [= ->].
    assert (Hin : In t (List.filter (fun m : T => bool_decide (src m = scope))
                          (m1 :: m2 :: rest))) by (rewrite Hf; by left).
    apply filter_In in Hin as [Hin _]. by apply list_elem_of_In.
Qed.

Lemma findAgents_elem (ctx : ManagementContext) (fs : Files) (nm : string)
    (scope : option source_scope) (a : AgentConfig) :
  a ∈ findAgents ctx fs nm scope ->
  a ∈ d_user (discoverAgentsAll ctx (ctx_cwd ctx) fs)
        ++ d_project (discoverAgentsAll ctx (ctx_cwd ctx) fs)
  /\ named nm (name a).
Proof.
  unfold findAgents. rewrite sort_by_elem, list_elem_of_In, filter_In, <- list_elem_of_In.
  intros [Hin Hb]. split; [exact Hin|].
  apply andb_true_iff in Hb as [_ Hb]. apply orb_true_iff in Hb as [Hb|Hb];
    apply String.eqb_eq in Hb; [by left|by right].
Qed.

Lemma findChains_elem (ctx : ManagementContext) (fs : Files) (nm : string)
    (scope : option source_scope) (c : ChainConfig) :
  c ∈ findChains ctx fs nm scope ->
  c ∈ d_chains (discoverAgentsAll ctx (ctx_cwd ctx) fs) /\ named nm (ch_name c).
Proof.
  unfold findChains. rewrite sort_by_elem, list_elem_of_In, filter_In, <- list_elem_of_In.
  intros [Hin Hb]. split; [exact Hin|].
  apply andb_true_iff in Hb as [_ Hb]. apply orb_true_iff in Hb as [Hb|Hb];
    apply String.eqb_eq in Hb; [by left|by right].
Qed.

(** [delete] removes exactly one file, that of a discovered agent or
    chain that goes by the given name, and leaves every other file and
    directory as it was.  [fs.unlinkSync] throws for a file that is not
    there, so the files of the discovery are taken to be on the disk. *)
Theorem handleDelete_removes_one_file (ctx : ManagementContext)
    (params : ManagementParams) (fs : Files) :
  discovered_on_disk ctx fs ->
  isError (handleDelete ctx params fs).1 = false ->
  let d := discoverAgentsAll ctx (ctx_cwd ctx) fs in
  exists path,
    is_Some (files fs !! path) /\
    files (handleDelete ctx params fs).2 = delete path (files fs) /\
    dirs (handleDelete ctx params fs).2 = dirs fs /\
    ((exists a, a ∈ d_user d ++ d_project d /\ filePath a = path /\
                named (default "" (agent params)) (name a)) \/
     (exists c, c ∈ d_chains d /\ ch_filePath c = path /\
                named (default "" (chainName params)) (ch_name c))).
Proof.
  intros [Hagents Hchains]. unfold handleDelete.
  destruct (_ && _); [done|]. destruct (_ && _); [done|].
  destruct (RunnerCode.truthy_opt (agent params)).
  - destruct (resolveTarget _ _ _ _ _ _ _ _) as [target|e] eqn:Hres.
    + intros _. apply resolveTarget_elem, findAgents_elem in Hres as [Hin Hname].
      exists (filePath target). split; [by apply Hagents|].
      split; [reflexivity|]. split; [reflexivity|].
      left. by exists target.
    + apply SanitizedNames.resolveTarget_error in Hres. simpl. congruence.
  - destruct (resolveTarget _ _ _ _ _ _ _ _) as [target|e] eqn:Hres.
    + intros _. apply resolveTarget_elem, findChains_elem in Hres as [Hin Hname].
      exists (ch_filePath target). split; [by apply Hchains|].
      split; [reflexivity|]. split; [reflexivity|].
      right. by exists target.
    + apply SanitizedNames.resolveTarget_error in Hres. simpl. congruence.
Qed.

Lemma handleDelete_removes_one_file_witness :
  let d := discoverAgentsAll Samples.sample_management "/work" Samples.sample_agent_files in
  exists path,
    is_Some (files Samples.sample_agent_files !! path) /\
    files (handleDelete Samples.sample_management Samples.delete_scout Samples.sample_agent_files).2
    = delete path (files Samples.sample_agent_files) /\
    dirs (handleDelete Samples.sample_management Samples.delete_scout Samples.sample_agent_files).2
    = dirs Samples.sample_agent_files /\
    ((exists a, a ∈ d_user d ++ d_project d /\ filePath a = path /\
                named "scout" (name a)) \/
     (exists c, c ∈ d_chains d /\ ch_filePath c = path /\
                named "" (ch_name c))).
Proof.
  apply (handleDelete_removes_one_file Samples.sample_management Samples.delete_scout
           Samples.sample_agent_files).
  - split.
    + intros a Ha. simpl in Ha.
      apply elem_of_cons in Ha as [->|Ha]; [by vm_compute; eexists|].
      apply elem_of_cons in Ha as [->|Ha]; [by vm_compute; eexists|].
      by apply elem_of_nil in Ha.
    + intros c Hc. simpl in Hc. by apply elem_of_nil in Hc.
  - vm_compute. reflexivity.
Defined.

End ManagementFacts.

(** * More on the dispatcher *)

Module DispatcherFacts.
Import Dispatcher Samples.
Local Open Scope list_scope.

(** *** The result-file handler *)

(** Handling a result file a second time changes nothing, whenever the
    second call comes: the first call either left the registry as it
    was, and the second does the same, or it removed the file. *)
Theorem handleResult_idempotent (dd : Dedupe) (now now' : Z) (file : string)
    (ext : Extension) :
  handleResult dd now' file (handleResult dd now file ext) = handleResult dd now file ext
  /\ length (emitted (handleResult dd now' file (handleResult dd now file ext)))
     <= S (length (emitted ext)).
Proof.
  assert (Hone : length (emitted (handleResult dd now file ext)) <= S (length (emitted ext))).
  { unfold handleResult.
    destruct (resultsDir ext !! file) as [[data|]|]; [|lia|lia].
    destruct (_ && _); [lia|]. destruct (_ && _); [lia|].
    destruct (markSeenWithTtl _ _ _ _ _) as [[] record]; simpl; [lia|].
    rewrite length_app. simpl. lia. }
  assert (Hidem : handleResult dd now' file (handleResult dd now file ext)
                  = handleResult dd now file ext).
  { unfold handleResult at 2 3.
    destruct (resultsDir ext !! file) as [[data|]|] eqn:Hfile.
    - destruct (RunnerCode.truthy_opt (rd_sessionId data)
                && negb (bool_decide (rd_sessionId data = currentSessionId ext))) eqn:H1.
      { unfold handleResult. by rewrite Hfile, H1. }
      destruct (negb (RunnerCode.truthy_opt (rd_sessionId data))
                && RunnerCode.truthy_opt (rd_cwd data)
                && negb (bool_decide (rd_cwd data = Some (baseCwd ext)))) eqn:H2.
      { unfold handleResult. by rewrite Hfile, H1, H2. }
      destruct (markSeenWithTtl _ _ _ _ _) as [[] record];
        unfold handleResult; simpl; by rewrite lookup_delete_eq.
    - unfold handleResult. by rewrite Hfile.
    - unfold handleResult. by rewrite Hfile. }
  split; [exact Hidem|]. by rewrite Hidem.
Qed.


(** *** The gates of a request in parallel mode *)

Lemma execute_is_request (h : Host) (params : SubagentParams)
    (sched : list (nat * RunOutcome)) (ext : Extension) :
  execution_request params ->
  execute h params sched ext
  = execute_request h params sched (set_baseCwd (Management.ctx_cwd (management h)) ext).
Proof.
  unfold execute, execution_request. intros Hex.
  destruct (p_action params) as [act|]; [|reflexivity].
  simpl in Hex. by rewrite Hex.
Qed.

Lemma parallel_request_body (h : Host) (params : SubagentParams)
    (tasks : list TaskItem) (sched : list (nat * RunOutcome)) (ext : Extension) :
  parallel_request params tasks ->
  depth_blocked h = false ->
  (execute h params sched ext).1
  = execute_parallel h tasks (p_clarify params)
      (default (asyncByDefault h) (p_async params)) sched.
Proof.
  intros (Hex & Htasks & Hne & Hchain & Hsingle) Hdepth.
  rewrite (execute_is_request _ _ _ _ Hex). unfold execute_request.
  rewrite Hdepth, Htasks, Hchain. simpl. rewrite Hsingle.
  assert (Hlen : bool_decide (0 < length tasks) = true).
  { apply bool_decide_eq_true_2. destruct tasks; [done|simpl; lia]. }
  rewrite Hlen. simpl. rewrite andb_false_r. reflexivity.
Qed.

(** A request with more tasks than [MAX_PARALLEL] is refused before
    anything else is looked at: whether its agents exist, what the
    dialog would say, and under every schedule. *)
Theorem too_many_tasks_refused (h : Host) (params : SubagentParams)
    (tasks : list TaskItem) (ext : Extension) :
  parallel_request params tasks ->
  depth_blocked h = false ->
  MAX_PARALLEL < length tasks ->
  forall sched,
    (execute h params sched ext).1
    = Some (error_result ("Max " +:+ JsString.of_nat MAX_PARALLEL +:+ " tasks") MParallel).
Proof.
  intros Hp Hd Hmax sched. rewrite (parallel_request_body _ _ _ _ _ Hp Hd).
  unfold execute_parallel. by rewrite bool_decide_eq_true_2.
Qed.

Lemma too_many_tasks_refused_witness :
  (execute dismissing_host
     {| p_agent := None; p_task := None; p_action := None;
        p_chainName := None; p_config := None; p_agentScope := None;
        p_tasks := Some (replicate 17 (task_item "nobody" "x"));
        p_chain := None; p_async := None; p_clarify := Some true |}
     [] sample_extension).1
  = Some (error_result "Max 16 tasks" MParallel).
Proof.
  apply (too_many_tasks_refused dismissing_host _
           (replicate 17 (task_item "nobody" "x")) sample_extension).
  - repeat split; try reflexivity. discriminate.
  - reflexivity.
  - vm_compute. lia.
Defined.

Lemma includes_prefix (n s : string) : JsString.includes n (n +:+ s) = true.
Proof.
  assert (String.prefix n (n +:+ s) = true) as H.
  { induction n as [|c r IH]; simpl; [by destruct s|].
    destruct (ascii_dec c c); [exact IH|done]. }
  destruct n; simpl in *; [by destruct s|]. by rewrite H.
Qed.

Lemma includes_app (n a s : string) :
  JsString.includes n s = true -> JsString.includes n (a +:+ s) = true.
Proof.
  intros H. induction a as [|c r IH]; simpl; [exact H|].
  rewrite IH. apply orb_true_r.
Qed.

Lemma prefix_app_l (n a s : string) :
  String.prefix n a = true -> String.prefix n (a +:+ s) = true.
Proof.
  revert a. induction n as [|c r IH]; intros a; simpl; [by destruct (a +:+ s)|].
  destruct a as [|c' a']; [discriminate|]. simpl.
  destruct (ascii_dec c c'); [apply IH|done].
Qed.

Lemma includes_app_l (n a s : string) :
  JsString.includes n a = true -> JsString.includes n (a +:+ s) = true.
Proof.
  induction a as [|c r IH].
  - simpl. rewrite orb_false_r. destruct n; [|discriminate]. intros _.
    destruct s; reflexivity.
  - intros H.
    change (String.prefix n (String c r +:+ s) || JsString.includes n (r +:+ s) = true).
    change (String.prefix n (String c r) || JsString.includes n r = true) in H.
    apply orb_true_iff in H as [H|H].
    + by rewrite (prefix_app_l _ (String c r) s H).
    + rewrite (IH H). apply orb_true_r.
Qed.

Lemma includes_refl (n : string) : JsString.includes n n = true.
Proof.
  assert (String.prefix n n = true) as H.
  { induction n as [|c r IH]; simpl; [done|]. by destruct (ascii_dec c c). }
  destruct n; simpl in *; [done|]. by rewrite H.
Qed.

(** A request in parallel mode never becomes a background run on its
    own: unless the dialog is shown, no answer carries an async id,
    [async: true] or not; and an answer that is not an error says so
    when a background run was asked for. *)
Theorem parallel_request_stays_in_foreground (h : Host) (params : SubagentParams)
    (tasks : list TaskItem) (ext : Extension) :
  parallel_request params tasks ->
  (p_clarify params = Some true -> hasUI h = false) ->
  forall sched r,
    (execute h params sched ext).1 = Some r ->
    details_asyncId r = None /\
    (isError r = false ->
     default (asyncByDefault h) (p_async params) = true ->
     JsString.includes " (async not supported for parallel)" (content r) = true).
Proof.
  intros Hp Hui sched r Hr.
  destruct (depth_blocked h) eqn:Hd.
  { destruct Hp as (Hex & _). rewrite (execute_is_request _ _ _ _ Hex) in Hr.
    unfold execute_request in Hr. rewrite Hd in Hr. injection Hr as <-. by split. }
  rewrite (parallel_request_body _ _ _ _ _ Hp Hd) in Hr.
  unfold execute_parallel in Hr.
  destruct (bool_decide (MAX_PARALLEL < length tasks)); [injection Hr as <-; by split|].
  destruct (List.find _ tasks); [injection Hr as <-; by split|].
  assert (Hno : bool_decide (p_clarify params = Some true) && hasUI h = false).
  { destruct (bool_decide (p_clarify params = Some true)) eqn:Hc; [|done].
    apply bool_decide_eq_true_1 in Hc. by rewrite (Hui Hc). }
  rewrite Hno in Hr. unfold run_parallel in Hr.
  destruct (ParallelUtils.mapConcurrent _ _ _ _ _ _) as [[slots u]|]; [|discriminate].
  destruct (mapM _ slots) as [results|]; [|discriminate].
  injection Hr as <-. simpl. split; [reflexivity|].
  intros _ ->.
  apply includes_app_l. do 3 apply includes_app.
  apply (includes_app _ " succeeded"), includes_refl.
Qed.


Lemma parallel_request_stays_in_foreground_witness :
  exists r,
    (execute (sample_host 0) async_parallel_params
       [(0, outcome_ok ""); (1, outcome_ok ""); (1, outcome_ok "second");
        (1, outcome_ok ""); (0, outcome_ok "first"); (0, outcome_ok "");
        (0, outcome_ok ""); (1, outcome_ok "")] sample_extension).1 = Some r /\
    details_asyncId r = None /\
    JsString.includes " (async not supported for parallel)" (content r) = true.
Proof.
  assert (Hp : parallel_request async_parallel_params two_tasks)
    by (repeat split; try reflexivity; discriminate).
  assert (Hui : p_clarify async_parallel_params = Some true -> hasUI (sample_host 0) = false)
    by discriminate.
  eexists. split; [vm_compute; reflexivity|].
  match goal with |- details_asyncId ?r = None /\ _ =>
    assert (Hr : (execute (sample_host 0) async_parallel_params
                    [(0, outcome_ok ""); (1, outcome_ok ""); (1, outcome_ok "second");
                     (1, outcome_ok ""); (0, outcome_ok "first"); (0, outcome_ok "");
                     (0, outcome_ok ""); (1, outcome_ok "")] sample_extension).1 = Some r)
      by (vm_compute; reflexivity);
    destruct (parallel_request_stays_in_foreground _ _ _ _ Hp Hui _ _ Hr) as [Ha Hn]
  end.
  split; [exact Ha|]. apply Hn; reflexivity.
Defined.

(** A request that gives no mode, or more than one, is refused with
    the list of the agents (or "none"), whatever else it holds. *)
Theorem exactly_one_mode_required (h : Host) (params : SubagentParams)
    (ext : Extension) :
  execution_request params ->
  depth_blocked h = false ->
  mode_count params <> 1 ->
  forall sched,
    exists names,
      (execute h params sched ext).1
      = Some (error_result ("Provide exactly one mode. Agents: " +:+ names) MSingle)
      /\ (names = JsString.join ", " (agent_names h) \/ names = "none").
Proof.
  intros Hex Hd Hcount sched. rewrite (execute_is_request _ _ _ _ Hex).
  unfold execute_request. rewrite Hd. cbv zeta. unfold mode_count in Hcount.
  rewrite (bool_decide_eq_false_2 _ Hcount). simpl.
  destruct (agent_names h) as [|n ns] eqn:Hn; [eexists; split; [reflexivity|by right]|].
  change (match ns with [] => n | _ :: _ => n +:+ ", " +:+ JsString.join ", " ns end)
    with (JsString.join ", " (n :: ns)).
  destruct (JsString.truthy (JsString.join ", " (n :: ns)));
    eexists; (split; [reflexivity|]); [by left|by right].
Qed.

Lemma exactly_one_mode_required_witness :
  exists names,
    (execute (sample_host 0) both_modes_params [] sample_extension).1
    = Some (error_result ("Provide exactly one mode. Agents: " +:+ names) MSingle)
    /\ (names = JsString.join ", " (agent_names (sample_host 0)) \/ names = "none").
Proof.
  apply (exactly_one_mode_required (sample_host 0) both_modes_params sample_extension).
  - reflexivity.
  - reflexivity.
  - vm_compute. lia.
Defined.

End DispatcherFacts.

(** * More on parallel-utils.ts *)

Module ParallelFacts.
Import ParallelUtils Samples.
Local Open Scope list_scope.

(** *** flattenSteps *)

Lemma flattenSteps_app (a b : list RunnerStep) :
  flattenSteps (a ++ b) = flattenSteps a ++ flattenSteps b.
Proof.
  induction a as [|[s|g] rest IH]; simpl; [done| |]; rewrite IH; [done|].
  by rewrite app_assoc.
Qed.

(** [flattenSteps] keeps every task, in the order of the steps: a chain
    followed by another flattens to the two flat lists one after the
    other, there is one flat step per task, and a chain without groups
    flattens to itself. *)
Theorem flattenSteps_keeps_every_task :
  (forall a b, flattenSteps (a ++ b) = flattenSteps a ++ flattenSteps b) /\
  (forall steps, length (flattenSteps steps) = sum_list (step_size <$> steps)) /\
  (forall seq, flattenSteps (Sequential <$> seq) = seq) /\
  (forall steps s, s ∈ flattenSteps steps <->
     Sequential s ∈ steps \/ exists g, Group g ∈ steps /\ s ∈ parallel g).
Proof.
  split; [exact flattenSteps_app|]. split; [|split].
  - induction steps as [|[s|g] rest IH]; csimpl; [done| |].
    + by rewrite IH.
    + by rewrite length_app, IH.
  - induction seq as [|s rest IH]; csimpl; [done|]. by rewrite IH.
  - induction steps as [|[s0|g0] rest IH]; intros s; simpl.
    + split; [by intros ?%elem_of_nil|].
      intros [?%elem_of_nil|(g & ?%elem_of_nil & _)]; done.
    + rewrite !elem_of_cons, IH. split.
      * intros [->|[H|(g & Hg & Hs)]]; [left; by left|left; by right|].
        right. exists g. split; [by right|done].
      * intros [[[= ->]|H]|(g & [Hg|Hg]%elem_of_cons & Hs)];
          [by left|right; by left|discriminate|].
        right. right. eauto.
    + rewrite elem_of_app, IH. split.
      * intros [H|[H|(g & Hg & Hs)]].
        -- right. exists g0. split; [by left|done].
        -- left. by right.
        -- right. exists g. split; [by right|done].
      * intros [[H|H]%elem_of_cons|(g & [Hg|Hg]%elem_of_cons & Hs)].
        -- discriminate.
        -- right. by left.
        -- injection Hg as ->. by left.
        -- right. right. eauto.
Qed.

(** *** mapConcurrent starts the items in input order, each once *)

Section CallOrder.
Context {T R L O St : Type}.
Variable fn_start : T -> nat -> St -> St * (L + R).
Variable fn_resume : T -> nat -> L -> O -> St -> St * R.
Variable started : St -> list nat.
Hypothesis start_logs : forall x i s, started (fn_start x i s).1 = started s ++ [i].
Hypothesis resume_keeps : forall x i l o s, started (fn_resume x i l o s).1 = started s.

Lemma mc_step_started (items : list T) (w : nat) (o : O)
    (st st' : mc_state (R := R) (L := L) (St := St)) (log0 : list nat) :
  mc_step fn_start fn_resume items w o st = Some st' ->
  started (mc_shared st) = log0 ++ seq 0 (mc_next st) ->
  started (mc_shared st') = log0 ++ seq 0 (mc_next st').
Proof.
  unfold mc_step. intros H Hlog.
  destruct (mc_workers st !! w) as [[|i l|i r|]|]; try discriminate.
  - destruct (decide (mc_next st < length items)).
    + destruct (items !! mc_next st) as [x|]; [|discriminate].
      pose proof (start_logs x (mc_next st) (mc_shared st)) as Hs.
      destruct (fn_start x (mc_next st) (mc_shared st)) as [s' res].
      injection H as <-. cbn [mc_shared mc_next fst] in *.
      rewrite Hs, Hlog, seq_S, app_assoc. reflexivity.
    + injection H as <-. exact Hlog.
  - destruct (items !! i) as [x|]; [|discriminate].
    pose proof (resume_keeps x i l o (mc_shared st)) as Hs.
    destruct (fn_resume x i l o (mc_shared st)) as [s' r].
    injection H as <-. cbn [mc_shared mc_next fst] in *. by rewrite Hs.
  - injection H as <-. exact Hlog.
Qed.

Lemma mc_exec_started (items : list T) (sched : list (nat * O))
    (st st' : mc_state (R := R) (L := L) (St := St)) (log0 : list nat) :
  mc_exec fn_start fn_resume items sched st = Some st' ->
  started (mc_shared st) = log0 ++ seq 0 (mc_next st) ->
  started (mc_shared st') = log0 ++ seq 0 (mc_next st').
Proof.
  revert st. induction sched as [|[w o] rest IH]; intros st; simpl.
  - by intros [= ->].
  - destruct (mc_step fn_start fn_resume items w o st) as [st1|] eqn:E; [|discriminate].
    intros Hex Hlog. apply (IH st1 Hex). by eapply mc_step_started.
Qed.

(** Whatever the schedule and the limit, [mapConcurrent] starts
    [fn(items[i], i)] for [i = 0, 1, ..., items.length - 1], in that
    order and each once: if the callback appends its index to a log when
    it starts, the log at the end is the one before the call followed by
    [0, 1, ..., items.length - 1]. *)
Theorem mapConcurrent_starts_in_input_order (items : list T) (limit : Js.number)
    (sched : list (nat * O)) (s s' : St) (res : list (option R)) :
  mapConcurrent fn_start fn_resume items limit sched s = Some (res, s') ->
  started s' = started s ++ seq 0 (length items).
Proof.
  unfold mapConcurrent. intros H.
  destruct (mc_exec fn_start fn_resume items sched (mc_init items limit s)) as [st|] eqn:Hex;
    [|discriminate].
  destruct (mc_final st) eqn:Hfin; [|discriminate]. injection H as <- <-.
  pose proof (PoolFacts.mc_inv_exec fn_start fn_resume items _ _ _ _
                (PoolFacts.mc_inv_init fn_start fn_resume items limit s) Hex) as Hinv.
  assert (Hnext : mc_next st = length items).
  { pose proof (inv_next _ _ _ _ _ Hinv) as Hle.
    destruct (workerCount limit (length items)) as [|k'] eqn:Hk.
    - pose proof (inv_nonempty _ _ _ _ _ Hinv eq_refl). lia.
    - assert (H0 : 0 < length (mc_workers st))
        by (rewrite (inv_workers _ _ _ _ _ Hinv); lia).
      destruct (lookup_lt_is_Some_2 _ _ H0) as [wk Hwk].
      pose proof (PoolFacts.mc_final_done _ _ _ Hfin Hwk) as ->.
      pose proof (inv_done _ _ _ _ _ Hinv 0 Hwk). lia. }
  rewrite <- Hnext. eapply mc_exec_started; [exact Hex|].
  simpl. by rewrite app_nil_r.
Qed.

End CallOrder.


Lemma mapConcurrent_starts_in_input_order_witness :
  exists res s',
    mapConcurrent logging_start logging_resume [1; 2; 3; 4] (Js.of_nat 2)
      [(0, tt); (1, tt); (1, tt); (0, tt); (1, tt); (0, tt); (1, tt); (0, tt);
       (1, tt); (0, tt); (1, tt); (0, tt); (0, tt); (1, tt)] [] = Some (res, s')
    /\ logged s' = logged [] ++ seq 0 (length [1; 2; 3; 4]).
Proof.
  eexists _, _. split; [vm_compute; reflexivity|].
  apply (mapConcurrent_starts_in_input_order logging_start logging_resume logged
           (fun _ _ _ => eq_refl) (fun _ _ _ _ _ => eq_refl)
           [1; 2; 3; 4] (Js.of_nat 2)
           [(0, tt); (1, tt); (1, tt); (0, tt); (1, tt); (0, tt); (1, tt); (0, tt);
            (1, tt); (0, tt); (1, tt); (0, tt); (0, tt); (1, tt)]
           [] [0; 1; 2; 3] [Some 10; Some 20; Some 30; Some 40]).
  vm_compute. reflexivity.
Defined.

End ParallelFacts.

(** * More on subagent-runner.ts *)

Module RunnerFrame.
Import ParallelUtils Runner RunnerCode RunnerFacts.
Local Open Scope list_scope.

(** *** What never changes in status.json *)

Section Keeps.
Variable I : rstate -> Prop.

Lemma keeps_ret {A : Type} (a : A) : keeps I (mret a).
Proof. intros st H. exact H. Qed.

Lemma keeps_bind {A B : Type} (m : Run A) (f : A -> Run B) :
  keeps I m -> (forall a, keeps I (f a)) -> keeps I (m ≫= f).
Proof.
  intros Hm Hf st H. unfold mbind, run_bind. specialize (Hm st H).
  destruct (m st) as [a st']. apply Hf, Hm.
Qed.

Lemma keeps_get {A : Type} (f : rstate -> A) : keeps I (get f).
Proof. intros st H. exact H. Qed.

Lemma keeps_when (b : bool) (m : Run unit) : keeps I m -> keeps I (when b m).
Proof. intros H. destruct b; [exact H|apply keeps_ret]. Qed.

Lemma keeps_modify (f : rstate -> rstate) :
  (forall st, I st -> I (f st)) -> keeps I (modify f).
Proof. intros H st. apply H. Qed.

End Keeps.

Section Framed.
Variable p0 : StatusPayload.

Lemma framed_emit (op : fs_op) :
  is_status_write op = false -> keeps (framed p0) (emit op).
Proof.
  intros Hop st [Hs Ht]. split; [exact Hs|]. simpl.
  apply Forall_app. split; [exact Ht|]. constructor; [|constructor].
  intros p ->. discriminate.
Qed.

Lemma framed_writeStatus : keeps (framed p0) writeStatus.
Proof.
  intros st [Hs Ht]. split; [exact Hs|].
  unfold writeStatus, writeJson, emit, modify, get, mbind, run_bind. simpl.
  apply Forall_app. split; [apply Forall_app; split; [exact Ht|]|].
  - constructor; [|constructor]. intros p [=].
  - constructor; [|constructor]. intros p [= <-]. exact Hs.
Qed.

Lemma framed_now (w : World) : keeps (framed p0) (now w).
Proof. intros st H. exact H. Qed.

Lemma framed_update_status (f : StatusPayload -> StatusPayload) :
  (forall p, same_frame p0 p /\ still_running p ->
             same_frame p0 (f p) /\ still_running (f p)) ->
  keeps (framed p0) (update_status f).
Proof. intros Hf st [Hs Ht]. split; [apply Hf, Hs|exact Ht]. Qed.

Lemma fmap_alter_same {A B : Type} (g : A -> B) (f : A -> A) (i : nat) (l : list A) :
  (forall x, g (f x) = g x) -> g <$> alter f i l = g <$> l.
Proof.
  intros H. revert i. induction l as [|x r IH]; intros [|i]; csimpl; [done|done| |].
  - by rewrite H.
  - by rewrite IH.
Qed.

Lemma framed_update_row (fi : nat) (f : StepRow -> StepRow) :
  (forall r, row_agent (f r) = row_agent r) -> keeps (framed p0) (update_row fi f).
Proof.
  intros Hf. apply framed_update_status.
  intros p [(H1 & H2 & H3 & H4 & H5 & H6) Hr]. split; [|exact Hr].
  repeat split; try assumption. simpl. by rewrite fmap_alter_same.
Qed.

Lemma framed_appendJsonl (e : event) : keeps (framed p0) (appendJsonl e).
Proof. by apply framed_emit. Qed.

Ltac framed_step :=
  lazymatch goal with
  | |- keeps _ (mbind _ _) => apply keeps_bind; [|intros ?]
  | |- keeps _ (mret _) => apply keeps_ret
  | |- keeps _ (get _) => apply keeps_get
  | |- keeps _ (emit _) => apply framed_emit; reflexivity
  | |- keeps _ (now _) => apply framed_now
  | |- keeps _ (update_status _) => apply framed_update_status; intros ? H; exact H
  | |- keeps _ (update_row _ _) => apply framed_update_row; intros ?; reflexivity
  | |- keeps _ (modify _) => apply keeps_modify; intros ? H; exact H
  | |- keeps _ writeStatus => apply framed_writeStatus
  | |- keeps _ (appendJsonl _) => apply framed_appendJsonl
  | |- keeps _ (when _ _) => apply keeps_when
  | |- keeps _ (match ?x with _ => _ end) => destruct x
  end.

Lemma framed_runSingleStep_begin cfg step dir fi :
  keeps (framed p0) (runSingleStep_begin cfg step dir fi).
Proof. unfold runSingleStep_begin. repeat framed_step. Qed.

Lemma framed_runSingleStep_end cfg w step fi loc :
  keeps (framed p0) (runSingleStep_end cfg w step fi loc).
Proof. unfold runSingleStep_end. repeat framed_step. Qed.

Lemma framed_group_task_start cfg w failFast g task taskIdx :
  keeps (framed p0) (group_task_start cfg w failFast g task taskIdx).
Proof.
  unfold group_task_start. repeat framed_step. apply framed_runSingleStep_begin.
Qed.

Lemma framed_group_task_finish cfg w failFast g task taskIdx locals :
  keeps (framed p0) (group_task_finish cfg w failFast g task taskIdx locals).
Proof.
  unfold group_task_finish. destruct locals as [loc t0].
  apply keeps_bind; [apply framed_runSingleStep_end|intros ?]. repeat framed_step.
Qed.

Lemma framed_mark_running g t0 count : keeps (framed p0) (mark_running g t0 count).
Proof. induction count as [|t IH]; simpl; [apply keeps_ret|]. by repeat framed_step. Qed.

Lemma framed_collect_group_tokens w g count :
  keeps (framed p0) (collect_group_tokens w g count).
Proof.
  induction count as [|t IH]; simpl; [apply keeps_ret|].
  apply keeps_bind; [exact IH|intros ?]. repeat framed_step.
Qed.

Lemma framed_await_group cfg w stepIndex group c failFast g :
  keeps (framed p0) (await_group cfg w stepIndex group c failFast g).
Proof.
  intros st. unfold await_group.
  match goal with |- context [mc_run ?a ?b ?i ?sc ?st0] =>
    pose proof (mc_run_shared a b (fun s s' => framed p0 s -> framed p0 s')
                  (fun s H => H) (fun s1 s2 s3 H12 H23 H => H23 (H12 H))) as H;
    specialize (fun Hs Hr => H Hs Hr i sc st0) end.
  match type of H with ?A -> ?B -> _ => assert (Hs : A); [|assert (Hr : B)] end.
  - intros x i s. unfold group_fn_start.
    pose proof (framed_group_task_start cfg w failFast g x i s) as Hx.
    by destruct (group_task_start cfg w failFast g x i s).
  - intros x i l o s. unfold group_fn_resume.
    pose proof (framed_group_task_finish cfg w failFast g x i l s) as Hx.
    by destruct (group_task_finish cfg w failFast g x i l s).
  - specialize (H Hs Hr). simpl in H.
    by destruct (mc_final _).
Qed.

Lemma framed_run_group cfg w stepIndex group :
  keeps (framed p0) (run_group cfg w stepIndex group).
Proof.
  unfold run_group.
  repeat first [apply framed_mark_running | apply framed_await_group
               | apply framed_collect_group_tokens | framed_step].
Qed.

Lemma framed_run_sequential cfg w seqStep :
  keeps (framed p0) (run_sequential cfg w seqStep).
Proof.
  unfold run_sequential.
  repeat first [apply framed_runSingleStep_begin | apply framed_runSingleStep_end
               | framed_step].
Qed.

Lemma framed_run_steps cfg w stepIndex todo :
  keeps (framed p0) (run_steps cfg w stepIndex todo).
Proof.
  revert stepIndex. induction todo as [|step rest IH]; intros stepIndex; simpl.
  - apply keeps_ret.
  - apply keeps_bind.
    + destruct step; [apply framed_run_sequential|apply framed_run_group].
    + intros [| |]; [apply IH|apply keeps_ret|apply keeps_ret].
Qed.

End Framed.


(** The run up to the end of its steps. *)
Lemma run_body_cases (cfg : SubagentRunConfig) (w : World) :
  exists (f : flow) (s2 : rstate) (ops : list fs_op),
    framed (initial_status cfg w (Date_now w 0)) s2 /\
    rs_trace s2 = opening_ops cfg w ++ ops /\
    forallb step_op ops = true /\
    ((f = Waiting /\ runSubagent cfg w = (false, s2)) \/
     (f <> Waiting /\
      runSubagent cfg w = (true, (finish cfg w (Date_now w 0) s2).2))).
Proof.
  unfold runSubagent, run_body.
  rewrite ?bind_eq, ?get_1, ?get_2. cbv beta.
  set (s1 := (appendJsonl _ _).2).
  assert (H1 : framed (initial_status cfg w (Date_now w 0)) s1 /\
               rs_trace s1 = opening_ops cfg w).
  { subst s1. split; [|reflexivity].
    split; [split; [repeat split|split; reflexivity]|].
    unfold writeStatus, writeJson, appendJsonl, emit, modify, get, mbind, run_bind. simpl.
    constructor; [by intros p [=]|].
    constructor; [by intros p [=]|].
    constructor; [intros p [= <-]; split; [repeat split|split; reflexivity]|].
    constructor; [by intros p [=]|]. constructor. }
  clearbody s1. destruct H1 as [Hf1 Ht1].
  pose proof (framed_run_steps _ cfg w 0 (steps cfg) s1 Hf1) as Hf2.
  pose proof (emits_run_steps cfg w 0 (steps cfg) s1) as (ops & Ht2 & Hops & _).
  destruct (run_steps cfg w 0 (steps cfg) s1) as [f s2]. cbn [fst snd] in *.
  exists f, s2, ops. split; [exact Hf2|]. split; [by rewrite Ht2, Ht1|].
  split; [exact Hops|].
  destruct f; [right|right|left]; (split; [done|]);
    rewrite ?bind_eq; reflexivity.
Qed.

(** From its first write to its last, status.json keeps the run id, the
    mode, the start time, the process id, the working directory and the
    agents of its step rows; its state is [running], with no end time,
    in every write but the one that ends the run. *)
Theorem status_json_frame (cfg : SubagentRunConfig) (w : World) (p : StatusPayload) :
  WriteFileSync StatusPath (CStatus p) ∈ run_trace cfg w ->
  same_frame (initial_status cfg w (Date_now w 0)) p /\
  (still_running p \/
   ((runSubagent cfg w).1 = true /\ p = rs_status (runSubagent cfg w).2 /\
    terminal (sp_state p) /\ is_Some (sp_endedAt p))).
Proof.
  unfold run_trace.
  destruct (run_body_cases cfg w) as (f & s2 & ops & Hf & Ht & Hops & [[_ Hrun]|[_ Hrun]]);
    rewrite Hrun; cbn [fst snd].
  - intros Hin. destruct Hf as [_ Hall]. rewrite Forall_forall in Hall.
    destruct (Hall _ Hin p eq_refl) as [H1 H2]. split; [exact H1|by left].
  - destruct (finish_detail cfg w (Date_now w 0) s2)
      as (pf & e & log & r & Hst & Htr & Hstate & Hend & Hrows & Hsame & _).
    rewrite Htr. intros [Hin|Hin]%elem_of_app.
    + destruct Hf as [_ Hall]. rewrite Forall_forall in Hall.
      destruct (Hall _ Hin p eq_refl) as [H1 H2]. split; [exact H1|by left].
    + unfold finish_ops in Hin.
      repeat (apply elem_of_cons in Hin as [Hin|Hin]; [try discriminate|]);
        [|by apply elem_of_nil in Hin].
      injection Hin as ->. destruct Hf as [[Hframe _] _].
      split.
      * by apply (same_frame_trans _ (rs_status s2)).
      * right. split; [reflexivity|]. split; [by rewrite Hst|].
        split; [rewrite Hstate; destruct (forallb sr_success _); [by left|by right]|].
        rewrite Hend. eauto.
Qed.


Lemma forallb_success (a b : list StepResult) :
  sr_success <$> a = sr_success <$> b -> forallb sr_success a = forallb sr_success b.
Proof.
  revert b. induction a as [|x a IH]; intros [|y b] H; try discriminate; [done|].
  csimpl in H. injection H as Hx Hr. simpl. by rewrite Hx, (IH b Hr).
Qed.

(** When a run ends, the result file and status.json tell the same
    story: the result's [success] is the conjunction of its steps'
    [success]; it is true exactly when status.json says [complete], and
    false exactly when it says [failed]; the exit code is 0 or 1
    accordingly; and both carry the run id and the same end time. *)
Theorem result_agrees_with_status (cfg : SubagentRunConfig) (w : World)
    (fs0 : gmap path content) :
  (runSubagent cfg w).1 = true ->
  exists p r,
    replay fs0 (run_trace cfg w) !! StatusPath = Some (CStatus p) /\
    replay fs0 (run_trace cfg w) !! ResultPath = Some (CResult r) /\
    rf_id r = cfg_id cfg /\ sp_runId p = cfg_id cfg /\
    rf_success r = forallb sr_success (rf_results r) /\
    (rf_success r = true <-> sp_state p = RunComplete) /\
    (rf_success r = false <-> sp_state p = RunFailed) /\
    rf_exitCode r = (if rf_success r then 0 else 1)%Z /\
    sp_endedAt p = Some (rf_timestamp r).
Proof.
  unfold run_trace.
  destruct (run_body_cases cfg w) as (f & s2 & ops & Hf & Ht & Hops & [[_ Hrun]|[_ Hrun]]);
    rewrite Hrun; cbn [fst snd]; [discriminate|]. intros _.
  destruct (finish_detail cfg w (Date_now w 0) s2)
    as (p & e & log & r & Hst & Htr & Hstate & Hend & Hrows & Hsame & Hsucc & Hexit
        & Hid & Hagents & Hsuccs & He).
  exists p, r. rewrite Htr, replay_app.
  generalize (replay fs0 (rs_trace s2)). intros fs1.
  split.
  { unfold replay, finish_ops. simpl.
    rewrite lookup_insert_ne by done. rewrite lookup_insert_ne by done.
    destruct (_ !! EventsPath) as [[| | |l]|];
      rewrite lookup_insert_ne by done; apply lookup_insert_eq. }
  split; [unfold replay, finish_ops; simpl; apply lookup_insert_eq|].
  split; [exact Hid|].
  split.
  { destruct Hsame as (H1 & _). destruct Hf as [[(G1 & _) _] _]. by rewrite H1, G1. }
  split; [rewrite Hsucc; symmetry; by apply forallb_success|].
  rewrite Hsucc, Hexit, Hstate, Hend.
  destruct (forallb sr_success (rs_results s2)); repeat split; done.
Qed.

Lemma result_agrees_with_status_witness :
  exists p r,
    replay ∅ (run_trace Samples.failfast_config Samples.failfast_world) !! StatusPath
      = Some (CStatus p) /\
    replay ∅ (run_trace Samples.failfast_config Samples.failfast_world) !! ResultPath
      = Some (CResult r) /\
    rf_id r = cfg_id Samples.failfast_config /\
    sp_runId p = cfg_id Samples.failfast_config /\
    rf_success r = forallb sr_success (rf_results r) /\
    (rf_success r = true <-> sp_state p = RunComplete) /\
    (rf_success r = false <-> sp_state p = RunFailed) /\
    rf_exitCode r = (if rf_success r then 0 else 1)%Z /\
    sp_endedAt p = Some (rf_timestamp r).
Proof.
  apply (result_agrees_with_status Samples.failfast_config Samples.failfast_world ∅).
  vm_compute. reflexivity.
Defined.

(** The theorem at the last payload that the sample run writes to
    status.json, after the ones at its start and at the two steps. *)
Lemma status_json_frame_witness :
  let p := rs_status (runSubagent Samples.failfast_config Samples.failfast_world).2 in
  run_trace Samples.failfast_config Samples.failfast_world !! 14
  = Some (WriteFileSync StatusPath (CStatus p)) /\
  p <> initial_status Samples.failfast_config Samples.failfast_world 100 /\
  same_frame (initial_status Samples.failfast_config Samples.failfast_world 100) p /\
  (still_running p \/
   ((runSubagent Samples.failfast_config Samples.failfast_world).1 = true /\
    p = rs_status (runSubagent Samples.failfast_config Samples.failfast_world).2 /\
    terminal (sp_state p) /\ is_Some (sp_endedAt p))).
Proof.
  split; [vm_compute; reflexivity|]. split; [vm_compute; discriminate|].
  apply (status_json_frame Samples.failfast_config Samples.failfast_world).
  apply list_elem_of_lookup. exists 14. vm_compute. reflexivity.
Defined.


End RunnerFrame.

(** * The placeholders of a task *)

Module PlaceholderFacts.
Import ParallelUtils Runner RunnerCode.

Lemma prefix_append (p s : string) : String.prefix p (p ++ s) = true.
Proof.
  induction p as [|c r IH]; simpl; [by destruct s|].
  by destruct (ascii_dec c c).
Qed.

Lemma append_empty (s : string) : s ++ "" = s.
Proof.
  induction s as [|c r IH]; [done|].
  change (String c (r ++ "") = String c r). by rewrite IH.
Qed.

(** Skipping the rest of a match: [skip] characters are dropped. *)
Lemma replace_go_skip (pat rep a s : string) :
  replace_go pat rep (String.length a) (a ++ s) = replace_go pat rep 0 s
  \/ s = "".
Proof.
  induction a as [|c r IH]; simpl.
  - by left.
  - exact IH.
Qed.

Lemma replace_go_skip_all (pat rep a : string) (k : nat) :
  String.length a <= k -> replace_go pat rep k a = "".
Proof.
  revert k. induction a as [|c r IH]; intros k Hk; simpl; [done|].
  destruct k as [|k]; simpl in Hk; [lia|]. apply IH. lia.
Qed.

Lemma replace_go_empty (pat rep : string) (k : nat) : replace_go pat rep k "" = "".
Proof. reflexivity. Qed.

Lemma replace_go_skip_eq (pat rep a s : string) :
  replace_go pat rep (String.length a) (a ++ s) = replace_go pat rep 0 s.
Proof.
  destruct (replace_go_skip pat rep a s) as [H| ->]; [exact H|].
  rewrite replace_go_skip_all; [done|].
  clear. induction a; simpl; lia.
Qed.

Lemma includes_cons (n : string) (c : ascii) (s : string) :
  JsString.includes n (String c s) = false ->
  String.prefix n (String c s) = false /\ JsString.includes n s = false.
Proof.
  change (JsString.includes n (String c s))
    with (String.prefix n (String c s) || JsString.includes n s).
  apply orb_false_iff.
Qed.

(** [task.replace(placeholderRegex, () => previousOutput)]: every
    occurrence of the placeholder, from the left and without overlap,
    gives way to the previous output, which is not searched again; what
    holds no placeholder is unchanged. *)
Theorem replaceAll_placeholder (c0 : ascii) (pat0 rep : string) :
  let pat := String c0 pat0 in
  (forall s, replaceAll pat rep (pat ++ s) = rep ++ replaceAll pat rep s) /\
  (forall c s, String.prefix pat (String c s) = false ->
     replaceAll pat rep (String c s) = String c (replaceAll pat rep s)) /\
  (forall s, JsString.includes pat s = false -> replaceAll pat rep s = s) /\
  replaceAll pat rep pat = rep.
Proof.
  intros pat.
  assert (H1 : forall s, replaceAll pat rep (pat ++ s) = rep ++ replaceAll pat rep s).
  { intros s. unfold replaceAll, pat.
    change (String c0 pat0 ++ s) with (String c0 (pat0 ++ s)).
    change (replace_go (String c0 pat0) rep 0 (String c0 (pat0 ++ s)))
      with (if String.prefix (String c0 pat0) (String c0 (pat0 ++ s))
            then rep ++ replace_go (String c0 pat0) rep
                          (String.length (String c0 pat0) - 1) (pat0 ++ s)
            else String c0 (replace_go (String c0 pat0) rep 0 (pat0 ++ s))).
    pose proof (prefix_append (String c0 pat0) s) as Hpre.
    change (String c0 pat0 ++ s) with (String c0 (pat0 ++ s)) in Hpre.
    rewrite Hpre.
    replace (String.length (String c0 pat0) - 1) with (String.length pat0)
      by (simpl; lia).
    by rewrite replace_go_skip_eq. }
  assert (H2 : forall c s, String.prefix pat (String c s) = false ->
             replaceAll pat rep (String c s) = String c (replaceAll pat rep s)).
  { intros c s Hp. unfold replaceAll, pat in *.
    change (replace_go (String c0 pat0) rep 0 (String c s))
      with (if String.prefix (String c0 pat0) (String c s)
            then rep ++ replace_go (String c0 pat0) rep
                          (String.length (String c0 pat0) - 1) s
            else String c (replace_go (String c0 pat0) rep 0 s)).
    by rewrite Hp. }
  split; [exact H1|]. split; [exact H2|]. split.
  - induction s as [|c s IH]; [done|]. intros [Hp Hi]%includes_cons.
    rewrite (H2 _ _ Hp). by rewrite (IH Hi).
  - specialize (H1 "").
    rewrite append_empty in H1. rewrite H1. unfold replaceAll, pat. simpl.
    apply append_empty.
Qed.

End PlaceholderFacts.

(** * text-editor.ts *)

Module TextEditorFacts.
Import TextEditor.
Local Open Scope list_scope.
Local Open Scope Z_scope.

(** *** ensureCursorVisible *)

(** For a cursor line that is not negative and a viewport of at least
    one line, the offset that [ensureCursorVisible] answers is not
    negative and shows the cursor line; an offset that is not negative
    and already shows it is kept. *)
Theorem ensureCursorVisible_shows_cursor (cursorLine viewportHeight currentOffset : Z) :
  0 <= cursorLine -> 1 <= viewportHeight ->
  let offset := ensureCursorVisible cursorLine viewportHeight currentOffset in
  0 <= offset /\ offset <= cursorLine < offset + viewportHeight /\
  (0 <= currentOffset -> currentOffset <= cursorLine < currentOffset + viewportHeight ->
   offset = currentOffset).
Proof.
  intros Hl Hh. unfold ensureCursorVisible.
  destruct (Z.ltb_spec cursorLine currentOffset);
    [|destruct (Z.leb_spec (currentOffset + viewportHeight) cursorLine)]; lia.
Qed.

Lemma ensureCursorVisible_shows_cursor_witness :
  0 <= ensureCursorVisible 7 3 0 /\
  ensureCursorVisible 7 3 0 <= 7 < ensureCursorVisible 7 3 0 + 3 /\
  (0 <= 0 -> 0 <= 7 < 0 + 3 -> ensureCursorVisible 7 3 0 = 0).
Proof. apply (ensureCursorVisible_shows_cursor 7 3 0); lia. Defined.

(** *** Slices of a buffer at a position inside it *)

Lemma len_nonneg (s : text) : 0 <= len s.
Proof. unfold len. lia. Qed.

Lemma len_app (a b : text) : len (a ++ b) = len a + len b.
Proof. unfold len. rewrite length_app. lia. Qed.

Lemma resolve_index_in (s : text) (i : Z) :
  0 <= i <= len s -> resolve_index s i = Z.to_nat i.
Proof.
  intros H. unfold resolve_index. destruct (Z.ltb_spec i 0); [lia|].
  f_equal. lia.
Qed.

Lemma slice_to_take (s : text) (c : Z) :
  0 <= c <= len s -> slice s 0 c = take (Z.to_nat c) s.
Proof.
  intros H. unfold slice. rewrite (resolve_index_in s 0), (resolve_index_in s c) by lia.
  simpl. f_equal. lia.
Qed.

Lemma slice_from_drop (s : text) (c : Z) :
  0 <= c <= len s -> slice_from s c = drop (Z.to_nat c) s.
Proof. intros H. unfold slice_from. by rewrite resolve_index_in. Qed.

Lemma len_take (s : text) (c : Z) : 0 <= c <= len s -> len (take (Z.to_nat c) s) = c.
Proof. unfold len. intros H. rewrite length_take. lia. Qed.

Lemma len_drop (s : text) (c : Z) :
  0 <= c <= len s -> len (drop (Z.to_nat c) s) = len s - c.
Proof. unfold len. intros H. rewrite length_drop. lia. Qed.

Lemma len_slice_le (s : text) (a b : Z) : 0 <= a -> len (slice s a b) <= len s - a \/ len s < a.
Proof.
  intros Ha. unfold slice, len. rewrite length_take, length_drop.
  generalize (resolve_index s b). intros n.
  unfold resolve_index. destruct (Z.ltb_spec a 0); [lia|].
  unfold len. lia.
Qed.

(** *** Words *)

Lemma char_at_in (s : text) (i : Z) : 0 <= i < len s -> is_Some (char_at s i).
Proof.
  intros H. unfold char_at. destruct (Z.ltb_spec i 0); [lia|].
  apply lookup_lt_is_Some. unfold len in H. lia.
Qed.

Lemma back_while_in (test : nat -> bool) (buf : text) (fuel : nat) (pos : Z) :
  0 <= pos <= len buf ->
  exists p, back_while test buf fuel pos = Some p /\ 0 <= p <= pos.
Proof.
  revert pos. induction fuel as [|f IH]; intros pos H; simpl.
  - exists pos. split; [done|lia].
  - destruct (Z.ltb_spec 0 pos); [|exists pos; split; [done|lia]].
    destruct (char_at_in buf (pos - 1)) as [c ->]; [lia|].
    destruct (test c); [|exists pos; split; [done|lia]].
    destruct (IH (pos - 1)) as (p & -> & Hp); [lia|]. exists p. split; [done|lia].
Qed.

Lemma forth_while_in (test : nat -> bool) (buf : text) (fuel : nat) (pos : Z) :
  0 <= pos <= len buf ->
  exists p, forth_while test buf fuel pos = Some p /\ pos <= p <= len buf.
Proof.
  revert pos. induction fuel as [|f IH]; intros pos H; simpl.
  - exists pos. split; [done|lia].
  - destruct (Z.ltb_spec pos (len buf)); [|exists pos; split; [done|lia]].
    destruct (char_at_in buf pos) as [c ->]; [lia|].
    destruct (test c); [|exists pos; split; [done|lia]].
    destruct (IH (pos + 1)) as (p & -> & Hp); [lia|]. exists p. split; [done|lia].
Qed.

Lemma wordBackward_in (buf : text) (cur : Z) :
  0 <= cur <= len buf ->
  exists p, wordBackward buf cur = Some p /\ 0 <= p <= cur.
Proof.
  intros H. unfold wordBackward.
  destruct (back_while_in (fun c => negb (isWordChar c)) buf (Z.to_nat cur) cur H)
    as (p1 & -> & H1). simpl.
  destruct (back_while_in isWordChar buf (Z.to_nat p1) p1) as (p2 & -> & H2); [lia|].
  exists p2. split; [done|lia].
Qed.

Lemma wordForward_in (buf : text) (cur : Z) :
  0 <= cur <= len buf ->
  exists p, wordForward buf cur = Some p /\ cur <= p <= len buf.
Proof.
  intros H. unfold wordForward.
  destruct (forth_while_in isWordChar buf (Z.to_nat (len buf - cur)) cur H)
    as (p1 & -> & H1). simpl.
  destruct (forth_while_in (fun c => negb (isWordChar c)) buf
              (Z.to_nat (len buf - p1)) p1) as (p2 & -> & H2); [lia|].
  exists p2. split; [done|lia].
Qed.

(** *** The lines of wrapText lie inside the text *)

Lemma split_lines_nonempty (s : text) : split_lines s <> [].
Proof.
  induction s as [|c r IH]; simpl; [done|].
  destruct (Nat.eqb c NEWLINE); [done|]. by destruct (split_lines r).
Qed.

Lemma split_lines_len (s : text) : joined_len (split_lines s) = len s.
Proof.
  induction s as [|c r IH]; [reflexivity|].
  pose proof (split_lines_nonempty r) as Hne. simpl split_lines.
  destruct (Nat.eqb c NEWLINE).
  - destruct (split_lines r) as [|f o] eqn:E; [done|].
    change (joined_len ([] :: f :: o)) with (len [] + 1 + joined_len (f :: o)).
    rewrite IH. unfold len. simpl. lia.
  - destruct (split_lines r) as [|f o] eqn:E; [done|].
    assert (H : joined_len ((c :: f) :: o) = 1 + joined_len (f :: o)).
    { destruct o; simpl; unfold len; simpl; lia. }
    rewrite H, IH. unfold len. simpl. lia.
Qed.

Lemma wrap_segment_within (fuel : nat) (segment : text) (width offset pos : Z) :
  0 <= pos -> 0 < width ->
  Forall (within offset (offset + len segment))
         (wrap_segment fuel segment width offset pos).
Proof.
  revert pos. induction fuel as [|f IH]; intros pos Hp Hw; simpl; [constructor|].
  destruct (Z.ltb_spec pos (len segment)); [|constructor].
  constructor; [|apply IH; lia].
  unfold within. simpl.
  destruct (len_slice_le segment pos (pos + width) Hp); lia.
Qed.

Lemma within_weaken (lo hi lo' hi' : Z) (l : list (text * Z)) :
  lo' <= lo -> hi <= hi' -> Forall (within lo hi) l -> Forall (within lo' hi') l.
Proof.
  intros H1 H2 H. eapply Forall_impl; [exact H|].
  intros e [A B]. unfold within. lia.
Qed.

Lemma joined_len_nonneg (segments : list text) : 0 <= joined_len segments.
Proof.
  induction segments as [|s [|s' r] IH]; simpl; [lia|apply len_nonneg|].
  pose proof (len_nonneg s). simpl in IH. lia.
Qed.

Lemma wrap_segments_within (segments : list text) (width offset : Z) :
  0 < width ->
  Forall (within offset (offset + joined_len segments))
         (wrap_segments segments width offset).
Proof.
  intros Hw. revert offset.
  induction segments as [|s rest IH]; intros offset; simpl wrap_segments; [constructor|].
  pose proof (len_nonneg s) as Hs. pose proof (joined_len_nonneg rest) as Hr.
  assert (Hj : joined_len (s :: rest)
               = len s + (match rest with [] => 0 | _ => 1 end) + joined_len rest).
  { destruct rest; simpl; lia. }
  apply Forall_app. split.
  - apply (within_weaken offset (offset + len s)); [lia|destruct rest; lia|].
    destruct (Z.eqb_spec (len s) 0) as [H0|H0].
    + constructor; [|constructor]. unfold within. simpl. unfold len at 1. simpl. lia.
    + apply wrap_segment_within; lia.
  - eapply within_weaken; [| |apply IH]; destruct rest; lia.
Qed.

Lemma wrapText_within (s : text) (width : Z) :
  Forall (within 0 (len s)) (wrapText s width) /\ wrapText s width <> [].
Proof.
  unfold wrapText. destruct (Z.leb_spec width 0).
  { split; [|done]. constructor; [|constructor]. unfold within. simpl. lia. }
  destruct (Z.eqb_spec (len s) 0) as [H0|H0].
  { split; [|done]. constructor; [|constructor]. unfold within. simpl.
    unfold len at 1. simpl. lia. }
  assert (Hin : Forall (within 0 (len s)) (wrap_segments (split_lines s) width 0)).
  { rewrite <- (split_lines_len s).
    apply (wrap_segments_within (split_lines s) width 0). lia. }
  assert (Hne : wrap_segments (split_lines s) width 0 <> []).
  { pose proof (split_lines_nonempty s) as Hs.
    destruct (split_lines s) as [|seg rest]; [done|]. simpl.
    destruct (Z.eqb_spec (len seg) 0) as [Hz|Hz]; [done|].
    destruct seg as [|c seg']; [done|]. simpl.
    destruct (Z.ltb_spec 0 (len (c :: seg'))); [done|].
    unfold len in *. simpl in *. lia. }
  destruct (_ && _).
  - split; [|by destruct (wrap_segments _ _ _)].
    apply Forall_app. split; [exact Hin|].
    constructor; [|constructor]. unfold within. simpl.
    change (len []) with 0. pose proof (len_nonneg s). lia.
  - by split.
Qed.

(** What [getCursorDisplayPos] answers: a line that exists, whose start
    is at most the cursor, with the distance as the column; or line 0,
    column 0. *)
Lemma display_pos_from_spec (cur : Z) (starts : list Z) (n : nat) :
  let pos := display_pos_from cur starts n in
  (exists start, starts !! pos.1 = Some start /\ start <= cur /\ pos.2 = cur - start
                 /\ (pos.1 < n)%nat)
  \/ pos = (0%nat, 0).
Proof.
  induction n as [|i IH]; simpl; [by right|].
  destruct (starts !! i) as [start|] eqn:Hs.
  - destruct (Z.leb_spec start cur).
    + left. exists start. simpl. repeat split; [done|lia|lia].
    + destruct IH as [(st & H1 & H2 & H3 & H4)|H0]; [left|by right].
      exists st. repeat split; try done. lia.
  - destruct IH as [(st & H1 & H2 & H3 & H4)|H0]; [left|by right].
    exists st. repeat split; try done. lia.
Qed.

Lemma getCursorDisplayPos_in (buf : text) (width cur : Z) :
  let wrapped := wrapText buf width in
  let pos := getCursorDisplayPos cur (starts_of wrapped) in
  (pos.1 < length wrapped)%nat /\ 0 <= pos.2.
Proof.
  intros wrapped pos.
  destruct (wrapText_within buf width) as [_ Hne]. fold wrapped in Hne.
  destruct (display_pos_from_spec cur (starts_of wrapped) (length (starts_of wrapped)))
    as [(start & H1 & H2 & H3 & H4)|H0].
  - fold (getCursorDisplayPos cur (starts_of wrapped)) in *. fold pos in H1, H3, H4.
    unfold starts_of in H4. rewrite length_fmap in H4. split; [done|lia].
  - fold (getCursorDisplayPos cur (starts_of wrapped)) in H0. fold pos in H0.
    rewrite H0. simpl. split; [|lia]. destruct wrapped; [done|simpl; lia].
Qed.

Lemma at_line_in (buf : text) (width : Z) (line : nat) (col : Z) :
  let wrapped := wrapText buf width in
  (line < length wrapped)%nat ->
  0 <= col <= default 0 (len <$> lines_of wrapped !! line) ->
  exists c, at_line wrapped line col = Some c /\ 0 <= c <= len buf.
Proof.
  intros wrapped Hlt Hcol.
  destruct (wrapText_within buf width) as [Hin _]. fold wrapped in Hin.
  destruct (lookup_lt_is_Some_2 wrapped line Hlt) as [[l start] Hl].
  pose proof (proj1 (Forall_lookup _ _) Hin line _ Hl) as [Hlo Hhi]. simpl in Hlo, Hhi.
  unfold at_line, starts_of, lines_of in *.
  rewrite list_lookup_fmap, Hl in Hcol. rewrite list_lookup_fmap, Hl.
  simpl in *. exists (start + col). split; [done|lia].
Qed.

Lemma clamp_col_in (wrapped : list (text * Z)) (line : nat) (col : Z) :
  0 <= col ->
  0 <= clamp_col wrapped line col <= default 0 (len <$> lines_of wrapped !! line).
Proof.
  intros H. unfold clamp_col.
  assert (0 <= default 0 (len <$> lines_of wrapped !! line)).
  { destruct (lines_of wrapped !! line); simpl; [apply len_nonneg|lia]. }
  lia.
Qed.

Lemma line_len_nonneg (wrapped : list (text * Z)) (line : nat) :
  0 <= default 0 (len <$> lines_of wrapped !! line).
Proof. destruct (lines_of wrapped !! line); simpl; [apply len_nonneg|lia]. Qed.

Section KeyFacts.
Variable matchesKey : text -> string -> bool.

Lemma edit_in (state : TextEditorState) (a b : Z) (ins : text) (c : Z) :
  0 <= a <= len (buffer state) -> 0 <= b <= len (buffer state) ->
  0 <= c <= a + len ins + (len (buffer state) - b) ->
  cursor_in_buffer
    (with_buffer state (slice (buffer state) 0 a ++ ins ++ slice_from (buffer state) b) c).
Proof.
  intros Ha Hb Hc. unfold cursor_in_buffer. simpl.
  rewrite slice_to_take, slice_from_drop by lia.
  rewrite !len_app, len_take, len_drop by lia. lia.
Qed.

(** A key press on an editor whose cursor is in the buffer either closes
    the editor or gives a state whose cursor is in its buffer again, with
    the viewport offset untouched: no read outside the buffer, and no
    sum with an undefined line start. *)
Theorem handleEditorInput_keeps_cursor_in_buffer
    (state : TextEditorState) (data : text) (textWidth : Z) (multiLine : bool) :
  cursor_in_buffer state ->
  handleEditorInput matchesKey state data textWidth multiLine = Closed
  \/ exists next,
       handleEditorInput matchesKey state data textWidth multiLine = Next next
       /\ cursor_in_buffer next
       /\ viewportOffset next = viewportOffset state.
Proof.
  intros Hc. pose proof Hc as Hc'. unfold cursor_in_buffer in Hc'.
  set (kept := fun o : outcome =>
         o = Closed \/ exists next, o = Next next /\ cursor_in_buffer next
                                    /\ viewportOffset next = viewportOffset state).
  change (kept (handleEditorInput matchesKey state data textWidth multiLine)).
  assert (Hto : forall c, (exists c', c = Some c' /\ 0 <= c' <= len (buffer state)) ->
            kept (to_cursor state c)).
  { intros c (c' & -> & H). right. eexists. split; [reflexivity|]. by split. }
  assert (Hnext : forall s, cursor_in_buffer s -> viewportOffset s = viewportOffset state ->
            kept (Next s)).
  { intros s H1 H2. right. by exists s. }
  unfold handleEditorInput.
  pose proof (getCursorDisplayPos_in (buffer state) textWidth (cursor state)) as [Hline Hcol].
  cbv zeta in Hline, Hcol.
  set (wrapped := wrapText (buffer state) textWidth) in *.
  set (cursorPos := getCursorDisplayPos (cursor state) (starts_of wrapped)) in *.
  destruct (_ || _); [by left|].
  destruct (matchesKey data "return").
  { destruct multiLine; simpl; [|by left].
    apply Hnext; [|done].
    apply (edit_in state (cursor state) (cursor state) [NEWLINE]); try lia.
    change (len [NEWLINE]) with 1. lia. }
  destruct (_ || _).
  { destruct (wordBackward_in _ _ Hc') as (p & -> & Hp).
    apply Hnext; [|done]. unfold cursor_in_buffer. simpl. lia. }
  destruct (_ || _).
  { destruct (wordForward_in _ _ Hc') as (p & -> & Hp).
    apply Hnext; [|done]. unfold cursor_in_buffer. simpl. lia. }
  destruct (matchesKey data "left").
  { destruct (Z.ltb_spec 0 (cursor state)); apply Hnext; try done.
    unfold cursor_in_buffer. simpl. lia. }
  destruct (matchesKey data "right").
  { destruct (Z.ltb_spec (cursor state) (len (buffer state))); apply Hnext; try done.
    unfold cursor_in_buffer. simpl. lia. }
  destruct (matchesKey data "up").
  { destruct (Nat.ltb_spec 0 cursorPos.1); [|by apply Hnext].
    apply Hto, at_line_in; [fold wrapped; lia|]. by apply clamp_col_in. }
  destruct (matchesKey data "down").
  { destruct (Z.ltb_spec (Z.of_nat cursorPos.1) (Z.of_nat (length wrapped) - 1));
      [|by apply Hnext].
    apply Hto, at_line_in; [fold wrapped; lia|]. by apply clamp_col_in. }
  destruct (matchesKey data "home").
  { apply Hto, at_line_in; [done|]. split; [lia|apply line_len_nonneg]. }
  destruct (matchesKey data "end").
  { apply Hto, at_line_in; [done|]. split; [apply line_len_nonneg|apply Z.le_refl]. }
  destruct (matchesKey data "ctrl+home").
  { apply Hnext; [|done]. unfold cursor_in_buffer. simpl. lia. }
  destruct (matchesKey data "ctrl+end").
  { apply Hnext; [|done]. unfold cursor_in_buffer. simpl. lia. }
  destruct (matchesKey data "alt+backspace").
  { destruct (wordBackward_in _ _ Hc') as (p & -> & Hp).
    destruct (Z.eqb_spec p (cursor state)); [by apply Hnext|].
    apply Hnext; [|done].
    apply (edit_in state p (cursor state) []); try lia.
    change (len []) with 0. lia. }
  destruct (matchesKey data "backspace").
  { destruct (Z.ltb_spec 0 (cursor state)); [|by apply Hnext].
    apply Hnext; [|done].
    apply (edit_in state (cursor state - 1) (cursor state) []); try lia.
    change (len []) with 0. lia. }
  destruct (matchesKey data "delete").
  { destruct (Z.ltb_spec (cursor state) (len (buffer state))); [|by apply Hnext].
    apply Hnext; [|done].
    apply (edit_in state (cursor state) (cursor state + 1) []); try lia.
    change (len []) with 0. lia. }
  destruct (normalizeInsertText data multiLine) as [insert|]; [|by left].
  apply Hnext; [|done].
  apply (edit_in state (cursor state) (cursor state) insert); try lia.
  pose proof (len_nonneg insert). lia.
Qed.

End KeyFacts.

Lemma handleEditorInput_keeps_cursor_in_buffer_witness :
  let state := {| buffer := [104; 105; 10; 116; 104; 101; 114; 101]%nat;
                  cursor := 6; viewportOffset := 0 |} in
  handleEditorInput sample_keys state [27; 91; 65]%nat 3 true = Closed
  \/ exists next,
       handleEditorInput sample_keys state [27; 91; 65]%nat 3 true = Next next
       /\ cursor_in_buffer next
       /\ viewportOffset next = viewportOffset state.
Proof.
  apply (handleEditorInput_keeps_cursor_in_buffer sample_keys).
  vm_compute. split; discriminate.
Defined.

(** *** A single-line field holds no line break *)

Lemma slice_sublist (s : text) (a b : Z) : sublist (slice s a b) s.
Proof. unfold slice. etrans; [apply sublist_take|apply sublist_drop]. Qed.

Lemma slice_from_sublist (s : text) (a : Z) : sublist (slice_from s a) s.
Proof. apply sublist_drop. Qed.

Lemma not_in_slice (c : nat) (s : text) (a b : Z) : c ∉ s -> c ∉ slice s a b.
Proof. intros H Hin. apply H. eapply elem_of_sublist; [exact Hin|apply slice_sublist]. Qed.

Lemma not_in_slice_from (c : nat) (s : text) (a : Z) : c ∉ s -> c ∉ slice_from s a.
Proof.
  intros H Hin. apply H. eapply elem_of_sublist; [exact Hin|apply slice_from_sublist].
Qed.

Lemma normalizeInsertText_single_line (data insert : text) :
  normalizeInsertText data false = Some insert ->
  insert <> [] /\ Forall (fun code => (32 <= code)%nat) insert.
Proof.
  unfold normalizeInsertText. cbv zeta.
  set (t4 := expand_tabs _). clearbody t4.
  destruct (Z.eqb_spec (len t4) 0) as [|Hlen]; [done|].
  destruct (forallb _ t4) eqn:Hall; [|done].
  intros [= <-]. split.
  - intros ->. by apply Hlen.
  - apply Forall_forall. intros code Hin.
    rewrite forallb_forall in Hall. specialize (Hall code).
    rewrite andb_false_l, orb_false_r in Hall.
    apply negb_true_iff, Nat.ltb_ge in Hall; [exact Hall|].
    by apply list_elem_of_In.
Qed.

Section SingleLine.
Variable matchesKey : text -> string -> bool.

(** Without [multiLine], no key press and no paste puts a line break
    into a buffer that has none. *)
Theorem single_line_editor_never_holds_a_newline
    (state next : TextEditorState) (data : text) (textWidth : Z) :
  NEWLINE ∉ buffer state ->
  handleEditorInput matchesKey state data textWidth false = Next next ->
  NEWLINE ∉ buffer next.
Proof.
  intros Hno. unfold handleEditorInput. cbv zeta.
  set (wrapped := wrapText (buffer state) textWidth).
  set (cursorPos := getCursorDisplayPos (cursor state) (starts_of wrapped)).
  assert (Hto : forall c, to_cursor state c = Next next -> NEWLINE ∉ buffer next).
  { intros [c|]; simpl; [|done]. by intros [= <-]. }
  assert (Hcut : forall a b c,
            Next (with_buffer state (slice (buffer state) 0 a
                                     ++ slice_from (buffer state) b) c) = Next next ->
            NEWLINE ∉ buffer next).
  { intros a b c [= <-]. simpl. rewrite elem_of_app.
    intros [H|H]; [by apply not_in_slice in H|by apply not_in_slice_from in H]. }
  assert (Hsame : forall c, Next (with_cursor state c) = Next next -> NEWLINE ∉ buffer next).
  { by intros c [= <-]. }
  assert (Hid : Next state = Next next -> NEWLINE ∉ buffer next).
  { by intros [= <-]. }
  destruct (_ || _); [done|].
  destruct (matchesKey data "return"); [done|].
  destruct (_ || _); [destruct (wordBackward _ _); [apply Hsame|done]|].
  destruct (_ || _); [destruct (wordForward _ _); [apply Hsame|done]|].
  destruct (matchesKey data "left"); [destruct (_ <? _); [apply Hsame|apply Hid]|].
  destruct (matchesKey data "right"); [destruct (_ <? _); [apply Hsame|apply Hid]|].
  destruct (matchesKey data "up"); [destruct (_ <? _)%nat; [apply Hto|apply Hid]|].
  destruct (matchesKey data "down"); [destruct (_ <? _); [apply Hto|apply Hid]|].
  destruct (matchesKey data "home"); [apply Hto|].
  destruct (matchesKey data "end"); [apply Hto|].
  destruct (matchesKey data "ctrl+home"); [apply Hsame|].
  destruct (matchesKey data "ctrl+end"); [apply Hsame|].
  destruct (matchesKey data "alt+backspace").
  { destruct (wordBackward _ _); [|done]. destruct (_ =? _); [apply Hid|apply Hcut]. }
  destruct (matchesKey data "backspace"); [destruct (_ <? _); [apply Hcut|apply Hid]|].
  destruct (matchesKey data "delete"); [destruct (_ <? _); [apply Hcut|apply Hid]|].
  destruct (normalizeInsertText data false) as [insert|] eqn:Hins; [|done].
  intros [= <-]. simpl. rewrite !elem_of_app.
  destruct (normalizeInsertText_single_line _ _ Hins) as [_ Hall].
  intros [H|[H|H]];
    [by apply not_in_slice in H| |by apply not_in_slice_from in H].
  apply (proj1 (Forall_forall _ _) Hall) in H. unfold NEWLINE in H. lia.
Qed.

End SingleLine.

Lemma single_line_editor_never_holds_a_newline_witness :
  let state := {| buffer := [104; 105]%nat; cursor := 1; viewportOffset := 0 |} in
  let next := {| buffer := [104; 97; 105]%nat; cursor := 2; viewportOffset := 0 |} in
  handleEditorInput sample_keys state [97; 10; 98]%nat 80 false = Next next
  /\ NEWLINE ∉ buffer next.
Proof.
  split; [vm_compute; reflexivity|].
  apply (single_line_editor_never_holds_a_newline sample_keys
           {| buffer := [104; 105]%nat; cursor := 1; viewportOffset := 0 |}
           {| buffer := [104; 97; 105]%nat; cursor := 2; viewportOffset := 0 |}
           [97; 10; 98]%nat 80).
  - simpl. rewrite !elem_of_cons, elem_of_nil. unfold NEWLINE. lia.
  - vm_compute. reflexivity.
Defined.

(** *** The lines of wrapText are the text, cut *)

Lemma join_split (s : text) : join_lines (split_lines s) = s.
Proof.
  induction s as [|c r IH]; [reflexivity|].
  pose proof (split_lines_nonempty r) as Hne. simpl split_lines.
  destruct (Nat.eqb_spec c NEWLINE) as [->|Hc].
  - destruct (split_lines r) as [|f o] eqn:E; [done|].
    change (join_lines ([] :: f :: o)) with ([] ++ NEWLINE :: join_lines (f :: o)).
    by rewrite IH.
  - destruct (split_lines r) as [|f o] eqn:E; [done|].
    assert (H : join_lines ((c :: f) :: o) = c :: join_lines (f :: o)).
    { by destruct o. }
    by rewrite H, IH.
Qed.

Lemma split_lines_no_newline (s : text) :
  Forall (fun seg => NEWLINE ∉ seg) (split_lines s).
Proof.
  induction s as [|c r IH]; simpl.
  - constructor; [|constructor]. apply not_elem_of_nil.
  - destruct (Nat.eqb_spec c NEWLINE) as [->|Hc].
    + constructor; [apply not_elem_of_nil|exact IH].
    + destruct (split_lines r) as [|f o].
      * constructor; [|constructor]. rewrite list_elem_of_singleton. congruence.
      * inversion IH; subst. constructor; [|done].
        rewrite elem_of_cons. intros [?|?]; [congruence|done].
Qed.

Lemma concat_split (s : text) :
  concat (split_lines s) = filter (fun c => c <> NEWLINE) s.
Proof.
  unfold text in *.
  induction s as [|c r IH]; [reflexivity|]. simpl split_lines.
  pose proof (split_lines_nonempty r) as Hne.
  destruct (Nat.eqb_spec c NEWLINE) as [->|Hc].
  - rewrite filter_cons_False by (intros H; by apply H). by rewrite <- IH.
  - rewrite filter_cons_True by done. rewrite <- IH.
    by destruct (split_lines r).
Qed.

Lemma slice_take_drop (seg : text) (pos width : Z) :
  0 <= pos -> 0 < width ->
  slice seg pos (pos + width) = take (Z.to_nat width) (drop (Z.to_nat pos) seg).
Proof.
  intros Hp Hw. unfold slice, resolve_index.
  destruct (Z.ltb_spec pos 0); [lia|]. destruct (Z.ltb_spec (pos + width) 0); [lia|].
  unfold len.
  destruct (Z.le_gt_cases pos (Z.of_nat (length seg))) as [Hle|Hgt].
  - rewrite (Z.min_l pos) by lia.
    destruct (Z.le_gt_cases (pos + width) (Z.of_nat (length seg))).
    + rewrite Z.min_l by lia. f_equal. lia.
    + rewrite Z.min_r by lia.
      rewrite !take_ge; [done| |]; rewrite length_drop; lia.
  - rewrite !Z.min_r by lia. rewrite !drop_ge by lia. by rewrite !take_nil.
Qed.

Lemma len_slice_width (seg : text) (pos width : Z) :
  0 <= pos <= len seg -> 0 < width ->
  len (slice seg pos (pos + width)) = Z.min width (len seg - pos).
Proof.
  intros Hp Hw. rewrite slice_take_drop by lia. unfold len in *.
  rewrite length_take, length_drop. lia.
Qed.

Lemma piece_of_slice (whole l : text) (start : Z) :
  piece whole (l, start) -> l = slice whole start (start + len l).
Proof.
  intros [H0 Hl]. simpl in *. unfold slice, resolve_index.
  destruct (Z.ltb_spec start 0); [lia|].
  pose proof (len_nonneg l) as Hn.
  destruct (Z.ltb_spec (start + len l) 0); [lia|].
  assert (Hlen : (length l <= length whole - Z.to_nat start)%nat).
  { rewrite Hl at 1. rewrite length_take, length_drop. lia. }
  unfold len in *.
  destruct (Z.le_gt_cases start (Z.of_nat (length whole))) as [Hle|Hgt].
  - rewrite !Z.min_l by lia. rewrite Hl at 1. f_equal. lia.
  - rewrite (Z.min_r start) by lia.
    rewrite drop_ge by lia. rewrite take_nil.
    rewrite drop_ge in Hl by lia. by rewrite take_nil in Hl.
Qed.

Lemma piece_in_context (pre seg post : text) (pos width : Z) :
  0 <= pos <= len seg -> 0 < width ->
  piece (pre ++ seg ++ post) (slice seg pos (pos + width), len pre + pos).
Proof.
  intros Hp Hw. pose proof (len_nonneg pre). split; simpl; [lia|].
  rewrite slice_take_drop by lia. unfold len in *.
  replace (Z.to_nat (Z.of_nat (length pre) + pos))
    with (length pre + Z.to_nat pos)%nat by lia.
  rewrite drop_app_add', drop_app_le by (try reflexivity; lia).
  rewrite take_app_le by (rewrite length_take; lia).
  generalize (drop (Z.to_nat pos) seg), (Z.to_nat width). intros A w.
  rewrite length_take. destruct (Nat.le_gt_cases w (length A)).
  - by rewrite Nat.min_l.
  - rewrite Nat.min_r by lia. by rewrite !take_ge by lia.
Qed.

(** What each line of a segment is, whatever the fuel. *)
Lemma wrap_segment_pieces (fuel : nat) (pre seg post : text) (width pos : Z) :
  0 <= pos -> 0 < width ->
  Forall (fun e => len e.1 <= width /\ piece (pre ++ seg ++ post) e /\ sublist e.1 seg)
         (wrap_segment fuel seg width (len pre) pos).
Proof.
  revert pos. induction fuel as [|f IH]; intros pos Hp Hw; simpl; [constructor|].
  destruct (Z.ltb_spec pos (len seg)); [|constructor].
  constructor; [|apply IH; lia]. simpl. split; [|split].
  - rewrite len_slice_width by lia. lia.
  - apply piece_in_context; lia.
  - apply slice_sublist.
Qed.

(** The length of the segment is fuel enough. *)
Lemma wrap_segment_concat (fuel : nat) (seg : text) (width offset pos : Z) :
  0 <= pos -> 0 < width -> (length seg <= fuel + Z.to_nat pos)%nat ->
  concat (wrap_segment fuel seg width offset pos).*1 = drop (Z.to_nat pos) seg.
Proof.
  revert pos. induction fuel as [|f IH]; intros pos Hp Hw Hf; simpl.
  - by rewrite drop_ge by lia.
  - destruct (Z.ltb_spec pos (len seg)) as [Hlt|Hge]; unfold len in *;
      [|simpl; by rewrite drop_ge by lia].
    csimpl. rewrite IH by lia. rewrite slice_take_drop by lia.
    replace (Z.to_nat (pos + width)) with (Z.to_nat pos + Z.to_nat width)%nat by lia.
    rewrite <- drop_drop. apply take_drop.
Qed.

Lemma wrap_segment_linked (fuel : nat) (seg : text) (width offset pos : Z) :
  0 <= pos < len seg -> 0 < width -> (length seg <= fuel + Z.to_nat pos)%nat ->
  linked (wrap_segment fuel seg width offset pos) (offset + len seg)
  /\ exists line rest,
       wrap_segment fuel seg width offset pos = (line, offset + pos) :: rest.
Proof.
  revert pos. induction fuel as [|f IH]; intros pos Hp Hw Hf.
  { unfold len in *. lia. }
  simpl. destruct (Z.ltb_spec pos (len seg)) as [_|]; [|lia].
  split; [|by eauto]. simpl.
  destruct (Z.lt_ge_cases (pos + width) (len seg)) as [Hin|Hout].
  - destruct (IH (pos + width)) as (Hl & line & rest & Heq);
      [lia|lia|unfold len in *; lia|].
    rewrite Heq in *. split; [|exact Hl]. simpl.
    rewrite len_slice_width by lia. lia.
  - assert (Hnil : wrap_segment f seg width offset (pos + width) = []).
    { destruct f; [done|]. simpl. destruct (Z.ltb_spec (pos + width) (len seg)); [lia|done]. }
    rewrite Hnil. split; [|done]. rewrite len_slice_width by lia. lia.
Qed.

Lemma linked_app (a b : list (text * Z)) (mid hi : Z) :
  a <> [] -> linked a mid -> linked b hi ->
  match b with [] => hi | e' :: _ => e'.2 - 1 end <= mid ->
  linked (a ++ b) hi.
Proof.
  intros Ha Hla Hlb Hmid. induction a as [|e [|e2 r] IH]; [done| |].
  - destruct Hla as [H1 _]. simpl. split; [|done]. destruct b; lia.
  - destruct Hla as [H1 H2]. split; [exact H1|]. by apply IH.
Qed.

Lemma joined_len_cons (seg : text) (rest : list text) :
  joined_len (seg :: rest)
  = len seg + (match rest with [] => 0 | _ => 1 end) + joined_len rest.
Proof. destruct rest; simpl; lia. Qed.

Lemma join_lines_cons (seg : text) (rest : list text) :
  join_lines (seg :: rest)
  = seg ++ (match rest with [] => [] | _ => [NEWLINE] end) ++ join_lines rest.
Proof. destruct rest; simpl; [by rewrite app_nil_r|done]. Qed.

Lemma wrap_segments_head (segments : list text) (width offset : Z) :
  0 < width -> segments <> [] ->
  exists line rest, wrap_segments segments width offset = (line, offset) :: rest.
Proof.
  intros Hw Hne. destruct segments as [|seg rest]; [done|]. simpl.
  destruct (Z.eqb_spec (len seg) 0) as [H0|H0]; [by eauto|].
  pose proof (len_nonneg seg).
  destruct (wrap_segment_linked (length seg) seg width offset 0)
    as (_ & line & r & ->); [lia|lia|lia|].
  rewrite Z.add_0_r. by eauto.
Qed.

Lemma wrap_segments_linked (segments : list text) (width offset : Z) :
  0 < width ->
  linked (wrap_segments segments width offset) (offset + joined_len segments).
Proof.
  intros Hw. revert offset.
  induction segments as [|seg rest IH]; intros offset; [done|].
  rewrite joined_len_cons. simpl wrap_segments.
  pose proof (len_nonneg seg) as Hs.
  set (offset' := offset + len seg + match rest with [] => 0 | _ => 1 end).
  assert (Hrest : linked (wrap_segments rest width offset') (offset' + joined_len rest))
    by apply IH.
  replace (offset + (len seg + match rest with [] => 0 | _ => 1 end + joined_len rest))
    with (offset' + joined_len rest) by (unfold offset'; lia).
  assert (Hhead : match wrap_segments rest width offset' with
                  | [] => offset' + joined_len rest
                  | e' :: _ => e'.2 - 1
                  end <= offset + len seg).
  { destruct rest as [|s2 r2]; [simpl; unfold offset'; lia|].
    destruct (wrap_segments_head (s2 :: r2) width offset' Hw) as (l & r & ->); [done|].
    simpl. unfold offset'. lia. }
  destruct (Z.eqb_spec (len seg) 0) as [H0|H0].
  - apply (linked_app _ _ (offset + len seg)); [done| |done|done].
    simpl. split; [|done]. change (len []) with 0. lia.
  - destruct (wrap_segment_linked (length seg) seg width offset 0)
      as (Hl & line & r & Heq); [lia|lia|lia|].
    apply (linked_app _ _ (offset + len seg)); [by rewrite Heq|done|done|done].
Qed.

Lemma wrap_segments_pieces (segments : list text) (width : Z) (pre post : text) :
  0 < width -> Forall (fun seg => NEWLINE ∉ seg) segments ->
  Forall (fun e => len e.1 <= width /\ piece (pre ++ join_lines segments ++ post) e
                   /\ NEWLINE ∉ e.1)
         (wrap_segments segments width (len pre)).
Proof.
  intros Hw. revert pre.
  induction segments as [|seg rest IH]; intros pre Hno; [constructor|].
  inversion Hno as [|? ? Hseg Hrest]; subst.
  rewrite join_lines_cons. simpl wrap_segments. apply Forall_app. split.
  - destruct (Z.eqb_spec (len seg) 0) as [H0|H0].
    + constructor; [|constructor]. simpl. change (len []) with 0.
      split; [lia|]. split; [|apply not_elem_of_nil].
      split; simpl; [apply len_nonneg|done].
    + rewrite <- !(assoc_L (++)).
      eapply Forall_impl; [apply wrap_segment_pieces; lia|].
      intros e (H1 & H2 & H3). split; [done|]. split; [exact H2|].
      intros Hin. apply Hseg. by eapply elem_of_sublist.
  - destruct rest as [|s2 r2]; [constructor|].
    specialize (IH (pre ++ seg ++ [NEWLINE]) Hrest).
    rewrite !len_app in IH. change (len [NEWLINE]) with 1 in IH.
    rewrite Z.add_assoc in IH. rewrite <- !(assoc_L (++)) in IH.
    rewrite <- !(assoc_L (++)). exact IH.
Qed.

Lemma wrap_segments_concat (segments : list text) (width offset : Z) :
  0 < width ->
  concat (wrap_segments segments width offset).*1 = concat segments.
Proof.
  intros Hw. revert offset.
  induction segments as [|seg rest IH]; intros offset; [done|].
  simpl wrap_segments. rewrite fmap_app, concat_app, IH. simpl. f_equal.
  destruct (Z.eqb_spec (len seg) 0) as [H0|H0].
  - destruct seg; [done|]. unfold len in H0. simpl in H0. lia.
  - rewrite wrap_segment_concat by lia. done.
Qed.

(** The lines of [wrapText] for a positive width: none is wider than
    the width or holds a line break, each is the part of the text at
    its start, and together they are the text without its line
    breaks. *)
Theorem wrapText_lines_are_the_text (s : text) (width : Z) :
  0 < width ->
  Forall (fun e => len e.1 <= width /\ 0 <= e.2
                   /\ e.1 = slice s e.2 (e.2 + len e.1)
                   /\ NEWLINE ∉ e.1)
         (wrapText s width)
  /\ concat (lines_of (wrapText s width)) = filter (fun c => c <> NEWLINE) s.
Proof.
  intros Hw. unfold wrapText, lines_of.
  destruct (Z.leb_spec width 0); [lia|].
  destruct (Z.eqb_spec (len s) 0) as [H0|H0].
  { destruct s; [|unfold len in H0; simpl in H0; lia]. split; [|done].
    constructor; [|constructor]. simpl. change (len []) with 0.
    repeat split; try lia. apply not_elem_of_nil. }
  assert (Hp : Forall (fun e => len e.1 <= width /\ 0 <= e.2
                                /\ e.1 = slice s e.2 (e.2 + len e.1)
                                /\ NEWLINE ∉ e.1)
                      (wrap_segments (split_lines s) width 0)).
  { pose proof (wrap_segments_pieces (split_lines s) width [] []
                  Hw (split_lines_no_newline s)) as H1.
    rewrite join_split, app_nil_r in H1. simpl in H1.
    eapply Forall_impl; [exact H1|].
    intros [l start] (A & B & C). simpl in *.
    split; [done|]. split; [apply B|]. split; [|done]. by apply piece_of_slice. }
  assert (Hc : concat (wrap_segments (split_lines s) width 0).*1
               = filter (fun c => c <> NEWLINE) s).
  { by rewrite wrap_segments_concat, concat_split. }
  destruct (_ && _); [|by split].
  split.
  - apply Forall_app. split; [exact Hp|]. constructor; [|constructor]. simpl.
    change (len []) with 0. pose proof (len_nonneg s).
    repeat split; try lia; [|apply not_elem_of_nil].
    apply (piece_of_slice s [] (len s)). by split.
  - rewrite fmap_app, concat_app, Hc. simpl. by rewrite app_nil_r.
Qed.

Lemma wrapText_lines_are_the_text_witness :
  let s := [104; 105; 10; 116; 104; 101; 114; 101]%nat in
  Forall (fun e => len e.1 <= 3 /\ 0 <= e.2
                   /\ e.1 = slice s e.2 (e.2 + len e.1)
                   /\ NEWLINE ∉ e.1)
         (wrapText s 3)
  /\ concat (lines_of (wrapText s 3)) = filter (fun c => c <> NEWLINE) s.
Proof. apply wrapText_lines_are_the_text. lia. Defined.

(** *** The cursor on the screen *)

Lemma wrapText_linked (s : text) (width : Z) :
  linked (wrapText s width) (len s)
  /\ exists line rest, wrapText s width = (line, 0) :: rest.
Proof.
  unfold wrapText. destruct (Z.leb_spec width 0) as [|Hw].
  { split; [|by eauto]. simpl. split; [lia|done]. }
  destruct (Z.eqb_spec (len s) 0) as [H0|H0].
  { split; [|by eauto]. simpl. change (len []) with 0. split; [lia|done]. }
  pose proof (wrap_segments_linked (split_lines s) width 0 Hw) as Hl.
  rewrite split_lines_len, Z.add_0_l in Hl.
  destruct (wrap_segments_head (split_lines s) width 0 Hw (split_lines_nonempty s))
    as (line & rest & Heq).
  destruct (_ && _).
  - split; [|rewrite Heq; by eauto].
    apply (linked_app _ _ (len s)); [by rewrite Heq|exact Hl| |simpl; lia].
    simpl. change (len []) with 0. split; [lia|done].
  - split; [exact Hl|by eauto].
Qed.

Lemma linked_lookup (l : list (text * Z)) (hi : Z) (i : nat) (e : text * Z) :
  linked l hi -> l !! i = Some e ->
  match l !! S i with Some e' => e'.2 - 1 | None => hi end <= e.2 + len e.1.
Proof.
  revert i. induction l as [|e0 r IH]; intros i Hl Hi; [done|].
  destruct Hl as [H1 H2]. destruct i as [|i].
  - simpl in Hi. injection Hi as <-. simpl. by destruct r.
  - simpl in Hi. simpl. by apply IH.
Qed.

(** [getCursorDisplayPos] answers the last line that starts at or
    before the cursor. *)
Lemma display_pos_from_last (cur : Z) (starts : list Z) (n : nat) :
  let pos := display_pos_from cur starts n in
  (exists start, starts !! pos.1 = Some start /\ start <= cur /\ pos.2 = cur - start
                 /\ forall j later, (pos.1 < j < n)%nat -> starts !! j = Some later ->
                                    cur < later)
  \/ (forall j later, (j < n)%nat -> starts !! j = Some later -> cur < later).
Proof.
  induction n as [|i IH]; simpl; [right; intros; lia|].
  destruct (starts !! i) as [start|] eqn:Hs.
  - destruct (Z.leb_spec start cur).
    + left. exists start. simpl. repeat split; [done|lia|]. intros; lia.
    + destruct IH as [(st & H1 & H2 & H3 & H4)|H0]; [left|right].
      * exists st. repeat split; try done. intros j later Hj Hl.
        destruct (decide (j = i)) as [->|]; [congruence|]. apply (H4 j); [lia|done].
      * intros j later Hj Hl.
        destruct (decide (j = i)) as [->|]; [congruence|]. apply (H0 j); [lia|done].
  - destruct IH as [(st & H1 & H2 & H3 & H4)|H0]; [left|right].
    + exists st. repeat split; try done. intros j later Hj Hl.
      destruct (decide (j = i)) as [->|]; [congruence|]. apply (H4 j); [lia|done].
    + intros j later Hj Hl.
      destruct (decide (j = i)) as [->|]; [congruence|]. apply (H0 j); [lia|done].
Qed.

(** For a cursor in the buffer, [getCursorDisplayPos] names a line of
    [wrapText] and a column on it (at most one past its end), and the
    start of that line plus the column is the cursor again. *)
Theorem cursor_is_shown_on_its_line (buf : text) (width cur : Z) :
  0 <= cur <= len buf ->
  let wrapped := wrapText buf width in
  let pos := getCursorDisplayPos cur (starts_of wrapped) in
  exists line start,
    wrapped !! pos.1 = Some (line, start)
    /\ start + pos.2 = cur
    /\ 0 <= pos.2 <= len line.
Proof.
  intros Hc wrapped pos.
  destruct (wrapText_linked buf width) as (Hl & line0 & rest & Heq).
  fold wrapped in Hl, Heq.
  destruct (display_pos_from_last cur (starts_of wrapped) (length (starts_of wrapped)))
    as [(start & H1 & H2 & H3 & H4)|Hnone].
  - fold (getCursorDisplayPos cur (starts_of wrapped)) in H1, H3, H4.
    fold pos in H1, H3, H4.
    unfold starts_of in H1, H4. rewrite list_lookup_fmap in H1.
    destruct (wrapped !! pos.1) as [[line st]|] eqn:Hw; [|done].
    simpl in H1. injection H1 as ->.
    exists line, start. split; [done|]. split; [lia|]. split; [lia|].
    pose proof (linked_lookup _ _ _ _ Hl Hw) as Hnext. simpl in Hnext.
    destruct (wrapped !! S pos.1) as [[line' start']|] eqn:Hw'.
    + simpl in Hnext.
      assert (cur < start').
      { apply (H4 (S pos.1) start').
        - split; [lia|]. rewrite length_fmap. by apply lookup_lt_Some in Hw'.
        - by rewrite list_lookup_fmap, Hw'. }
      lia.
    + lia.
  - exfalso. specialize (Hnone 0%nat 0). rewrite Heq in Hnone. simpl in Hnone.
    assert (cur < 0); [apply Hnone; [lia|done]|lia].
Qed.

Lemma cursor_is_shown_on_its_line_witness :
  let buf := [104; 105; 10; 116; 104; 101; 114; 101]%nat in
  let wrapped := wrapText buf 3 in
  let pos := getCursorDisplayPos 6 (starts_of wrapped) in
  exists line start,
    wrapped !! pos.1 = Some (line, start)
    /\ start + pos.2 = 6
    /\ 0 <= pos.2 <= len line.
Proof.
  apply (cursor_is_shown_on_its_line [104; 105; 10; 116; 104; 101; 114; 101]%nat 3 6).
  vm_compute. split; discriminate.
Defined.

End TextEditorFacts.
